(** * muxterm: layout tree, tmux layout / control-line parsers and the
    tmux controller's capture queue and pane bootstrap.

    A shallow embedding of
      - [lib/layout.ts] (in [src/unnamed/part_001]): [splitLayoutAtPane],
        [removePaneRec], [removePaneFromLayout], [collectPaneIds];
      - [src/lib/tmux.ts]: [stripChecksum], [class LayoutParser], [mapNode],
        [parseTmuxLayout], [decodeTmuxEscapedText], [parseTmuxControlLine],
        [parseBootstrapWindowLine];
      - the [App] component (in [src/unnamed/part_003]): [clampRatio],
        [updateSplitRatioAtPath], [preserveSplitRatios], [writeToPane],
        [runNextTmuxCapture], [captureTmuxPaneInBand],
        [flushTmuxBootstrapPane], [hydrateTmuxPaneHistory], [mapPane] and
        [handleTmuxControlLine];
      - further, in the continuation of Part I: [splitLines] and
        [makeSendKeysHexCommand] of [src/lib/tmux.ts]; [toSafeLocalEcho],
        [parseSocketPathLine], [parseBootstrapPaneLine],
        [measureLayoutGridSize], [registerWriter] and
        [cleanupPaneArtifacts] of the [App] component; [normalizeOutput]
        of the pipe backend of the main process (in
        [src/unnamed/part_000]).

    Conventions.
      - A JavaScript string is the list of its UTF-16 code units ([list N]).
      - A JavaScript number of the layout parser (a size read by
        [Number.parseInt], a sum of sizes, a ratio) is an IEEE-754 binary64
        value, modelled by [spec_float] with precision 53 and [emax] 1024:
        [Number.parseInt] gives the double nearest to the number that the
        digits denote, sums and quotients round, and a template literal
        prints a number as [Number::toString] does.
      - Mutable maps ([Map], [Record]) are [gmap]s, [Set]s are [gset]s;
        an object that is mutated in place is stored back into its map.
      - The component is single-threaded: a handler runs to its end before
        the next event is taken, so a handler is a function on states and
        an interleaving is a list of events. *)

From Stdlib Require Import ZArith NArith List Ascii String Lia.
From Stdlib Require Import Floats.SpecFloat.
From Stdlib Require Import DecimalString DecimalPos DecimalN.
From stdpp Require Import gmap strings list.

Local Open Scope N_scope.

(* ===================================================================== *)
(** * Part I: definitions                                                 *)
(* ===================================================================== *)

(** ** JavaScript strings *)

Abbreviation jsstring := (list N).

(** The code units of an ASCII literal. *)
Definition js (s : string) : jsstring :=
  map N_of_ascii (list_ascii_of_string s).

Arguments js : simpl never.

Definition ch (a : ascii) : N := N_of_ascii a.

Arguments ch : simpl never.

Definition BACKSLASH : N := 92.
Definition LF : N := 10.
Definition CR : N := 13.
Definition TAB : N := 9.
Definition COLON : N := 58.

(** [s.startsWith(p)] *)
Fixpoint startsWith (p s : jsstring) : bool :=
  match p, s with
  | [], _ => true
  | _ :: _, [] => false
  | a :: p', b :: s' => if decide (a = b) then startsWith p' s' else false
  end.

(** [s.endsWith(p)] *)
Definition endsWith (p s : jsstring) : bool :=
  startsWith (rev p) (rev s).

(** [s.includes(sub)] *)
Fixpoint includes (sub s : jsstring) : bool :=
  startsWith sub s
  || match s with
     | [] => false
     | _ :: s' => includes sub s'
     end.

(** [s.indexOf(c)] for a one-character needle; [None] stands for [-1]. *)
Fixpoint indexOf (c : N) (s : jsstring) : option nat :=
  match s with
  | [] => None
  | a :: s' => if decide (a = c) then Some 0%nat else S <$> indexOf c s'
  end.

(** [parts.join(sep)] *)
Fixpoint join (sep : jsstring) (parts : list jsstring) : jsstring :=
  match parts with
  | [] => []
  | [p] => p
  | p :: rest => p ++ sep ++ join sep rest
  end.

(** [s.split(sep)] for a non-empty separator (the only use in the sources).
    The scan goes left to right; at every position where the separator
    starts, the current part is closed and the scan resumes after the
    separator.  [skip] counts the separator's code units still to be
    stepped over. *)
Fixpoint split_go (sep : jsstring) (skip : nat) (cur : jsstring) (s : jsstring)
  : list jsstring :=
  match s with
  | [] => [cur]
  | c :: s' =>
      match skip with
      | S k => split_go sep k cur s'
      | O =>
          if startsWith sep s
          then cur :: split_go sep (pred (length sep)) [] s'
          else split_go sep 0 (cur ++ [c]) s'
      end
  end.

Definition split (sep : jsstring) (s : jsstring) : list jsstring :=
  split_go sep 0 [] s.

(** The white space of [\s] and of [String.prototype.trim]:
    TAB, LF, VT, FF, CR, SP, NBSP, U+1680, U+2000..U+200A, LS, PS,
    U+202F, U+205F, U+3000, BOM. *)
Definition is_space (c : N) : bool :=
  (9 <=? c) && (c <=? 13) || (c =? 32) || (c =? 160) || (c =? 5760)
  || (8192 <=? c) && (c <=? 8202) || (c =? 8232) || (c =? 8233)
  || (c =? 8239) || (c =? 8287) || (c =? 12288) || (c =? 65279).

(** The line terminators, which [.] does not match: LF, CR, LS, PS. *)
Definition is_line_terminator (c : N) : bool :=
  (c =? 10) || (c =? 13) || (c =? 8232) || (c =? 8233).

(** [\d] and [[0-9]] *)
Definition is_digit (c : N) : bool := (48 <=? c) && (c <=? 57).

(** [[0-7]] *)
Definition is_octal (c : N) : bool := (48 <=? c) && (c <=? 55).

Fixpoint dropWhile {A} (p : A → bool) (l : list A) : list A :=
  match l with
  | [] => []
  | a :: l' => if p a then dropWhile p l' else l
  end.

Fixpoint takeWhile {A} (p : A → bool) (l : list A) : list A :=
  match l with
  | [] => []
  | a :: l' => if p a then a :: takeWhile p l' else []
  end.

(** [s.trim()] *)
Definition trim (s : jsstring) : jsstring :=
  rev (dropWhile is_space (rev (dropWhile is_space s))).

(** The whole number that a run of digits of a radix denotes.
    [Number.parseInt(digits, radix)] is the double nearest to it
    ([Number_parseInt] below): the number itself when it is below 2^53,
    as it is for the three octal digits of an escape. *)
Definition parseInt (radix : N) (digits : jsstring) : N :=
  fold_left (λ acc d, radix * acc + (d - 48)) digits 0.

(** The decimal numeral of a whole number: the digits that tmux writes
    for a number of a layout, and the digits of [s] in
    [Number::toString] below. *)
Definition decimalNumeral (n : N) : jsstring :=
  js (NilEmpty.string_of_uint (N.to_uint n)).

(** ** JavaScript numbers: binary64 *)

Abbreviation number := spec_float.

(** The double nearest to a whole number. *)
Definition f64_of_N (n : N) : number :=
  binary_normalize 53 1024 (Z.of_N n) 0 false.

(** [a / b] *)
Definition f64_div : number → number → number := SFdiv 53 1024.

(** [a + b] *)
Definition f64_add : number → number → number := SFadd 53 1024.

(** [Number.parseInt(digits, 10)] on a run of decimal digits: the double
    nearest to the number that the digits denote, the one with the even
    mantissa when two are as near, and [Infinity] when the number is
    beyond the doubles.  (ECMAScript allows an engine to read the digits
    after the 20th as zeros; V8, the engine of Electron, rounds the number
    of all the digits.) *)
Definition Number_parseInt (digits : jsstring) : number :=
  f64_of_N (parseInt 10 digits).

(** The literals [0.1], [0.5] and [0.9]: the doubles nearest to 1/10, 1/2
    and 9/10. *)
Definition f0_1 : number := Eval vm_compute in f64_div (f64_of_N 1) (f64_of_N 10).
Definition f0_5 : number := Eval vm_compute in f64_div (f64_of_N 1) (f64_of_N 2).
Definition f0_9 : number := Eval vm_compute in f64_div (f64_of_N 9) (f64_of_N 10).
Definition f0_3 : number := Eval vm_compute in f64_div (f64_of_N 3) (f64_of_N 10).
Definition f0_7 : number := Eval vm_compute in f64_div (f64_of_N 7) (f64_of_N 10).

Definition NaN : number := S754_nan.
Definition pos_infinity : number := S754_infinity false.
Definition neg_infinity : number := S754_infinity true.

(** [Number.isNaN] *)
Definition isNaN (x : number) : bool :=
  match x with S754_nan => true | _ => false end.

(** [Number.isFinite] *)
Definition isFinite (x : number) : bool :=
  match x with
  | S754_zero _ | S754_finite _ _ _ => true
  | _ => false
  end.

(** [Math.max(a, b)]: NaN if either argument is NaN; [+0] is larger than
    [-0]. *)
Definition Math_max (a b : number) : number :=
  match SFcompare a b with
  | None => NaN
  | Some Lt => b
  | Some Gt => a
  | Some Eq =>
      match a, b with
      | S754_zero sa, S754_zero sb => S754_zero (sa && sb)
      | _, _ => a
      end
  end.

(** [Math.min(a, b)]: NaN if either argument is NaN; [-0] is smaller than
    [+0]. *)
Definition Math_min (a b : number) : number :=
  match SFcompare a b with
  | None => NaN
  | Some Lt => a
  | Some Gt => b
  | Some Eq =>
      match a, b with
      | S754_zero sa, S754_zero sb => S754_zero (sa || sb)
      | _, _ => a
      end
  end.

(** [a <= b] on numbers (false when either is NaN). *)
Definition f64_le (a b : number) : bool := SFleb a b.

(** The closed interval [[0.1, 0.9]]. *)
Definition in_ratio_range (r : number) : bool :=
  f64_le f0_1 r && f64_le r f0_9.

(** ** [Number::toString]: how a template literal prints a number

    A finite number is printed with the digits of the whole number [s]
    and the decimal exponent [t] for which [s * 10^t] reads back as the
    number and [s] has the fewest digits; of several such [s] the one
    nearest to the number is taken. *)

Section ShortestDecimal.

Local Open Scope Z_scope.

(** The double [m * 2^e]. *)
Variables (m : positive) (e : Z).

(** The numbers that round to the double lie between [lo4] and [hi4]
    quarters of [2^e]: half a step of the mantissa above it, and half a
    step below it, where the step below is half as wide when [m] is the
    least mantissa of its exponent.  The two ends round to the double
    when [m] is even. *)
Definition lo4 : Z :=
  if (Zpos m =? 2 ^ 52) && (-1074 <? e) then 4 * Zpos m - 1 else 4 * Zpos m - 2.

Definition hi4 : Z := 4 * Zpos m + 2.

(** To compare [s * 10^t] with [q * 2^(e-2)], both are multiplied by the
    powers of 10 and of 2 that make them whole. *)
Definition scale_decimal (t : Z) : Z := 10 ^ Z.max t 0 * 2 ^ Z.max (2 - e) 0.

Definition scale_binary (t : Z) : Z := 10 ^ Z.max (- t) 0 * 2 ^ Z.max (e - 2) 0.

(** [s * 10^t], with [s] at least 1, rounds to the double. *)
Definition rounds_to (s t : Z) : bool :=
  let c := s * scale_decimal t in
  let l := lo4 * scale_binary t in
  let h := hi4 * scale_binary t in
  (1 <=? s)
  && (if Z.even (Zpos m) then (l <=? c) && (c <=? h) else (l <? c) && (c <? h)).

(** The multiple [s * 10^t] of [10^t] that rounds to the double and is
    nearest to it, if there is one: it is one of the two multiples around
    the double. *)
Definition nearest_multiple (t : Z) : option Z :=
  let x := 4 * Zpos m * scale_binary t in
  let below := x / scale_decimal t in
  let r := x mod scale_decimal t in
  match rounds_to below t, rounds_to (below + 1) t with
  | true, true =>
      Some (if 2 * r <? scale_decimal t then below
            else if scale_decimal t <? 2 * r then below + 1
            else if Z.even below then below else below + 1)
  | true, false => Some below
  | false, true => Some (below + 1)
  | false, false => None
  end.

(** The double itself as a decimal. *)
Definition exact_decimal : Z * Z :=
  if 0 <=? e then (Zpos m * 2 ^ e, 0) else (Zpos m * 5 ^ (- e), e).

(** The largest exponent from [t] downwards for which a multiple of
    [10^t] rounds to the double; its [s] has the fewest digits. *)
Fixpoint shortest_from (fuel : nat) (t : Z) : Z * Z :=
  match nearest_multiple t with
  | Some s => (s, t)
  | None =>
      match fuel with
      | O => exact_decimal
      | S fuel' => shortest_from fuel' (t - 1)
      end
  end.

(** The search starts at an exponent [top] with [10^top] above the
    double, and ends at the latest at the exponent of [exact_decimal]. *)
Definition shortest_decimal : Z * Z :=
  let top := Z.max 0 (Z.log2 (Zpos m) + 1 + e) in
  shortest_from (Z.to_nat (top - Z.min e 0)) top.

End ShortestDecimal.

(** The text for the digits of [s] and the exponent [t]: with [k] digits
    and [n = k + t], plain digits when [-5 <= n <= 21] (with zeros after
    them, a point inside them, or ["0."] and zeros in front), else the
    first digit, the others after a point, and the exponent [n - 1]. *)
Definition Number_format (s t : Z) : jsstring :=
  let digits := decimalNumeral (Z.to_N s) in
  let k := Z.of_nat (length digits) in
  let n := (k + t)%Z in
  let zeros (j : Z) := replicate (Z.to_nat j) (ch "0") in
  if ((-5 <=? n) && (n <=? 21))%Z then
    if (k <=? n)%Z then digits ++ zeros (n - k)%Z
    else if (0 <? n)%Z then
      take (Z.to_nat n) digits ++ ch "." :: drop (Z.to_nat n) digits
    else ch "0" :: ch "." :: zeros (- n)%Z ++ digits
  else
    let exponent :=
      ch "e" :: (if (n <? 0)%Z then ch "-" else ch "+")
      :: decimalNumeral (Z.to_N (Z.abs (n - 1))) in
    match digits with
    | [] => []
    | [d] => d :: exponent
    | d :: ds => d :: ch "." :: ds ++ exponent
    end.

(** [String(x)], and [x] in a template literal. *)
Definition Number_toString (x : number) : jsstring :=
  match x with
  | S754_nan => js "NaN"
  | S754_zero _ => js "0"
  | S754_infinity s => (if s then js "-" else []) ++ js "Infinity"
  | S754_finite s m e =>
      let '(s10, t) := shortest_decimal m e in
      (if s then js "-" else []) ++ Number_format s10 t
  end.

(** ** The layout tree ([src/types.ts]) *)

Inductive SplitDirection := horizontal | vertical.

Inductive LayoutNode :=
| Pane (paneId : jsstring)
| Split (direction : SplitDirection) (ratio : number)
        (first second : LayoutNode).

#[global] Instance SplitDirection_eq_dec : EqDecision SplitDirection.
Proof. solve_decision. Defined.

(** ** [src/lib/layout.ts] *)

Definition singlePaneLayout (paneId : jsstring) : LayoutNode := Pane paneId.

Fixpoint splitLayoutAtPane (layout : LayoutNode) (targetPaneId : jsstring)
    (direction : SplitDirection) (newPaneId : jsstring) : LayoutNode :=
  match layout with
  | Pane paneId =>
      if decide (paneId ≠ targetPaneId) then layout
      else Split direction f0_5 layout (singlePaneLayout newPaneId)
  | Split d r first second =>
      Split d r
        (splitLayoutAtPane first targetPaneId direction newPaneId)
        (splitLayoutAtPane second targetPaneId direction newPaneId)
  end.

Record RemoveResult := { node : option LayoutNode; removed : bool }.

Fixpoint removePaneRec (layout : LayoutNode) (paneId : jsstring) : RemoveResult :=
  match layout with
  | Pane q =>
      if decide (q = paneId) then {| node := None; removed := true |}
      else {| node := Some layout; removed := false |}
  | Split d r first second =>
      let left := removePaneRec first paneId in
      let right := removePaneRec second paneId in
      if negb (removed left) && negb (removed right)
      then {| node := Some layout; removed := false |}
      else
        match node left, node right with
        | None, Some rn => {| node := Some rn; removed := true |}
        | Some ln, None => {| node := Some ln; removed := true |}
        | None, None => {| node := None; removed := true |}
        | Some ln, Some rn =>
            {| node := Some (Split d r ln rn); removed := true |}
        end
  end.

Definition removePaneFromLayout (layout : LayoutNode) (paneId : jsstring)
  : option LayoutNode :=
  node (removePaneRec layout paneId).

Fixpoint collectPaneIds (layout : LayoutNode) : list jsstring :=
  match layout with
  | Pane paneId => [paneId]
  | Split _ _ first second => collectPaneIds first ++ collectPaneIds second
  end.

(** The removal as the specification words it: the leaf vanishes, a split
    with one surviving child collapses to it, a split with none vanishes. *)
Fixpoint remove_pane_spec (layout : LayoutNode) (p : jsstring)
  : option LayoutNode :=
  match layout with
  | Pane q => if decide (q = p) then None else Some (Pane q)
  | Split d r a b =>
      match remove_pane_spec a p, remove_pane_spec b p with
      | None, None => None
      | Some a', None => Some a'
      | None, Some b' => Some b'
      | Some a', Some b' => Some (Split d r a' b')
      end
  end.

(** The leaves of an optional tree. *)
Definition leaves (o : option LayoutNode) : list jsstring :=
  match o with
  | Some L => collectPaneIds L
  | None => []
  end.

(** The roots of two trees have different shapes: one is a leaf where the
    other is a split, or both are splits of different directions. *)
Definition root_shapes_differ (prev next : LayoutNode) : Prop :=
  match prev, next with
  | Pane _, Split _ _ _ _ | Split _ _ _ _, Pane _ => True
  | Split pd _ _ _, Split nd _ _ _ => pd ≠ nd
  | Pane _, Pane _ => False
  end.

(** ** Ratios ([src/App.tsx]) *)

Definition clampRatio (next : number) : number :=
  if isNaN next then f0_5
  else Math_max f0_1 (Math_min f0_9 next).

(** [path] is a string over ['L'] and ['R']. *)
Fixpoint updateSplitRatioAtPath (layout : LayoutNode) (path : jsstring)
    (ratio : number) : LayoutNode :=
  match path with
  | [] =>
      match layout with
      | Split d _ a b => Split d (clampRatio ratio) a b
      | Pane _ => layout
      end
  | head :: nextPath =>
      match layout with
      | Pane _ => layout
      | Split d r a b =>
          if decide (head = ch "L")
          then Split d r (updateSplitRatioAtPath a nextPath ratio) b
          else if decide (head = ch "R")
          then Split d r a (updateSplitRatioAtPath b nextPath ratio)
          else layout
      end
  end.

Fixpoint preserveSplitRatios (previous next : LayoutNode) : LayoutNode :=
  match previous, next with
  | Split pd pr pa pb, Split nd nr na nb =>
      if decide (pd ≠ nd) then next
      else Split nd (clampRatio pr)
             (preserveSplitRatios pa na) (preserveSplitRatios pb nb)
  | _, _ => next
  end.

(** Every split ratio of a tree satisfies [P]. *)
Fixpoint all_ratios (P : number → Prop) (l : LayoutNode) : Prop :=
  match l with
  | Pane _ => True
  | Split _ r a b => P r ∧ all_ratios P a ∧ all_ratios P b
  end.

(** ** [src/lib/tmux.ts] *)

Module Tmux.

Inductive TmuxLayoutNode :=
| TPane (tmuxPaneId : jsstring)
| TSplit (direction : SplitDirection) (ratio : number)
         (first second : TmuxLayoutNode).

Record InternalLayoutNode := {
  width : number;
  height : number;
  node : TmuxLayoutNode
}.

Inductive ParsedTmuxEvent :=
| EvOutput (paneId : jsstring) (data : jsstring)
| EvWindowAdd (windowId : jsstring)
| EvWindowClose (windowId : jsstring)
| EvWindowRenamed (windowId : jsstring) (name : jsstring)
| EvLayoutChange (windowId : jsstring) (layout : jsstring)
| EvWindowPaneChanged (windowId : jsstring) (paneId : jsstring)
| EvSessionChanged (sessionName : jsstring)
| EvBegin
| EvEnd
| EvError (message : jsstring)
| EvOther (line : jsstring).

Definition stripChecksum (layout : jsstring) : jsstring :=
  let firstComma := indexOf (ch ",") layout in
  let firstX := indexOf (ch "x") layout in
  match firstComma, firstX with
  | Some c, Some x => if (c <? x)%nat then drop (c + 1) layout else layout
  | _, _ => layout
  end.

(** *** [class LayoutParser] *)

(** What a method of the parser throws. *)
Inductive ParseError :=
| ExpectedChar (c : N) (idx : nat)
| ExpectedNumber (idx : nat)
| EmptyChildren.

(** The outcome of a method: a value and the new [idx], or an exception.
    [OutOfFuel] is the model's own outcome for a recursion cut short. *)
Inductive Outcome (A : Type) :=
| Ok (a : A) (idx : nat)
| Throw (e : ParseError)
| OutOfFuel.
Arguments Ok {A} a idx.
Arguments Throw {A} e.
Arguments OutOfFuel {A}.

Definition bind {A B} (m : Outcome A) (k : A → nat → Outcome B) : Outcome B :=
  match m with
  | Ok a idx => k a idx
  | Throw e => Throw e
  | OutOfFuel => OutOfFuel
  end.

(** An outcome that is not [OutOfFuel] and whose new [idx], if it has one,
    lies between [lo] and [hi]. *)
Definition within {A} (lo hi : nat) (m : Outcome A) : Prop :=
  match m with
  | Ok _ idx => (lo ≤ idx ≤ hi)%nat
  | Throw _ => True
  | OutOfFuel => False
  end.

Definition foldStep (direction : SplitDirection)
    (current next : InternalLayoutNode) : InternalLayoutNode :=
  let currentSpan :=
    if decide (direction = horizontal) then width current else height current in
  let nextSpan :=
    if decide (direction = horizontal) then width next else height next in
  let total := Math_max (f64_of_N 1) (f64_add currentSpan nextSpan) in
  {| width :=
       if decide (direction = horizontal)
       then f64_add (width current) (width next)
       else width current;
     height :=
       if decide (direction = vertical)
       then f64_add (height current) (height next)
       else height current;
     node :=
       TSplit direction (f64_div currentSpan total)
              (node current) (node next) |}.

Definition foldChildren (children : list InternalLayoutNode)
    (direction : SplitDirection) : ParseError + TmuxLayoutNode :=
  match children with
  | [] => inl EmptyChildren
  | c0 :: rest => inr (node (fold_left (foldStep direction) rest c0))
  end.

(** The extent of a cell along a direction: the width in a horizontal
    row, the height in a vertical stack. *)
Definition span (direction : SplitDirection) (n : InternalLayoutNode) : number :=
  if decide (direction = horizontal) then width n else height n.

Section LayoutParser.

Variable input : jsstring.

(** [None] stands for the empty string that [peek] returns at the end. *)
Definition peek (idx : nat) : option N := input !! idx.

Definition consume (c : N) (idx : nat) : Outcome unit :=
  if decide (input !! idx = Some c) then Ok tt (S idx)
  else Throw (ExpectedChar c idx).

Definition readNumber (idx : nat) : Outcome number :=
  let out := takeWhile is_digit (drop idx input) in
  if decide (length out = 0%nat) then Throw (ExpectedNumber idx)
  else Ok (Number_parseInt out) (idx + length out).

Definition lift_fold (r : ParseError + TmuxLayoutNode)
    (w h : number) (idx : nat) : Outcome InternalLayoutNode :=
  match r with
  | inl e => Throw e
  | inr n => Ok {| width := w; height := h; node := n |} idx
  end.

(** [parseCell], and the [while (this.peek() !== close)] loop that
    collects the children of a bracketed cell. *)
Fixpoint parseCell (fuel : nat) (idx : nat) : Outcome InternalLayoutNode :=
  match fuel with
  | O => OutOfFuel
  | S fuel' =>
      bind (readNumber idx) (λ width idx,
      bind (consume (ch "x") idx) (λ _ idx,
      bind (readNumber idx) (λ height idx,
      bind (consume (ch ",") idx) (λ _ idx,
      bind (readNumber idx) (λ _ idx,
      bind (consume (ch ",") idx) (λ _ idx,
      bind (readNumber idx) (λ _ idx,
      let next := peek idx in
      if decide (next = Some (ch "[")) then
        bind (consume (ch "[") idx) (λ _ idx,
        bind (parseChildren fuel' (ch "]") [] idx) (λ children idx,
        bind (consume (ch "]") idx) (λ _ idx,
        lift_fold (foldChildren children vertical) width height idx)))
      else if decide (next = Some (ch "{")) then
        bind (consume (ch "{") idx) (λ _ idx,
        bind (parseChildren fuel' (ch "}") [] idx) (λ children idx,
        bind (consume (ch "}") idx) (λ _ idx,
        lift_fold (foldChildren children horizontal) width height idx)))
      else
        bind (consume (ch ",") idx) (λ _ idx,
        bind (readNumber idx) (λ paneNumericId idx,
        Ok {| width := width; height := height;
              node := TPane (ch "%" :: Number_toString paneNumericId) |}
           idx))
      )))))))
  end
with parseChildren (fuel : nat) (close : N)
    (children : list InternalLayoutNode) (idx : nat)
  : Outcome (list InternalLayoutNode) :=
  match fuel with
  | O => OutOfFuel
  | S fuel' =>
      if decide (peek idx = Some close) then Ok children idx
      else
        bind (parseCell fuel' idx) (λ cell idx,
        let idx := if decide (peek idx = Some (ch ",")) then S idx else idx in
        parseChildren fuel' close (children ++ [cell]) idx)
  end.

(** Every cell takes at least two code units, so one unit of fuel per
    code unit of the input, and one more, is enough ([parse_fuel]). *)
Definition parse : Outcome InternalLayoutNode :=
  parseCell (S (length input)) 0.

End LayoutParser.

(** [mapPane] is a function here; the one that [applyTmuxLayout] passes
    also allocates panes, which [mapPaneAllocate] below models. *)
Fixpoint mapNode (n : TmuxLayoutNode) (mapPane : jsstring → jsstring)
  : LayoutNode :=
  match n with
  | TPane tmuxPaneId => Pane (mapPane tmuxPaneId)
  | TSplit direction ratio first second =>
      Split direction (Math_min f0_9 (Math_max f0_1 ratio))
            (mapNode first mapPane) (mapNode second mapPane)
  end.

(** [inl e]: the parser threw [e]. *)
Definition parseTmuxLayout (layout : jsstring) (mapPane : jsstring → jsstring)
  : option (ParseError + LayoutNode) :=
  match parse (stripChecksum layout) with
  | Ok root _ => Some (inr (mapNode (node root) mapPane))
  | Throw e => Some (inl e)
  | OutOfFuel => None
  end.

(** *** [decodeTmuxEscapedText] *)

(** [String.fromCharCode] *)
Definition fromCharCode (n : N) : N := n mod 65536.

Fixpoint decodeTmuxEscapedText (payload : jsstring) : jsstring :=
  match payload with
  | [] => []
  | char :: rest =>
      if decide (char ≠ BACKSLASH) then char :: decodeTmuxEscapedText rest
      else
        match rest with
        | [] => []
        | next :: rest1 =>
            let plain :=
              (if decide (next = ch "n") then LF
               else if decide (next = ch "r") then CR
               else if decide (next = ch "t") then TAB
               else next) :: decodeTmuxEscapedText rest1 in
            if decide (next = BACKSLASH)
            then BACKSLASH :: decodeTmuxEscapedText rest1
            else
              match rest1 with
              | d2 :: d3 :: rest3 =>
                  if is_octal next && is_octal d2 && is_octal d3
                  then fromCharCode (parseInt 8 [next; d2; d3])
                         :: decodeTmuxEscapedText rest3
                  else plain
              | _ => plain
              end
        end
  end.

(** The string starts with three octal digits. *)
Definition octal_triple (s : jsstring) : bool :=
  match s with
  | a :: b :: c :: _ => is_octal a && is_octal b && is_octal c
  | _ => false
  end.

(** What [\X] stands for when it is not an octal escape. *)
Definition escaped (x : N) : N :=
  if decide (x = ch "n") then LF
  else if decide (x = ch "r") then CR
  else if decide (x = ch "t") then TAB
  else x.

(** *** The regular expressions of [parseTmuxControlLine]

    A backtracking matcher in continuation-passing style: a piece of a
    pattern takes the continuation for what follows it and the rest of
    the subject.  Greedy pieces try the longest match first and give
    characters back when the continuation fails, as the engine does.
    In the patterns quoted below a blank separates a star from a closing
    parenthesis; it is not part of the pattern. *)
Module Re.

(** A literal. *)
Definition lit {R} (p : jsstring) (k : jsstring → option R) (s : jsstring)
  : option R :=
  if startsWith p s then k (drop (length p) s) else None.

(** [c*] for a character class, greedy; [k] receives the match. *)
Fixpoint star_from {R} (cls : N → bool) (k : jsstring → jsstring → option R)
    (acc : jsstring) (s : jsstring) : option R :=
  match s with
  | c :: s' =>
      if cls c then
        match star_from cls k (acc ++ [c]) s' with
        | Some r => Some r
        | None => k acc s
        end
      else k acc s
  | [] => k acc s
  end.

Definition star {R} cls (k : jsstring → jsstring → option R) : jsstring → option R :=
  star_from cls k [].

(** [c+] *)
Definition plus {R} cls (k : jsstring → jsstring → option R) : jsstring → option R :=
  star cls (λ m rest, match m with [] => None | _ => k m rest end).

(** [c?], greedy *)
Definition opt {R} (cls : N → bool) (k : jsstring → option R) (s : jsstring)
  : option R :=
  match s with
  | c :: s' =>
      if cls c then match k s' with Some r => Some r | None => k s end
      else k s
  | [] => k s
  end.

(** [(?: m )?], greedy *)
Definition opt_group {R} (m : (jsstring → option R) → jsstring → option R)
    (k : jsstring → option R) (s : jsstring) : option R :=
  match m k s with
  | Some r => Some r
  | None => k s
  end.

(** [$] *)
Definition eos {R} (r : R) (s : jsstring) : option R :=
  match s with [] => Some r | _ => None end.

(** [.] *)
Definition dot (c : N) : bool := negb (is_line_terminator c).

(** [[^\s]] *)
Definition not_space (c : N) : bool := negb (is_space c).

End Re.

Import Re.

(** [/^%output\s+(%\d+)\s?(.* )$/u] *)
Definition outputMatch : jsstring → option (jsstring * jsstring) :=
  lit (js "%output") (plus is_space (λ _,
    lit (js "%") (plus is_digit (λ ds,
      opt is_space (star dot (λ data, eos (ch "%" :: ds, data))))))).

(** [/^%extended-output\s+(%\d+)\s+\d+\s?(.* )$/u] *)
Definition extendedOutputMatch : jsstring → option (jsstring * jsstring) :=
  lit (js "%extended-output") (plus is_space (λ _,
    lit (js "%") (plus is_digit (λ ds,
      plus is_space (λ _, plus is_digit (λ _,
        opt is_space (star dot (λ data, eos (ch "%" :: ds, data))))))))).

(** [/^<keyword>\s+(@\d+)(?:\s+.* )?$/u] *)
Definition windowIdMatch (keyword : jsstring) : jsstring → option jsstring :=
  lit keyword (plus is_space (λ _,
    lit (js "@") (plus is_digit (λ ds,
      opt_group (λ k, plus is_space (λ _, star dot (λ _, k)))
        (eos (ch "@" :: ds)))))).

(** [/^%window-renamed\s+(@\d+)\s+(.+)$/u] *)
Definition windowRenamedMatch : jsstring → option (jsstring * jsstring) :=
  lit (js "%window-renamed") (plus is_space (λ _,
    lit (js "@") (plus is_digit (λ ds,
      plus is_space (λ _, plus dot (λ name, eos (ch "@" :: ds, name))))))).

(** [/^%layout-change\s+(@\d+)\s+([^\s]+).*$/] *)
Definition layoutMatch : jsstring → option (jsstring * jsstring) :=
  lit (js "%layout-change") (plus is_space (λ _,
    lit (js "@") (plus is_digit (λ ds,
      plus is_space (λ _, plus not_space (λ layout,
        star dot (λ _, eos (ch "@" :: ds, layout)))))))).

(** [/^%window-pane-changed\s+(@\d+)\s+(%\d+)(?:\s+.* )?$/u] *)
Definition paneChangedMatch : jsstring → option (jsstring * jsstring) :=
  lit (js "%window-pane-changed") (plus is_space (λ _,
    lit (js "@") (plus is_digit (λ ws,
      plus is_space (λ _, lit (js "%") (plus is_digit (λ ps,
        opt_group (λ k, plus is_space (λ _, star dot (λ _, k)))
          (eos (ch "@" :: ws, ch "%" :: ps))))))))).

(** [/^%session-changed\s+\$?\d+\s+(.+)$/u] *)
Definition sessionChanged : jsstring → option jsstring :=
  lit (js "%session-changed") (plus is_space (λ _,
    opt (λ c, bool_decide (c = ch "$")) (plus is_digit (λ _,
      plus is_space (λ _, plus dot (λ name, eos name)))))).

Definition parseTmuxControlLine (line : jsstring) : ParsedTmuxEvent :=
  if startsWith (js "%begin") line then EvBegin
  else if startsWith (js "%end") line then EvEnd
  else if startsWith (js "%error") line then EvError (trim (drop 6 line))
  else
    match outputMatch line with
    | Some (paneId, data) => EvOutput paneId (decodeTmuxEscapedText data)
    | None =>
    match extendedOutputMatch line with
    | Some (paneId, data) => EvOutput paneId (decodeTmuxEscapedText data)
    | None =>
    match windowIdMatch (js "%window-add") line with
    | Some windowId => EvWindowAdd windowId
    | None =>
    match windowIdMatch (js "%window-close") line with
    | Some windowId => EvWindowClose windowId
    | None =>
    match windowRenamedMatch line with
    | Some (windowId, name) => EvWindowRenamed windowId name
    | None =>
    match layoutMatch line with
    | Some (windowId, layout) => EvLayoutChange windowId layout
    | None =>
    match paneChangedMatch line with
    | Some (windowId, paneId) => EvWindowPaneChanged windowId paneId
    | None =>
    match sessionChanged line with
    | Some sessionName => EvSessionChanged sessionName
    | None => EvOther line
    end end end end end end end end.

(** *** [parseBootstrapWindowLine] *)

Record BootstrapWindow := {
  windowId : jsstring;
  name : jsstring;
  layout : jsstring
}.

Definition parseBootstrapWindowLine (line : jsstring) : option BootstrapWindow :=
  let marker := js "__WINDOW__::" in
  if negb (startsWith marker line) then None
  else
    let data := drop (length marker) line in
    let parts := split (js "::") data in
    match parts with
    | windowId :: name :: ((_ :: _) as layoutParts) =>
        Some {| windowId := windowId; name := name;
                layout := join (js "::") layoutParts |}
    | _ => None
    end.

End Tmux.

(** ** The tmux controller ([src/App.tsx]) *)

Definition MAX_PANE_HISTORY_BYTES : N := 2 * 1024 * 1024.
Definition MAX_TMUX_BOOTSTRAP_BUFFER_BYTES : N := 512 * 1024.

(** [s.length] as a number *)
Definition strlen (s : jsstring) : N := N.of_nat (length s).

(** [s.replace(/pat/g, "")] for a literal, non-empty pattern: every
    occurrence found by a left-to-right scan is dropped. *)
Fixpoint removeAll_go (pat : jsstring) (skip : nat) (s : jsstring) : jsstring :=
  match s with
  | [] => []
  | c :: s' =>
      match skip with
      | S k => removeAll_go pat k s'
      | O =>
          if startsWith pat s then removeAll_go pat (pred (length pat)) s'
          else c :: removeAll_go pat 0 s'
      end
  end.

Definition removeAll (pat s : jsstring) : jsstring := removeAll_go pat 0 s.

Definition ESC : N := 27.

Definition sanitizeTmuxOutput (data : jsstring) : jsstring :=
  removeAll (ESC :: js "[3J") (removeAll (ESC :: js "[?3J") data).

Definition normalizeCapturedHistory (text : jsstring) : jsstring :=
  flat_map (λ c, if decide (c = LF) then [CR; LF] else [c])
    (filter (λ c, c ≠ CR) (sanitizeTmuxOutput text)).

Record TmuxPaneBootstrapState := {
  chunks : list jsstring;
  totalBytes : N;
  flushTimer : option nat
}.

Module PaneHistory.
Record t := { chunks : list jsstring; totalBytes : N }.
End PaneHistory.

Record PendingTmuxCapture := {
  tmuxPaneId : jsstring;
  lines : list jsstring;
  collecting : bool;
  timeoutId : option nat;
  (** the promise's [resolve]; its number is the identity of the request *)
  resolve : nat
}.

(** What a pending [window.setTimeout] timer runs when it fires. *)
Inductive TimerCallback :=
| FlushBootstrapTimer (paneId : jsstring)
    (** [mapPane]: [flushTmuxBootstrapPane(paneId)] after 15 s *)
| CaptureTimeoutTimer (controlPtyId : jsstring) (next : nat)
    (** [runNextTmuxCapture]: the 5 s timer of request [next] *).

(** The refs of the [App] component that the capture queue and the pane
    bootstrap use, the pending timers, and the calls made to the outside:
    [written] lists the calls of pane writers, [resolved] the calls of
    [resolve] callbacks, [ptyWrites] the calls of [writePty]; each list has
    its oldest call first. *)
Record State := {
  paneWriters : gset jsstring;
  paneHistory : gmap jsstring PaneHistory.t;
  tmuxPaneBootstrap : gmap jsstring TmuxPaneBootstrapState;
  tmuxHydrateStarted : gset jsstring;
  tmuxCaptureQueues : gmap jsstring (list PendingTmuxCapture);
  tmuxCaptureActive : gmap jsstring PendingTmuxCapture;
  timers : gmap nat TimerCallback;
  nextTimer : nat;
  written : list (jsstring * jsstring);
  resolved : list (nat * jsstring);
  ptyWrites : list (jsstring * jsstring)
}.

Definition initialState (writers : gset jsstring) : State :=
  {| paneWriters := writers; paneHistory := ∅; tmuxPaneBootstrap := ∅;
     tmuxHydrateStarted := ∅; tmuxCaptureQueues := ∅; tmuxCaptureActive := ∅;
     timers := ∅; nextTimer := 0; written := []; resolved := [];
     ptyWrites := [] |}.

Section Setters.
Variable st : State.

Definition set_paneHistory v : State :=
  {| paneWriters := paneWriters st; paneHistory := v;
     tmuxPaneBootstrap := tmuxPaneBootstrap st;
     tmuxHydrateStarted := tmuxHydrateStarted st;
     tmuxCaptureQueues := tmuxCaptureQueues st;
     tmuxCaptureActive := tmuxCaptureActive st;
     timers := timers st; nextTimer := nextTimer st;
     written := written st; resolved := resolved st;
     ptyWrites := ptyWrites st |}.

Definition set_tmuxPaneBootstrap v : State :=
  {| paneWriters := paneWriters st; paneHistory := paneHistory st;
     tmuxPaneBootstrap := v;
     tmuxHydrateStarted := tmuxHydrateStarted st;
     tmuxCaptureQueues := tmuxCaptureQueues st;
     tmuxCaptureActive := tmuxCaptureActive st;
     timers := timers st; nextTimer := nextTimer st;
     written := written st; resolved := resolved st;
     ptyWrites := ptyWrites st |}.

Definition set_tmuxHydrateStarted v : State :=
  {| paneWriters := paneWriters st; paneHistory := paneHistory st;
     tmuxPaneBootstrap := tmuxPaneBootstrap st;
     tmuxHydrateStarted := v;
     tmuxCaptureQueues := tmuxCaptureQueues st;
     tmuxCaptureActive := tmuxCaptureActive st;
     timers := timers st; nextTimer := nextTimer st;
     written := written st; resolved := resolved st;
     ptyWrites := ptyWrites st |}.

Definition set_tmuxCaptureQueues v : State :=
  {| paneWriters := paneWriters st; paneHistory := paneHistory st;
     tmuxPaneBootstrap := tmuxPaneBootstrap st;
     tmuxHydrateStarted := tmuxHydrateStarted st;
     tmuxCaptureQueues := v;
     tmuxCaptureActive := tmuxCaptureActive st;
     timers := timers st; nextTimer := nextTimer st;
     written := written st; resolved := resolved st;
     ptyWrites := ptyWrites st |}.

Definition set_tmuxCaptureActive v : State :=
  {| paneWriters := paneWriters st; paneHistory := paneHistory st;
     tmuxPaneBootstrap := tmuxPaneBootstrap st;
     tmuxHydrateStarted := tmuxHydrateStarted st;
     tmuxCaptureQueues := tmuxCaptureQueues st;
     tmuxCaptureActive := v;
     timers := timers st; nextTimer := nextTimer st;
     written := written st; resolved := resolved st;
     ptyWrites := ptyWrites st |}.

Definition set_timers v : State :=
  {| paneWriters := paneWriters st; paneHistory := paneHistory st;
     tmuxPaneBootstrap := tmuxPaneBootstrap st;
     tmuxHydrateStarted := tmuxHydrateStarted st;
     tmuxCaptureQueues := tmuxCaptureQueues st;
     tmuxCaptureActive := tmuxCaptureActive st;
     timers := v; nextTimer := nextTimer st;
     written := written st; resolved := resolved st;
     ptyWrites := ptyWrites st |}.

Definition set_nextTimer v : State :=
  {| paneWriters := paneWriters st; paneHistory := paneHistory st;
     tmuxPaneBootstrap := tmuxPaneBootstrap st;
     tmuxHydrateStarted := tmuxHydrateStarted st;
     tmuxCaptureQueues := tmuxCaptureQueues st;
     tmuxCaptureActive := tmuxCaptureActive st;
     timers := timers st; nextTimer := v;
     written := written st; resolved := resolved st;
     ptyWrites := ptyWrites st |}.

Definition set_written v : State :=
  {| paneWriters := paneWriters st; paneHistory := paneHistory st;
     tmuxPaneBootstrap := tmuxPaneBootstrap st;
     tmuxHydrateStarted := tmuxHydrateStarted st;
     tmuxCaptureQueues := tmuxCaptureQueues st;
     tmuxCaptureActive := tmuxCaptureActive st;
     timers := timers st; nextTimer := nextTimer st;
     written := v; resolved := resolved st;
     ptyWrites := ptyWrites st |}.

Definition set_resolved v : State :=
  {| paneWriters := paneWriters st; paneHistory := paneHistory st;
     tmuxPaneBootstrap := tmuxPaneBootstrap st;
     tmuxHydrateStarted := tmuxHydrateStarted st;
     tmuxCaptureQueues := tmuxCaptureQueues st;
     tmuxCaptureActive := tmuxCaptureActive st;
     timers := timers st; nextTimer := nextTimer st;
     written := written st; resolved := v;
     ptyWrites := ptyWrites st |}.

Definition set_ptyWrites v : State :=
  {| paneWriters := paneWriters st; paneHistory := paneHistory st;
     tmuxPaneBootstrap := tmuxPaneBootstrap st;
     tmuxHydrateStarted := tmuxHydrateStarted st;
     tmuxCaptureQueues := tmuxCaptureQueues st;
     tmuxCaptureActive := tmuxCaptureActive st;
     timers := timers st; nextTimer := nextTimer st;
     written := written st; resolved := resolved st;
     ptyWrites := v |}.
End Setters.

(** [window.setTimeout(callback, _)]: the new timer's id and the state. *)
Definition setTimeout (callback : TimerCallback) (st : State) : nat * State :=
  let id := nextTimer st in
  (id, set_nextTimer (set_timers st (<[id := callback]> (timers st))) (S id)).

(** [window.clearTimeout(id)] *)
Definition clearTimeout (id : nat) (st : State) : State :=
  set_timers st (delete id (timers st)).

(** The eviction loop shared by [writeToPane] and the output handler:
    [while (totalBytes > max && chunks.length > 1)] shift the oldest chunk,
    stop if it is the empty string, else subtract its length. *)
Fixpoint evictOldest (max : N) (chunks : list jsstring) (totalBytes : N)
  : list jsstring * N :=
  match chunks with
  | removed :: ((_ :: _) as rest) =>
      if max <? totalBytes then
        if decide (length removed = 0%nat) then (rest, totalBytes)
        else evictOldest max rest (totalBytes - strlen removed)
      else (chunks, totalBytes)
  | _ => (chunks, totalBytes)
  end.

Definition writeToPane (paneId data : jsstring) (st : State) : State :=
  let existingHistory :=
    default {| PaneHistory.chunks := []; PaneHistory.totalBytes := 0 |}
            (paneHistory st !! paneId) in
  let '(chunks, totalBytes) :=
    evictOldest MAX_PANE_HISTORY_BYTES
      (PaneHistory.chunks existingHistory ++ [data])
      (PaneHistory.totalBytes existingHistory + strlen data) in
  let st :=
    set_paneHistory st
      (<[paneId := {| PaneHistory.chunks := chunks;
                      PaneHistory.totalBytes := totalBytes |}]>
         (paneHistory st)) in
  if decide (paneId ∈ paneWriters st)
  then set_written st (written st ++ [(paneId, data)])
  else st.

(** [capturedHistory] is [None] when the argument is omitted. *)
Definition flushTmuxBootstrapPane (paneId : jsstring)
    (capturedHistory : option jsstring) (st : State) : State :=
  let hasHistory :=
    match capturedHistory with
    | Some h => bool_decide (length h ≠ 0%nat)
    | None => false
    end in
  match tmuxPaneBootstrap st !! paneId with
  | None =>
      if hasHistory then writeToPane paneId (default [] capturedHistory) st
      else st
  | Some bootstrap =>
      let st := set_tmuxPaneBootstrap st (delete paneId (tmuxPaneBootstrap st)) in
      let st := set_tmuxHydrateStarted st (tmuxHydrateStarted st ∖ {[paneId]}) in
      let st :=
        match flushTimer bootstrap with
        | Some t => clearTimeout t st
        | None => st
        end in
      if hasHistory then writeToPane paneId (default [] capturedHistory) st
      else foldl (λ st chunk, writeToPane paneId chunk st) st (chunks bootstrap)
  end.

(** The part of [mapPane] (in [applyTmuxLayout]) that runs for a tmux pane
    without a binding in this tab: [paneId] is the fresh [uid("pane")]; the
    15 s flush timer is started and the bootstrap entry created. *)
Definition mapPaneAllocate (paneId : jsstring) (st : State) : State :=
  let '(flushTimer, st) := setTimeout (FlushBootstrapTimer paneId) st in
  set_tmuxPaneBootstrap st
    (<[paneId := {| chunks := []; totalBytes := 0;
                    flushTimer := Some flushTimer |}]>
       (tmuxPaneBootstrap st)).

(** The ["output"] case of [handleTmuxControlLine] from the point where the
    binding [mapping] of the tmux pane is known: [paneId] is
    [mapping.paneId], [data] is [event.data]. *)
Definition handleTmuxOutput (paneId data : jsstring) (st : State) : State :=
  let sanitized := sanitizeTmuxOutput data in
  if decide (length sanitized = 0%nat) then st
  else
    match tmuxPaneBootstrap st !! paneId with
    | Some bootstrap =>
        let '(chunks', totalBytes') :=
          evictOldest MAX_TMUX_BOOTSTRAP_BUFFER_BYTES
            (chunks bootstrap ++ [sanitized])
            (totalBytes bootstrap + strlen sanitized) in
        let st :=
          set_tmuxPaneBootstrap st
            (<[paneId := {| chunks := chunks'; totalBytes := totalBytes';
                            flushTimer := flushTimer bootstrap |}]>
               (tmuxPaneBootstrap st)) in
        if MAX_TMUX_BOOTSTRAP_BUFFER_BYTES <=? totalBytes'
        then flushTmuxBootstrapPane paneId None st
        else st
    | None => writeToPane paneId sanitized st
    end.

(** The value of the awaited [captureTmuxPane] call, or its rejection. *)
Inductive CaptureResult :=
| Captured (text : jsstring)
| CaptureFailed.

(** One run of [hydrateTmuxPaneHistory] for the pane [paneId].  What the
    run reads from outside this model is given as arguments: [prefetched]
    is the entry of [tmuxPrefetchedHistoryRef] for the tmux pane,
    [socketPath] the controller's socket path, [captured] what the
    out-of-band capture returns.  A run that schedules a retry leaves the
    state as it is; the retry is a later run with [attempt + 1]. *)
Definition hydrateTmuxPaneHistory (paneId : jsstring) (attempt : nat)
    (prefetched socketPath : option jsstring) (captured : CaptureResult)
    (st : State) : State :=
  match prefetched with
  | Some ((_ :: _) as p) => flushTmuxBootstrapPane paneId (Some p) st
  | _ =>
      let noSocket :=
        match socketPath with Some (_ :: _) => false | _ => true end in
      if noSocket && bool_decide (attempt ≤ 10)%nat then st
      else
        match captured with
        | CaptureFailed =>
            if bool_decide (attempt < 4)%nat then st
            else flushTmuxBootstrapPane paneId None st
        | Captured [] =>
            if bool_decide (attempt < 4)%nat then st
            else flushTmuxBootstrapPane paneId None st
        | Captured text =>
            let normalized := normalizeCapturedHistory text in
            let history :=
              if endsWith [CR; LF] normalized then normalized
              else normalized ++ [CR; LF] in
            flushTmuxBootstrapPane paneId (Some history) st
        end
  end.

(** *** In-band capture requests *)

Definition set_collecting (c : PendingTmuxCapture) (v : bool) : PendingTmuxCapture :=
  {| tmuxPaneId := tmuxPaneId c; lines := lines c; collecting := v;
     timeoutId := timeoutId c; resolve := resolve c |}.

Definition set_lines (c : PendingTmuxCapture) (v : list jsstring) : PendingTmuxCapture :=
  {| tmuxPaneId := tmuxPaneId c; lines := v; collecting := collecting c;
     timeoutId := timeoutId c; resolve := resolve c |}.

Definition set_timeoutId (c : PendingTmuxCapture) (v : option nat) : PendingTmuxCapture :=
  {| tmuxPaneId := tmuxPaneId c; lines := lines c; collecting := collecting c;
     timeoutId := v; resolve := resolve c |}.

(** [next.resolve(captured)] *)
Definition callResolve (request : PendingTmuxCapture) (captured : jsstring)
    (st : State) : State :=
  set_resolved st (resolved st ++ [(resolve request, captured)]).

(** [window.portableTerm.writePty(id, data)] *)
Definition writePty (id data : jsstring) (st : State) : State :=
  set_ptyWrites st (ptyWrites st ++ [(id, data)]).

Definition captureCommand (tmuxPaneId : jsstring) : jsstring :=
  js "capture-pane -p -J -S -3000 -t " ++ tmuxPaneId ++ [LF].

Definition runNextTmuxCapture (controlPtyId : jsstring) (st : State) : State :=
  if decide (is_Some (tmuxCaptureActive st !! controlPtyId)) then st
  else
    match tmuxCaptureQueues st !! controlPtyId with
    | None | Some [] => st
    | Some (next :: queue) =>
        let st := set_tmuxCaptureQueues st
                    (<[controlPtyId := queue]> (tmuxCaptureQueues st)) in
        let '(id, st) :=
          setTimeout (CaptureTimeoutTimer controlPtyId (resolve next)) st in
        let next := set_timeoutId next (Some id) in
        let st := set_tmuxCaptureActive st
                    (<[controlPtyId := next]> (tmuxCaptureActive st)) in
        writePty controlPtyId (captureCommand (tmuxPaneId next)) st
    end.

(** The callback of the 5 s timer of request [next]. *)
Definition captureTimeout (controlPtyId : jsstring) (next : nat) (st : State)
  : State :=
  match tmuxCaptureActive st !! controlPtyId with
  | Some active =>
      if decide (resolve active ≠ next) then st
      else
        let st := set_tmuxCaptureActive st
                    (delete controlPtyId (tmuxCaptureActive st)) in
        let st := callResolve active [] st in
        runNextTmuxCapture controlPtyId st
  | None => st
  end.

(** [resolve] numbers the promise that the call returns. *)
Definition captureTmuxPaneInBand (controlPtyId tmuxPaneId : jsstring)
    (resolve : nat) (st : State) : State :=
  let queue := default [] (tmuxCaptureQueues st !! controlPtyId) in
  let queue :=
    queue ++ [ {| tmuxPaneId := tmuxPaneId; lines := []; collecting := false;
                  timeoutId := None; resolve := resolve |} ] in
  let st := set_tmuxCaptureQueues st
              (<[controlPtyId := queue]> (tmuxCaptureQueues st)) in
  runNextTmuxCapture controlPtyId st.

(** A pending timer fires: it leaves the table and its callback runs. *)
Definition fireTimer (id : nat) (st : State) : State :=
  match timers st !! id with
  | None => st
  | Some callback =>
      let st := set_timers st (delete id (timers st)) in
      match callback with
      | FlushBootstrapTimer paneId => flushTmuxBootstrapPane paneId None st
      | CaptureTimeoutTimer controlPtyId next =>
          captureTimeout controlPtyId next st
      end
  end.

Section HandleLine.

(** The rest of [handleTmuxControlLine], from the socket-path sniffer to
    the event switch, for a line that the active capture did not take. *)
Variable dispatchLine : jsstring → jsstring → State → State.

Definition handleTmuxControlLine (controlPtyId line : jsstring) (st : State)
  : State :=
  if decide (length line = 0%nat) then st
  else
    match tmuxCaptureActive st !! controlPtyId with
    | Some activeCapture =>
        if startsWith (js "%begin") line then
          set_tmuxCaptureActive st
            (<[controlPtyId := set_collecting activeCapture true]>
               (tmuxCaptureActive st))
        else if startsWith (js "%end") line || startsWith (js "%error") line
        then
          let st :=
            match timeoutId activeCapture with
            | Some t => clearTimeout t st
            | None => st
            end in
          let st := set_tmuxCaptureActive st
                      (delete controlPtyId (tmuxCaptureActive st)) in
          let st := callResolve activeCapture
                      (join [LF] (lines activeCapture)) st in
          runNextTmuxCapture controlPtyId st
        else if collecting activeCapture && negb (startsWith (js "%") line)
        then
          set_tmuxCaptureActive st
            (<[controlPtyId :=
                 set_lines activeCapture (lines activeCapture ++ [line])]>
               (tmuxCaptureActive st))
        else dispatchLine controlPtyId line st
    | None => dispatchLine controlPtyId line st
    end.

End HandleLine.

(** *** Events of the controller, for statements over interleavings *)

Inductive Event :=
| MapPane (paneId : jsstring)
| Output (paneId data : jsstring)
| TimerFires (id : nat)
| Hydrate (paneId : jsstring) (attempt : nat)
          (prefetched socketPath : option jsstring) (captured : CaptureResult).

Definition step (st : State) (e : Event) : State :=
  match e with
  | MapPane paneId => mapPaneAllocate paneId st
  | Output paneId data => handleTmuxOutput paneId data st
  | TimerFires id => fireTimer id st
  | Hydrate paneId attempt prefetched socketPath captured =>
      hydrateTmuxPaneHistory paneId attempt prefetched socketPath captured st
  end.

Definition run (st : State) (events : list Event) : State :=
  foldl step st events.

(** The data handed to the writer of [paneId], oldest first. *)
Definition deliveredTo (paneId : jsstring) (st : State) : list jsstring :=
  snd <$> filter (λ w, fst w = paneId) (written st).

(** [e] takes [paneId] out of the bootstrap state. *)
Definition resolvesBootstrap (paneId : jsstring) (st : State) (e : Event) : bool :=
  bool_decide (is_Some (tmuxPaneBootstrap st !! paneId))
  && bool_decide (tmuxPaneBootstrap (step st e) !! paneId = None).

(** How many events of a run take [paneId] out of the bootstrap state. *)
Fixpoint bootstrapFlushes (paneId : jsstring) (st : State) (events : list Event)
  : nat :=
  match events with
  | [] => 0
  | e :: rest =>
      (if resolvesBootstrap paneId st e then 1 else 0)
      + bootstrapFlushes paneId (step st e) rest
  end%nat.


(** The data that a call [flushTmuxBootstrapPane(paneId, capturedHistory)]
    hands to [writeToPane]: the captured history when it is not empty,
    else the chunks of the pane's bootstrap buffer, if it has one. *)
Definition flushedData (paneId : jsstring) (capturedHistory : option jsstring)
    (st : State) : list jsstring :=
  match capturedHistory with
  | Some ((_ :: _) as h) => [h]
  | _ =>
      match tmuxPaneBootstrap st !! paneId with
      | Some bootstrap => chunks bootstrap
      | None => []
      end
  end.

(** The chunks in the bootstrap buffer [b] of [paneId] once the data of
    [e] itself, if [e] is an output of that pane, is appended and the cap
    applied: the buffer that a flush during [e] finds. *)
Definition pendingChunks (paneId : jsstring) (b : TmuxPaneBootstrapState)
    (e : Event) : list jsstring :=
  match e with
  | Output q data =>
      let sanitized := sanitizeTmuxOutput data in
      if decide (q = paneId ∧ length sanitized ≠ 0%nat)
      then fst (evictOldest MAX_TMUX_BOOTSTRAP_BUFFER_BYTES
                  (chunks b ++ [sanitized])
                  (totalBytes b + strlen sanitized))
      else chunks b
  | _ => chunks b
  end.

(** The captured history that a run of the hydration hands to
    [flushTmuxBootstrapPane], if it ends with one: the prefetched history
    when there is one; else, unless the run schedules a retry, the text
    that the capture returns, with its newlines normalised and a CR LF
    at its end.  A run ends without a history when it schedules a retry
    and when the capture fails or returns nothing. *)
Definition hydrationHistory (attempt : nat)
    (prefetched socketPath : option jsstring) (captured : CaptureResult)
  : option jsstring :=
  match prefetched with
  | Some ((_ :: _) as p) => Some p
  | _ =>
      let noSocket :=
        match socketPath with Some (_ :: _) => false | _ => true end in
      if noSocket && bool_decide (attempt ≤ 10)%nat then None
      else
        match captured with
        | Captured ((_ :: _) as text) =>
            let normalized := normalizeCapturedHistory text in
            Some (if endsWith [CR; LF] normalized then normalized
                  else normalized ++ [CR; LF])
        | _ => None
        end
  end.

(** The captured history of [e], when [e] is a run of the hydration of
    [paneId] that ends with one. *)
Definition hydrationOf (paneId : jsstring) (e : Event) : option jsstring :=
  match e with
  | Hydrate q attempt prefetched socketPath captured =>
      if decide (q = paneId)
      then hydrationHistory attempt prefetched socketPath captured
      else None
  | _ => None
  end.

(** The hydration result that the step [e] hands to the writer of
    [paneId] when it takes the pane, whose bootstrap buffer is [b], out of
    the bootstrap state: the captured history of [e] if it has one, else
    the chunks of the buffer in order (none, if the buffer is empty). *)
Definition hydrationResult (paneId : jsstring) (b : TmuxPaneBootstrapState)
    (e : Event) : list jsstring :=
  match hydrationOf paneId e with
  | Some h => [h]
  | None => pendingChunks paneId b e
  end.

(** What the step [e] hands to the writer of [paneId] when the pane is
    out of the bootstrap state: the output of the pane as it arrives, and
    the captured history of a run of its hydration that ends with one.
    A timer that fires hands it nothing. *)
Definition lateDelivery (paneId : jsstring) (e : Event) : list jsstring :=
  match e with
  | Output q data =>
      let sanitized := sanitizeTmuxOutput data in
      if decide (q = paneId ∧ length sanitized ≠ 0%nat) then [sanitized]
      else []
  | _ =>
      match hydrationOf paneId e with
      | Some h => [h]
      | None => []
      end
  end.

(** Calls of the writer of [q] with the data [ds], in order. *)
Definition calls (q : jsstring) (ds : list jsstring) : list (jsstring * jsstring) :=
  (λ d, (q, d)) <$> ds.


(* ===================================================================== *)
(** * Part I, continued: more of the sources                              *)
(* ===================================================================== *)

(** ** More of the layout tree *)

(** The ratio of the split that [renderLayout] labels with [path]: the
    root has the empty path, the first child of the split at [path] has
    [path + "L"], the second [path + "R"]. *)
Fixpoint ratioAt (layout : LayoutNode) (path : jsstring) : option number :=
  match layout with
  | Pane _ => None
  | Split _ r a b =>
      match path with
      | [] => Some r
      | head :: rest =>
          if decide (head = ch "L") then ratioAt a rest
          else if decide (head = ch "R") then ratioAt b rest
          else None
      end
  end.

(** Two trees of the same shape: the same splits with the same directions
    over the same leaves; the ratios may differ. *)
Fixpoint same_shape (l1 l2 : LayoutNode) : Prop :=
  match l1, l2 with
  | Pane p, Pane q => p = q
  | Split d1 _ a1 b1, Split d2 _ a2 b2 =>
      d1 = d2 ∧ same_shape a1 a2 ∧ same_shape b1 b2
  | _, _ => False
  end.

Record PaneGridSize := { cols : N; rows : N }.

(** [measureLayoutGridSize]; the sizes are whole numbers of cells. *)
Fixpoint measureLayoutGridSize (node : LayoutNode)
    (paneSizes : gmap jsstring PaneGridSize) : option PaneGridSize :=
  match node with
  | Pane paneId => paneSizes !! paneId
  | Split direction _ first second =>
      match measureLayoutGridSize first paneSizes,
            measureLayoutGridSize second paneSizes with
      | Some first, Some second =>
          if decide (direction = horizontal)
          then Some {| cols := cols first + cols second;
                       rows := N.max (rows first) (rows second) |}
          else Some {| cols := N.max (cols first) (cols second);
                       rows := rows first + rows second |}
      | _, _ => None
      end
  end.

(** ** More of [src/lib/tmux.ts] *)

(** [text.split(/\r?\n/)]: a scan from the left; at a line feed, or at a
    carriage return that a line feed follows, the current part is closed. *)
Fixpoint splitNewlines_go (cur : jsstring) (s : jsstring) : list jsstring :=
  match s with
  | [] => [cur]
  | c :: s' =>
      if decide (c = LF) then cur :: splitNewlines_go [] s'
      else if decide (c = CR) then
        match s' with
        | c' :: s'' =>
            if decide (c' = LF) then cur :: splitNewlines_go [] s''
            else splitNewlines_go (cur ++ [c]) s'
        | [] => splitNewlines_go (cur ++ [c]) s'
        end
      else splitNewlines_go (cur ++ [c]) s'
  end.

Definition splitNewlines (text : jsstring) : list jsstring :=
  splitNewlines_go [] text.

(** [splitLines]: the pair [(rest, lines)] stands for [{ rest, lines }]. *)
Definition splitLines (buffer incoming : jsstring) : jsstring * list jsstring :=
  let text := buffer ++ incoming in
  let lines := splitNewlines text in
  (default [] (last lines), removelast lines).

Definition is_high_surrogate (c : N) : bool := (55296 <=? c) && (c <=? 56319).
Definition is_low_surrogate (c : N) : bool := (56320 <=? c) && (c <=? 57343).

(** The UTF-8 bytes of a code point. *)
Definition utf8 (cp : N) : list N :=
  if cp <? 128 then [cp]
  else if cp <? 2048 then [192 + cp / 64; 128 + cp mod 64]
  else if cp <? 65536 then
    [224 + cp / 4096; 128 + (cp / 64) mod 64; 128 + cp mod 64]
  else
    [240 + cp / 262144; 128 + (cp / 4096) mod 64; 128 + (cp / 64) mod 64;
     128 + cp mod 64].

(** [new TextEncoder().encode(input)]: a surrogate pair is one code point,
    a surrogate on its own is replaced by U+FFFD. *)
Fixpoint textEncode (input : jsstring) : list N :=
  match input with
  | [] => []
  | c :: s' =>
      if is_high_surrogate c then
        match s' with
        | d :: s'' =>
            if is_low_surrogate d
            then utf8 (65536 + (c - 55296) * 1024 + (d - 56320)) ++ textEncode s''
            else utf8 65533 ++ textEncode s'
        | [] => utf8 65533
        end
      else if is_low_surrogate c then utf8 65533 ++ textEncode s'
      else utf8 c ++ textEncode s'
  end.

(** A hexadecimal digit in lower case. *)
Definition hexDigit (d : N) : N := if d <? 10 then 48 + d else 87 + d.

(** [byte.toString(16).padStart(2, "0")] for a byte. *)
Definition hexByte (byte : N) : jsstring :=
  [hexDigit (byte / 16); hexDigit (byte mod 16)].

Definition makeSendKeysHexCommand (tmuxPaneId input : jsstring) : jsstring :=
  let bytes := textEncode input in
  if decide (length bytes = 0%nat) then []
  else
    let hex := join (js " ") (hexByte <$> bytes) in
    js "send-keys -t " ++ tmuxPaneId ++ js " -H " ++ hex ++ [LF].

(** ** More of the [App] component *)

(** [line.indexOf(marker)] for a string needle. *)
Fixpoint indexOfString (needle s : jsstring) : option nat :=
  if startsWith needle s then Some 0%nat
  else
    match s with
    | [] => None
    | _ :: s' => S <$> indexOfString needle s'
    end.

Definition parseSocketPathLine (line : jsstring) : option jsstring :=
  let marker := js "__SOCKET__::" in
  match indexOfString marker line with
  | None => None
  | Some idx =>
      let value := trim (drop (idx + length marker) line) in
      if decide (0 < length value)%nat then Some value else None
  end.

(** The pair stands for [{ windowId, paneId }]. *)
Definition parseBootstrapPaneLine (line : jsstring)
  : option (jsstring * jsstring) :=
  let marker := js "__PANE__::" in
  if negb (startsWith marker line) then None
  else
    match split (js "::") (drop (length marker) line) with
    | windowId :: paneId :: _ =>
        if decide (windowId = [] ∨ paneId = []) then None
        else Some (windowId, paneId)
    | _ => None
    end.

(** The loop of the source goes by code points; a surrogate pair is at
    least 0x20 in its first unit and is copied whole, which is what
    copying its two units does. *)
Definition toSafeLocalEcho (input : jsstring) : jsstring :=
  flat_map
    (λ c, if decide (c = CR ∨ c = LF) then [CR; LF]
          else if decide (c = TAB) then [TAB]
          else if (32 <=? c) && negb (c =? 127) then [c]
          else [])
    input.

(** [cleanupPaneArtifacts]; the two tables of pane sizes are not part of
    the state here. *)
Definition cleanupPaneArtifacts (paneId : jsstring) (st : State) : State :=
  let st :=
    match tmuxPaneBootstrap st !! paneId with
    | Some bootstrap =>
        match flushTimer bootstrap with
        | Some t => clearTimeout t st
        | None => st
        end
    | None => st
    end in
  let st := set_tmuxHydrateStarted st (tmuxHydrateStarted st ∖ {[paneId]}) in
  let st :=
    {| paneWriters := paneWriters st ∖ {[paneId]};
       paneHistory := delete paneId (paneHistory st);
       tmuxPaneBootstrap := tmuxPaneBootstrap st;
       tmuxHydrateStarted := tmuxHydrateStarted st;
       tmuxCaptureQueues := tmuxCaptureQueues st;
       tmuxCaptureActive := tmuxCaptureActive st;
       timers := timers st; nextTimer := nextTimer st;
       written := written st; resolved := resolved st;
       ptyWrites := ptyWrites st |} in
  set_tmuxPaneBootstrap st (delete paneId (tmuxPaneBootstrap st)).

(** ** The pipe backend of the main process ([src/unnamed/part_000]) *)

(** [text.replace(/\r?\n/g, "\r\n")] *)
Fixpoint normalizeOutput (text : jsstring) : jsstring :=
  match text with
  | [] => []
  | c :: s' =>
      if decide (c = LF) then CR :: LF :: normalizeOutput s'
      else if decide (c = CR) then
        match s' with
        | c' :: s'' =>
            if decide (c' = LF) then CR :: LF :: normalizeOutput s''
            else c :: normalizeOutput s'
        | [] => [c]
        end
      else c :: normalizeOutput s'
  end.

(** ** Notions that the statements of Part II use *)

(** What tmux writes for the data of an [%output] line, and what
    [decodeTmuxEscapedText] is there to undo: a code unit below 32 and the
    backslash become a backslash and three octal digits, every other code
    unit is written as it is. *)
Definition tmuxEscape (data : jsstring) : jsstring :=
  flat_map
    (λ c, if (c <? 32) || (c =? BACKSLASH)
          then [BACKSLASH; 48 + c / 64; 48 + (c / 8) mod 8; 48 + c mod 8]
          else [c])
    data.

(** [[0-9a-f]] *)
Definition is_hex (c : N) : bool :=
  is_digit c || (97 <=? c) && (c <=? 102).

(** Every line feed of the text directly follows a carriage return. *)
Definition LF_follows_CR (s : jsstring) : Prop :=
  ∀ a b, s = a ++ LF :: b → last a = Some CR.

(** Every carriage return of the text is directly followed by a line
    feed. *)
Definition CR_precedes_LF (s : jsstring) : Prop :=
  ∀ a b, s = a ++ CR :: b → head b = Some LF.

(** The sum of the lengths of the chunks of a buffer. *)
Definition chunkBytes (chunks : list jsstring) : N :=
  foldr (λ chunk acc, strlen chunk + acc) 0 chunks.

(** What the writes keep true of a pane history: no chunk is empty, the
    byte count is the sum of the chunks' lengths, and it is within the
    cap unless the history is a single chunk. *)
Definition history_ok (h : PaneHistory.t) : Prop :=
  Forall (λ chunk, chunk ≠ []) (PaneHistory.chunks h)
  ∧ PaneHistory.totalBytes h = chunkBytes (PaneHistory.chunks h)
  ∧ (PaneHistory.totalBytes h <= MAX_PANE_HISTORY_BYTES
     ∨ length (PaneHistory.chunks h) = 1%nat).

(** The same of a bootstrap buffer, which is flushed as soon as it
    reaches its cap. *)
Definition bootstrap_ok (b : TmuxPaneBootstrapState) : Prop :=
  Forall (λ chunk, chunk ≠ []) (chunks b)
  ∧ totalBytes b = chunkBytes (chunks b)
  ∧ totalBytes b < MAX_TMUX_BOOTSTRAP_BUFFER_BYTES.

Definition buffers_ok (st : State) : Prop :=
  (∀ p h, paneHistory st !! p = Some h → history_ok h)
  ∧ (∀ p b, tmuxPaneBootstrap st !! p = Some b → bootstrap_ok b).

(** The chunks kept as the history of a pane. *)
Definition historyChunks (paneId : jsstring) (st : State) : list jsstring :=
  match paneHistory st !! paneId with
  | Some h => PaneHistory.chunks h
  | None => []
  end.

(** *** Events of the capture queue of one controller *)

Inductive CaptureEvent :=
| Request (tmuxPaneId : jsstring) (resolve : nat)
    (** a call of [captureTmuxPaneInBand] *)
| ControlLine (line : jsstring)
    (** a line of the control pty, handed to [handleTmuxControlLine] *)
| TimerFired (id : nat).

Section CaptureRun.

Variable dispatchLine : jsstring → jsstring → State → State.
Variable controlPtyId : jsstring.

Definition captureStep (st : State) (e : CaptureEvent) : State :=
  match e with
  | Request pane r => captureTmuxPaneInBand controlPtyId pane r st
  | ControlLine line => handleTmuxControlLine dispatchLine controlPtyId line st
  | TimerFired id => fireTimer id st
  end.

Definition captureRun (st : State) (events : list CaptureEvent) : State :=
  foldl captureStep st events.

End CaptureRun.

(** The requests made by a run, in order. *)
Definition requested (events : list CaptureEvent) : list nat :=
  flat_map (λ e, match e with Request _ r => [r] | _ => [] end) events.

(** The requests of a controller that are not yet resolved: the active
    one, then the queue. *)
Definition pendingIds (controlPtyId : jsstring) (st : State) : list nat :=
  (resolve <$> option_list (tmuxCaptureActive st !! controlPtyId))
  ++ (resolve <$> default [] (tmuxCaptureQueues st !! controlPtyId)).

(** Every pending timer has an id below the next one. *)
Definition fresh_timers (st : State) : Prop :=
  ∀ t cb, timers st !! t = Some cb → (t < nextTimer st)%nat.

(** A pane in bootstrap has its flush timer pending. *)
Definition flush_armed (st : State) (paneId : jsstring) : Prop :=
  ∀ b, tmuxPaneBootstrap st !! paneId = Some b →
    ∃ t, flushTimer b = Some t
         ∧ timers st !! t = Some (FlushBootstrapTimer paneId).

(** The active capture of a controller has its timeout pending. *)
Definition timeout_armed (st : State) (controlPtyId : jsstring) : Prop :=
  ∀ a, tmuxCaptureActive st !! controlPtyId = Some a →
    ∃ t, timeoutId a = Some t
         ∧ timers st !! t = Some (CaptureTimeoutTimer controlPtyId (resolve a)).

(** No request waits in the queue of an idle controller. *)
Definition no_idle_wait (st : State) (controlPtyId : jsstring) : Prop :=
  tmuxCaptureActive st !! controlPtyId = None →
  default [] (tmuxCaptureQueues st !! controlPtyId) = [].

Definition timers_ok (st : State) : Prop :=
  fresh_timers st
  ∧ (∀ p, flush_armed st p)
  ∧ (∀ c, timeout_armed st c)
  ∧ (∀ c, no_idle_wait st c).

(** *** The layout strings of tmux

    A cell of a window layout as tmux writes it: [WxH,X,Y,id] for a pane,
    [WxH,X,Y{cell,cell,...}] for cells side by side and
    [WxH,X,Y[cell,cell,...]] for cells one above the other. *)
#[local] Unset Elimination Schemes.
Inductive LayoutCell :=
| CellPane (w h x y id : N)
| CellRow (w h x y : N) (first : LayoutCell) (rest : list LayoutCell)
| CellStack (w h x y : N) (first : LayoutCell) (rest : list LayoutCell).
#[local] Set Elimination Schemes.

Definition printGeometry (w h x y : N) : jsstring :=
  decimalNumeral w ++ ch "x" :: decimalNumeral h
  ++ ch "," :: decimalNumeral x ++ ch "," :: decimalNumeral y.

Fixpoint printCell (c : LayoutCell) : jsstring :=
  match c with
  | CellPane w h x y id =>
      printGeometry w h x y ++ ch "," :: decimalNumeral id
  | CellRow w h x y first rest =>
      printGeometry w h x y ++ ch "{" :: printCell first
      ++ flat_map (λ c, ch "," :: printCell c) rest ++ [ch "}"]
  | CellStack w h x y first rest =>
      printGeometry w h x y ++ ch "[" :: printCell first
      ++ flat_map (λ c, ch "," :: printCell c) rest ++ [ch "]"]
  end.

(** What the parser is to make of a cell: its size as doubles, the pane
    id as the parser prints the double it has read, and the children
    folded from the left along their direction. *)
Fixpoint cellNode (c : LayoutCell) : Tmux.InternalLayoutNode :=
  match c with
  | CellPane w h _ _ id =>
      {| Tmux.width := f64_of_N w; Tmux.height := f64_of_N h;
         Tmux.node := Tmux.TPane (ch "%" :: Number_toString (f64_of_N id)) |}
  | CellRow w h _ _ first rest =>
      {| Tmux.width := f64_of_N w; Tmux.height := f64_of_N h;
         Tmux.node :=
           Tmux.node (fold_left (Tmux.foldStep horizontal)
                        (map cellNode rest) (cellNode first)) |}
  | CellStack w h _ _ first rest =>
      {| Tmux.width := f64_of_N w; Tmux.height := f64_of_N h;
         Tmux.node :=
           Tmux.node (fold_left (Tmux.foldStep vertical)
                        (map cellNode rest) (cellNode first)) |}
  end.

(** The numbers of the panes of a cell, from left to right and top to
    bottom. *)
Fixpoint cellIds (c : LayoutCell) : list N :=
  match c with
  | CellPane _ _ _ _ id => [id]
  | CellRow _ _ _ _ first rest | CellStack _ _ _ _ first rest =>
      cellIds first ++ flat_map cellIds rest
  end.

(** The tmux pane ids of a cell as its text has them, from left to right
    and top to bottom. *)
Fixpoint cellPanes (c : LayoutCell) : list jsstring :=
  match c with
  | CellPane _ _ _ _ id => [ch "%" :: decimalNumeral id]
  | CellRow _ _ _ _ first rest | CellStack _ _ _ _ first rest =>
      cellPanes first ++ flat_map cellPanes rest
  end.

(** The pane ids of a tmux layout tree. *)
Fixpoint tmuxPanes (n : Tmux.TmuxLayoutNode) : list jsstring :=
  match n with
  | Tmux.TPane id => [id]
  | Tmux.TSplit _ _ a b => tmuxPanes a ++ tmuxPanes b
  end.

(** [parseCell] reads the cell [c] wherever its text stands in the input
    in front of something that is not a digit, given fuel for its code
    units. *)
Definition parses_cell (input : jsstring) (c : LayoutCell) : Prop :=
  ∀ (idx : nat) (post : jsstring) (fuel : nat),
    drop idx input = printCell c ++ post →
    (∀ c0, head post = Some c0 → is_digit c0 = false) →
    (length (printCell c) ≤ fuel)%nat →
    Tmux.parseCell input fuel idx
    = Tmux.Ok (cellNode c) (idx + length (printCell c))%nat.

(** [registerWriter]: the writer of the pane is set, and it is handed the
    chunks of the history kept for the pane. *)
Definition registerWriter (paneId : jsstring) (st : State) : State :=
  {| paneWriters := paneWriters st ∪ {[paneId]};
     paneHistory := paneHistory st;
     tmuxPaneBootstrap := tmuxPaneBootstrap st;
     tmuxHydrateStarted := tmuxHydrateStarted st;
     tmuxCaptureQueues := tmuxCaptureQueues st;
     tmuxCaptureActive := tmuxCaptureActive st;
     timers := timers st; nextTimer := nextTimer st;
     written := written st ++ calls paneId (historyChunks paneId st);
     resolved := resolved st;
     ptyWrites := ptyWrites st |}.

(** A state without its writers and without the record of their calls. *)
Definition withoutWriters (st : State) : State :=
  {| paneWriters := ∅;
     paneHistory := paneHistory st;
     tmuxPaneBootstrap := tmuxPaneBootstrap st;
     tmuxHydrateStarted := tmuxHydrateStarted st;
     tmuxCaptureQueues := tmuxCaptureQueues st;
     tmuxCaptureActive := tmuxCaptureActive st;
     timers := timers st; nextTimer := nextTimer st;
     written := [];
     resolved := resolved st;
     ptyWrites := ptyWrites st |}.
(* ===================================================================== *)
(** * Part II: theorems                                                   *)
(* ===================================================================== *)

(** ** Facts on binary64 comparison, [Math.min] and [Math.max] *)

Section NumberFacts.

Lemma SFcompare_antisym (a b : number) :
  SFcompare b a = CompOpp <$> SFcompare a b.
Proof.
  destruct a as [sa|sa| |sa ma ea], b as [sb|sb| |sb mb eb]; simpl;
    try reflexivity; try (destruct sa; reflexivity);
    try (destruct sb; reflexivity);
    try (destruct sa, sb; reflexivity).
  destruct sa, sb; simpl; try reflexivity;
    rewrite (Z.compare_antisym ea eb);
    destruct (ea ?= eb)%Z; simpl; try reflexivity;
    change (PosDef.Pos.compare_cont Eq mb ma) with (Pos.compare mb ma);
    change (PosDef.Pos.compare_cont Eq ma mb) with (Pos.compare ma mb);
    rewrite (Pos.compare_antisym ma mb); destruct (ma ?= mb)%positive;
    reflexivity.
Qed.

Lemma SFcompare_Eq_finite (a b : number) s m e :
  a = S754_finite s m e → SFcompare a b = Some Eq → b = a.
Proof.
  intros -> H. destruct b as [sb|sb| |sb mb eb]; simpl in H;
    try (destruct s; discriminate); try (destruct sb; discriminate);
    try discriminate.
  destruct s, sb; try discriminate;
    destruct (e ?= eb)%Z eqn:He; try discriminate;
    apply Z.compare_eq in He; subst eb;
    change (PosDef.Pos.compare_cont Eq m mb) with (Pos.compare m mb) in H;
    destruct (m ?= mb)%positive eqn:Hm; try discriminate;
    apply Pos.compare_eq in Hm; subst mb; reflexivity.
Qed.

Lemma SFcompare_None (a b : number) :
  SFcompare a b = None ↔ isNaN a || isNaN b = true.
Proof.
  destruct a as [sa|sa| |sa ma ea], b as [sb|sb| |sb mb eb]; simpl;
    split; intros H; try reflexivity; try discriminate.
Qed.

Lemma f64_le_of_Lt a b : SFcompare a b = Some Lt → f64_le a b = true.
Proof. unfold f64_le, SFleb. intros ->. reflexivity. Qed.

Lemma f64_le_of_Gt a b : SFcompare a b = Some Gt → f64_le b a = true.
Proof.
  unfold f64_le, SFleb. intros H.
  rewrite SFcompare_antisym, H. reflexivity.
Qed.

Lemma f64_le_not_nan a b : f64_le a b = true → isNaN a = false ∧ isNaN b = false.
Proof.
  unfold f64_le, SFleb. destruct (SFcompare a b) eqn:H; [|discriminate].
  intros _. destruct a, b; simpl in *; try discriminate; auto.
Qed.

(** [clampRatio] on an argument that is not NaN, by the position of the
    argument relative to the two bounds. *)
Lemma clampRatio_cases (x : number) :
  isNaN x = false →
  (SFcompare x f0_1 = Some Lt ∧ clampRatio x = f0_1)
  ∨ (SFcompare f0_9 x = Some Lt ∧ clampRatio x = f0_9)
  ∨ (f64_le f0_1 x = true ∧ f64_le x f0_9 = true ∧ clampRatio x = x).
Proof.
  intros Hn. unfold clampRatio. rewrite Hn. unfold Math_min.
  destruct (SFcompare f0_9 x) as [[]|] eqn:H9.
  - (* x = 0.9 *)
    apply (SFcompare_Eq_finite _ _ _ _ _ eq_refl) in H9. subst x.
    right; right. vm_compute. auto.
  - (* 0.9 < x *)
    right; left. split; [reflexivity|]. reflexivity.
  - (* x < 0.9 *)
    unfold Math_max. destruct (SFcompare f0_1 x) as [[]|] eqn:H1.
    + apply (SFcompare_Eq_finite _ _ _ _ _ eq_refl) in H1. subst x.
      right; right. vm_compute. auto.
    + right; right. split; [by apply f64_le_of_Lt|].
      split; [by apply f64_le_of_Gt|reflexivity].
    + left. split; [|reflexivity].
      rewrite SFcompare_antisym, H1. reflexivity.
    + apply SFcompare_None in H1. simpl in H1. congruence.
  - apply SFcompare_None in H9. simpl in H9. congruence.
Qed.

(** A number above 0.9 is above 0.1. *)
Lemma above_f0_9_above_f0_1 (r : number) :
  SFcompare f0_9 r = Some Lt → SFcompare f0_1 r = Some Lt.
Proof.
  destruct r as [s|s| |s m e]; unfold f0_9, f0_1, SFcompare;
    try discriminate.
  - destruct s; [discriminate|reflexivity].
  - destruct s; [discriminate|].
    intros H.
    assert (-53 <= e)%Z as Hle.
    { destruct (Z.compare_spec (-53) e) as [E|E|E]; [lia|lia|discriminate]. }
    assert ((-56 ?= e)%Z = Lt) as -> by (rewrite Z.compare_lt_iff; lia).
    reflexivity.
Qed.

Lemma clampRatio_in_range (x : number) : in_ratio_range (clampRatio x) = true.
Proof.
  destruct (isNaN x) eqn:Hn.
  - unfold clampRatio. rewrite Hn. reflexivity.
  - destruct (clampRatio_cases x Hn) as [[_ ->]|[[_ ->]|(H1 & H9 & ->)]];
      try reflexivity.
    unfold in_ratio_range. rewrite H1, H9. reflexivity.
Qed.

Lemma clampRatio_id (x : number) :
  in_ratio_range x = true → clampRatio x = x.
Proof.
  unfold in_ratio_range. intros [H1 H9]%andb_true_iff.
  destruct (f64_le_not_nan _ _ H1) as [_ Hn].
  destruct (clampRatio_cases x Hn) as [[Hlt E]|[[Hlt E]|(_ & _ & E)]];
    [| |exact E].
  - unfold f64_le, SFleb in H1. rewrite SFcompare_antisym, Hlt in H1.
    discriminate.
  - unfold f64_le, SFleb in H9. rewrite SFcompare_antisym, Hlt in H9.
    discriminate.
Qed.

End NumberFacts.

(** ** Whole numbers as doubles

    Below 2^53 a whole number is a double, and sums of such numbers are
    exact as long as they stay below 2^53. *)

Section DoubleFacts.

Local Open Scope Z_scope.

Lemma digits2_pos_iter_xO (p : positive) (k : positive) :
  digits2_pos (Pos.iter xO p k) = (digits2_pos p + k)%positive.
Proof.
  induction k as [|k IH] using Pos.peano_ind.
  - cbn. lia.
  - rewrite Pos.iter_succ. cbn [digits2_pos]. rewrite IH. lia.
Qed.

Lemma Zpos_iter_xO (p k : positive) :
  Zpos (Pos.iter xO p k) = Zpos p * 2 ^ Zpos k.
Proof.
  induction k as [|k IH] using Pos.peano_ind.
  - cbn. lia.
  - rewrite Pos.iter_succ, Pos2Z.inj_succ, Z.pow_succ_r by lia.
    rewrite Pos2Z.inj_xO, IH. lia.
Qed.

(** [digits2_pos p] is the number of bits of [p]. *)
Lemma digits2_pos_bound (p : positive) :
  2 ^ (Zpos (digits2_pos p) - 1) <= Zpos p < 2 ^ Zpos (digits2_pos p).
Proof.
  induction p as [p IH|p IH|]; cbn [digits2_pos].
  - rewrite Pos2Z.inj_succ, Z.pow_succ_r by lia.
    replace (Z.succ (Zpos (digits2_pos p)) - 1)
      with (Z.succ (Zpos (digits2_pos p) - 1)) by lia.
    rewrite Z.pow_succ_r by lia. lia.
  - rewrite Pos2Z.inj_succ, Z.pow_succ_r by lia.
    replace (Z.succ (Zpos (digits2_pos p)) - 1)
      with (Z.succ (Zpos (digits2_pos p) - 1)) by lia.
    rewrite Z.pow_succ_r by lia. lia.
  - cbn. lia.
Qed.

Lemma digits2_pos_le_53 (n : positive) :
  Zpos n < 2 ^ 53 → Zpos (digits2_pos n) <= 53.
Proof.
  intros Hn. pose proof (digits2_pos_bound n) as Hb.
  destruct (Z.le_gt_cases (Zpos (digits2_pos n)) 53) as [|Hgt]; [assumption|].
  assert (2 ^ 53 <= 2 ^ (Zpos (digits2_pos n) - 1))
    by (apply Z.pow_le_mono_r; lia).
  lia.
Qed.

(** A mantissa of 53 bits with an exponent in range is left as it is. *)
Lemma binary_round_aux_canonical (s : bool) (m : positive) (e : Z) :
  Zpos (digits2_pos m) = 53 → -1074 <= e <= 971 →
  binary_round_aux 53 1024 s (Zpos m) e loc_Exact = S754_finite s m e.
Proof.
  intros Hd He. unfold binary_round_aux, shr_fexp.
  cbn [Zdigits2 shr_record_of_loc]. rewrite Hd.
  unfold fexp, emin.
  replace (Z.max (53 + e - 53) (3 - 1024 - 53) - e) with 0 by lia.
  cbn [shr shr_m loc_of_shr_record round_nearest_even Zdigits2
       shr_record_of_loc].
  rewrite Hd.
  replace (Z.max (53 + e - 53) (3 - 1024 - 53) - e) with 0 by lia.
  cbn [shr shr_m].
  destruct (Z.leb_spec e (1024 - 53)); [reflexivity|lia].
Qed.

Lemma iter_pos_nat {A} (f : A → A) (p : positive) : ∀ x,
  SpecFloat.iter_pos f p x = Nat.iter (Pos.to_nat p) f x.
Proof.
  induction p as [p IH|p IH|]; intros x; cbn [SpecFloat.iter_pos].
  - rewrite !IH. rewrite Pos2Nat.inj_xI.
    replace (S (2 * Pos.to_nat p))%nat
      with (Pos.to_nat p + (Pos.to_nat p + 1))%nat by lia.
    rewrite !Nat.iter_add. reflexivity.
  - rewrite !IH. rewrite Pos2Nat.inj_xO.
    replace (2 * Pos.to_nat p)%nat
      with (Pos.to_nat p + Pos.to_nat p)%nat by lia.
    rewrite Nat.iter_add. reflexivity.
  - reflexivity.
Qed.

Lemma shr_1_even (z : Z) :
  0 < z →
  shr_1 {| shr_m := 2 * z; shr_r := false; shr_s := false |}
  = {| shr_m := z; shr_r := false; shr_s := false |}.
Proof. destruct z as [|p|p]; [lia| |lia]. reflexivity. Qed.

(** Shifting out bits that are zero loses nothing. *)
Lemma iter_shr_1_exact (q : nat) : ∀ z,
  0 < z →
  Nat.iter q shr_1
    {| shr_m := z * 2 ^ Z.of_nat q; shr_r := false; shr_s := false |}
  = {| shr_m := z; shr_r := false; shr_s := false |}.
Proof.
  induction q as [|q IH]; intros z Hz.
  - cbn [Nat.iter]. change (Z.of_nat 0) with 0.
    rewrite Z.pow_0_r, Z.mul_1_r. reflexivity.
  - rewrite Nat.iter_succ_r.
    replace (z * 2 ^ Z.of_nat (S q)) with (2 * (z * 2 ^ Z.of_nat q))
      by (rewrite Nat2Z.inj_succ, Z.pow_succ_r by lia; lia).
    rewrite shr_1_even
      by (apply Z.mul_pos_pos; [lia|apply Z.pow_pos_nonneg; lia]).
    apply IH, Hz.
Qed.

Lemma Zdigits2_mul_pow2 (n : positive) (k : Z) :
  0 <= k →
  ∃ M : positive, Zpos M = Zpos n * 2 ^ k
    ∧ Zpos (digits2_pos M) = Zpos (digits2_pos n) + k.
Proof.
  intros Hk. destruct k as [|k|k]; [| |lia].
  - exists n. split; lia.
  - exists (Pos.iter xO n k). split; [apply Zpos_iter_xO|].
    rewrite digits2_pos_iter_xO. lia.
Qed.

Lemma Zpos_inj (M M' : positive) : Zpos M = Zpos M' → M = M'.
Proof. congruence. Qed.

(** Rounding a number that fits the mantissa is exact: [M * 2^ez] with
    [M = n * 2^k] and [n] of [d <= 53] bits is the double with the
    mantissa [n * 2^(53-d)] and the exponent [ez + k - (53 - d)]. *)
Lemma binary_round_exact (s : bool) (M n : positive) (ez k : Z) :
  0 <= k → Zpos M = Zpos n * 2 ^ k →
  let d := Zpos (digits2_pos n) in
  d <= 53 → -1074 <= ez + k - (53 - d) <= 971 →
  binary_round 53 1024 s M ez
  = S754_finite s (Z.to_pos (Zpos n * 2 ^ (53 - d))) (ez + k - (53 - d)).
Proof.
  intros Hk HM d Hd He.
  destruct (Zdigits2_mul_pow2 n k Hk) as (M' & HM' & HdM).
  assert (M' = M) as -> by (apply Zpos_inj; lia). clear HM'.
  destruct (Zdigits2_mul_pow2 n (53 - d) ltac:(lia)) as (C & HC & HdC).
  fold d in HdM, HdC.
  rewrite <- HC. cbn [Z.to_pos].
  unfold binary_round. rewrite HdM. unfold fexp at 1, emin.
  replace (Z.max (d + k + ez - 53) (3 - 1024 - 53)) with (d + k + ez - 53)
    by lia.
  unfold shl_align.
  destruct (d + k + ez - 53 - ez) as [|q|q] eqn:Eq.
  - (* the mantissa has 53 bits *)
    assert (C = M) as ->
        by (apply Zpos_inj; rewrite HC, HM; f_equal; f_equal; lia).
    replace (ez + k - (53 - d)) with ez by lia.
    apply binary_round_aux_canonical; lia.
  - (* more than 53 bits, the low ones are zero *)
    unfold binary_round_aux, shr_fexp. cbn [Zdigits2 shr_record_of_loc].
    rewrite HdM. unfold fexp, emin.
    replace (Z.max (d + k + ez - 53) (3 - 1024 - 53) - ez) with (Zpos q)
      by lia.
    cbn [shr]. rewrite iter_pos_nat.
    replace (Zpos M) with (Zpos C * 2 ^ Z.of_nat (Pos.to_nat q)).
    2:{ rewrite positive_nat_Z, HC, HM, <- Z.mul_assoc, <- Z.pow_add_r
          by lia.
        f_equal. f_equal. lia. }
    rewrite iter_shr_1_exact by lia.
    cbn [shr_m loc_of_shr_record round_nearest_even Zdigits2
         shr_record_of_loc].
    replace (digits2_pos C) with 53%positive by lia.
    replace (Z.max (53 + (ez + Zpos q) - 53) (3 - 1024 - 53) - (ez + Zpos q))
      with 0 by lia.
    cbn [shr shr_m].
    replace (ez + k - (53 - d)) with (ez + Zpos q) by lia.
    destruct (Z.leb_spec (ez + Zpos q) (1024 - 53)); [reflexivity|lia].
  - (* fewer than 53 bits: shifted to the left *)
    assert (Pos.iter xO M q = C) as ->.
    { apply Zpos_inj.
      rewrite Zpos_iter_xO, HC, HM, <- Z.mul_assoc, <- Z.pow_add_r by lia.
      f_equal. f_equal. lia. }
    replace (ez + k - (53 - d)) with (d + k + ez - 53) by lia.
    apply binary_round_aux_canonical; lia.
Qed.

(** The double of a whole number [n] below 2^53, of [d] bits: the
    mantissa is [n * 2^(53-d)] and the exponent [d - 53]. *)
Lemma f64_of_N_exact (n : positive) :
  Zpos n < 2 ^ 53 →
  let d := Zpos (digits2_pos n) in
  f64_of_N (Npos n)
  = S754_finite false (Z.to_pos (Zpos n * 2 ^ (53 - d))) (d - 53).
Proof.
  intros Hn d. unfold f64_of_N. cbn [Z.of_N binary_normalize].
  pose proof (digits2_pos_le_53 n Hn) as Hd. fold d in Hd.
  rewrite (binary_round_exact false n n 0 0); fold d; try lia.
  f_equal. lia.
Qed.

Lemma shl_align_fst (m : positive) (e e' : Z) :
  e' <= e → Zpos (fst (shl_align m e e')) = Zpos m * 2 ^ (e - e').
Proof.
  intros H. unfold shl_align. destruct (e' - e) as [|q|q] eqn:E; cbn [fst].
  - replace (e - e') with 0 by lia. lia.
  - lia.
  - rewrite Zpos_iter_xO. f_equal. f_equal. lia.
Qed.

(** Below 2^53 the sum of two whole numbers is exact. *)
Lemma f64_add_exact (a b : N) :
  (a + b < 2 ^ 53)%N →
  f64_add (f64_of_N a) (f64_of_N b) = f64_of_N (a + b).
Proof.
  intros H. unfold f64_add. destruct a as [|a].
  { destruct b as [|b]; [reflexivity|]. rewrite N.add_0_l.
    change (f64_of_N 0) with (S754_zero false).
    rewrite f64_of_N_exact by lia. reflexivity. }
  destruct b as [|b].
  { rewrite N.add_0_r. change (f64_of_N 0) with (S754_zero false).
    rewrite f64_of_N_exact by lia. reflexivity. }
  assert (Zpos a < 2 ^ 53 ∧ Zpos b < 2 ^ 53 ∧ Zpos (a + b) < 2 ^ 53)
    as (Ha & Hb & Hab) by lia.
  rewrite (f64_of_N_exact a Ha), (f64_of_N_exact b Hb).
  change (N.pos a + N.pos b)%N with (N.pos (a + b)).
  pose proof (digits2_pos_le_53 a Ha) as Hda.
  pose proof (digits2_pos_le_53 b Hb) as Hdb.
  pose proof (digits2_pos_le_53 (a + b) Hab) as Hdab.
  set (da := Zpos (digits2_pos a)) in *.
  set (db := Zpos (digits2_pos b)) in *.
  destruct (Zdigits2_mul_pow2 a (53 - da) ltac:(lia)) as (A & HA & _).
  destruct (Zdigits2_mul_pow2 b (53 - db) ltac:(lia)) as (B & HB & _).
  rewrite <- HA, <- HB. cbn [Z.to_pos].
  cbn [SFadd cond_Zopp].
  set (ez := Z.min (da - 53) (db - 53)).
  pose proof (shl_align_fst A (da - 53) ez ltac:(lia)) as EA.
  pose proof (shl_align_fst B (db - 53) ez ltac:(lia)) as EB.
  destruct (shl_align A (da - 53) ez) as [A' ?],
    (shl_align B (db - 53) ez) as [B' ?].
  cbn [fst] in *.
  change (Zpos A' + Zpos B') with (Zpos (A' + B')). cbn [binary_normalize].
  rewrite (binary_round_exact false (A' + B') (a + b) ez (- ez)); try lia.
  - rewrite (f64_of_N_exact (a + b) Hab). f_equal. lia.
  - rewrite Pos2Z.inj_add, EA, EB, HA, HB.
    rewrite <- !Z.mul_assoc, <- !Z.pow_add_r by lia.
    replace (53 - da + (da - 53 - ez)) with (- ez) by lia.
    replace (53 - db + (db - 53 - ez)) with (- ez) by lia.
    lia.
Qed.

(** [Math.max(1, n)] on a whole number below 2^53. *)
Lemma Math_max_one_whole (n : N) :
  (n < 2 ^ 53)%N →
  Math_max (f64_of_N 1) (f64_of_N n) = f64_of_N (N.max 1 n).
Proof.
  intros Hn. destruct n as [|p]; [reflexivity|].
  destruct (decide (p = 1%positive)) as [->|Hp]; [reflexivity|].
  rewrite N.max_r by lia.
  assert (Zpos p < 2 ^ 53) as Hp' by lia.
  rewrite (f64_of_N_exact p Hp'). cbv zeta.
  pose proof (digits2_pos_bound p) as Hb.
  assert (2 <= Zpos (digits2_pos p)) as Hd.
  { destruct (Z.le_gt_cases 2 (Zpos (digits2_pos p))) as [|Hlt]; [assumption|].
    assert (Zpos (digits2_pos p) = 1) as E by lia. rewrite E in Hb. lia. }
  unfold Math_max. change (f64_of_N 1)
    with (S754_finite false 4503599627370496 (-52)).
  cbn [SFcompare].
  assert ((-52 ?= Zpos (digits2_pos p) - 53) = Lt) as ->
      by (apply Z.compare_lt_iff; lia).
  reflexivity.
Qed.

(** [Math.max(1, x)] is [x] when [1 <= x]. *)
Lemma Math_max_one_le (x : number) :
  f64_le (f64_of_N 1) x = true → Math_max (f64_of_N 1) x = x.
Proof.
  unfold f64_le, SFleb, Math_max.
  destruct (SFcompare (f64_of_N 1) x) as [[]|] eqn:E; try discriminate.
  - intros _. apply (SFcompare_Eq_finite _ _ _ _ _ eq_refl) in E.
    rewrite E. reflexivity.
  - reflexivity.
Qed.

End DoubleFacts.

(** ** The layout tree *)

Section LayoutFacts.

Implicit Types (L : LayoutNode) (p q : jsstring).

Lemma collectPaneIds_nonempty L : collectPaneIds L ≠ [].
Proof.
  induction L as [q|d r a IHa b IHb]; simpl; [discriminate|].
  intros [H _]%app_eq_nil. contradiction.
Qed.

Lemma remove_pane_spec_leaves L p :
  leaves (remove_pane_spec L p) = filter (λ q, q ≠ p) (collectPaneIds L).
Proof.
  induction L as [q|d r a IHa b IHb]; simpl.
  - rewrite filter_cons. destruct (decide (q = p)) as [->|Hne]; simpl.
    + rewrite decide_False by auto. reflexivity.
    + rewrite decide_True by auto. reflexivity.
  - rewrite filter_app, <- IHa, <- IHb.
    destruct (remove_pane_spec a p), (remove_pane_spec b p); simpl;
      rewrite ?app_nil_r; reflexivity.
Qed.

Lemma remove_pane_spec_absent L p :
  p ∉ collectPaneIds L → remove_pane_spec L p = Some L.
Proof.
  induction L as [q|d r a IHa b IHb]; simpl; intros Hp.
  - rewrite decide_False; [reflexivity|]. set_solver.
  - rewrite IHa, IHb by set_solver. reflexivity.
Qed.

(** The two results of [removePaneRec]: the node is the specified one,
    and the flag tells whether the pane occurred. *)
Lemma removePaneRec_spec L p :
  node (removePaneRec L p) = remove_pane_spec L p
  ∧ removed (removePaneRec L p) = bool_decide (p ∈ collectPaneIds L).
Proof.
  induction L as [q|d r a [IHa1 IHa2] b [IHb1 IHb2]]; simpl.
  - destruct (decide (q = p)) as [->|Hne]; simpl.
    + split; [reflexivity|]. symmetry. apply bool_decide_eq_true.
      apply list_elem_of_singleton. reflexivity.
    + split; [reflexivity|]. symmetry. apply bool_decide_eq_false.
      rewrite list_elem_of_singleton. auto.
  - rewrite IHa2, IHb2, IHa1, IHb1.
    assert (bool_decide (p ∈ collectPaneIds a ++ collectPaneIds b)
            = bool_decide (p ∈ collectPaneIds a)
              || bool_decide (p ∈ collectPaneIds b)) as ->.
    { apply eq_true_iff_eq.
      rewrite orb_true_iff, !bool_decide_eq_true, elem_of_app. tauto. }
    destruct (decide (p ∈ collectPaneIds a)) as [Ha|Ha],
             (decide (p ∈ collectPaneIds b)) as [Hb|Hb];
      rewrite ?(bool_decide_eq_true_2 _ Ha), ?(bool_decide_eq_true_2 _ Hb),
        ?(bool_decide_eq_false_2 _ Ha), ?(bool_decide_eq_false_2 _ Hb);
      simpl.
    + destruct (remove_pane_spec a p), (remove_pane_spec b p);
        split; reflexivity.
    + destruct (remove_pane_spec a p), (remove_pane_spec b p);
        split; reflexivity.
    + destruct (remove_pane_spec a p), (remove_pane_spec b p);
        split; reflexivity.
    + rewrite !remove_pane_spec_absent by assumption. split; reflexivity.
Qed.

Lemma removePaneFromLayout_spec L p :
  removePaneFromLayout L p = remove_pane_spec L p.
Proof. apply removePaneRec_spec. Qed.

Lemma removePaneFromLayout_None L p :
  removePaneFromLayout L p = None ↔ ∀ q, q ∈ collectPaneIds L → q = p.
Proof.
  rewrite removePaneFromLayout_spec.
  pose proof (remove_pane_spec_leaves L p) as Hl. split.
  - intros HN q Hq. rewrite HN in Hl. simpl in Hl.
    destruct (decide (q = p)) as [|Hne]; [assumption|].
    assert (q ∈ filter (λ q, q ≠ p) (collectPaneIds L)) as Hin
        by (apply list_elem_of_filter; auto).
    rewrite <- Hl in Hin. set_solver.
  - intros Hall. destruct (remove_pane_spec L p) as [L'|] eqn:E; [|reflexivity].
    simpl in Hl. exfalso.
    destruct (collectPaneIds L') as [|q l] eqn:El.
    + by apply (collectPaneIds_nonempty L').
    + assert (q ∈ filter (λ q, q ≠ p) (collectPaneIds L)) as Hin
          by (rewrite <- Hl; set_solver).
      apply list_elem_of_filter in Hin as [Hne Hq]. auto.
Qed.

Lemma all_leaves_NoDup_single L p :
  NoDup (collectPaneIds L) → (∀ q, q ∈ collectPaneIds L → q = p) → L = Pane p.
Proof.
  destruct L as [q|d r a b]; simpl; intros Hnd Hall.
  - f_equal. apply Hall. set_solver.
  - exfalso.
    destruct (collectPaneIds a) as [|x la] eqn:Ea;
      [by apply (collectPaneIds_nonempty a)|].
    destruct (collectPaneIds b) as [|y lb] eqn:Eb;
      [by apply (collectPaneIds_nonempty b)|].
    assert (x = p) by (apply Hall; set_solver).
    assert (y = p) by (apply Hall; set_solver). subst x y.
    apply NoDup_app in Hnd as (_ & Hdis & _).
    apply (Hdis p); set_solver.
Qed.

Lemma splitLayoutAtPane_absent L target d new :
  target ∉ collectPaneIds L → splitLayoutAtPane L target d new = L.
Proof.
  induction L as [q|d' r a IHa b IHb]; simpl; intros Hp.
  - rewrite decide_True; [reflexivity|]. set_solver.
  - rewrite IHa, IHb by set_solver. reflexivity.
Qed.

Lemma splitLayoutAtPane_panes L target d new :
  collectPaneIds (splitLayoutAtPane L target d new)
  = flat_map (λ q, if decide (q = target) then [q; new] else [q])
             (collectPaneIds L).
Proof.
  induction L as [q|d' r a IHa b IHb]; simpl.
  - destruct (decide (q = target)) as [->|Hne].
    + rewrite decide_False by auto. reflexivity.
    + rewrite decide_True by auto. reflexivity.
  - rewrite flat_map_app, IHa, IHb. reflexivity.
Qed.

Lemma preserveSplitRatios_same L :
  all_ratios (λ r, in_ratio_range r = true) L → preserveSplitRatios L L = L.
Proof.
  induction L as [q|d r a IHa b IHb]; simpl; [reflexivity|].
  intros (Hr & Ha & Hb).
  rewrite decide_False by auto.
  rewrite clampRatio_id, IHa, IHb by assumption. reflexivity.
Qed.

Lemma updateSplitRatioAtPath_in_range L (path : jsstring) (x : number) :
  all_ratios (λ r, in_ratio_range r = true) L →
  all_ratios (λ r, in_ratio_range r = true) (updateSplitRatioAtPath L path x).
Proof.
  revert L. induction path as [|head path IH]; intros [q|d r a b]; cbn;
    try tauto.
  - intros (_ & Ha & Hb). split; [apply clampRatio_in_range|tauto].
  - intros (Hr & Ha & Hb).
    destruct (decide (head = ch "L")); [cbn; repeat split; auto|].
    destruct (decide (head = ch "R")); cbn; repeat split; auto.
Qed.

Lemma preserveSplitRatios_in_range (prev next : LayoutNode) :
  all_ratios (λ r, in_ratio_range r = true) next →
  all_ratios (λ r, in_ratio_range r = true) (preserveSplitRatios prev next).
Proof.
  revert next. induction prev as [q|pd pr pa IHa pb IHb];
    intros [nq|nd nr na nb]; cbn; try tauto.
  intros (Hr & Ha & Hb). destruct (decide (pd ≠ nd)); cbn; [tauto|].
  split; [apply clampRatio_in_range|]. split; auto.
Qed.

End LayoutFacts.

(** ** Claims on the layout tree and on ratios *)

(** Scenario 2 of the specification: the collapse of
    [Split(vertical, 0.3, Pane a, Split(horizontal, 0.7, Pane b, Pane c))]. *)
Example remove_pane_scenario :
  let a := js "a" in let b := js "b" in let c := js "c" in
  removePaneFromLayout
    (Split vertical f0_3 (Pane a) (Split horizontal f0_7 (Pane b) (Pane c))) b
  = Some (Split vertical f0_3 (Pane a) (Pane c))
  ∧ removePaneFromLayout (Split vertical f0_3 (Pane a) (Pane c)) a = Some (Pane c)
  ∧ removePaneFromLayout (Pane c) c = None.
Proof. repeat split. Qed.

(** C6, as stated, fails: the result is [None] for a tree that is not the
    single leaf [Pane p], namely a split whose two leaves are both [p]. *)
Lemma C6_counterexample :
  let p := js "p" in
  let L := Split horizontal f0_5 (Pane p) (Pane p) in
  removePaneFromLayout L p = None ∧ L ≠ Pane p.
Proof. split; [reflexivity|discriminate]. Qed.

(** C6 (amended): [removePaneFromLayout L p] removes every leaf [p]
    recursively: a leaf [p] vanishes and another leaf stays; a split keeps
    its direction and ratio over the two results when both children
    survive, collapses to the surviving child when exactly one survives,
    and vanishes when none does.  The leaves of the result are the leaves
    of [L] other than [p], in order.  The result is [None] exactly when
    every leaf of [L] is [p]; for a tree without a repeated pane id that is
    exactly when [L] is the single leaf [Pane p].  If [p] does not occur in
    [L], the result is [L]. *)
Theorem C6_remove_pane (L : LayoutNode) (p : jsstring) :
  removePaneFromLayout L p = remove_pane_spec L p
  ∧ leaves (removePaneFromLayout L p) = filter (λ q, q ≠ p) (collectPaneIds L)
  ∧ (removePaneFromLayout L p = None ↔ ∀ q, q ∈ collectPaneIds L → q = p)
  ∧ (NoDup (collectPaneIds L) →
     (removePaneFromLayout L p = None ↔ L = Pane p))
  ∧ (p ∉ collectPaneIds L → removePaneFromLayout L p = Some L).
Proof.
  split; [apply removePaneFromLayout_spec|].
  split; [rewrite removePaneFromLayout_spec; apply remove_pane_spec_leaves|].
  split; [apply removePaneFromLayout_None|].
  split.
  - intros Hnd. rewrite removePaneFromLayout_None. split.
    + apply all_leaves_NoDup_single, Hnd.
    + intros -> q Hq. simpl in Hq. by apply list_elem_of_singleton in Hq.
  - intros Hp. rewrite removePaneFromLayout_spec.
    by apply remove_pane_spec_absent.
Qed.

(** A witness of C6 at the tree of scenario 2, whose leaves are distinct:
    removing an absent pane changes nothing, and removing [a] does not
    give [None] because the tree is not the single leaf [a]. *)
Lemma C6_witness :
  let L := Split vertical f0_3 (Pane (js "a"))
             (Split horizontal f0_7 (Pane (js "b")) (Pane (js "c"))) in
  removePaneFromLayout L (js "d") = Some L
  ∧ removePaneFromLayout L (js "a") ≠ None.
Proof.
  intros L. split.
  - destruct (C6_remove_pane L (js "d")) as (_ & _ & _ & _ & H).
    apply H. apply (bool_decide_unpack _). vm_compute. exact I.
  - destruct (C6_remove_pane L (js "a")) as (_ & _ & _ & H & _).
    intros HN. apply H in HN; [discriminate HN|].
    apply (bool_decide_unpack _). vm_compute. exact I.
Defined.

(** Scenario 1 of the specification. *)
Example split_at_scenario :
  let p1 := js "p1" in let p2 := js "p2" in
  splitLayoutAtPane (Pane p1) p1 horizontal p2
  = Split horizontal f0_5 (Pane p1) (Pane p2)
  ∧ collectPaneIds (splitLayoutAtPane (Pane p1) p1 horizontal p2) = [p1; p2].
Proof. split; reflexivity. Qed.

(** C7: [splitLayoutAtPane L target d new] replaces the leaf [Pane target]
    by [Split d 0.5 (Pane target) (Pane new)], keeps every other leaf and
    the direction and ratio of every split; when [target] does not occur
    in [L] the result is [L]. *)
Theorem C7_split_at (L : LayoutNode) (target new : jsstring) (d : SplitDirection) :
  splitLayoutAtPane (Pane target) target d new
  = Split d f0_5 (Pane target) (Pane new)
  ∧ (∀ q, q ≠ target → splitLayoutAtPane (Pane q) target d new = Pane q)
  ∧ (∀ d' r a b,
       splitLayoutAtPane (Split d' r a b) target d new
       = Split d' r (splitLayoutAtPane a target d new)
                    (splitLayoutAtPane b target d new))
  ∧ collectPaneIds (splitLayoutAtPane L target d new)
    = flat_map (λ q, if decide (q = target) then [q; new] else [q])
               (collectPaneIds L)
  ∧ (target ∉ collectPaneIds L → splitLayoutAtPane L target d new = L).
Proof.
  split.
  { simpl. rewrite decide_False by auto. reflexivity. }
  split.
  { intros q Hq. simpl. rewrite decide_True by auto. reflexivity. }
  split; [reflexivity|].
  split; [apply splitLayoutAtPane_panes|apply splitLayoutAtPane_absent].
Qed.

(** A witness of C7: splitting at the absent pane [d] changes nothing,
    and the leaf [b] of a three-pane tree is replaced in place. *)
Lemma C7_witness :
  let L := Split vertical f0_3 (Pane (js "a"))
             (Split horizontal f0_7 (Pane (js "b")) (Pane (js "c"))) in
  splitLayoutAtPane L (js "d") horizontal (js "n") = L
  ∧ collectPaneIds (splitLayoutAtPane L (js "b") horizontal (js "n"))
    = [js "a"; js "b"; js "n"; js "c"].
Proof.
  intros L. split.
  - destruct (C7_split_at L (js "d") (js "n") horizontal) as (_ & _ & _ & _ & H).
    apply H. apply (bool_decide_unpack _). vm_compute. exact I.
  - destruct (C7_split_at L (js "b") (js "n") horizontal) as (_ & _ & _ & H & _).
    rewrite H. reflexivity.
Defined.

(** C8: [preserveSplitRatios L L = L] for every tree whose ratios all lie
    in [[0.1, 0.9]], and [preserveSplitRatios prev next = next] whenever
    the root shapes of [prev] and [next] differ. *)
Theorem C8_preserve_ratios (L prev next : LayoutNode) :
  (all_ratios (λ r, in_ratio_range r = true) L → preserveSplitRatios L L = L)
  ∧ (root_shapes_differ prev next → preserveSplitRatios prev next = next).
Proof.
  split; [apply preserveSplitRatios_same|].
  destruct prev as [pq|pd pr pa pb], next as [nq|nd nr na nb]; simpl;
    try reflexivity; try contradiction.
  intros Hd. rewrite decide_True by assumption. reflexivity.
Qed.

(** A witness of C8: a tree with ratios 0.3 and 0.7, and two roots of
    different directions. *)
Lemma C8_witness :
  let L := Split vertical f0_3 (Pane (js "a"))
             (Split horizontal f0_7 (Pane (js "b")) (Pane (js "c"))) in
  let prev := Split horizontal f0_7 (Pane (js "a")) (Pane (js "b")) in
  let next := Split vertical f0_5 (Pane (js "a")) (Pane (js "b")) in
  preserveSplitRatios L L = L ∧ preserveSplitRatios prev next = next.
Proof.
  intros L prev next.
  destruct (C8_preserve_ratios L prev next) as [H1 H2]. split.
  - apply H1. simpl. repeat split.
  - apply H2. simpl. discriminate.
Defined.

(** Scenario 6 of the specification: the user's ratio 0.7 survives a
    refresh by tmux of the same structure with ratio 0.5. *)
Example preserve_ratio_scenario :
  preserveSplitRatios
    (Split horizontal f0_7 (Pane (js "p1")) (Pane (js "p2")))
    (Split horizontal f0_5 (Pane (js "p1")) (Pane (js "p2")))
  = Split horizontal f0_7 (Pane (js "p1")) (Pane (js "p2")).
Proof. reflexivity. Qed.

Section RatioClaims.

Import Tmux.

(** The clamp of [mapNode] agrees with [clampRatio] on every number that
    is not NaN. *)
Lemma mapNode_clamp (r : number) :
  isNaN r = false → Math_min f0_9 (Math_max f0_1 r) = clampRatio r.
Proof.
  intros Hn.
  destruct (clampRatio_cases r Hn) as [[Hlt ->]|[[Hlt ->]|(H1 & H9 & ->)]].
  - unfold Math_max. rewrite SFcompare_antisym, Hlt. reflexivity.
  - unfold Math_max.
    destruct (SFcompare f0_1 r) as [[]|] eqn:E1.
    + apply (SFcompare_Eq_finite _ _ _ _ _ eq_refl) in E1. subst r.
      discriminate.
    + unfold Math_min. rewrite Hlt. reflexivity.
    + apply above_f0_9_above_f0_1 in Hlt. congruence.
    + apply SFcompare_None in E1. simpl in E1. congruence.
  - unfold f64_le, SFleb in H1, H9. unfold Math_max.
    destruct (SFcompare f0_1 r) as [[]|] eqn:E1; try discriminate.
    + apply (SFcompare_Eq_finite _ _ _ _ _ eq_refl) in E1. subst r.
      reflexivity.
    + unfold Math_min. rewrite SFcompare_antisym.
      destruct (SFcompare r f0_9) as [[]|] eqn:E9; try discriminate; simpl.
      * pose proof E9 as E9'. rewrite SFcompare_antisym in E9'.
        destruct (SFcompare f0_9 r) as [[]|] eqn:E; try discriminate.
        apply (SFcompare_Eq_finite _ _ _ _ _ eq_refl) in E. auto.
      * reflexivity.
Qed.

(** [mapNode] has no test for NaN: [Math.max] and [Math.min] pass it on.
    The parser produces NaN only from a span that overflows to Infinity. *)
Lemma mapNode_NaN d a b mapPane :
  mapNode (TSplit d NaN a b) mapPane
  = Split d NaN (mapNode a mapPane) (mapNode b mapPane).
Proof. reflexivity. Qed.

(** C3, as stated, fails: the infinities are not coerced to 0.5 but
    clamped to the nearer bound. *)
Lemma C3_counterexample :
  isFinite pos_infinity = false ∧ clampRatio pos_infinity = f0_9
  ∧ isFinite neg_infinity = false ∧ clampRatio neg_infinity = f0_1
  ∧ f0_9 ≠ f0_5 ∧ f0_1 ≠ f0_5.
Proof. repeat split; discriminate. Qed.

(** C3 (amended): [clampRatio], which [updateSplitRatioAtPath] and
    [preserveSplitRatios] apply to the ratio they store, coerces NaN to
    0.5, clamps +Infinity to 0.9 and -Infinity to 0.1, and clamps every
    other value into [[0.1, 0.9]]: a value below 0.1 becomes 0.1, a value
    above 0.9 becomes 0.9, a value in the interval is kept.  The clamp of
    the layout parser's [mapNode] does the same on every number that is
    not NaN. *)
Theorem C3_clamp_ratio (x : number) :
  clampRatio NaN = f0_5
  ∧ clampRatio pos_infinity = f0_9
  ∧ clampRatio neg_infinity = f0_1
  ∧ in_ratio_range (clampRatio x) = true
  ∧ (isNaN x = false →
     (SFltb x f0_1 = true ∧ clampRatio x = f0_1)
     ∨ (SFltb f0_9 x = true ∧ clampRatio x = f0_9)
     ∨ (in_ratio_range x = true ∧ clampRatio x = x))
  ∧ (∀ d r a b,
       updateSplitRatioAtPath (Split d r a b) [] x = Split d (clampRatio x) a b)
  ∧ (∀ d a b nr na nb,
       preserveSplitRatios (Split d x a b) (Split d nr na nb)
       = Split d (clampRatio x) (preserveSplitRatios a na)
                 (preserveSplitRatios b nb))
  ∧ (isNaN x = false →
     ∀ d a b mapPane,
       mapNode (TSplit d x a b) mapPane
       = Split d (clampRatio x) (mapNode a mapPane) (mapNode b mapPane)).
Proof.
  split; [reflexivity|]. split; [reflexivity|]. split; [reflexivity|].
  split; [apply clampRatio_in_range|].
  split.
  { intros Hn.
    destruct (clampRatio_cases x Hn) as [[Hlt E]|[[Hlt E]|(H1 & H9 & E)]].
    - left. unfold SFltb. rewrite Hlt. auto.
    - right; left. unfold SFltb. rewrite Hlt. auto.
    - right; right. unfold in_ratio_range. rewrite H1, H9. auto. }
  split; [reflexivity|].
  split.
  { intros. simpl. rewrite decide_False by auto. reflexivity. }
  intros Hn d a b mapPane. simpl. rewrite mapNode_clamp by assumption.
  reflexivity.
Qed.

(** A witness of C3: the ratio 0.3 is finite, is kept by [clampRatio] and
    by [mapNode]. *)
Lemma C3_witness :
  clampRatio f0_3 = f0_3
  ∧ mapNode (TSplit horizontal f0_3 (TPane (js "%1")) (TPane (js "%2"))) id
    = Split horizontal f0_3 (Pane (js "%1")) (Pane (js "%2")).
Proof.
  destruct (C3_clamp_ratio f0_3) as (_ & _ & _ & _ & H & _ & _ & Hm).
  split.
  - destruct (H eq_refl) as [[Hlt _]|[[Hlt _]|[_ E]]];
      [discriminate Hlt|discriminate Hlt|exact E].
  - rewrite (Hm eq_refl). reflexivity.
Defined.

End RatioClaims.

(** ** Strings *)

Section StringFacts.

Implicit Types (s p : jsstring) (c : N).

Lemma startsWith_app p s : startsWith p (p ++ s) = true.
Proof.
  induction p as [|a p IH]; simpl; [reflexivity|].
  rewrite decide_True by reflexivity. exact IH.
Qed.

Lemma startsWith_true p s :
  startsWith p s = true → s = p ++ drop (length p) s.
Proof.
  revert s. induction p as [|a p IH]; intros s; simpl.
  - intros _. by rewrite drop_0.
  - destruct s as [|b s]; [discriminate|].
    destruct (decide (a = b)) as [->|]; [|discriminate].
    intros H. simpl. f_equal. by apply IH.
Qed.

Lemma indexOf_notin c s : c ∉ s → indexOf c s = None.
Proof.
  induction s as [|a s IH]; simpl; [reflexivity|].
  intros H. apply not_elem_of_cons in H as [Hne Hs].
  rewrite decide_False by auto. rewrite IH by assumption. reflexivity.
Qed.

Lemma indexOf_app_notin c p s :
  c ∉ p → indexOf c (p ++ s) = (λ i, length p + i)%nat <$> indexOf c s.
Proof.
  induction p as [|a p IH]; simpl; intros H.
  - destruct (indexOf c s); reflexivity.
  - apply not_elem_of_cons in H as [Hne Hp].
    rewrite decide_False by auto. rewrite IH by assumption.
    destruct (indexOf c s); reflexivity.
Qed.

Lemma indexOf_app_in c p s :
  c ∈ p → ∃ i, indexOf c (p ++ s) = Some i ∧ (i < length p)%nat.
Proof.
  induction p as [|a p IH]; simpl; intros H.
  - by apply elem_of_nil in H.
  - destruct (decide (a = c)) as [->|Hne].
    + exists 0%nat. split; [reflexivity|lia].
    + apply elem_of_cons in H as [->|H]; [contradiction|].
      destruct (IH H) as (i & -> & Hi). exists (S i). split; [reflexivity|lia].
Qed.

Lemma indexOf_in c s : c ∈ s → ∃ i, indexOf c s = Some i.
Proof.
  intros H. destruct (indexOf_app_in c s [] H) as (i & Hi & _).
  rewrite app_nil_r in Hi. eauto.
Qed.

Lemma split_go_nonempty sep k cur s : split_go sep k cur s ≠ [].
Proof.
  revert k cur. induction s as [|c s IH]; intros k cur; simpl; [discriminate|].
  destruct k; [|apply IH].
  destruct (startsWith sep (c :: s)); [discriminate|apply IH].
Qed.

Lemma join_cons sep (a : jsstring) (l : list jsstring) :
  l ≠ [] → join sep (a :: l) = a ++ sep ++ join sep l.
Proof. destruct l; [contradiction|reflexivity]. Qed.

Lemma js_colons : js "::" = [COLON; COLON].
Proof. reflexivity. Qed.

(** Joining the parts of a split by ["::"] gives the string back. *)
Lemma join_split_go (n : nat) : ∀ s cur,
  (length s ≤ n)%nat →
  join (js "::") (split_go (js "::") 0 cur s) = cur ++ s.
Proof.
  rewrite js_colons.
  induction n as [|n IH]; intros s cur Hn.
  - destruct s; [|simpl in Hn; lia]. cbn. by rewrite app_nil_r.
  - destruct s as [|c s]; [cbn; by rewrite app_nil_r|].
    cbn [length] in Hn. cbn [split_go].
    destruct (startsWith [COLON; COLON] (c :: s)) eqn:E.
    + apply startsWith_true in E. cbn [length app] in E.
      destruct s as [|c' s]; [discriminate|].
      cbn [drop] in E. injection E as -> ->.
      rewrite join_cons by apply split_go_nonempty.
      cbn [length pred split_go].
      rewrite IH by (cbn [length] in Hn; lia). reflexivity.
    + rewrite IH by lia. by rewrite <- app_assoc.
Qed.

Lemma join_split s : join (js "::") (split (js "::") s) = s.
Proof. unfold split. by rewrite (join_split_go (length s)). Qed.

(** The first part of a split by ["::"]: a prefix that neither contains
    ["::"] nor ends in a colon. *)
Lemma split_go_first w : ∀ cur rest,
  includes (js "::") w = false → last w ≠ Some COLON →
  split_go (js "::") 0 cur (w ++ js "::" ++ rest)
  = (cur ++ w) :: split_go (js "::") 0 [] rest.
Proof.
  rewrite js_colons.
  induction w as [|c w IH]; intros cur rest Hinc Hlast.
  - cbn. rewrite !decide_True by reflexivity. by rewrite app_nil_r.
  - cbn [app split_go].
    assert (startsWith [COLON; COLON] (c :: w ++ COLON :: COLON :: rest)
            = false) as Hs.
    { destruct w as [|c' w]; cbn [startsWith app].
      - destruct (decide (COLON = c)) as [<-|]; [|reflexivity].
        exfalso. apply Hlast. reflexivity.
      - cbn [includes startsWith] in Hinc.
        destruct (decide (COLON = c)); [|reflexivity].
        destruct (decide (COLON = c')); [|reflexivity].
        discriminate. }
    cbn [app] in Hs, IH |- *. rewrite Hs. rewrite IH.
    + by rewrite <- app_assoc.
    + cbn [includes] in Hinc. apply orb_false_iff in Hinc as [_ H]. exact H.
    + destruct w as [|c' w]; [discriminate|]. exact Hlast.
Qed.

End StringFacts.

(** ** The tmux parsers *)

Section TmuxFacts.

Import Tmux.

Implicit Types (s rest : jsstring).

(** *** [parseBootstrapWindowLine] *)

(** C10, as stated, fails: a window id (or a name) that ends in a colon
    contains no ["::"], yet its last colon is taken for the start of the
    separator. *)
Lemma C10_counterexample :
  let w := js "a:" in let n := js "n" in let l := js "l" in
  includes (js "::") w = false ∧ includes (js "::") n = false
  ∧ parseBootstrapWindowLine
      (js "__WINDOW__::" ++ w ++ js "::" ++ n ++ js "::" ++ l)
    = Some {| windowId := js "a"; name := js ":n"; layout := js "l" |}
  ∧ parseBootstrapWindowLine
      (js "__WINDOW__::" ++ w ++ js "::" ++ n ++ js "::" ++ l)
    ≠ Some {| windowId := w; name := n; layout := l |}.
Proof. repeat split. discriminate. Qed.

(** C10 (amended): for all strings [w], [n], [l] where [w] and [n]
    contain no ["::"] and do not end in a colon, parsing
    ["__WINDOW__::" + w + "::" + n + "::" + l] returns exactly
    [{windowId: w, name: n, layout: l}], whatever ["::"] occur in [l];
    parsing returns null whenever the text after the marker splits into
    fewer than three parts, and whenever the marker is missing. *)
Theorem C10_bootstrap_window_line (w n l line : jsstring) :
  (includes (js "::") w = false → includes (js "::") n = false →
   last w ≠ Some COLON → last n ≠ Some COLON →
   parseBootstrapWindowLine
     (js "__WINDOW__::" ++ w ++ js "::" ++ n ++ js "::" ++ l)
   = Some {| windowId := w; name := n; layout := l |})
  ∧ (startsWith (js "__WINDOW__::") line = true →
     (length (split (js "::") (drop (length (js "__WINDOW__::")) line)) < 3)%nat →
     parseBootstrapWindowLine line = None)
  ∧ (startsWith (js "__WINDOW__::") line = false →
     parseBootstrapWindowLine line = None).
Proof.
  split; [|split].
  - intros Hw Hn Hlw Hln. unfold parseBootstrapWindowLine.
    rewrite startsWith_app. cbn [negb].
    rewrite drop_app_length. unfold split.
    rewrite split_go_first by assumption.
    rewrite split_go_first by assumption.
    cbn [app].
    pose proof (join_split l) as Hj. unfold split in Hj.
    destruct (split_go (js "::") 0 [] l) as [|a parts] eqn:E.
    + by apply split_go_nonempty in E.
    + rewrite Hj. reflexivity.
  - intros Hm Hlen. unfold parseBootstrapWindowLine. rewrite Hm. cbn [negb].
    destruct (split _ _) as [|a [|b [|c parts]]]; try reflexivity.
    cbn [length] in Hlen. lia.
  - intros Hm. unfold parseBootstrapWindowLine. rewrite Hm. reflexivity.
Qed.

(** A witness of C10: window [@1] named [zsh], with a layout that holds
    a ["::"]; and a line with two parts only. *)
Lemma C10_witness :
  parseBootstrapWindowLine
    (js "__WINDOW__::" ++ js "@1" ++ js "::" ++ js "zsh" ++ js "::"
       ++ js "80x24::0")
  = Some {| windowId := js "@1"; name := js "zsh"; layout := js "80x24::0" |}
  ∧ parseBootstrapWindowLine (js "__WINDOW__::@1::zsh") = None.
Proof.
  destruct (C10_bootstrap_window_line (js "@1") (js "zsh") (js "80x24::0")
              (js "__WINDOW__::@1::zsh")) as (H1 & H2 & _).
  split.
  - apply H1; try reflexivity; discriminate.
  - apply H2; [reflexivity|]. vm_compute. lia.
Defined.

(** *** [decodeTmuxEscapedText] *)

Lemma is_octal_not_backslash a : is_octal a = true → a ≠ BACKSLASH.
Proof. intros H ->. discriminate. Qed.

Lemma decode_plain c rest :
  c ≠ BACKSLASH →
  decodeTmuxEscapedText (c :: rest) = c :: decodeTmuxEscapedText rest.
Proof.
  intros H. cbn [decodeTmuxEscapedText]. by rewrite decide_True.
Qed.

Lemma decode_dangling : decodeTmuxEscapedText [BACKSLASH] = [].
Proof. reflexivity. Qed.

Lemma decode_backslash rest :
  decodeTmuxEscapedText (BACKSLASH :: BACKSLASH :: rest)
  = BACKSLASH :: decodeTmuxEscapedText rest.
Proof.
  cbn [decodeTmuxEscapedText].
  rewrite decide_False by (intros H; by apply H).
  by rewrite decide_True.
Qed.

Lemma decode_octal a b c rest :
  is_octal a = true → is_octal b = true → is_octal c = true →
  decodeTmuxEscapedText (BACKSLASH :: a :: b :: c :: rest)
  = fromCharCode (parseInt 8 [a; b; c]) :: decodeTmuxEscapedText rest.
Proof.
  intros Ha Hb Hc. cbn [decodeTmuxEscapedText].
  rewrite decide_False by (intros H; by apply H).
  rewrite decide_False by (by apply is_octal_not_backslash).
  by rewrite Ha, Hb, Hc.
Qed.

Lemma decode_escaped x rest :
  x ≠ BACKSLASH → octal_triple (x :: rest) = false →
  decodeTmuxEscapedText (BACKSLASH :: x :: rest)
  = escaped x :: decodeTmuxEscapedText rest.
Proof.
  intros Hx Ht. cbn [decodeTmuxEscapedText].
  rewrite decide_False by (intros H; by apply H).
  rewrite decide_False by assumption.
  destruct rest as [|b [|c rest]]; try reflexivity.
  cbn [octal_triple] in Ht. rewrite Ht. reflexivity.
Qed.

Lemma octal_triple_head x rest :
  is_octal x = false → octal_triple (x :: rest) = false.
Proof.
  intros H. destruct rest as [|b [|c rest]]; cbn [octal_triple];
    try reflexivity. by rewrite H.
Qed.

(** The value of three octal digits. *)
Lemma parseInt_octal a b c :
  is_octal a = true → is_octal b = true → is_octal c = true →
  fromCharCode (parseInt 8 [a; b; c])
  = 64 * (a - 48) + 8 * (b - 48) + (c - 48)
  ∧ fromCharCode (parseInt 8 [a; b; c]) < 512.
Proof.
  unfold is_octal, fromCharCode, parseInt. cbn [fold_left].
  intros [Ha1 Ha2]%andb_true_iff [Hb1 Hb2]%andb_true_iff
         [Hc1 Hc2]%andb_true_iff.
  apply N.leb_le in Ha1, Ha2, Hb1, Hb2, Hc1, Hc2.
  rewrite N.mod_small by lia. lia.
Qed.

Lemma decode_dangling_backslash (n : nat) : ∀ s,
  (length s ≤ n)%nat → last s ≠ Some BACKSLASH →
  decodeTmuxEscapedText (s ++ [BACKSLASH]) = decodeTmuxEscapedText s.
Proof.
  induction n as [|n IH]; intros s Hn Hlast.
  { destruct s; [reflexivity|cbn [length] in Hn; lia]. }
  destruct s as [|c rest]; [reflexivity|].
  cbn [length] in Hn.
  destruct (decide (c = BACKSLASH)) as [->|Hc].
  2:{ cbn [app]. rewrite !decode_plain by assumption. f_equal.
      apply IH; [lia|]. destruct rest; [discriminate|exact Hlast]. }
  destruct rest as [|x rest1]; [by contradiction Hlast|].
  cbn [length] in Hn.
  destruct (decide (x = BACKSLASH)) as [->|Hx].
  { destruct rest1 as [|y rest2]; [by contradiction Hlast|].
    cbn [app]. rewrite !decode_backslash. f_equal.
    apply (IH (y :: rest2)); [cbn [length] in *; lia|exact Hlast]. }
  destruct (octal_triple (x :: rest1)) eqn:Ht.
  - destruct rest1 as [|b [|c rest3]]; try discriminate.
    cbn [octal_triple] in Ht.
    apply andb_true_iff in Ht as [[Hxo Hbo]%andb_true_iff Hco].
    cbn [app]. rewrite !decode_octal by assumption. f_equal.
    apply IH; [cbn [length] in *; lia|].
    destruct rest3 as [|y rest4]; [discriminate|exact Hlast].
  - assert (octal_triple (x :: rest1 ++ [BACKSLASH]) = false) as Ht'.
    { destruct rest1 as [|b [|c rest3]]; cbn [octal_triple app];
        [reflexivity| |exact Ht].
      by rewrite andb_false_r. }
    cbn [app]. rewrite !decode_escaped by assumption. f_equal.
    apply IH; [lia|].
    destruct rest1 as [|y rest2]; [discriminate|exact Hlast].
Qed.

(** C9: decoding a string that ends in a single backslash, not preceded
    by another backslash, drops that backslash: the result is the
    decoding of the string without it. *)
Theorem C9_dangling_backslash (s : jsstring) :
  last s ≠ Some BACKSLASH →
  decodeTmuxEscapedText (s ++ [BACKSLASH]) = decodeTmuxEscapedText s.
Proof. apply (decode_dangling_backslash (length s)). lia. Qed.

(** A witness of C9: ["abc"] followed by one backslash decodes to
    ["abc"]. *)
Lemma C9_witness :
  last (js "abc") ≠ Some BACKSLASH
  ∧ decodeTmuxEscapedText (js "abc" ++ [BACKSLASH]) = js "abc".
Proof.
  split; [discriminate|].
  rewrite (C9_dangling_backslash (js "abc")); [reflexivity|discriminate].
Defined.

(** C5: the decoding rules of [decodeTmuxEscapedText], and the control
    line of scenario 4.  A code unit other than a backslash is copied;
    two backslashes give one; a backslash and three octal digits give the
    character whose code is their value (a byte when the first digit is
    at most 3); a backslash and [n], [r], [t] give LF, CR, TAB; a
    backslash and any other character give that character.  The line
    [%output %3 hello\nworld\134], in which each backslash is a single
    character, is an output event of pane [%3] with the data
    ["hello" LF "world" backslash]. *)
Theorem C5_decode_escapes :
  decodeTmuxEscapedText [] = []
  ∧ (∀ c rest, c ≠ BACKSLASH →
       decodeTmuxEscapedText (c :: rest) = c :: decodeTmuxEscapedText rest)
  ∧ (∀ rest,
       decodeTmuxEscapedText (BACKSLASH :: BACKSLASH :: rest)
       = BACKSLASH :: decodeTmuxEscapedText rest)
  ∧ (∀ a b c rest,
       is_octal a = true → is_octal b = true → is_octal c = true →
       decodeTmuxEscapedText (BACKSLASH :: a :: b :: c :: rest)
       = (64 * (a - 48) + 8 * (b - 48) + (c - 48))
           :: decodeTmuxEscapedText rest)
  ∧ (∀ rest,
       decodeTmuxEscapedText (BACKSLASH :: ch "n" :: rest)
       = LF :: decodeTmuxEscapedText rest
       ∧ decodeTmuxEscapedText (BACKSLASH :: ch "r" :: rest)
         = CR :: decodeTmuxEscapedText rest
       ∧ decodeTmuxEscapedText (BACKSLASH :: ch "t" :: rest)
         = TAB :: decodeTmuxEscapedText rest)
  ∧ (∀ x rest,
       x ≠ BACKSLASH → x ≠ ch "n" → x ≠ ch "r" → x ≠ ch "t" →
       octal_triple (x :: rest) = false →
       decodeTmuxEscapedText (BACKSLASH :: x :: rest)
       = x :: decodeTmuxEscapedText rest)
  ∧ parseTmuxControlLine (js "%output %3 hello\nworld\134")
    = EvOutput (js "%3") (js "hello" ++ [LF] ++ js "world" ++ [BACKSLASH]).
Proof.
  split; [reflexivity|].
  split; [apply decode_plain|].
  split; [apply decode_backslash|].
  split.
  { intros a b c rest Ha Hb Hc. rewrite decode_octal by assumption.
    f_equal. by apply parseInt_octal. }
  split.
  { intros rest.
    repeat split;
      (rewrite decode_escaped;
       [reflexivity|discriminate|by apply octal_triple_head]). }
  split; [|reflexivity].
  intros x rest Hx Hn Hr Ht Ho. rewrite decode_escaped by assumption.
  unfold escaped. by rewrite !decide_False.
Qed.

(** A witness of C5: the escapes [\\], [\101] (the letter A), [\n] and
    [\x] in one string. *)
Lemma C5_witness :
  decodeTmuxEscapedText (js "a\\b\101\n\x")
  = js "a" ++ [BACKSLASH] ++ js "bA" ++ [LF] ++ js "x".
Proof.
  destruct C5_decode_escapes as (_ & Hp & Hb & Ho & Hn & Hx & _).
  change (js "a\\b\101\n\x")
    with (ch "a" :: BACKSLASH :: BACKSLASH :: ch "b" :: BACKSLASH
            :: ch "1" :: ch "0" :: ch "1" :: BACKSLASH :: ch "n"
            :: BACKSLASH :: ch "x" :: []).
  rewrite Hp by discriminate. rewrite Hb. rewrite Hp by discriminate.
  rewrite Ho by reflexivity.
  destruct (Hn (BACKSLASH :: ch "x" :: [])) as [-> _].
  rewrite Hx by (reflexivity || discriminate). reflexivity.
Defined.

End TmuxFacts.

(** ** The tmux layout parser *)

Section LayoutParserFacts.

Import Tmux.

Lemma stripChecksum_no_comma (s : jsstring) :
  ch "," ∉ s → stripChecksum s = s.
Proof.
  intros H. unfold stripChecksum. rewrite indexOf_notin by assumption.
  reflexivity.
Qed.

Lemma stripChecksum_comma_first (prefix rest : jsstring) :
  ch "," ∉ prefix → ch "x" ∉ prefix → ch "x" ∈ rest →
  stripChecksum (prefix ++ ch "," :: rest) = rest.
Proof.
  intros Hc Hx Hr. unfold stripChecksum.
  rewrite (indexOf_app_notin (ch ",")) by assumption.
  rewrite (indexOf_app_notin (ch "x")) by assumption.
  cbn [indexOf]. rewrite decide_True by reflexivity.
  rewrite decide_False by discriminate.
  destruct (indexOf_in _ _ Hr) as [i ->]. cbn [fmap option_fmap option_map].
  rewrite Nat.add_0_r.
  destruct (Nat.ltb_spec (length prefix) (length prefix + S i)); [|lia].
  rewrite drop_app_ge by lia.
  replace (length prefix + 1 - length prefix)%nat with 1%nat by lia.
  reflexivity.
Qed.

Lemma stripChecksum_x_first (prefix rest : jsstring) :
  ch "," ∉ prefix → ch "x" ∈ prefix →
  stripChecksum (prefix ++ ch "," :: rest) = prefix ++ ch "," :: rest.
Proof.
  intros Hc Hx. unfold stripChecksum.
  rewrite (indexOf_app_notin (ch ",")) by assumption.
  destruct (indexOf_app_in _ _ (ch "," :: rest) Hx) as (i & -> & Hi).
  cbn [indexOf]. rewrite decide_True by reflexivity.
  cbn [fmap option_fmap option_map]. rewrite Nat.add_0_r.
  destruct (Nat.ltb_spec (length prefix) i); [lia|reflexivity].
Qed.

Lemma stripChecksum_no_x (s : jsstring) :
  ch "x" ∉ s → stripChecksum s = s.
Proof.
  intros H. unfold stripChecksum. rewrite (indexOf_notin (ch "x")) by assumption.
  destruct (indexOf (ch ",") s); reflexivity.
Qed.

Lemma span_foldStep d a b :
  span d (foldStep d a b) = f64_add (span d a) (span d b).
Proof. unfold span, foldStep. destruct d; reflexivity. Qed.

(** The span of the cell accumulated by a fold is the sum, in doubles, of
    the spans of the children folded so far. *)
Lemma span_fold_left d cs : ∀ c0,
  span d (fold_left (foldStep d) cs c0)
  = fold_left f64_add (span d <$> cs) (span d c0).
Proof.
  induction cs as [|c cs IH]; intros c0; [reflexivity|].
  cbn [fold_left fmap list_fmap]. rewrite IH, span_foldStep. reflexivity.
Qed.

Lemma node_foldStep d a b :
  node (foldStep d a b)
  = TSplit d (f64_div (span d a)
                      (Math_max (f64_of_N 1) (f64_add (span d a) (span d b))))
           (node a) (node b).
Proof. reflexivity. Qed.

Lemma fold_left_add_le (ws : list N) : ∀ w0, w0 ≤ fold_left N.add ws w0.
Proof.
  induction ws as [|w ws IH]; intros w0; cbn [fold_left]; [lia|].
  specialize (IH (w0 + w)). lia.
Qed.

(** Spans that are whole numbers add up exactly as long as their sum is
    below 2^53. *)
Lemma span_whole d cs : ∀ c0 w0 ws,
  span d c0 = f64_of_N w0 →
  Forall2 (λ c w, span d c = f64_of_N w) cs ws →
  fold_left N.add ws w0 < 2 ^ 53 →
  span d (fold_left (foldStep d) cs c0) = f64_of_N (fold_left N.add ws w0).
Proof.
  induction cs as [|c cs IH]; intros c0 w0 ws H0 Hcs Hsum.
  - apply Forall2_nil_inv_l in Hcs as ->. exact H0.
  - apply Forall2_cons_inv_l in Hcs as (w & ws' & Hc & Hcs & ->).
    cbn [fold_left] in *. apply IH; [|exact Hcs|exact Hsum].
    rewrite span_foldStep, H0, Hc. apply f64_add_exact.
    pose proof (fold_left_add_le ws' (w0 + w)). lia.
Qed.

(** C4, as stated, fails: when both spans are zero the fold's ratio is
    [0 / 1 = 0], where [currentSpan / (currentSpan + nextSpan)] is
    [0 / 0], that is NaN; the layout below is then emitted with the
    ratio 0.1. *)
Lemma C4_counterexample :
  let c1 := {| width := f64_of_N 0; height := f64_of_N 0;
               node := TPane (js "%1") |} in
  let c2 := {| width := f64_of_N 0; height := f64_of_N 0;
               node := TPane (js "%2") |} in
  foldChildren [c1; c2] horizontal
  = inr (TSplit horizontal (S754_zero false) (TPane (js "%1")) (TPane (js "%2")))
  ∧ f64_div (span horizontal c1)
            (f64_add (span horizontal c1) (span horizontal c2)) = NaN
  ∧ parseTmuxLayout (js "0x0,0,0{0x0,0,0,1,0x0,0,0,2}") id
    = Some (inr (Split horizontal f0_1 (Pane (js "%1")) (Pane (js "%2")))).
Proof. vm_compute. repeat split. Qed.

(** The sums are sums of doubles: from 2^53 on they round.  Three cells
    of the heights 30, 2^53 - 1 and 2^53 - 2, one above the other: the
    first two add up to 2^53 + 28, not 2^53 + 29, and the three to
    2^54 + 24. *)
Lemma foldChildren_rounds :
  let cell (h : N) (id : string) :=
    {| width := f64_of_N 80; height := f64_of_N h; node := TPane (js id) |} in
  foldChildren [cell 30 "%1"; cell 9007199254740991 "%2";
                cell 9007199254740990 "%3"] vertical
  = inr (TSplit vertical
           (f64_div (f64_of_N 9007199254741020) (f64_of_N 18014398509482008))
           (TSplit vertical
              (f64_div (f64_of_N 30) (f64_of_N 9007199254741020))
              (TPane (js "%1")) (TPane (js "%2")))
           (TPane (js "%3")))
  ∧ f64_div (f64_of_N 9007199254741020) (f64_of_N 18014398509482008)
    ≠ f64_div (f64_of_N 9007199254741021) (f64_of_N 18014398509482011).
Proof. vm_compute. split; [reflexivity|discriminate]. Qed.

(** C4 (amended): parsing
    ["9d2f,120x30,0,0{60x30,0,0,1,60x30,60,0,2}"] yields
    [Split(horizontal, 0.5, Pane(%1), Pane(%2))].  The prefix up to the
    first comma is stripped exactly when that comma precedes the first
    ['x']; the children of a cell are folded into a left-leaning binary
    tree; each fold's ratio is, in doubles,
    [currentSpan / max(1, currentSpan + nextSpan)], where [currentSpan] is
    the sum of the spans of the children folded so far and the span is
    the width in a horizontal row and the height in a vertical stack.
    The ratio is [currentSpan / (currentSpan + nextSpan)] whenever that
    sum is at least 1.  A span that the parser reads is the double of the
    whole number that its digits denote; for whole numbers whose sum is
    below 2^53 the sums are exact, the ratio is the quotient of the whole
    number [currentSpan] by [max(1, currentSpan + nextSpan)], and it is
    [currentSpan / (currentSpan + nextSpan)] unless both spans are zero,
    where it is 0. *)
Theorem C4_parse_layout :
  parseTmuxLayout (js "9d2f,120x30,0,0{60x30,0,0,1,60x30,60,0,2}") id
  = Some (inr (Split horizontal f0_5 (Pane (js "%1")) (Pane (js "%2"))))
  ∧ (∀ prefix rest, ch "," ∉ prefix →
       (ch "x" ∉ prefix → ch "x" ∈ rest →
        stripChecksum (prefix ++ ch "," :: rest) = rest)
       ∧ (ch "x" ∈ prefix ∨ ch "x" ∉ prefix ++ ch "," :: rest →
          stripChecksum (prefix ++ ch "," :: rest) = prefix ++ ch "," :: rest))
  ∧ (∀ s, ch "," ∉ s → stripChecksum s = s)
  ∧ (∀ d, foldChildren [] d = inl EmptyChildren)
  ∧ (∀ d c, foldChildren [c] d = inr (node c))
  ∧ (∀ d c0 cs c,
       let current := fold_left (foldStep d) cs c0 in
       let sum := f64_add (span d current) (span d c) in
       let ratio := f64_div (span d current) (Math_max (f64_of_N 1) sum) in
       foldChildren (c0 :: cs) d = inr (node current)
       ∧ foldChildren (c0 :: cs ++ [c]) d
         = inr (TSplit d ratio (node current) (node c))
       ∧ span d current = fold_left f64_add (span d <$> cs) (span d c0)
       ∧ (f64_le (f64_of_N 1) sum = true →
          ratio = f64_div (span d current) sum)
       ∧ (∀ a b, span d current = f64_of_N a → span d c = f64_of_N b →
            a + b < 2 ^ 53 →
            sum = f64_of_N (a + b)
            ∧ ratio = f64_div (f64_of_N a) (f64_of_N (N.max 1 (a + b)))
            ∧ (a + b ≠ 0 →
               ratio = f64_div (f64_of_N a) (f64_of_N (a + b)))
            ∧ (a + b = 0 → ratio = S754_zero false)))
  ∧ (∀ d c0 cs w0 ws,
       span d c0 = f64_of_N w0 →
       Forall2 (λ c w, span d c = f64_of_N w) cs ws →
       fold_left N.add ws w0 < 2 ^ 53 →
       span d (fold_left (foldStep d) cs c0)
       = f64_of_N (fold_left N.add ws w0))
  ∧ (∀ input idx x idx',
       readNumber input idx = Ok x idx' →
       x = f64_of_N (parseInt 10 (takeWhile is_digit (drop idx input))))
  ∧ (∀ n, span horizontal n = width n ∧ span vertical n = height n).
Proof.
  split; [vm_compute; reflexivity|].
  split.
  { intros prefix rest Hc. split.
    - by apply stripChecksum_comma_first.
    - intros [Hx|Hx]; [by apply stripChecksum_x_first|].
      by apply stripChecksum_no_x. }
  split; [apply stripChecksum_no_comma|].
  split; [reflexivity|]. split; [reflexivity|].
  split; [|split; [intros d c0 cs w0 ws; apply span_whole|
            split; [|intros n; split; reflexivity]]].
  - intros d c0 cs c current sum ratio.
    split; [reflexivity|].
    split.
    { unfold foldChildren. rewrite fold_left_app. cbn [fold_left].
      rewrite node_foldStep. reflexivity. }
    split; [apply span_fold_left|].
    split.
    { intros Hle. unfold ratio. by rewrite Math_max_one_le. }
    intros a b Ha Hb Hab.
    assert (sum = f64_of_N (a + b)) as Hsum
        by (unfold sum; rewrite Ha, Hb; by apply f64_add_exact).
    split; [exact Hsum|].
    assert (ratio = f64_div (f64_of_N a) (f64_of_N (N.max 1 (a + b)))) as Hr.
    { unfold ratio. rewrite Hsum, Ha. by rewrite Math_max_one_whole. }
    split; [exact Hr|]. split.
    + intros Hne. rewrite Hr. do 2 f_equal. lia.
    + intros Hz. rewrite Hr.
      assert (a = 0) as -> by lia. assert (b = 0) as -> by lia.
      reflexivity.
  - intros input idx x idx'. unfold readNumber. cbv zeta.
    destruct (decide _); [discriminate|]. by intros [= <- _].
Qed.

(** A witness of C4: the checksum of scenario 3 is stripped, and three
    cells of widths 30, 30 and 60 fold to the left with the ratios
    [30 / 60] and [60 / 120]. *)
Lemma C4_witness :
  let cell (w : N) (id : string) :=
    {| width := f64_of_N w; height := f64_of_N 30; node := TPane (js id) |} in
  stripChecksum (js "9d2f,120x30,0,0{60x30,0,0,1,60x30,60,0,2}")
  = js "120x30,0,0{60x30,0,0,1,60x30,60,0,2}"
  ∧ foldChildren [cell 30 "%1"; cell 30 "%2"; cell 60 "%3"] horizontal
    = inr (TSplit horizontal f0_5
             (TSplit horizontal f0_5 (TPane (js "%1")) (TPane (js "%2")))
             (TPane (js "%3")))
  ∧ span horizontal
      (fold_left (foldStep horizontal) [cell 30 "%2"; cell 60 "%3"]
                 (cell 30 "%1"))
    = f64_of_N 120.
Proof.
  intros cell.
  destruct C4_parse_layout as (_ & Hs & _ & _ & _ & Hf & Hw & _).
  split; [|split].
  - apply (Hs (js "9d2f") (js "120x30,0,0{60x30,0,0,1,60x30,60,0,2}")).
    + vm_compute. intros H. repeat (apply elem_of_cons in H as [H|H];
        [discriminate H|]). by apply elem_of_nil in H.
    + vm_compute. intros H. repeat (apply elem_of_cons in H as [H|H];
        [discriminate H|]). by apply elem_of_nil in H.
    + do 3 apply list_elem_of_further. apply list_elem_of_here.
  - destruct (Hf horizontal (cell 30 "%1") [cell 30 "%2"] (cell 60 "%3"))
      as (_ & H & _ & _ & Hab).
    destruct (Hab 60 60 eq_refl eq_refl ltac:(vm_compute; reflexivity))
      as (_ & Hr & _).
    cbn [app] in H. rewrite H, Hr. reflexivity.
  - apply (Hw horizontal (cell 30 "%1") [cell 30 "%2"; cell 60 "%3"] 30 [30; 60]).
    + reflexivity.
    + repeat constructor.
    + vm_compute. reflexivity.
Defined.

(** *** The parser never runs out of fuel *)

Section Fuel.

Variable input : jsstring.

Lemma within_bind {A B} lo1 lo hi (m : Outcome A) (k : A → nat → Outcome B) :
  within lo1 hi m →
  (∀ a i, (lo1 ≤ i ≤ hi)%nat → within lo hi (k a i)) →
  within lo hi (bind m k).
Proof. destruct m as [a i|e|]; cbn; auto. Qed.

Lemma within_weaken {A} lo lo' hi (m : Outcome A) :
  within lo' hi m → (lo ≤ lo')%nat → within lo hi m.
Proof. destruct m as [a i|e|]; cbn; auto. lia. Qed.

Lemma length_takeWhile {A} (P : A → bool) (l : list A) :
  (length (takeWhile P l) ≤ length l)%nat.
Proof.
  induction l as [|a l IH]; cbn; [lia|]. destruct (P a); cbn; lia.
Qed.

Lemma readNumber_within idx :
  (idx ≤ length input)%nat →
  within (idx + 1) (length input) (readNumber input idx).
Proof.
  intros Hi. unfold readNumber.
  pose proof (length_takeWhile is_digit (drop idx input)) as Hl.
  rewrite length_drop in Hl.
  destruct (decide _); cbn; [trivial|lia].
Qed.

Lemma consume_within c idx :
  within (idx + 1) (length input) (consume input c idx).
Proof.
  unfold consume. destruct (decide _) as [H|]; cbn; [|trivial].
  apply lookup_lt_Some in H. lia.
Qed.

Lemma lift_fold_within r w h idx :
  (idx ≤ length input)%nat → within idx (length input) (lift_fold r w h idx).
Proof. intros Hi. destruct r; cbn; [trivial|lia]. Qed.

(** With fuel above the number of code units left, a cell is parsed to
    its end or to an exception, and it takes at least two code units;
    the loop over the children needs one unit of fuel more. *)
Lemma parse_fuel (fuel : nat) :
  (∀ idx, (idx ≤ length input)%nat → (length input - idx + 1 ≤ fuel)%nat →
     within (idx + 2) (length input) (parseCell input fuel idx))
  ∧ (∀ close children idx,
       (idx ≤ length input)%nat → (length input - idx + 2 ≤ fuel)%nat →
       within idx (length input) (parseChildren input fuel close children idx)).
Proof.
  induction fuel as [|fuel [IHcell IHchildren]]; [split; intros; lia|].
  split.
  - intros idx Hi Hf. cbn [parseCell].
    eapply within_bind; [by apply readNumber_within|]. intros w i1 H1.
    eapply within_bind; [apply consume_within|]. intros _ i2 H2.
    eapply within_bind; [apply readNumber_within; lia|]. intros h i3 H3.
    eapply within_bind; [apply consume_within|]. intros _ i4 H4.
    eapply within_bind; [apply readNumber_within; lia|]. intros x i5 H5.
    eapply within_bind; [apply consume_within|]. intros _ i6 H6.
    eapply within_bind; [apply readNumber_within; lia|]. intros y i7 H7.
    cbv zeta.
    destruct (decide (peek input i7 = Some (ch "["))).
    { eapply within_bind; [apply consume_within|]. intros _ i8 H8.
      eapply within_bind; [apply IHchildren; lia|]. intros cs i9 H9.
      eapply within_bind; [apply consume_within|]. intros _ i10 H10.
      eapply within_weaken; [apply lift_fold_within|]; lia. }
    destruct (decide (peek input i7 = Some (ch "{"))).
    { eapply within_bind; [apply consume_within|]. intros _ i8 H8.
      eapply within_bind; [apply IHchildren; lia|]. intros cs i9 H9.
      eapply within_bind; [apply consume_within|]. intros _ i10 H10.
      eapply within_weaken; [apply lift_fold_within|]; lia. }
    eapply within_bind; [apply consume_within|]. intros _ i8 H8.
    eapply within_bind; [apply readNumber_within; lia|]. intros num i9 H9.
    cbn. lia.
  - intros close children idx Hi Hf. cbn [parseChildren].
    destruct (decide (peek input idx = Some close)); [cbn; lia|].
    eapply within_bind; [apply IHcell; lia|]. intros cell i1 H1.
    cbv zeta. destruct (decide (peek input i1 = Some (ch ","))) as [Hc|].
    + apply lookup_lt_Some in Hc.
      eapply within_weaken; [apply IHchildren; lia|lia].
    + eapply within_weaken; [apply IHchildren; lia|lia].
Qed.

Lemma parse_within : within 2 (length input) (parse input).
Proof. unfold parse. apply (parse_fuel (S (length input))); lia. Qed.

End Fuel.

(** [parseTmuxLayout] returns a layout or throws for every string: the
    fuel of the model is never used up. *)
Lemma parseTmuxLayout_total (layout : jsstring) (mapPane : jsstring → jsstring) :
  parseTmuxLayout layout mapPane ≠ None.
Proof.
  unfold parseTmuxLayout.
  pose proof (parse_within (stripChecksum layout)) as H.
  destruct (parse (stripChecksum layout)); [discriminate|discriminate|].
  contradiction H.
Qed.

End LayoutParserFacts.

(** ** In-band capture requests *)

Section CaptureFacts.

Variable dispatchLine : jsstring → jsstring → State → State.

Lemma error_line_shape (line : jsstring) :
  startsWith (js "%error") line = true →
  length line ≠ 0%nat
  ∧ startsWith (js "%begin") line = false
  ∧ startsWith (js "%end") line = false.
Proof.
  intros H. apply startsWith_true in H. rewrite H.
  split; [discriminate|]. split; reflexivity.
Qed.

(** [runNextTmuxCapture] when no request is active. *)
Lemma runNextTmuxCapture_idle (c : jsstring) (st : State) :
  tmuxCaptureActive st !! c = None →
  match default [] (tmuxCaptureQueues st !! c) with
  | [] => runNextTmuxCapture c st = st
  | next :: queue =>
      let st' := runNextTmuxCapture c st in
      tmuxCaptureActive st' !! c
      = Some (set_timeoutId next (Some (nextTimer st)))
      ∧ tmuxCaptureQueues st' !! c = Some queue
      ∧ ptyWrites st' = ptyWrites st ++ [(c, captureCommand (tmuxPaneId next))]
      ∧ timers st' = <[nextTimer st := CaptureTimeoutTimer c (resolve next)]> (timers st)
      ∧ resolved st' = resolved st
  end.
Proof.
  intros Hidle. unfold runNextTmuxCapture.
  rewrite decide_False by (rewrite Hidle; by intros [? ?]).
  destruct (tmuxCaptureQueues st !! c) as [[|next queue]|]; cbn [default];
    try reflexivity.
  cbn. rewrite !lookup_insert_eq. repeat split.
Qed.

(** What handling a line that begins with [%end] or [%error] does while a
    request is active. *)
Lemma handle_end_or_error (c line : jsstring) (st : State)
    (request : PendingTmuxCapture) :
  length line ≠ 0%nat →
  startsWith (js "%begin") line = false →
  startsWith (js "%end") line || startsWith (js "%error") line = true →
  tmuxCaptureActive st !! c = Some request →
  handleTmuxControlLine dispatchLine c line st
  = runNextTmuxCapture c
      (callResolve request (join [LF] (lines request))
         (set_tmuxCaptureActive
            (match timeoutId request with
             | Some t => clearTimeout t st
             | None => st
             end)
            (delete c
               (tmuxCaptureActive
                  (match timeoutId request with
                   | Some t => clearTimeout t st
                   | None => st
                   end))))).
Proof.
  intros Hlen Hb He Ha. unfold handleTmuxControlLine.
  rewrite decide_False by assumption. rewrite Ha, Hb, He. reflexivity.
Qed.

(** The 5 s timer of the active request: the request is resolved with the
    empty string, the slot is cleared and the next request proceeds. *)
Lemma captureTimeout_resolves (c : jsstring) (st : State)
    (request : PendingTmuxCapture) :
  tmuxCaptureActive st !! c = Some request →
  let st' := captureTimeout c (resolve request) st in
  resolved st' = resolved st ++ [(resolve request, [])]
  ∧ match default [] (tmuxCaptureQueues st !! c) with
    | [] => tmuxCaptureActive st' !! c = None ∧ ptyWrites st' = ptyWrites st
    | next :: queue =>
        tmuxCaptureActive st' !! c
        = Some (set_timeoutId next (Some (nextTimer st)))
        ∧ tmuxCaptureQueues st' !! c = Some queue
        ∧ ptyWrites st' = ptyWrites st ++ [(c, captureCommand (tmuxPaneId next))]
    end.
Proof.
  intros Ha st'. unfold st', captureTimeout. rewrite Ha.
  rewrite decide_False by (intros H; by apply H).
  set (st2 := callResolve request []
                (set_tmuxCaptureActive st (delete c (tmuxCaptureActive st)))).
  assert (tmuxCaptureActive st2 !! c = None) as Hidle
    by (cbn; apply lookup_delete_eq).
  pose proof (runNextTmuxCapture_idle c st2 Hidle) as Hrun.
  change (tmuxCaptureQueues st2) with (tmuxCaptureQueues st) in Hrun.
  destruct (default [] (tmuxCaptureQueues st !! c)) as [|next queue].
  - rewrite Hrun. repeat split. apply lookup_delete_eq.
  - destruct Hrun as (H1 & H2 & H3 & _ & H5).
    rewrite H5, H1, H2, H3. repeat split.
Qed.

End CaptureFacts.

(** Scenario 5 of the specification: two requests, answered in order, and
    one command written per request. *)
Example capture_queue_scenario :
  let c := js "pty-1" in
  let handle := λ st line, handleTmuxControlLine (λ _ _ st, st) c line st in
  let st0 :=
    captureTmuxPaneInBand c (js "%5") 2
      (captureTmuxPaneInBand c (js "%4") 1 (initialState ∅)) in
  let st :=
    foldl handle st0
      [js "%begin 1"; js "dataA"; js "%end 1";
       js "%begin 2"; js "dataB"; js "%end 2"] in
  resolved st = [(1%nat, js "dataA"); (2%nat, js "dataB")]
  ∧ ptyWrites st = [(c, captureCommand (js "%4")); (c, captureCommand (js "%5"))]
  ∧ tmuxCaptureActive st !! c = None.
Proof. vm_compute. repeat split. Qed.

(** C1, as stated, fails: a request that collected the line
    ["no such pane"] after [%begin] is resolved, on [%error], with that
    line and not with the empty string. *)
Lemma C1_counterexample :
  let c := js "pty-1" in
  let handle := handleTmuxControlLine (λ _ _ st, st) c in
  let st0 := captureTmuxPaneInBand c (js "%4") 7 (initialState ∅) in
  let st1 := handle (js "%begin 1700000000 12 0") st0 in
  let st2 := handle (js "no such pane") st1 in
  let st3 := handle (js "%error 1700000000 12 0") st2 in
  (lines <$> tmuxCaptureActive st2 !! c) = Some [js "no such pane"]
  ∧ resolved st3 = [(7%nat, js "no such pane")]
  ∧ resolved st3 ≠ [(7%nat, [])].
Proof. vm_compute. repeat split. discriminate. Qed.

(** C1 (amended): when a capture request is active on a controller and the
    controller consumes a line beginning with [%error], the request is
    resolved with the lines collected since [%begin], joined by LF (so with
    the empty string when none was collected); its timer is cleared; the
    active slot is cleared and the next queued request, if any, proceeds:
    it leaves the queue, becomes the active one with a new timer, and its
    capture command is written to the control pty. *)
Theorem C1_error_resolves (dispatchLine : jsstring → jsstring → State → State)
    (c line : jsstring) (st : State) (request : PendingTmuxCapture) :
  tmuxCaptureActive st !! c = Some request →
  startsWith (js "%error") line = true →
  let st' := handleTmuxControlLine dispatchLine c line st in
  resolved st' = resolved st ++ [(resolve request, join [LF] (lines request))]
  ∧ (lines request = [] →
     resolved st' = resolved st ++ [(resolve request, [])])
  ∧ (∀ t, timeoutId request = Some t → t ≠ nextTimer st →
          timers st' !! t = None)
  ∧ match default [] (tmuxCaptureQueues st !! c) with
    | [] => tmuxCaptureActive st' !! c = None ∧ ptyWrites st' = ptyWrites st
    | next :: queue =>
        tmuxCaptureActive st' !! c
        = Some (set_timeoutId next (Some (nextTimer st)))
        ∧ tmuxCaptureQueues st' !! c = Some queue
        ∧ ptyWrites st' = ptyWrites st ++ [(c, captureCommand (tmuxPaneId next))]
        ∧ timers st' !! nextTimer st
          = Some (CaptureTimeoutTimer c (resolve next))
    end.
Proof.
  intros Ha Herr st'.
  destruct (error_line_shape line Herr) as (Hlen & Hb & He).
  assert (startsWith (js "%end") line || startsWith (js "%error") line = true)
    as Hee by (rewrite Herr; apply orb_true_r).
  unfold st'.
  rewrite (handle_end_or_error dispatchLine c line st request Hlen Hb Hee Ha).
  set (st1 := match timeoutId request with
              | Some t => clearTimeout t st
              | None => st
              end).
  set (st2 := callResolve request (join [LF] (lines request))
                (set_tmuxCaptureActive st1 (delete c (tmuxCaptureActive st1)))).
  assert (tmuxCaptureActive st2 !! c = None) as Hidle
    by (cbn; apply lookup_delete_eq).
  assert (tmuxCaptureQueues st2 = tmuxCaptureQueues st
          ∧ nextTimer st2 = nextTimer st
          ∧ ptyWrites st2 = ptyWrites st
          ∧ resolved st2
            = resolved st ++ [(resolve request, join [LF] (lines request))]
          ∧ (∀ t, timeoutId request = Some t → timers st2 !! t = None))
    as (Hq & Hn & Hw & Hr & Ht).
  { unfold st2, st1. destruct (timeoutId request) as [t|]; cbn.
    - repeat split. intros t' [= <-]. apply lookup_delete_eq.
    - repeat split. intros t' [=]. }
  pose proof (runNextTmuxCapture_idle c st2 Hidle) as Hrun.
  rewrite Hq in Hrun.
  destruct (default [] (tmuxCaptureQueues st !! c)) as [|next queue].
  - rewrite Hrun. rewrite Hr, Hw. repeat split; auto.
    intros Hl. by rewrite Hl.
  - destruct Hrun as (H1 & H2 & H3 & H4 & H5).
    rewrite H5, Hr, H1, H2, H3, H4, Hn, Hw. repeat split.
    + intros Hl. by rewrite Hl.
    + intros t Ht1 Ht2. rewrite lookup_insert_ne by auto. by apply Ht.
    + apply lookup_insert_eq.
Qed.

(** A witness of C1: two requests, the first active and collecting; the
    line [%error] resolves it and starts the second. *)
Lemma C1_witness :
  let c := js "pty-1" in
  let handle := handleTmuxControlLine (λ _ _ st, st) c in
  let st0 :=
    captureTmuxPaneInBand c (js "%5") 8
      (captureTmuxPaneInBand c (js "%4") 7 (initialState ∅)) in
  let st1 := handle (js "%begin 1700000000 12 0") st0 in
  let st2 := handle (js "%error 1700000000 12 0") st1 in
  resolved st2 = [(7%nat, [])]
  ∧ (tmuxPaneId <$> tmuxCaptureActive st2 !! c) = Some (js "%5").
Proof.
  intros c handle st0 st1 st2.
  destruct (C1_error_resolves (λ _ _ st, st) c (js "%error 1700000000 12 0") st1
              {| tmuxPaneId := js "%4"; lines := []; collecting := true;
                 timeoutId := Some 0%nat; resolve := 7 |})
    as (Hr & _ & _ & Hq); [reflexivity|reflexivity|].
  split.
  - exact Hr.
  - change (default [] (tmuxCaptureQueues st1 !! c))
      with [ {| tmuxPaneId := js "%5"; lines := []; collecting := false;
                timeoutId := None; resolve := 8 |} ] in Hq.
    destruct Hq as (Hq & _).
    etransitivity; [exact (f_equal (fmap tmuxPaneId) Hq)|reflexivity].
Defined.

(** ** The pane bootstrap *)

Section BootstrapFacts.

Implicit Types (p q : jsstring) (st : State) (e : Event).

Lemma deliveredTo_calls p q ds st st' :
  written st' = written st ++ calls q ds →
  deliveredTo p st' = deliveredTo p st ++ (if decide (q = p) then ds else []).
Proof.
  intros Hw. unfold deliveredTo. rewrite Hw, filter_app, fmap_app. f_equal.
  clear Hw. unfold calls. destruct (decide (q = p)) as [->|Hne].
  - induction ds as [|d ds IH]; [reflexivity|].
    cbn [fmap list_fmap]. rewrite filter_cons_True by reflexivity.
    cbn [fmap list_fmap snd]. by rewrite IH.
  - induction ds as [|d ds IH]; [reflexivity|].
    cbn [fmap list_fmap]. by rewrite filter_cons_False.
Qed.

Lemma writeToPane_effect q d st :
  paneWriters (writeToPane q d st) = paneWriters st
  ∧ tmuxPaneBootstrap (writeToPane q d st) = tmuxPaneBootstrap st
  ∧ written (writeToPane q d st)
    = written st ++ (if decide (q ∈ paneWriters st) then calls q [d] else []).
Proof.
  unfold writeToPane. destruct (evictOldest _ _ _) as [cs tot]. cbn.
  destruct (decide (q ∈ paneWriters st)); cbn; repeat split.
  by rewrite app_nil_r.
Qed.

Lemma foldl_writeToPane_effect q ds : ∀ st,
  let st' := foldl (λ st chunk, writeToPane q chunk st) st ds in
  paneWriters st' = paneWriters st
  ∧ tmuxPaneBootstrap st' = tmuxPaneBootstrap st
  ∧ written st'
    = written st ++ (if decide (q ∈ paneWriters st) then calls q ds else []).
Proof.
  induction ds as [|d ds IH]; intros st; cbn [foldl].
  - repeat split. destruct (decide _); cbn; by rewrite app_nil_r.
  - destruct (IH (writeToPane q d st)) as (Hw & Hb & Hc).
    destruct (writeToPane_effect q d st) as (Hw1 & Hb1 & Hc1).
    cbv zeta. rewrite Hw, Hb, Hc, Hw1, Hb1, Hc1.
    repeat split. destruct (decide (q ∈ paneWriters st)).
    + by rewrite <- app_assoc.
    + by rewrite !app_nil_r.
Qed.

Lemma flush_effect q cap st :
  let st' := flushTmuxBootstrapPane q cap st in
  paneWriters st' = paneWriters st
  ∧ tmuxPaneBootstrap st' = delete q (tmuxPaneBootstrap st)
  ∧ written st'
    = written st
      ++ (if decide (q ∈ paneWriters st) then calls q (flushedData q cap st)
          else []).
Proof.
  unfold flushTmuxBootstrapPane, flushedData.
  destruct (tmuxPaneBootstrap st !! q) as [b|] eqn:Hb.
  - set (st1 := match flushTimer b with
                | Some t => clearTimeout t _
                | None => _
                end).
    assert (paneWriters st1 = paneWriters st
            ∧ tmuxPaneBootstrap st1 = delete q (tmuxPaneBootstrap st)
            ∧ written st1 = written st) as (Hw1 & Hb1 & Hc1).
    { unfold st1. destruct (flushTimer b); cbn; repeat split. }
    destruct cap as [[|c h]|].
    + rewrite bool_decide_eq_false_2 by (cbn; lia).
      destruct (foldl_writeToPane_effect q (chunks b) st1) as (Hw & Hbb & Hc).
      cbv zeta. rewrite Hw, Hbb, Hc, Hw1, Hb1, Hc1. repeat split.
    + rewrite bool_decide_eq_true_2 by discriminate.
      destruct (writeToPane_effect q (c :: h) st1) as (Hw & Hbb & Hc).
      cbv zeta. cbn [default from_option id].
      rewrite Hw, Hbb, Hc, Hw1, Hb1, Hc1. repeat split.
    + destruct (foldl_writeToPane_effect q (chunks b) st1) as (Hw & Hbb & Hc).
      cbv zeta. rewrite Hw, Hbb, Hc, Hw1, Hb1, Hc1. repeat split.
  - rewrite (delete_id _ _ Hb).
    destruct cap as [[|c h]|].
    + rewrite bool_decide_eq_false_2 by (cbn; lia).
      cbv zeta. repeat split. destruct (decide _); cbn; by rewrite app_nil_r.
    + rewrite bool_decide_eq_true_2 by discriminate.
      apply writeToPane_effect.
    + cbv zeta. repeat split. destruct (decide _); cbn; by rewrite app_nil_r.
Qed.

(** What handling an output of [q] does to the writers, to the bootstrap
    table and to the calls of writers. *)
Lemma handleTmuxOutput_effect q data st :
  let st' := handleTmuxOutput q data st in
  paneWriters st' = paneWriters st
  ∧ match tmuxPaneBootstrap st !! q with
    | Some b =>
        (is_Some (tmuxPaneBootstrap st' !! q)
         ∧ (∀ p, p ≠ q → tmuxPaneBootstrap st' !! p = tmuxPaneBootstrap st !! p)
         ∧ written st' = written st)
        ∨ (tmuxPaneBootstrap st' = delete q (tmuxPaneBootstrap st)
           ∧ written st'
             = written st
               ++ (if decide (q ∈ paneWriters st)
                   then calls q (pendingChunks q b (Output q data)) else []))
    | None =>
        tmuxPaneBootstrap st' = tmuxPaneBootstrap st
        ∧ ∃ ds, written st'
                = written st
                  ++ (if decide (q ∈ paneWriters st) then calls q ds else [])
    end.
Proof.
  unfold handleTmuxOutput, pendingChunks.
  destruct (decide (length (sanitizeTmuxOutput data) = 0%nat)) as [Hz|Hnz].
  { cbv zeta. split; [reflexivity|].
    destruct (tmuxPaneBootstrap st !! q) as [b|] eqn:Hb.
    - left. repeat split; eauto.
    - split; [reflexivity|]. exists []. destruct (decide _); cbn; by rewrite app_nil_r. }
  destruct (tmuxPaneBootstrap st !! q) as [b|] eqn:Hb.
  - rewrite (decide_True (P := q = q ∧ length (sanitizeTmuxOutput data) ≠ 0%nat))
      by (split; [reflexivity|assumption]).
    destruct (evictOldest _ _ _) as [cs tot]. cbn [fst].
    set (st1 := set_tmuxPaneBootstrap st _).
    destruct (MAX_TMUX_BOOTSTRAP_BUFFER_BYTES <=? tot).
    + destruct (flush_effect q None st1) as (Hw & Hb' & Hc).
      cbv zeta. rewrite Hw, Hb', Hc. split; [reflexivity|]. right.
      unfold flushedData, st1. cbn. rewrite lookup_insert_eq.
      split; [|reflexivity]. apply delete_insert_eq.
    + cbv zeta. split; [reflexivity|]. left. unfold st1. cbn.
      rewrite lookup_insert_eq. repeat split; eauto.
      intros p Hp. by rewrite lookup_insert_ne.
  - destruct (writeToPane_effect q (sanitizeTmuxOutput data) st) as (Hw & Hb' & Hc).
    cbv zeta. rewrite Hw, Hb', Hc. repeat split. eexists. reflexivity.
Qed.

(** The capture queue does not touch the writers, the bootstrap table or
    the calls of writers. *)
Lemma runNextTmuxCapture_frame c st :
  paneWriters (runNextTmuxCapture c st) = paneWriters st
  ∧ tmuxPaneBootstrap (runNextTmuxCapture c st) = tmuxPaneBootstrap st
  ∧ written (runNextTmuxCapture c st) = written st.
Proof.
  unfold runNextTmuxCapture.
  destruct (decide _); [repeat split|].
  destruct (tmuxCaptureQueues st !! c) as [[|next queue]|]; repeat split.
Qed.

Lemma captureTimeout_frame c next st :
  paneWriters (captureTimeout c next st) = paneWriters st
  ∧ tmuxPaneBootstrap (captureTimeout c next st) = tmuxPaneBootstrap st
  ∧ written (captureTimeout c next st) = written st.
Proof.
  unfold captureTimeout.
  destruct (tmuxCaptureActive st !! c) as [active|]; [|repeat split].
  destruct (decide _); [repeat split|].
  cbv zeta.
  destruct (runNextTmuxCapture_frame c
              (callResolve active []
                 (set_tmuxCaptureActive st (delete c (tmuxCaptureActive st)))))
    as (-> & -> & ->).
  repeat split.
Qed.

Lemma mapPaneAllocate_effect q st :
  paneWriters (mapPaneAllocate q st) = paneWriters st
  ∧ written (mapPaneAllocate q st) = written st
  ∧ (∀ p, p ≠ q →
       tmuxPaneBootstrap (mapPaneAllocate q st) !! p = tmuxPaneBootstrap st !! p)
  ∧ tmuxPaneBootstrap (mapPaneAllocate q st) !! q
    = Some {| chunks := []; totalBytes := 0; flushTimer := Some (nextTimer st) |}.
Proof.
  unfold mapPaneAllocate. cbn. repeat split.
  - intros p Hp. by rewrite lookup_insert_ne.
  - apply lookup_insert_eq.
Qed.

(** A run of the hydration either leaves the state as it is (a retry is
    scheduled) or is a call of [flushTmuxBootstrapPane]; a call with a
    history has a non-empty one. *)
Lemma hydrate_cases q attempt prefetched socketPath captured st :
  let st' := hydrateTmuxPaneHistory q attempt prefetched socketPath captured st in
  st' = st
  ∨ st' = flushTmuxBootstrapPane q None st
  ∨ ∃ h, h ≠ [] ∧ st' = flushTmuxBootstrapPane q (Some h) st.
Proof.
  unfold hydrateTmuxPaneHistory. cbv zeta.
  assert (∀ normalized : jsstring,
    (if endsWith [CR; LF] normalized then normalized else normalized ++ [CR; LF])
    ≠ []) as Hne.
  { intros [|x l]; [discriminate|].
    destruct (endsWith [CR; LF] (x :: l)); discriminate. }
  destruct prefetched as [[|c pre]|].
  2:{ right; right. eexists. split; [|reflexivity]. discriminate. }
  all: destruct (_ && _); [by left|].
  all: destruct captured as [[|c text]|].
  all: try (destruct (bool_decide _); [by left|by right; left]).
  all: right; right; eexists; split; [apply Hne|reflexivity].
Qed.

(** A run of the hydration with a captured history is the flush with
    that history, which is not empty; a run without one leaves the state
    as it is (a retry is scheduled) or is the flush without a history. *)
Lemma hydrate_spec q attempt prefetched socketPath captured st :
  let st' := hydrateTmuxPaneHistory q attempt prefetched socketPath captured st in
  match hydrationHistory attempt prefetched socketPath captured with
  | Some h => h ≠ [] ∧ st' = flushTmuxBootstrapPane q (Some h) st
  | None => st' = st ∨ st' = flushTmuxBootstrapPane q None st
  end.
Proof.
  unfold hydrateTmuxPaneHistory, hydrationHistory. cbv zeta.
  assert (∀ normalized : jsstring,
    (if endsWith [CR; LF] normalized then normalized else normalized ++ [CR; LF])
    ≠ []) as Hne.
  { intros [|x l]; [discriminate|].
    destruct (endsWith [CR; LF] (x :: l)); discriminate. }
  destruct prefetched as [[|c pre]|].
  2:{ split; [discriminate|reflexivity]. }
  all: destruct (_ && _); [by left|].
  all: destruct captured as [[|c text]|].
  all: try (destruct (bool_decide _); [by left|by right]).
  all: split; [apply Hne|reflexivity].
Qed.

Lemma hydrationOf_nonempty p e h : hydrationOf p e = Some h → h ≠ [].
Proof.
  destruct e as [q|q data|t|q attempt prefetched socketPath captured];
    cbn [hydrationOf]; try discriminate.
  destruct (decide (q = p)); [|discriminate]. intros E.
  pose proof (hydrate_spec q attempt prefetched socketPath captured
                (initialState ∅)) as H.
  rewrite E in H. apply H.
Qed.

(** What a step does to the panes other than the one it concerns: every
    step concerns at most one pane [q]; it calls no writer but that of [q],
    and leaves the bootstrap entry of every other pane as it is. *)
Lemma step_frame st e :
  paneWriters (step st e) = paneWriters st
  ∧ ∃ q ds,
      written (step st e) = written st ++ calls q ds
      ∧ (∀ p, p ≠ q →
           tmuxPaneBootstrap (step st e) !! p = tmuxPaneBootstrap st !! p)
      ∧ (match e with
         | MapPane q' | Output q' _ | Hydrate q' _ _ _ _ => q = q'
         | TimerFires _ => True
         end).
Proof.
  assert (∀ q cap st0,
    paneWriters (flushTmuxBootstrapPane q cap st0) = paneWriters st0
    ∧ ∃ ds,
        written (flushTmuxBootstrapPane q cap st0) = written st0 ++ calls q ds
        ∧ (∀ p, p ≠ q →
             tmuxPaneBootstrap (flushTmuxBootstrapPane q cap st0) !! p
             = tmuxPaneBootstrap st0 !! p)) as Hflush.
  { intros q cap st0. destruct (flush_effect q cap st0) as (Hw & Hb & Hc).
    split; [exact Hw|].
    exists (if decide (q ∈ paneWriters st0) then flushedData q cap st0 else []).
    split.
    - rewrite Hc. by destruct (decide _).
    - intros p Hp. rewrite Hb. by rewrite lookup_delete_ne. }
  assert (∀ st0 q, written st0 = written st0 ++ calls q []) as Hnil
    by (intros; cbn; by rewrite app_nil_r).
  destruct e as [q|q data|t|q attempt prefetched socketPath captured];
    cbn [step].
  - destruct (mapPaneAllocate_effect q st) as (Hw & Hc & Hb & _).
    split; [exact Hw|]. exists q, []. rewrite Hc. repeat split; auto.
  - destruct (handleTmuxOutput_effect q data st) as (Hw & H).
    split; [exact Hw|]. exists q.
    destruct (tmuxPaneBootstrap st !! q) as [b|].
    + destruct H as [(_ & Hb & Hc)|(Hb & Hc)].
      * exists []. rewrite Hc. repeat split; auto.
      * eexists (if decide (q ∈ paneWriters st) then _ else []).
        split; [|split; [|reflexivity]].
        -- rewrite Hc. by destruct (decide _).
        -- intros p Hp. rewrite Hb. by rewrite lookup_delete_ne.
    + destruct H as (Hb & ds & Hc).
      exists (if decide (q ∈ paneWriters st) then ds else []).
      split; [|split; [|reflexivity]].
      * rewrite Hc. by destruct (decide _).
      * intros p _. by rewrite Hb.
  - unfold fireTimer. destruct (timers st !! t) as [[q|c next]|].
    + destruct (Hflush q None (set_timers st (delete t (timers st))))
        as (Hw & ds & Hc & Hb).
      split; [exact Hw|]. exists q, ds. repeat split; auto.
    + destruct (captureTimeout_frame c next (set_timers st (delete t (timers st))))
        as (Hw & Hb & Hc).
      split; [exact Hw|]. exists [], []. rewrite Hc, Hb. cbn.
      rewrite app_nil_r. repeat split; auto.
    + split; [reflexivity|]. exists [], []. cbn. rewrite app_nil_r.
      repeat split; auto.
  - destruct (hydrate_cases q attempt prefetched socketPath captured st)
      as [->|[->|(h & _ & ->)]].
    + split; [reflexivity|]. exists q, []. repeat split; auto.
    + destruct (Hflush q None st) as (Hw & ds & Hc & Hb).
      split; [exact Hw|]. exists q, ds. repeat split; auto.
    + destruct (Hflush q (Some h) st) as (Hw & ds & Hc & Hb).
      split; [exact Hw|]. exists q, ds. repeat split; auto.
Qed.

Lemma deliveredTo_other p q ds st st' :
  written st' = written st ++ calls q ds → q ≠ p →
  deliveredTo p st' = deliveredTo p st.
Proof.
  intros Hw Hne. rewrite (deliveredTo_calls p q ds st st' Hw).
  rewrite decide_False by assumption. apply app_nil_r.
Qed.

(** A flush of [p] while [p] is in the bootstrap state. *)
Lemma flush_view p cap st b :
  p ∈ paneWriters st → tmuxPaneBootstrap st !! p = Some b →
  tmuxPaneBootstrap (flushTmuxBootstrapPane p cap st) !! p = None
  ∧ deliveredTo p (flushTmuxBootstrapPane p cap st)
    = deliveredTo p st ++ flushedData p cap st.
Proof.
  intros Hp Hb. destruct (flush_effect p cap st) as (_ & Hb' & Hc).
  rewrite decide_True in Hc by assumption.
  split; [rewrite Hb'; apply lookup_delete_eq|].
  rewrite (deliveredTo_calls p p _ st _ Hc). by rewrite decide_True.
Qed.

(** One step, seen from a pane [p] in the bootstrap state: either [p]
    stays in that state and nothing is delivered to it, or [p] leaves it
    and what is delivered is the hydration result: the captured history
    of the step, if it is a run of the hydration of [p] that ends with
    one, else the chunks of its buffer. *)
Lemma step_view p st e b :
  p ∈ paneWriters st → e ≠ MapPane p →
  tmuxPaneBootstrap st !! p = Some b →
  (is_Some (tmuxPaneBootstrap (step st e) !! p)
   ∧ deliveredTo p (step st e) = deliveredTo p st)
  ∨ (tmuxPaneBootstrap (step st e) !! p = None
     ∧ deliveredTo p (step st e) = deliveredTo p st ++ hydrationResult p b e).
Proof.
  intros Hp He Hb.
  assert (∀ q, q ≠ p →
            (match e with
             | MapPane q' | Output q' _ | Hydrate q' _ _ _ _ => q = q'
             | TimerFires _ => False
             end) →
            is_Some (tmuxPaneBootstrap (step st e) !! p)
            ∧ deliveredTo p (step st e) = deliveredTo p st) as Hother.
  { intros q Hq Hq'. destruct (step_frame st e) as (_ & q0 & ds & Hc & Hb' & Ht).
    assert (q0 = q) as ->
        by (destruct e; cbn in Hq', Ht;
            [congruence|congruence|contradiction|congruence]).
    split.
    - rewrite Hb' by auto. rewrite Hb. eauto.
    - by apply (deliveredTo_other p q ds). }
  destruct e as [q|q data|t|q attempt prefetched socketPath captured].
  - left. apply (Hother q); [congruence|reflexivity].
  - destruct (decide (q = p)) as [->|Hq]; [|left; by apply (Hother q)].
    cbn [step]. destruct (handleTmuxOutput_effect p data st) as (_ & H).
    rewrite Hb in H. destruct H as [(Hs & _ & Hc)|(Hb' & Hc)].
    + left. split; [exact Hs|].
      unfold deliveredTo. rewrite Hc. reflexivity.
    + right. split; [rewrite Hb'; apply lookup_delete_eq|].
      rewrite decide_True in Hc by assumption.
      rewrite (deliveredTo_calls p p _ st _ Hc). by rewrite decide_True.
  - cbn [step]. unfold fireTimer.
    destruct (timers st !! t) as [[q|c next]|].
    + set (st1 := set_timers st (delete t (timers st))).
      destruct (decide (q = p)) as [->|Hq].
      * right. destruct (flush_view p None st1 b Hp Hb) as (Hn & Hd).
        split; [exact Hn|]. rewrite Hd. unfold flushedData.
        change (tmuxPaneBootstrap st1) with (tmuxPaneBootstrap st).
        rewrite Hb. reflexivity.
      * left. destruct (flush_effect q None st1) as (_ & Hb' & Hc).
        split.
        -- rewrite Hb', lookup_delete_ne by auto.
           change (tmuxPaneBootstrap st1) with (tmuxPaneBootstrap st).
           rewrite Hb. eauto.
        -- destruct (decide (q ∈ paneWriters st1)).
           ++ by apply (deliveredTo_other p q _ st1 _ Hc).
           ++ apply (deliveredTo_other p q [] st1); [|assumption].
              rewrite Hc. reflexivity.
    + left.
      destruct (captureTimeout_frame c next (set_timers st (delete t (timers st))))
        as (_ & Hb' & Hc).
      split.
      * rewrite Hb'. cbn. rewrite Hb. eauto.
      * unfold deliveredTo. rewrite Hc. reflexivity.
    + left. rewrite Hb. eauto.
  - destruct (decide (q = p)) as [->|Hq]; [|left; by apply (Hother q)].
    cbn [step]. unfold hydrationResult. cbn [hydrationOf].
    rewrite decide_True by reflexivity.
    pose proof (hydrate_spec p attempt prefetched socketPath captured st) as H.
    cbv zeta in H.
    destruct (hydrationHistory attempt prefetched socketPath captured) as [h|].
    + destruct H as (Hh & ->). right.
      destruct (flush_view p (Some h) st b Hp Hb) as (Hn & Hd).
      split; [exact Hn|]. rewrite Hd. unfold flushedData.
      destruct h; [contradiction|reflexivity].
    + destruct H as [->| ->].
      * left. rewrite Hb. eauto.
      * right. destruct (flush_view p None st b Hp Hb) as (Hn & Hd).
        split; [exact Hn|]. rewrite Hd. unfold flushedData.
        rewrite Hb. reflexivity.
Qed.

(** A pane that is out of the bootstrap state stays out of it, unless
    [mapPane] allocates it anew. *)
Lemma step_resolved p st e :
  e ≠ MapPane p → tmuxPaneBootstrap st !! p = None →
  tmuxPaneBootstrap (step st e) !! p = None.
Proof.
  intros He Hb.
  destruct e as [q|q data|t|q attempt prefetched socketPath captured];
    cbn [step].
  - destruct (mapPaneAllocate_effect q st) as (_ & _ & Hb' & _).
    rewrite Hb' by congruence. exact Hb.
  - destruct (handleTmuxOutput_effect q data st) as (_ & H).
    destruct (decide (q = p)) as [->|Hq].
    + rewrite Hb in H. destruct H as (-> & _). exact Hb.
    + destruct (tmuxPaneBootstrap st !! q) as [b|].
      * destruct H as [(_ & Hb' & _)|(-> & _)].
        -- by rewrite Hb'.
        -- by rewrite lookup_delete_ne.
      * destruct H as (-> & _). exact Hb.
  - unfold fireTimer. destruct (timers st !! t) as [[q|c next]|]; [| |exact Hb].
    + destruct (flush_effect q None (set_timers st (delete t (timers st))))
        as (_ & -> & _).
      apply lookup_delete_None. right. exact Hb.
    + destruct (captureTimeout_frame c next (set_timers st (delete t (timers st))))
        as (_ & -> & _). exact Hb.
  - destruct (hydrate_cases q attempt prefetched socketPath captured st)
      as [->|[->|(h & _ & ->)]]; [exact Hb| |].
    + destruct (flush_effect q None st) as (_ & -> & _).
      apply lookup_delete_None. right. exact Hb.
    + destruct (flush_effect q (Some h) st) as (_ & -> & _).
      apply lookup_delete_None. right. exact Hb.
Qed.

Lemma run_resolved p events : ∀ st,
  MapPane p ∉ events → tmuxPaneBootstrap st !! p = None →
  tmuxPaneBootstrap (run st events) !! p = None
  ∧ bootstrapFlushes p st events = 0%nat.
Proof.
  induction events as [|e events IH]; intros st Hm Hb; [by split|].
  apply not_elem_of_cons in Hm as [He Hm].
  cbn [run foldl bootstrapFlushes].
  destruct (IH (step st e) Hm (step_resolved p st e (not_eq_sym He) Hb))
    as (H1 & H2).
  split; [exact H1|]. rewrite H2. unfold resolvesBootstrap.
  rewrite bool_decide_eq_false_2; [reflexivity|].
  rewrite Hb. by intros [? ?].
Qed.

Lemma bootstrapFlushes_at_most_once p events : ∀ st,
  MapPane p ∉ events → (bootstrapFlushes p st events ≤ 1)%nat.
Proof.
  induction events as [|e events IH]; intros st Hm; [cbn; lia|].
  apply not_elem_of_cons in Hm as [He Hm].
  cbn [bootstrapFlushes].
  destruct (resolvesBootstrap p st e) eqn:E.
  - apply andb_true_iff in E as [_ E]. apply bool_decide_eq_true in E.
    destruct (run_resolved p events (step st e) Hm E) as (_ & ->). lia.
  - specialize (IH (step st e) Hm). lia.
Qed.

Lemma silent_while_bootstrapping p events : ∀ st,
  p ∈ paneWriters st → MapPane p ∉ events →
  is_Some (tmuxPaneBootstrap (run st events) !! p) →
  deliveredTo p (run st events) = deliveredTo p st.
Proof.
  induction events as [|e events IH]; intros st Hp Hm Hs; [reflexivity|].
  apply not_elem_of_cons in Hm as [He Hm].
  cbn [run foldl] in Hs |- *.
  destruct (tmuxPaneBootstrap st !! p) as [b|] eqn:Hb.
  - destruct (step_view p st e b Hp (not_eq_sym He) Hb) as [(_ & Hd)|(Hn & _)].
    + rewrite <- Hd. apply IH; [|assumption|assumption].
      destruct (step_frame st e) as (-> & _). exact Hp.
    + destruct (run_resolved p events (step st e) Hm Hn) as (Hn' & _).
      unfold run in Hn'. rewrite Hn' in Hs. by destruct Hs.
  - pose proof (step_resolved p st e (not_eq_sym He) Hb) as Hn.
    destruct (run_resolved p events (step st e) Hm Hn) as (Hn' & _).
    unfold run in Hn'. rewrite Hn' in Hs. by destruct Hs.
Qed.

(** History that arrives for a pane out of the bootstrap state is still
    handed to its writer. *)
Lemma late_history p h st :
  p ∈ paneWriters st → tmuxPaneBootstrap st !! p = None → h ≠ [] →
  tmuxPaneBootstrap (flushTmuxBootstrapPane p (Some h) st) !! p = None
  ∧ deliveredTo p (flushTmuxBootstrapPane p (Some h) st)
    = deliveredTo p st ++ [h].
Proof.
  intros Hp Hb Hh. destruct (flush_effect p (Some h) st) as (_ & Hb' & Hc).
  rewrite decide_True in Hc by assumption.
  split; [rewrite Hb'; apply lookup_delete_None; by right|].
  rewrite (deliveredTo_calls p p _ st _ Hc). rewrite decide_True by reflexivity.
  unfold flushedData. destruct h; [contradiction|reflexivity].
Qed.

(** A flush without a history of a pane out of the bootstrap state hands
    its writer nothing. *)
Lemma late_flush p st :
  tmuxPaneBootstrap st !! p = None →
  deliveredTo p (flushTmuxBootstrapPane p None st) = deliveredTo p st.
Proof.
  intros Hb. destruct (flush_effect p None st) as (_ & _ & Hc).
  unfold flushedData in Hc. rewrite Hb in Hc.
  unfold deliveredTo. rewrite Hc.
  destruct (decide _); cbn; by rewrite app_nil_r.
Qed.

(** One step, seen from a pane [p] out of the bootstrap state: its
    writer is handed the output of the pane and the captured history of
    a run of its hydration, and nothing else; a flush by a timer hands it
    nothing. *)
Lemma step_late p st e :
  p ∈ paneWriters st → e ≠ MapPane p →
  tmuxPaneBootstrap st !! p = None →
  deliveredTo p (step st e) = deliveredTo p st ++ lateDelivery p e.
Proof.
  intros Hp He Hb.
  assert (∀ q, q ≠ p →
            (match e with
             | MapPane q' | Output q' _ | Hydrate q' _ _ _ _ => q = q'
             | TimerFires _ => False
             end) →
            deliveredTo p (step st e) = deliveredTo p st) as Hother.
  { intros q Hq Hq'. destruct (step_frame st e) as (_ & q0 & ds & Hc & _ & Ht).
    assert (q0 = q) as ->
        by (destruct e; cbn in Hq', Ht;
            [congruence|congruence|contradiction|congruence]).
    by apply (deliveredTo_other p q ds). }
  destruct e as [q|q data|t|q attempt prefetched socketPath captured].
  - cbn [lateDelivery hydrationOf]. rewrite app_nil_r.
    apply (Hother q); [congruence|reflexivity].
  - cbn [lateDelivery]. cbv zeta.
    destruct (decide (q = p)) as [->|Hq].
    + cbn [step]. unfold handleTmuxOutput. cbv zeta.
      destruct (decide (length (sanitizeTmuxOutput data) = 0%nat)) as [Hz|Hnz].
      * rewrite decide_False by (intros [_ H]; contradiction).
        by rewrite app_nil_r.
      * rewrite decide_True by (split; [reflexivity|assumption]).
        rewrite Hb.
        destruct (writeToPane_effect p (sanitizeTmuxOutput data) st)
          as (_ & _ & Hc).
        rewrite decide_True in Hc by assumption.
        rewrite (deliveredTo_calls p p _ st _ Hc). by rewrite decide_True.
    + rewrite decide_False by (intros [H _]; contradiction).
      rewrite app_nil_r. by apply (Hother q).
  - cbn [lateDelivery hydrationOf]. rewrite app_nil_r.
    cbn [step]. unfold fireTimer.
    destruct (timers st !! t) as [[q|c next]|]; [| |reflexivity].
    + set (st1 := set_timers st (delete t (timers st))).
      destruct (decide (q = p)) as [->|Hq].
      { rewrite (late_flush p st1) by exact Hb. reflexivity. }
      destruct (flush_effect q None st1) as (_ & _ & Hc).
      destruct (decide (q ∈ paneWriters st1)).
      * by apply (deliveredTo_other p q _ st1 _ Hc).
      * apply (deliveredTo_other p q [] st1); [|assumption].
        rewrite Hc. reflexivity.
    + destruct (captureTimeout_frame c next (set_timers st (delete t (timers st))))
        as (_ & _ & Hc).
      unfold deliveredTo. rewrite Hc. reflexivity.
  - cbn [lateDelivery hydrationOf].
    destruct (decide (q = p)) as [->|Hq].
    2:{ rewrite app_nil_r. by apply (Hother q). }
    cbn [step].
    pose proof (hydrate_spec p attempt prefetched socketPath captured st) as H.
    cbv zeta in H.
    destruct (hydrationHistory attempt prefetched socketPath captured) as [h|].
    + destruct H as (Hh & ->). by apply late_history.
    + rewrite app_nil_r. destruct H as [->| ->]; [reflexivity|].
      by apply late_flush.
Qed.

(** A run, seen from a pane [p] out of the bootstrap state. *)
Lemma run_late p events : ∀ st,
  p ∈ paneWriters st → MapPane p ∉ events →
  tmuxPaneBootstrap st !! p = None →
  deliveredTo p (run st events)
  = deliveredTo p st ++ flat_map (lateDelivery p) events.
Proof.
  induction events as [|e events IH]; intros st Hp Hm Hb.
  { cbn. by rewrite app_nil_r. }
  apply not_elem_of_cons in Hm as [He Hm].
  cbn [run foldl flat_map].
  assert (p ∈ paneWriters (step st e)) as Hp'
      by (destruct (step_frame st e) as (-> & _); exact Hp).
  pose proof (IH (step st e) Hp' Hm
                (step_resolved p st e (not_eq_sym He) Hb)) as H.
  unfold run in H. rewrite H.
  rewrite (step_late p st e Hp (not_eq_sym He) Hb).
  by rewrite <- app_assoc.
Qed.

(** A run, seen from a pane [p] in the bootstrap state: either [p] is
    still in that state at the end and nothing was delivered to it, or
    there is one event of the run at which [p] leaves the state; nothing
    was delivered before it, it delivers the hydration result, and after
    it the writer is handed the late deliveries of the events that
    follow. *)
Lemma run_view p events : ∀ st b,
  p ∈ paneWriters st → MapPane p ∉ events →
  tmuxPaneBootstrap st !! p = Some b →
  (is_Some (tmuxPaneBootstrap (run st events) !! p)
   ∧ deliveredTo p (run st events) = deliveredTo p st)
  ∨ ∃ before e after b',
      events = before ++ e :: after
      ∧ tmuxPaneBootstrap (run st before) !! p = Some b'
      ∧ deliveredTo p (run st before) = deliveredTo p st
      ∧ tmuxPaneBootstrap (step (run st before) e) !! p = None
      ∧ deliveredTo p (step (run st before) e)
        = deliveredTo p st ++ hydrationResult p b' e
      ∧ deliveredTo p (run st events)
        = deliveredTo p st ++ hydrationResult p b' e
          ++ flat_map (lateDelivery p) after
      ∧ tmuxPaneBootstrap (run st events) !! p = None.
Proof.
  induction events as [|e events IH]; intros st b Hp Hm Hb.
  { left. cbn. rewrite Hb. eauto. }
  apply not_elem_of_cons in Hm as [He Hm].
  assert (p ∈ paneWriters (step st e)) as Hp'
      by (destruct (step_frame st e) as (-> & _); exact Hp).
  destruct (step_view p st e b Hp (not_eq_sym He) Hb)
    as [([b1 Hb1] & Hd)|(Hn & HX)].
  - destruct (IH (step st e) b1 Hp' Hm Hb1)
      as [(Hs & Hd')
         |(before & e' & after & b' & -> & H1 & H2 & H3 & H4 & H5 & H6)].
    + left. cbn [run foldl]. split; [exact Hs|]. unfold run in Hd'.
      by rewrite Hd'.
    + right. exists (e :: before), e', after, b'.
      cbn [run foldl app]. rewrite <- Hd.
      repeat split; assumption.
  - right. exists [], e, events, b. cbn [run foldl app].
    repeat split; try assumption.
    + pose proof (run_late p events (step st e) Hp' Hm Hn) as H.
      unfold run in H. rewrite H, HX. by rewrite <- app_assoc.
    + apply (run_resolved p events (step st e) Hm Hn).
Qed.

End BootstrapFacts.

(** C2, as stated, fails: the pane below enters the bootstrap state,
    buffers the chunk ["x"], is flushed by its 15 s timer, and then the
    hydration completes with the captured history ["h"]: the writer is
    handed the buffered chunk and, after it, the history. *)
Lemma C2_counterexample :
  let p := js "pane-1" in
  let events :=
    [ MapPane p; Output p (js "x"); TimerFires 0;
      Hydrate p 1 None (Some (js "/tmp/tmux-1000/default")) (Captured (js "h")) ] in
  let st := run (initialState {[p]}) events in
  deliveredTo p st = [js "x"; js "h" ++ [CR; LF]]
  ∧ deliveredTo p (run (initialState {[p]}) (take 3 events)) = [js "x"]
  ∧ tmuxPaneBootstrap (run (initialState {[p]}) (take 3 events)) !! p = None.
Proof. vm_compute. repeat split. Qed.

(** C2 (amended): for a pane [p] with a writer, over every sequence of
    events (outputs, timers firing, runs of the hydration, allocation of
    other panes) in which [p] is not allocated anew:
    the pane leaves the bootstrap state at most once; if it is in that
    state at the start, then either it still is at the end and nothing was
    handed to its writer, or there is one event at which it leaves, before
    which nothing was handed to its writer, and which hands the writer its
    hydration result, exactly one of: the captured history of that event
    (the prefetched history, or the captured text normalised and ending
    in CR LF), which is not empty and which only a run of its hydration
    has, or the chunks of its buffer in order (possibly none).
    Once the pane is out of the bootstrap state, the flush deadline and
    the cap hand the writer nothing more: all that the writer is handed
    from then on is the output of the pane as it arrives and, for each
    later run of its hydration that ends with a captured history, that
    history; so the writer gets one hydration result and no more in every
    interleaving but those in which a run of the hydration ends with a
    history after the pane has left the bootstrap state.  A pane allocated
    by [mapPane] is in the bootstrap state with an empty buffer. *)
Theorem C2_bootstrap_flush (p : jsstring) (st : State) (events : list Event) :
  p ∈ paneWriters st → MapPane p ∉ events →
  (bootstrapFlushes p st events ≤ 1)%nat
  ∧ (∀ b, tmuxPaneBootstrap st !! p = Some b →
       (is_Some (tmuxPaneBootstrap (run st events) !! p)
        ∧ deliveredTo p (run st events) = deliveredTo p st)
       ∨ ∃ before e after b',
           events = before ++ e :: after
           ∧ tmuxPaneBootstrap (run st before) !! p = Some b'
           ∧ deliveredTo p (run st before) = deliveredTo p st
           ∧ tmuxPaneBootstrap (step (run st before) e) !! p = None
           ∧ deliveredTo p (step (run st before) e)
             = deliveredTo p st ++ hydrationResult p b' e
           ∧ ((∃ h, hydrationOf p e = Some h ∧ h ≠ []
                    ∧ hydrationResult p b' e = [h])
              ∨ (hydrationOf p e = None
                 ∧ hydrationResult p b' e = pendingChunks p b' e))
           ∧ deliveredTo p (run st events)
             = deliveredTo p st ++ hydrationResult p b' e
               ++ flat_map (lateDelivery p) after
           ∧ tmuxPaneBootstrap (run st events) !! p = None)
  ∧ (is_Some (tmuxPaneBootstrap (run st events) !! p) →
     deliveredTo p (run st events) = deliveredTo p st)
  ∧ (tmuxPaneBootstrap st !! p = None →
     tmuxPaneBootstrap (run st events) !! p = None
     ∧ deliveredTo p (run st events)
       = deliveredTo p st ++ flat_map (lateDelivery p) events)
  ∧ (∀ t, lateDelivery p (TimerFires t) = [])
  ∧ (∀ e, lateDelivery p e = []
          ∨ (∃ data, e = Output p data ∧ sanitizeTmuxOutput data ≠ []
                     ∧ lateDelivery p e = [sanitizeTmuxOutput data])
          ∨ (∃ h, hydrationOf p e = Some h ∧ lateDelivery p e = [h]))
  ∧ (∀ e h, hydrationOf p e = Some h →
       h ≠ []
       ∧ ∃ attempt prefetched socketPath captured,
           e = Hydrate p attempt prefetched socketPath captured
           ∧ (match prefetched with
              | Some ((_ :: _) as pre) => h = pre
              | _ =>
                  ∃ text, captured = Captured text ∧ text ≠ []
                    ∧ h = (let normalized := normalizeCapturedHistory text in
                           if endsWith [CR; LF] normalized then normalized
                           else normalized ++ [CR; LF])
              end))
  ∧ tmuxPaneBootstrap (step st (MapPane p)) !! p
    = Some {| chunks := []; totalBytes := 0; flushTimer := Some (nextTimer st) |}.
Proof.
  intros Hp Hm.
  split; [by apply bootstrapFlushes_at_most_once|].
  split.
  { intros b Hb.
    destruct (run_view p events st b Hp Hm Hb)
      as [H|(before & e & after & b' & H1 & H2 & H3 & H4 & H5 & H6 & H7)];
      [by left|].
    right. exists before, e, after, b'.
    repeat (split; [assumption|]). split; [|by split].
    unfold hydrationResult.
    destruct (hydrationOf p e) as [h|] eqn:E.
    - left. exists h. repeat split. by apply (hydrationOf_nonempty p e).
    - by right. }
  split; [by apply silent_while_bootstrapping|].
  split.
  { intros Hb. split; [by apply run_resolved|]. by apply run_late. }
  split; [reflexivity|].
  split.
  { intros [q|q data|t|q attempt prefetched socketPath captured];
      cbn [lateDelivery]; cbv zeta.
    - left. reflexivity.
    - destruct (decide _) as [[-> Hl]|]; [|by left].
      right. left. exists data. repeat split.
      intros E. rewrite E in Hl. by apply Hl.
    - left. reflexivity.
    - destruct (hydrationOf p (Hydrate q attempt prefetched socketPath captured))
        as [h|]; [|by left].
      right. right. by exists h. }
  split; [|apply mapPaneAllocate_effect].
  intros e h E. split; [by apply (hydrationOf_nonempty p e)|].
  destruct e as [q|q data|t|q attempt prefetched socketPath captured];
    cbn [hydrationOf] in E; try discriminate.
  destruct (decide (q = p)) as [->|]; [|discriminate].
  exists attempt, prefetched, socketPath, captured. split; [reflexivity|].
  unfold hydrationHistory in E. cbv zeta in E.
  destruct prefetched as [[|c pre]|]; [|by injection E|].
  all: destruct (_ && _); [discriminate|].
  all: destruct captured as [[|c text]|]; try discriminate.
  all: injection E as <-; exists (c :: text); by repeat split.
Qed.

(** A witness of C2: a pane with a writer enters the bootstrap state,
    buffers one chunk, is flushed by its timer, and then its hydration
    ends with a captured history. *)
Lemma C2_witness :
  let p := js "pane-1" in
  let st := step (initialState {[p]}) (MapPane p) in
  let events :=
    [ Output p (js "x"); TimerFires 0;
      Hydrate p 1 None (Some (js "/tmp/tmux-1000/default")) (Captured (js "h")) ] in
  (bootstrapFlushes p st events ≤ 1)%nat
  ∧ deliveredTo p (run st events)
    = hydrationResult p {| chunks := [js "x"]; totalBytes := 1;
                           flushTimer := Some 0%nat |} (TimerFires 0)
      ++ flat_map (lateDelivery p) (drop 2 events)
  ∧ deliveredTo p (run st events) = [js "x"; js "h" ++ [CR; LF]].
Proof.
  intros p st events.
  assert (p ∈ paneWriters st) as Hp by (vm_compute; reflexivity).
  assert (MapPane p ∉ events) as Hm.
  { intros H. repeat (apply elem_of_cons in H as [H|H]; [discriminate H|]).
    by apply elem_of_nil in H. }
  destruct (C2_bootstrap_flush p st events Hp Hm) as (H1 & _).
  split; [exact H1|]. vm_compute. split; reflexivity.
Defined.

(* ===================================================================== *)
(** * Part II, continued: further properties of the code                  *)
(* ===================================================================== *)

Section MoreLayoutFacts.

Implicit Types (L : LayoutNode) (p q : jsstring).

Lemma split_then_remove_spec L target d new :
  new ∉ collectPaneIds L →
  remove_pane_spec (splitLayoutAtPane L target d new) new = Some L.
Proof.
  induction L as [q|d' r a IHa b IHb]; simpl; intros Hnew.
  - assert (q ≠ new) as Hq by set_solver.
    destruct (decide (q ≠ target)) as [Hne|Heq]; simpl.
    + rewrite decide_False by assumption. reflexivity.
    + rewrite decide_False by assumption.
      rewrite decide_True by reflexivity. reflexivity.
  - rewrite IHa, IHb by set_solver. reflexivity.
Qed.

Lemma flat_map_split_elem (target new x : jsstring) (l : list jsstring) :
  x ∈ flat_map (λ q, if decide (q = target) then [q; new] else [q]) l
  ↔ x ∈ l ∨ (x = new ∧ target ∈ l).
Proof.
  induction l as [|a l IH]; cbn [flat_map].
  - split; [intros H; by apply elem_of_nil in H|].
    intros [H|[_ H]]; by apply elem_of_nil in H.
  - rewrite elem_of_app, IH, !elem_of_cons.
    destruct (decide (a = target)) as [->|Hne].
    + rewrite !elem_of_cons, elem_of_nil. intuition auto.
    + rewrite list_elem_of_singleton. intuition (subst; auto).
      contradiction.
Qed.

Lemma NoDup_flat_map_split (target new : jsstring) (l : list jsstring) :
  NoDup l → new ∉ l →
  NoDup (flat_map (λ q, if decide (q = target) then [q; new] else [q]) l).
Proof.
  induction l as [|a l IH]; cbn [flat_map]; intros Hnd Hnew; [constructor|].
  apply NoDup_cons in Hnd as [Ha Hnd].
  apply not_elem_of_cons in Hnew as [Hna Hnew].
  specialize (IH Hnd Hnew).
  destruct (decide (a = target)) as [->|Hne]; cbn [app].
  - apply NoDup_cons. split.
    + rewrite elem_of_cons, flat_map_split_elem.
      intros [H|[H|[H _]]]; [by apply Hna|contradiction|by apply Hna].
    + apply NoDup_cons. split; [|assumption].
      rewrite flat_map_split_elem. intros [H|[_ H]]; contradiction.
  - apply NoDup_cons. split; [|assumption].
    rewrite flat_map_split_elem.
    intros [H|[H _]]; [contradiction|by apply Hna].
Qed.

Lemma remove_pane_spec_in_range L p L' :
  all_ratios (λ r, in_ratio_range r = true) L →
  remove_pane_spec L p = Some L' →
  all_ratios (λ r, in_ratio_range r = true) L'.
Proof.
  revert L'. induction L as [q|d r a IHa b IHb]; simpl; intros L' HL E.
  - destruct (decide (q = p)); [discriminate|]. by injection E as <-.
  - destruct HL as (Hr & Ha & Hb).
    destruct (remove_pane_spec a p) as [a'|], (remove_pane_spec b p) as [b'|];
      try discriminate; injection E as <-; simpl; auto.
Qed.

Lemma splitLayoutAtPane_in_range L target d new :
  all_ratios (λ r, in_ratio_range r = true) L →
  all_ratios (λ r, in_ratio_range r = true) (splitLayoutAtPane L target d new).
Proof.
  induction L as [q|d' r a IHa b IHb]; simpl.
  - intros _. destruct (decide (q ≠ target)); simpl; [exact I|].
    split; [|tauto]. vm_compute. reflexivity.
  - intros (Hr & Ha & Hb). auto.
Qed.

Lemma same_shape_refl L : same_shape L L.
Proof. induction L; simpl; auto. Qed.

Lemma same_shape_panes L1 : ∀ L2,
  same_shape L1 L2 → collectPaneIds L1 = collectPaneIds L2.
Proof.
  induction L1 as [q|d r a IHa b IHb]; intros [q2|d2 r2 a2 b2]; simpl;
    try tauto.
  - by intros ->.
  - intros (_ & Ha & Hb). by rewrite (IHa _ Ha), (IHb _ Hb).
Qed.

Lemma updateSplitRatioAtPath_shape L : ∀ (path : jsstring) (x : number),
  same_shape L (updateSplitRatioAtPath L path x).
Proof.
  induction L as [q|d r a IHa b IHb]; intros [|head path] x; cbn; auto.
  - repeat split; auto using same_shape_refl.
  - destruct (decide (head = ch "L")); cbn;
      [repeat split; auto using same_shape_refl|].
    destruct (decide (head = ch "R")); cbn;
      repeat split; auto using same_shape_refl.
Qed.

Lemma ratioAt_update L : ∀ (path path' : jsstring) (x : number),
  ratioAt (updateSplitRatioAtPath L path x) path'
  = if decide (path' = path)
    then (λ _, clampRatio x) <$> ratioAt L path
    else ratioAt L path'.
Proof.
  induction L as [q|d r a IHa b IHb]; intros path path' x.
  - destruct path; cbn; by case_decide.
  - destruct path as [|head path], path' as [|head' path'];
      cbn [updateSplitRatioAtPath ratioAt].
    + by rewrite decide_True.
    + by rewrite (decide_False (P := head' :: path' = [])).
    + rewrite (decide_False (P := [] = head :: path)) by discriminate.
      destruct (decide (head = ch "L")); [reflexivity|].
      destruct (decide (head = ch "R")); reflexivity.
    + destruct (decide (head = ch "L")) as [->|HL].
      { cbn [ratioAt].
        destruct (decide (head' = ch "L")) as [->|HL'].
        - rewrite IHa. destruct (decide (path' = path)) as [->|Hne].
          + by rewrite decide_True.
          + rewrite (decide_False (P := ch "L" :: path' = ch "L" :: path));
              [reflexivity|congruence].
        - rewrite (decide_False (P := head' :: path' = ch "L" :: path));
            [reflexivity|congruence]. }
      destruct (decide (head = ch "R")) as [->|HR].
      { cbn [ratioAt].
        destruct (decide (head' = ch "L")) as [->|HL'].
        - rewrite (decide_False (P := ch "L" :: path' = ch "R" :: path));
            [reflexivity|congruence].
        - destruct (decide (head' = ch "R")) as [->|HR'].
          + rewrite IHb. destruct (decide (path' = path)) as [->|Hne].
            * by rewrite decide_True.
            * rewrite (decide_False
                         (P := ch "R" :: path' = ch "R" :: path));
                [reflexivity|congruence].
          + rewrite (decide_False (P := head' :: path' = ch "R" :: path));
              [reflexivity|congruence]. }
      cbn [ratioAt].
      destruct (decide (head' :: path' = head :: path)) as [[= -> ->]|Hne];
        [|reflexivity].
      by rewrite !decide_False.
Qed.

Lemma preserveSplitRatios_shape (prev : LayoutNode) : ∀ next,
  same_shape next (preserveSplitRatios prev next).
Proof.
  induction prev as [q|pd pr pa IHa pb IHb]; intros [nq|nd nr na nb]; cbn;
    auto using same_shape_refl.
  destruct (decide (pd ≠ nd)); cbn; auto using same_shape_refl.
Qed.

Lemma preserveSplitRatios_idem (prev : LayoutNode) : ∀ next,
  preserveSplitRatios prev (preserveSplitRatios prev next)
  = preserveSplitRatios prev next.
Proof.
  induction prev as [q|pd pr pa IHa pb IHb]; intros [nq|nd nr na nb]; cbn;
    try reflexivity.
  destruct (decide (pd ≠ nd)) as [Hd|Hd]; cbn.
  - rewrite decide_True by assumption. reflexivity.
  - rewrite decide_False by assumption. by rewrite IHa, IHb.
Qed.

Lemma measure_is_Some L (m : gmap jsstring PaneGridSize) :
  is_Some (measureLayoutGridSize L m)
  ↔ ∀ p, p ∈ collectPaneIds L → is_Some (m !! p).
Proof.
  induction L as [q|d r a IHa b IHb]; simpl.
  - split.
    + intros H p ->%list_elem_of_singleton. assumption.
    + intros H. apply H, list_elem_of_singleton. reflexivity.
  - split.
    + intros H p [Hp|Hp]%elem_of_app.
      * apply IHa; [|assumption].
        destruct (measureLayoutGridSize a m); [eauto|]. by destruct H.
      * apply IHb; [|assumption].
        destruct (measureLayoutGridSize a m); [|by destruct H].
        destruct (measureLayoutGridSize b m); [eauto|]. by destruct H.
    + intros H.
      destruct (proj2 IHa) as [ga ->];
        [intros p Hp; apply H, elem_of_app; by left|].
      destruct (proj2 IHb) as [gb ->];
        [intros p Hp; apply H, elem_of_app; by right|].
      destruct (decide (d = horizontal)); eauto.
Qed.

Lemma measure_bounds L (m : gmap jsstring PaneGridSize) : ∀ g,
  measureLayoutGridSize L m = Some g →
  ∀ p s, p ∈ collectPaneIds L → m !! p = Some s →
  (cols s <= cols g ∧ rows s <= rows g)%N.
Proof.
  induction L as [q|d r a IHa b IHb]; simpl; intros g E p s Hp Hs.
  - apply list_elem_of_singleton in Hp as ->.
    rewrite Hs in E. injection E as <-. lia.
  - destruct (measureLayoutGridSize a m) as [ga|] eqn:Ea; [|discriminate].
    destruct (measureLayoutGridSize b m) as [gb|] eqn:Eb; [|discriminate].
    apply elem_of_app in Hp as [Hp|Hp].
    + destruct (IHa _ eq_refl p s Hp Hs).
      destruct (decide (d = horizontal)); injection E as <-; simpl; lia.
    + destruct (IHb _ eq_refl p s Hp Hs).
      destruct (decide (d = horizontal)); injection E as <-; simpl; lia.
Qed.

End MoreLayoutFacts.

(** X1: splitting a pane and then closing the pane that the split added
    gives back the layout as it was, ratios included, provided the new
    identifier was not in use. *)
Theorem X1_split_then_remove (L : LayoutNode) (target new : jsstring)
    (d : SplitDirection) :
  new ∉ collectPaneIds L →
  removePaneFromLayout (splitLayoutAtPane L target d new) new = Some L.
Proof.
  intros Hnew. rewrite removePaneFromLayout_spec.
  by apply split_then_remove_spec.
Qed.

Lemma X1_witness :
  let L := Split horizontal f0_3 (Pane (js "a")) (Pane (js "b")) in
  (js "c" ∉ collectPaneIds L)
  ∧ removePaneFromLayout (splitLayoutAtPane L (js "b") vertical (js "c"))
      (js "c") = Some L.
Proof.
  assert (js "c" ∉ collectPaneIds
            (Split horizontal f0_3 (Pane (js "a")) (Pane (js "b")))) as H.
  { apply (bool_decide_unpack _). vm_compute. exact I. }
  split; [exact H|]. apply (X1_split_then_remove _ _ _ _ H).
Defined.

(** X2: the pane identifiers of a layout stay pairwise distinct: a split
    that adds an unused identifier keeps them distinct, and so does a
    removal, after which the removed identifier no longer occurs. *)
Theorem X2_pane_ids_stay_distinct (L : LayoutNode) (target new p : jsstring)
    (d : SplitDirection) :
  NoDup (collectPaneIds L) →
  (new ∉ collectPaneIds L →
   NoDup (collectPaneIds (splitLayoutAtPane L target d new)))
  ∧ NoDup (leaves (removePaneFromLayout L p))
  ∧ p ∉ leaves (removePaneFromLayout L p).
Proof.
  intros Hnd. split; [|split].
  - intros Hnew. rewrite splitLayoutAtPane_panes.
    by apply NoDup_flat_map_split.
  - rewrite removePaneFromLayout_spec, remove_pane_spec_leaves.
    by apply NoDup_filter.
  - rewrite removePaneFromLayout_spec, remove_pane_spec_leaves.
    rewrite list_elem_of_filter. tauto.
Qed.

Lemma X2_witness :
  let L := Split horizontal f0_3 (Pane (js "a")) (Pane (js "b")) in
  NoDup (collectPaneIds L)
  ∧ NoDup (collectPaneIds (splitLayoutAtPane L (js "a") vertical (js "c")))
  ∧ js "a" ∉ leaves (removePaneFromLayout L (js "a")).
Proof.
  assert (NoDup (collectPaneIds
            (Split horizontal f0_3 (Pane (js "a")) (Pane (js "b"))))) as H.
  { apply (bool_decide_unpack _). vm_compute. exact I. }
  destruct (X2_pane_ids_stay_distinct _ (js "a") (js "c") (js "a") vertical H)
    as (H1 & _ & H3).
  split; [exact H|]. split; [|exact H3].
  apply H1. apply (bool_decide_unpack _). vm_compute. exact I.
Defined.

(** X3: once every split ratio of a layout lies in [0.1, 0.9], each
    operation on layouts keeps it so: splitting a pane, removing a pane,
    setting the ratio at a path to any number, and taking over the ratios
    of any previous layout. *)
Theorem X3_ratios_stay_in_range (L prev : LayoutNode) (target new p : jsstring)
    (d : SplitDirection) (path : jsstring) (x : number) :
  all_ratios (λ r, in_ratio_range r = true) L →
  all_ratios (λ r, in_ratio_range r = true) (splitLayoutAtPane L target d new)
  ∧ (∀ L', removePaneFromLayout L p = Some L' →
           all_ratios (λ r, in_ratio_range r = true) L')
  ∧ all_ratios (λ r, in_ratio_range r = true) (updateSplitRatioAtPath L path x)
  ∧ all_ratios (λ r, in_ratio_range r = true) (preserveSplitRatios prev L).
Proof.
  intros HL. repeat split.
  - by apply splitLayoutAtPane_in_range.
  - intros L'. rewrite removePaneFromLayout_spec.
    by apply remove_pane_spec_in_range.
  - by apply updateSplitRatioAtPath_in_range.
  - by apply preserveSplitRatios_in_range.
Qed.

Lemma X3_witness :
  let L := Split horizontal f0_3 (Pane (js "a")) (Pane (js "b")) in
  all_ratios (λ r, in_ratio_range r = true) L
  ∧ all_ratios (λ r, in_ratio_range r = true)
      (updateSplitRatioAtPath L [] pos_infinity).
Proof.
  assert (all_ratios (λ r, in_ratio_range r = true)
            (Split horizontal f0_3 (Pane (js "a")) (Pane (js "b")))) as H.
  { simpl. repeat split. }
  destruct (X3_ratios_stay_in_range _ (Pane []) [] [] [] vertical []
              pos_infinity H) as (_ & _ & H3 & _).
  split; [exact H|exact H3].
Defined.

(** X4: [updateSplitRatioAtPath] changes one ratio and nothing else: the
    tree keeps its shape and its panes, the split that the path addresses
    gets the clamped ratio, and every other path reads what it read
    before; a path that addresses no split changes nothing. *)
Theorem X4_update_ratio_at_path (L : LayoutNode) (path : jsstring) (x : number) :
  same_shape L (updateSplitRatioAtPath L path x)
  ∧ collectPaneIds (updateSplitRatioAtPath L path x) = collectPaneIds L
  ∧ (∀ path', ratioAt (updateSplitRatioAtPath L path x) path'
              = if decide (path' = path)
                then (λ _, clampRatio x) <$> ratioAt L path
                else ratioAt L path')
  ∧ (ratioAt L path = None → updateSplitRatioAtPath L path x = L).
Proof.
  split; [apply updateSplitRatioAtPath_shape|].
  split; [symmetry; apply same_shape_panes, updateSplitRatioAtPath_shape|].
  split; [intros; apply ratioAt_update|].
  revert path. induction L as [q|d r a IHa b IHb]; intros [|head path]; cbn;
    try reflexivity; [discriminate|].
  destruct (decide (head = ch "L")); [intros H; by rewrite IHa|].
  destruct (decide (head = ch "R")); [intros H; by rewrite IHb|].
  reflexivity.
Qed.

(** X5: [preserveSplitRatios] only touches ratios: the result has the
    shape and the panes of the new layout whatever the previous layout
    is, and taking over the ratios of the same previous layout a second
    time changes nothing. *)
Theorem X5_preserve_keeps_shape (prev next : LayoutNode) :
  same_shape next (preserveSplitRatios prev next)
  ∧ collectPaneIds (preserveSplitRatios prev next) = collectPaneIds next
  ∧ preserveSplitRatios prev (preserveSplitRatios prev next)
    = preserveSplitRatios prev next.
Proof.
  split; [apply preserveSplitRatios_shape|].
  split; [symmetry; apply same_shape_panes, preserveSplitRatios_shape|].
  apply preserveSplitRatios_idem.
Qed.

(** X6: [measureLayoutGridSize] gives a size exactly when every pane of
    the layout has a recorded size, and then the size is at least as wide
    and as high as every pane in it. *)
Theorem X6_measure_layout (L : LayoutNode) (m : gmap jsstring PaneGridSize) :
  (measureLayoutGridSize L m = None
   ↔ ∃ p, p ∈ collectPaneIds L ∧ m !! p = None)
  ∧ (∀ g p s, measureLayoutGridSize L m = Some g →
       p ∈ collectPaneIds L → m !! p = Some s →
       (cols s <= cols g ∧ rows s <= rows g)%N).
Proof.
  split.
  - rewrite eq_None_not_Some, measure_is_Some, <- Forall_forall. split.
    + intros H. apply not_Forall_Exists in H; [|apply _].
      apply Exists_exists in H as (p & Hp & Hn).
      exists p. split; [assumption|]. by apply eq_None_not_Some.
    + intros (p & Hp & Hn) H. rewrite Forall_forall in H.
      specialize (H p Hp). rewrite Hn in H. by destruct H.
  - intros g p s E. by apply measure_bounds.
Qed.

Section SplitLinesFacts.

Lemma splitNewlines_go_nonempty (s cur : jsstring) : splitNewlines_go cur s ≠ [].
Proof.
  revert cur. induction s as [|c s IH]; intros cur; cbn; [discriminate|].
  destruct (decide (c = LF)); [discriminate|].
  destruct (decide (c = CR)); [|apply IH].
  destruct s as [|c' s']; [discriminate|].
  destruct (decide (c' = LF)); [discriminate|apply IH].
Qed.

Lemma splitNewlines_go_LF cur s :
  splitNewlines_go cur (LF :: s) = cur :: splitNewlines_go [] s.
Proof. reflexivity. Qed.

Lemma splitNewlines_go_CRLF cur s :
  splitNewlines_go cur (CR :: LF :: s) = cur :: splitNewlines_go [] s.
Proof. reflexivity. Qed.

Lemma splitNewlines_go_CR_end cur :
  splitNewlines_go cur [CR] = [cur ++ [CR]].
Proof. reflexivity. Qed.

Lemma splitNewlines_go_CR cur c s :
  c ≠ LF →
  splitNewlines_go cur (CR :: c :: s) = splitNewlines_go (cur ++ [CR]) (c :: s).
Proof.
  intros Hc. cbn [splitNewlines_go].
  rewrite (decide_False (P := CR = LF)) by discriminate.
  rewrite (decide_True (P := CR = CR)) by reflexivity.
  rewrite (decide_False (P := c = LF)) by assumption. reflexivity.
Qed.

Lemma splitNewlines_go_plain cur c s :
  c ≠ LF → c ≠ CR →
  splitNewlines_go cur (c :: s) = splitNewlines_go (cur ++ [c]) s.
Proof.
  intros H1 H2. cbn [splitNewlines_go].
  rewrite (decide_False (P := c = LF)), (decide_False (P := c = CR))
    by assumption.
  reflexivity.
Qed.

Lemma not_LF_snoc (cur : jsstring) c : LF ∉ cur → c ≠ LF → LF ∉ cur ++ [c].
Proof.
  intros H1 H2. rewrite elem_of_app, list_elem_of_singleton.
  intros [|]; auto.
Qed.

(** A part without a line feed that the scan has still to read can as
    well be handed over as the current part, unless it ends in a carriage
    return that the line feed after it would have joined. *)
Lemma splitNewlines_go_acc (cur : jsstring) : ∀ acc u,
  LF ∉ cur → ¬ (last cur = Some CR ∧ head u = Some LF) →
  splitNewlines_go acc (cur ++ u) = splitNewlines_go (acc ++ cur) u.
Proof.
  induction cur as [|c cur IH]; intros acc u Hlf Hb.
  - by rewrite app_nil_r.
  - apply not_elem_of_cons in Hlf as [Hc Hlf].
    replace (acc ++ c :: cur) with ((acc ++ [c]) ++ cur)
      by (by rewrite <- app_assoc).
    cbn [app].
    destruct (decide (c = CR)) as [->|Hcr].
    + destruct cur as [|c' cur].
      * cbn [app]. rewrite app_nil_r. destruct u as [|c' u]; [reflexivity|].
        apply splitNewlines_go_CR.
        intros ->. apply Hb. split; reflexivity.
      * cbn [app]. apply not_elem_of_cons in Hlf as [Hc' Hlf'].
        rewrite splitNewlines_go_CR by auto.
        apply (IH (acc ++ [CR]) u).
        -- apply not_elem_of_cons. auto.
        -- intros [H1 H2]. apply Hb. split; assumption.
    + rewrite splitNewlines_go_plain by auto.
      apply IH; [assumption|].
      intros [H1 H2]. apply Hb. split; [|assumption].
      destruct cur; [discriminate|assumption].
Qed.

Lemma last_app_nonempty {A} (l1 l2 : list A) :
  l2 ≠ [] → last (l1 ++ l2) = last l2.
Proof.
  intros H. destruct l2 as [|a l2 _] using rev_ind; [contradiction|].
  by rewrite app_assoc, !last_snoc.
Qed.

Lemma last_cons_nonempty {A} (a : A) (l : list A) :
  l ≠ [] → last (a :: l) = last l.
Proof. destruct l; [contradiction|reflexivity]. Qed.

Lemma removelast_cons_nonempty {A} (a : A) (l : list A) :
  l ≠ [] → removelast (a :: l) = a :: removelast l.
Proof. destruct l; [contradiction|reflexivity]. Qed.

(** The scan of [s ++ t] is the scan of [s], whose last part is scanned
    again in front of [t]. *)
Lemma splitNewlines_go_app (n : nat) : ∀ s cur t,
  (length s ≤ n)%nat → LF ∉ cur →
  (s = [] → ¬ (last cur = Some CR ∧ head t = Some LF)) →
  splitNewlines_go cur (s ++ t)
  = removelast (splitNewlines_go cur s)
    ++ splitNewlines_go [] (default [] (last (splitNewlines_go cur s)) ++ t).
Proof.
  induction n as [|n IH]; intros s cur t Hn Hcur Hb.
  - destruct s; [|cbn in Hn; lia]. cbn.
    symmetry. by apply (splitNewlines_go_acc cur []); auto.
  - destruct s as [|c s].
    { cbn. symmetry. by apply (splitNewlines_go_acc cur []); auto. }
    cbn [length] in Hn. cbn [app].
    destruct (decide (c = LF)) as [->|Hc].
    { rewrite !splitNewlines_go_LF.
      rewrite removelast_cons_nonempty, last_cons_nonempty
        by apply splitNewlines_go_nonempty.
      cbn [app]. f_equal. apply IH; [lia|apply not_elem_of_nil|].
      intros _ [Hl _]. discriminate. }
    destruct (decide (c = CR)) as [->|Hcr].
    + destruct s as [|c' s].
      * (* the carriage return is the last character read so far *)
        rewrite splitNewlines_go_CR_end.
        cbn [app removelast last default from_option id].
        destruct t as [|c' t].
        -- rewrite app_nil_r, splitNewlines_go_CR_end. symmetry.
           rewrite <- (app_nil_r (cur ++ [CR])) at 1.
           apply (splitNewlines_go_acc (cur ++ [CR]) [] []).
           ++ apply not_LF_snoc; [assumption|discriminate].
           ++ intros [_ H]. discriminate.
        -- destruct (decide (c' = LF)) as [->|Hc'].
           ++ rewrite <- app_assoc. cbn [app].
              rewrite (splitNewlines_go_acc cur [] (CR :: LF :: t));
                [|assumption|intros [_ H]; discriminate].
              reflexivity.
           ++ rewrite splitNewlines_go_CR by assumption. symmetry.
              apply (splitNewlines_go_acc (cur ++ [CR]) [] (c' :: t)).
              ** apply not_LF_snoc; [assumption|discriminate].
              ** intros [_ H]. injection H as ->. auto.
      * cbn [length] in Hn.
        destruct (decide (c' = LF)) as [->|Hc'].
        -- cbn [app]. rewrite !splitNewlines_go_CRLF.
           rewrite removelast_cons_nonempty, last_cons_nonempty
             by apply splitNewlines_go_nonempty.
           cbn [app]. f_equal.
           apply IH; [lia|apply not_elem_of_nil|].
           intros _ [Hl _]. discriminate.
        -- cbn [app]. rewrite !splitNewlines_go_CR by assumption.
           apply (IH (c' :: s)); [cbn [length]; lia| |discriminate].
           apply not_LF_snoc; [assumption|discriminate].
    + rewrite !splitNewlines_go_plain by assumption.
      apply IH; [lia|by apply not_LF_snoc|].
      intros _ [Hl _]. rewrite last_snoc in Hl. congruence.
Qed.

Lemma splitNewlines_app (s t : jsstring) :
  splitNewlines (s ++ t)
  = removelast (splitNewlines s)
    ++ splitNewlines (default [] (last (splitNewlines s)) ++ t).
Proof.
  apply (splitNewlines_go_app (length s)); [lia|apply not_elem_of_nil|].
  intros _ [H _]. discriminate.
Qed.

Lemma splitNewlines_go_no_LF (n : nat) : ∀ s cur,
  (length s ≤ n)%nat → LF ∉ cur →
  Forall (λ l, LF ∉ l) (splitNewlines_go cur s).
Proof.
  induction n as [|n IH]; intros s cur Hn Hcur.
  - destruct s; [|cbn in Hn; lia]. cbn. auto.
  - destruct s as [|c s]; [cbn; auto|]. cbn [length] in Hn.
    destruct (decide (c = LF)) as [->|Hc].
    { rewrite splitNewlines_go_LF.
      constructor; [assumption|]. apply IH; [lia|apply not_elem_of_nil]. }
    destruct (decide (c = CR)) as [->|Hcr].
    + destruct s as [|c' s].
      { rewrite splitNewlines_go_CR_end. repeat constructor.
        apply not_LF_snoc; [assumption|discriminate]. }
      cbn [length] in Hn.
      destruct (decide (c' = LF)) as [->|Hc'].
      * rewrite splitNewlines_go_CRLF.
        constructor; [assumption|]. apply IH; [lia|apply not_elem_of_nil].
      * rewrite splitNewlines_go_CR by assumption.
        apply IH; [cbn [length]; lia|].
        apply not_LF_snoc; [assumption|discriminate].
    + rewrite splitNewlines_go_plain by assumption.
      apply IH; [lia|by apply not_LF_snoc].
Qed.

Lemma splitNewlines_go_join (s : jsstring) : ∀ cur,
  CR ∉ s → join [LF] (splitNewlines_go cur s) = cur ++ s.
Proof.
  induction s as [|c s IH]; intros cur Hcr.
  - cbn. by rewrite app_nil_r.
  - apply not_elem_of_cons in Hcr as [Hc Hcr].
    destruct (decide (c = LF)) as [->|Hlf].
    + rewrite splitNewlines_go_LF.
      rewrite join_cons by apply splitNewlines_go_nonempty.
      rewrite IH by assumption. reflexivity.
    + rewrite splitNewlines_go_plain by auto. rewrite IH by assumption.
      by rewrite <- app_assoc.
Qed.

Lemma Forall_removelast {A} (P : A → Prop) (l : list A) :
  Forall P l → Forall P (removelast l).
Proof.
  induction 1 as [|a l Ha Hl IH]; [constructor|].
  destruct l; [constructor|]. constructor; assumption.
Qed.

Lemma removelast_last {A} (d : A) (l : list A) :
  l ≠ [] → removelast l ++ [default d (last l)] = l.
Proof.
  intros H. destruct l as [|a l _] using rev_ind; [contradiction|].
  by rewrite removelast_last, last_snoc.
Qed.

End SplitLinesFacts.

(** X7: [splitLines] does not depend on how the data arrives: feeding a
    text in two pieces, the rest of the first call being the buffer of
    the second, gives the lines and the rest that feeding it in one piece
    gives; a carriage return and its line feed may come in different
    pieces. *)
Theorem X7_splitLines_chunks (buffer x y : jsstring) :
  splitLines buffer (x ++ y)
  = (fst (splitLines (fst (splitLines buffer x)) y),
     snd (splitLines buffer x) ++ snd (splitLines (fst (splitLines buffer x)) y)).
Proof.
  unfold splitLines. cbn [fst snd].
  rewrite (app_assoc buffer x y), splitNewlines_app.
  set (r := default [] (last (splitNewlines (buffer ++ x)))).
  rewrite last_app_nonempty, removelast_app
    by apply splitNewlines_go_nonempty.
  reflexivity.
Qed.

(** X8: the lines and the rest of [splitLines] contain no line feed; as
    long as no line feed has arrived there is no line and the whole text
    is the rest; and for a text without carriage returns nothing but the
    line feeds is dropped: the lines and the rest, joined by line feeds,
    are the text. *)
Theorem X8_splitLines_lines (buffer incoming : jsstring) :
  (LF ∉ fst (splitLines buffer incoming))
  ∧ Forall (λ l, LF ∉ l) (snd (splitLines buffer incoming))
  ∧ (LF ∉ buffer ++ incoming →
     splitLines buffer incoming = (buffer ++ incoming, []))
  ∧ (CR ∉ buffer ++ incoming →
     join [LF] (snd (splitLines buffer incoming)
                ++ [fst (splitLines buffer incoming)])
     = buffer ++ incoming).
Proof.
  unfold splitLines. cbn [fst snd].
  set (text := buffer ++ incoming).
  pose proof (splitNewlines_go_no_LF (length text) text [] ltac:(lia)
                (not_elem_of_nil _)) as Hall.
  fold (splitNewlines text) in Hall.
  pose proof (splitNewlines_go_nonempty text []) as Hne.
  fold (splitNewlines text) in Hne.
  split; [|split; [|split]].
  - rewrite <- (removelast_last [] _ Hne) in Hall.
    apply Forall_app in Hall as [_ Hall]. by inversion Hall.
  - by apply Forall_removelast.
  - intros Hlf. unfold splitNewlines.
    rewrite <- (app_nil_r text) at 1 2.
    rewrite (splitNewlines_go_acc text [] []); [reflexivity|assumption|].
    intros [_ H]. discriminate.
  - intros Hcr. rewrite (removelast_last [] _ Hne).
    unfold splitNewlines. by rewrite splitNewlines_go_join.
Qed.

Lemma X8_witness :
  splitLines (js "ab") (js "c") = (js "abc", [])
  ∧ join [LF] (snd (splitLines (js "a") [LF; 98; LF; 99])
               ++ [fst (splitLines (js "a") [LF; 98; LF; 99])])
    = js "a" ++ [LF; 98; LF; 99].
Proof.
  split.
  - destruct (X8_splitLines_lines (js "ab") (js "c")) as (_ & _ & H & _).
    apply H. apply (bool_decide_unpack _). vm_compute. exact I.
  - destruct (X8_splitLines_lines (js "a") [LF; 98; LF; 99]) as (_ & _ & _ & H).
    apply H. apply (bool_decide_unpack _). vm_compute. exact I.
Defined.

Section MoreTmuxFacts.

Import Tmux Tmux.Re.

(** *** The greedy star *)

(** The greedy star takes the longest run first: when the continuation
    accepts it, that is the match. *)
Lemma star_from_greedy {R} (cls : N → bool)
    (k : jsstring → jsstring → option R) (m : jsstring) : ∀ acc rest r,
  Forall (λ c, cls c = true) m →
  (∀ c, head rest = Some c → cls c = false) →
  k (acc ++ m) rest = Some r →
  star_from cls k acc (m ++ rest) = Some r.
Proof.
  induction m as [|c m IH]; intros acc rest r Hm Hrest Hk.
  - rewrite app_nil_r in Hk. cbn [app].
    destruct rest as [|c rest]; cbn [star_from]; [assumption|].
    rewrite (Hrest c eq_refl). assumption.
  - apply Forall_cons in Hm as [Hc Hm]. cbn [app star_from]. rewrite Hc.
    rewrite (IH (acc ++ [c]) rest r); [reflexivity|assumption..|].
    by rewrite <- app_assoc.
Qed.

(** The star fails when the continuation refuses every run. *)
Lemma star_from_None {R} (cls : N → bool)
    (k : jsstring → jsstring → option R) (s : jsstring) : ∀ acc,
  (∀ m rest, s = m ++ rest → Forall (λ c, cls c = true) m →
             k (acc ++ m) rest = None) →
  star_from cls k acc s = None.
Proof.
  induction s as [|c s IH]; intros acc Hk.
  - cbn. rewrite <- (app_nil_r acc). by apply Hk.
  - assert (k acc (c :: s) = None) as H0.
    { rewrite <- (app_nil_r acc). by apply Hk. }
    cbn [star_from]. destruct (cls c) eqn:Hc; [|assumption].
    rewrite IH; [assumption|].
    intros m rest -> Hm. rewrite <- app_assoc. apply Hk; [reflexivity|].
    by constructor.
Qed.

Lemma plus_greedy {R} (cls : N → bool)
    (k : jsstring → jsstring → option R) (m rest : jsstring) (r : R) :
  m ≠ [] → Forall (λ c, cls c = true) m →
  (∀ c, head rest = Some c → cls c = false) →
  k m rest = Some r →
  plus cls k (m ++ rest) = Some r.
Proof.
  intros Hne Hm Hrest Hk. unfold plus, star.
  apply star_from_greedy; [assumption..|].
  cbn [app]. destruct m; [contradiction|assumption].
Qed.

Lemma plus_None {R} (cls : N → bool)
    (k : jsstring → jsstring → option R) (s : jsstring) :
  (∀ m rest, s = m ++ rest → m ≠ [] → Forall (λ c, cls c = true) m →
             k m rest = None) →
  plus cls k s = None.
Proof.
  intros Hk. unfold plus, star. apply star_from_None.
  intros m rest -> Hm. cbn [app]. destruct m as [|c m]; [reflexivity|].
  by apply Hk.
Qed.

(** [(.* )$] takes a text without line terminators whole, and fails on a
    text with one. *)
Lemma star_dot_eos {R} (f : jsstring → R) (data acc : jsstring) :
  star_from dot (λ d, eos (f d)) acc data
  = if forallb dot data then Some (f (acc ++ data)) else None.
Proof.
  destruct (forallb dot data) eqn:E.
  - rewrite <- (app_nil_r data) at 1.
    apply star_from_greedy; [|discriminate|reflexivity].
    apply Forall_forall. intros c Hc.
    rewrite forallb_forall in E. apply E. by apply list_elem_of_In.
  - apply star_from_None. intros m rest -> Hm.
    destruct rest; [|reflexivity]. exfalso.
    rewrite app_nil_r in E.
    assert (forallb dot m = true); [|congruence].
    apply forallb_forall. intros c Hc%list_elem_of_In.
    rewrite Forall_forall in Hm. by apply Hm.
Qed.

(** A run of the class at the start of [ds ++ c :: tail], where [ds] is in
    the class and [c] is not, is a prefix of [ds]. *)
Lemma run_prefix (cls : N → bool) (ds : jsstring) (c : N) (tail : jsstring) :
  ∀ m rest,
  cls c = false →
  ds ++ c :: tail = m ++ rest → Forall (λ x, cls x = true) m →
  ∃ ds', ds = m ++ ds' ∧ rest = ds' ++ c :: tail.
Proof.
  intros m. revert ds. induction m as [|x m IH]; intros ds rest Hc E Hm.
  - exists ds. split; [reflexivity|]. symmetry. exact E.
  - apply Forall_cons in Hm as [Hx Hm].
    destruct ds as [|d ds]; cbn [app] in E.
    + injection E as -> _. congruence.
    + injection E as -> E.
      destruct (IH ds rest Hc E Hm) as (ds' & -> & ->).
      exists ds'. split; reflexivity.
Qed.

Lemma startsWith_head (a : N) (p s : jsstring) :
  head s ≠ Some a → startsWith (a :: p) s = false.
Proof.
  destruct s as [|b s]; [reflexivity|]. cbn. intros H.
  rewrite decide_False; [reflexivity|]. intros ->. by apply H.
Qed.

Lemma is_digit_not_space c : is_digit c = true → is_space c = false.
Proof.
  unfold is_digit, is_space. intros [H1 H2]%andb_true_iff.
  apply N.leb_le in H1, H2.
  repeat match goal with
         | |- context [?a <=? ?b] =>
             destruct (N.leb_spec a b); try lia
         | |- context [?a =? ?b] =>
             destruct (N.eqb_spec a b); try lia
         end; reflexivity.
Qed.

(** *** [decodeTmuxEscapedText] *)

Lemma decode_no_backslash (a b : jsstring) :
  BACKSLASH ∉ a →
  decodeTmuxEscapedText (a ++ b) = a ++ decodeTmuxEscapedText b.
Proof.
  induction a as [|c a IH]; intros Ha; [reflexivity|].
  apply not_elem_of_cons in Ha as [Hc Ha]. cbn [app].
  rewrite decode_plain by auto. by rewrite IH.
Qed.

Lemma decode_length (n : nat) : ∀ s,
  (length s ≤ n)%nat →
  (length (decodeTmuxEscapedText s) ≤ length s)%nat.
Proof.
  induction n as [|n IH]; intros s Hn.
  { destruct s; [cbn; lia|cbn [length] in Hn; lia]. }
  destruct s as [|c rest]; [cbn; lia|]. cbn [length] in Hn.
  destruct (decide (c = BACKSLASH)) as [->|Hc].
  2:{ rewrite decode_plain by assumption. cbn [length].
      specialize (IH rest ltac:(lia)). lia. }
  destruct rest as [|x rest1]; [rewrite decode_dangling; cbn [length]; lia|].
  cbn [length] in Hn.
  destruct (decide (x = BACKSLASH)) as [->|Hx].
  { rewrite decode_backslash. cbn [length].
    specialize (IH rest1 ltac:(lia)). lia. }
  destruct (octal_triple (x :: rest1)) eqn:Ht.
  - destruct rest1 as [|b [|d rest3]]; try discriminate.
    cbn [octal_triple] in Ht.
    apply andb_true_iff in Ht as [[Hxo Hbo]%andb_true_iff Hco].
    rewrite decode_octal by assumption. cbn [length] in *.
    specialize (IH rest3 ltac:(lia)). lia.
  - rewrite decode_escaped by assumption. cbn [length].
    specialize (IH rest1 ltac:(lia)). lia.
Qed.

Lemma decode_tmuxEscape (s : jsstring) :
  decodeTmuxEscapedText (tmuxEscape s) = s.
Proof.
  induction s as [|c s IH]; [reflexivity|].
  unfold tmuxEscape. cbn [flat_map]. fold (tmuxEscape s).
  destruct ((c <? 32) || (c =? BACKSLASH)) eqn:E.
  - assert (c <= 92) as Hc.
    { apply orb_true_iff in E as [E|E];
        [apply N.ltb_lt in E|apply N.eqb_eq in E; unfold BACKSLASH in E]; lia. }
    assert (c / 64 < 2) by (apply N.Div0.div_lt_upper_bound; lia).
    assert ((c / 8) mod 8 < 8) by (apply N.mod_upper_bound; lia).
    assert (c mod 8 < 8) by (apply N.mod_upper_bound; lia).
    assert (∀ d, d < 8 → is_octal (48 + d) = true) as Hoct.
    { intros d Hd. unfold is_octal. apply andb_true_iff.
      split; apply N.leb_le; lia. }
    cbn [app]. rewrite decode_octal by (apply Hoct; lia). rewrite IH.
    f_equal. unfold fromCharCode, parseInt. cbn [fold_left].
    pose proof (N.Div0.div_mod c 8) as E1.
    pose proof (N.Div0.div_mod (c / 8) 8) as E2.
    rewrite N.Div0.div_div in E2. change (8 * 8) with 64 in E2.
    clear Hoct E IH.
    generalize dependent (c / 64). generalize dependent ((c / 8) mod 8).
    generalize dependent (c mod 8). generalize dependent (c / 8).
    intros. rewrite (N.mod_small _ 65536); lia.
  - apply orb_false_iff in E as [_ E]. apply N.eqb_neq in E.
    cbn [app]. rewrite decode_plain by assumption. by rewrite IH.
Qed.

(** *** [parseTmuxControlLine] *)

Lemma no_percent_other (line : jsstring) :
  head line ≠ Some (ch "%") → parseTmuxControlLine line = EvOther line.
Proof.
  intros H. unfold parseTmuxControlLine.
  change (js "%begin") with (ch "%" :: js "begin").
  change (js "%end") with (ch "%" :: js "end").
  change (js "%error") with (ch "%" :: js "error").
  rewrite !startsWith_head by assumption.
  unfold outputMatch, extendedOutputMatch, windowIdMatch, windowRenamedMatch,
    layoutMatch, paneChangedMatch, sessionChanged, lit.
  change (js "%output") with (ch "%" :: js "output").
  change (js "%extended-output") with (ch "%" :: js "extended-output").
  change (js "%window-add") with (ch "%" :: js "window-add").
  change (js "%window-close") with (ch "%" :: js "window-close").
  change (js "%window-renamed") with (ch "%" :: js "window-renamed").
  change (js "%layout-change") with (ch "%" :: js "layout-change").
  change (js "%window-pane-changed") with (ch "%" :: js "window-pane-changed").
  change (js "%session-changed") with (ch "%" :: js "session-changed").
  rewrite !startsWith_head by assumption. reflexivity.
Qed.

Lemma opt_star_dot_None {R} (f : jsstring → R) (s : jsstring) :
  forallb dot s = false →
  (∀ c s', s = c :: s' → is_space c = true → forallb dot s' = false) →
  opt is_space (star dot (λ d, eos (f d))) s = None.
Proof.
  intros Hs Htl. unfold opt, star.
  assert (star_from dot (λ d, eos (f d)) [] s = None) as H0
      by (by rewrite star_dot_eos, Hs).
  destruct s as [|c s']; [assumption|].
  destruct (is_space c) eqn:Hc; [|assumption].
  by rewrite star_dot_eos, (Htl c s' eq_refl Hc).
Qed.

Lemma single_run (cls : N → bool) (a c : N) (tail m rest : jsstring) :
  cls c = false → m ≠ [] → Forall (λ x, cls x = true) m →
  a :: c :: tail = m ++ rest → m = [a] ∧ rest = c :: tail.
Proof.
  intros Hc Hne Hm E.
  destruct (run_prefix cls [a] c tail m rest Hc E Hm) as (ds' & E1 & ->).
  destruct m as [|x [|y m]]; [contradiction| |discriminate].
  injection E1 as -> <-. split; reflexivity.
Qed.

(** The pattern of [%output] on a line that tmux writes. *)
Lemma outputMatch_line (ds data : jsstring) :
  ds ≠ [] → Forall (λ c, is_digit c = true) ds →
  outputMatch (js "%output" ++ [32] ++ ch "%" :: ds ++ 32 :: data)
  = if forallb dot data then Some (ch "%" :: ds, data) else None.
Proof.
  intros Hne Hds. unfold outputMatch, lit at 1.
  rewrite startsWith_app, drop_app_length.
  destruct (forallb dot data) eqn:E.
  - apply (plus_greedy is_space _ [32]);
      [discriminate|by repeat constructor| |].
    { intros c [= <-]. reflexivity. }
    unfold lit. change (js "%") with [ch "%"].
    cbn [startsWith]. rewrite decide_True by reflexivity.
    cbn [length drop].
    apply (plus_greedy is_digit _ ds (32 :: data)); [assumption..| |].
    { intros c [= <-]. reflexivity. }
    cbn [opt]. change (is_space 32) with true. cbv iota.
    unfold star. rewrite (star_dot_eos (λ d, (ch "%" :: ds, d))).
    by rewrite E.
  - apply plus_None. intros m rest Em Hm Hsp.
    cbn [app] in Em.
    destruct (single_run is_space 32 (ch "%") _ _ _ eq_refl Hm Hsp Em) as [-> ->].
    unfold lit. change (js "%") with [ch "%"].
    cbn [startsWith]. rewrite decide_True by reflexivity.
    cbn [length drop].
    apply plus_None. intros m2 rest2 E2 Hm2 Hd2.
    destruct (run_prefix is_digit ds 32 data m2 rest2 eq_refl E2 Hd2)
      as (ds' & -> & ->).
    apply Forall_app in Hds as [_ Hds'].
    apply (opt_star_dot_None (λ d, (ch "%" :: m2, d))).
    + rewrite forallb_app. cbn [forallb]. rewrite E.
      by rewrite !andb_false_r.
    + intros c s' Ec Hc. destruct ds' as [|d ds'']; cbn [app] in Ec.
      * by injection Ec as <- <-.
      * injection Ec as <- <-. apply Forall_cons in Hds' as [Hd _].
        apply is_digit_not_space in Hd. congruence.
Qed.

(** The pattern of [%layout-change]. *)
Lemma layoutMatch_line (ds layout tail : jsstring) :
  ds ≠ [] → Forall (λ c, is_digit c = true) ds →
  layout ≠ [] → Forall (λ c, is_space c = false) layout →
  (∀ c, head tail = Some c → is_space c = true) →
  forallb dot tail = true →
  layoutMatch (js "%layout-change" ++ [32] ++ ch "@" :: ds ++ 32 :: layout
               ++ tail)
  = Some (ch "@" :: ds, layout).
Proof.
  intros Hne Hds Hl Hns Htail Hdot. unfold layoutMatch, lit at 1.
  rewrite startsWith_app, drop_app_length.
  apply (plus_greedy is_space _ [32]);
    [discriminate|by repeat constructor| |].
  { intros c [= <-]. reflexivity. }
  unfold lit. change (js "@") with [ch "@"].
  cbn [startsWith]. rewrite decide_True by reflexivity.
  cbn [length drop].
  apply (plus_greedy is_digit _ ds (32 :: layout ++ tail)); [assumption..| |].
  { intros c [= <-]. reflexivity. }
  apply (plus_greedy is_space _ [32] (layout ++ tail));
    [discriminate|by repeat constructor| |].
  { intros c Hc. destruct layout as [|x layout]; [contradiction|].
    injection Hc as <-. by apply Forall_cons in Hns as [Hx _]. }
  apply (plus_greedy not_space _ layout tail); [assumption| | |].
  { eapply Forall_impl; [exact Hns|]. intros c Hc. unfold not_space.
    by rewrite Hc. }
  { intros c Hc. unfold not_space. by rewrite (Htail c Hc). }
  unfold star. rewrite (star_dot_eos (λ _, (ch "@" :: ds, layout))).
  by rewrite Hdot.
Qed.

End MoreTmuxFacts.

(** X9: [decodeTmuxEscapedText] copies a text without a backslash as it
    is, also in front of a text that has one, and its result is never
    longer than the payload. *)
Theorem X9_decode_plain_text (a b : jsstring) :
  (BACKSLASH ∉ a →
   Tmux.decodeTmuxEscapedText (a ++ b) = a ++ Tmux.decodeTmuxEscapedText b)
  ∧ (length (Tmux.decodeTmuxEscapedText b) ≤ length b)%nat.
Proof.
  split; [apply decode_no_backslash|].
  by apply (decode_length (length b)).
Qed.

Lemma X9_witness :
  Tmux.decodeTmuxEscapedText (js "ab" ++ js "\101") = js "ab" ++ js "A".
Proof.
  destruct (X9_decode_plain_text (js "ab") (js "\101")) as [H _].
  rewrite H; [reflexivity|].
  apply (bool_decide_unpack _). vm_compute. exact I.
Defined.

(** X10: decoding undoes the escaping of tmux: for every text, the
    payload in which tmux has written the code units below 32 and the
    backslash as a backslash and three octal digits decodes to the text
    itself. *)
Theorem X10_decode_undoes_escape (s : jsstring) :
  Tmux.decodeTmuxEscapedText (tmuxEscape s) = s.
Proof. apply decode_tmuxEscape. Qed.

(** X11: a line that does not start with a percent sign is never taken
    for a notification of tmux: it is handed on unchanged as an event of
    type other. *)
Theorem X11_plain_line_is_other (line : jsstring) :
  head line ≠ Some (ch "%") →
  Tmux.parseTmuxControlLine line = Tmux.EvOther line.
Proof. apply no_percent_other. Qed.

Lemma X11_witness :
  Tmux.parseTmuxControlLine (js "$ ls %output %1 x")
  = Tmux.EvOther (js "$ ls %output %1 x").
Proof. apply X11_plain_line_is_other. discriminate. Defined.

(** X12: the line [%output %<digits> <data>] is an output event of the
    pane [%<digits>] with the decoded data exactly when the data contain
    no line terminator (LF, CR, U+2028, U+2029); with one, the line is an
    event of type other and its data are not delivered. *)
Theorem X12_output_line (ds data : jsstring) :
  ds ≠ [] → Forall (λ c, is_digit c = true) ds →
  Tmux.parseTmuxControlLine (js "%output %" ++ ds ++ js " " ++ data)
  = if forallb Tmux.Re.dot data
    then Tmux.EvOutput (ch "%" :: ds) (Tmux.decodeTmuxEscapedText data)
    else Tmux.EvOther (js "%output %" ++ ds ++ js " " ++ data).
Proof.
  intros Hne Hds.
  change (js "%output %" ++ ds ++ js " " ++ data)
    with (js "%output" ++ [32] ++ ch "%" :: ds ++ 32 :: data).
  unfold Tmux.parseTmuxControlLine.
  rewrite (outputMatch_line ds data Hne Hds).
  change (startsWith (js "%begin") _) with false.
  change (startsWith (js "%end") _) with false.
  change (startsWith (js "%error") _) with false.
  cbv iota.
  destruct (forallb Tmux.Re.dot data); reflexivity.
Qed.

Lemma X12_witness :
  Tmux.parseTmuxControlLine (js "%output %12 " ++ js "a\012b")
  = Tmux.EvOutput (js "%12") [97; LF; 98]
  ∧ Tmux.parseTmuxControlLine (js "%output %12 " ++ [97; 8232; 98])
    = Tmux.EvOther (js "%output %12 " ++ [97; 8232; 98]).
Proof.
  split.
  - apply (X12_output_line (js "12") (js "a\012b")); [discriminate|].
    repeat constructor.
  - apply (X12_output_line (js "12") [97; 8232; 98]); [discriminate|].
    repeat constructor.
Defined.

(** X13: the line [%layout-change @<digits> <layout>], alone or followed
    by white space and more text without line terminators, is a layout
    change of the window [@<digits>] whose layout is the run of
    characters that are not white space. *)
Theorem X13_layout_change_line (ds layout tail : jsstring) :
  ds ≠ [] → Forall (λ c, is_digit c = true) ds →
  layout ≠ [] → Forall (λ c, is_space c = false) layout →
  (∀ c, head tail = Some c → is_space c = true) →
  forallb Tmux.Re.dot tail = true →
  Tmux.parseTmuxControlLine
    (js "%layout-change @" ++ ds ++ js " " ++ layout ++ tail)
  = Tmux.EvLayoutChange (ch "@" :: ds) layout.
Proof.
  intros Hne Hds Hl Hns Htail Hdot.
  change (js "%layout-change @" ++ ds ++ js " " ++ layout ++ tail)
    with (js "%layout-change" ++ [32] ++ ch "@" :: ds ++ 32 :: layout ++ tail).
  unfold Tmux.parseTmuxControlLine.
  rewrite (layoutMatch_line ds layout tail Hne Hds Hl Hns Htail Hdot).
  change (startsWith (js "%begin") _) with false.
  change (startsWith (js "%end") _) with false.
  change (startsWith (js "%error") _) with false.
  reflexivity.
Qed.

Lemma X13_witness :
  Tmux.parseTmuxControlLine
    (js "%layout-change @2 " ++ js "b25d,80x24,0,0,3" ++ js " b25d,80x24,0,0,3 *")
  = Tmux.EvLayoutChange (js "@2") (js "b25d,80x24,0,0,3").
Proof.
  apply (X13_layout_change_line (js "2") (js "b25d,80x24,0,0,3")
           (js " b25d,80x24,0,0,3 *")).
  - discriminate.
  - repeat constructor.
  - discriminate.
  - apply Forall_forall. intros c Hc%list_elem_of_In.
    apply (proj1 (forallb_forall (λ c, negb (is_space c)) _)
             (eq_refl : forallb (λ c, negb (is_space c))
                          (js "b25d,80x24,0,0,3") = true)) in Hc.
    by apply negb_true_iff.
  - intros c [= <-]. reflexivity.
  - reflexivity.
Defined.

Section InputFacts.

(** *** [makeSendKeysHexCommand] *)

Lemma utf8_nonempty cp : utf8 cp ≠ [].
Proof.
  unfold utf8. repeat (destruct (_ <? _)); discriminate.
Qed.

Lemma utf8_bytes cp :
  cp < 1114112 → Forall (λ b, b < 256) (utf8 cp).
Proof.
  intros Hcp. unfold utf8.
  assert (cp mod 64 < 64) by (apply N.mod_upper_bound; lia).
  assert ((cp / 64) mod 64 < 64) by (apply N.mod_upper_bound; lia).
  assert ((cp / 4096) mod 64 < 64) by (apply N.mod_upper_bound; lia).
  assert (cp / 262144 < 5) by (apply N.Div0.div_lt_upper_bound; lia).
  destruct (N.ltb_spec cp 128); [repeat constructor; lia|].
  destruct (N.ltb_spec cp 2048).
  { assert (cp / 64 < 32) by (apply N.Div0.div_lt_upper_bound; lia).
    generalize dependent (cp / 64). generalize dependent (cp mod 64).
    intros. repeat constructor; lia. }
  destruct (N.ltb_spec cp 65536).
  { assert (cp / 4096 < 16) by (apply N.Div0.div_lt_upper_bound; lia).
    generalize dependent (cp / 4096). generalize dependent ((cp / 64) mod 64).
    generalize dependent (cp mod 64).
    intros. repeat constructor; lia. }
  generalize dependent (cp / 262144).
  generalize dependent ((cp / 4096) mod 64).
  generalize dependent ((cp / 64) mod 64). generalize dependent (cp mod 64).
  intros. repeat constructor; lia.
Qed.

Lemma textEncode_nil (s : jsstring) : textEncode s = [] → s = [].
Proof.
  destruct s as [|c s]; [reflexivity|]. cbn [textEncode]. intros H. exfalso.
  destruct (is_high_surrogate c).
  - destruct s as [|d s]; [by apply (utf8_nonempty 65533)|].
    destruct (is_low_surrogate d);
      apply app_eq_nil in H as [H _]; by apply utf8_nonempty in H.
  - destruct (is_low_surrogate c);
      apply app_eq_nil in H as [H _]; by apply utf8_nonempty in H.
Qed.

Lemma textEncode_bytes (n : nat) : ∀ s,
  (length s ≤ n)%nat → Forall (λ c, c < 65536) s →
  Forall (λ b, b < 256) (textEncode s).
Proof.
  induction n as [|n IH]; intros s Hn Hs.
  { destruct s; [constructor|cbn [length] in Hn; lia]. }
  destruct s as [|c s]; [constructor|].
  cbn [length] in Hn. apply Forall_cons in Hs as [Hc Hs].
  cbn [textEncode].
  destruct (is_high_surrogate c) eqn:Eh.
  - destruct s as [|d s]; [apply utf8_bytes; lia|].
    cbn [length] in Hn.
    destruct (is_low_surrogate d) eqn:El.
    + apply Forall_cons in Hs as [Hd Hs].
      apply Forall_app. split; [|apply IH; [lia|assumption]].
      apply utf8_bytes.
      unfold is_high_surrogate in Eh. unfold is_low_surrogate in El.
      apply andb_true_iff in Eh as [E1 E2], El as [E3 E4].
      apply N.leb_le in E1, E2, E3, E4. lia.
    + apply Forall_app. split; [apply utf8_bytes; lia|].
      apply IH; [cbn [length]; lia|assumption].
  - destruct (is_low_surrogate c).
    + apply Forall_app. split; [apply utf8_bytes; lia|].
      apply IH; [lia|assumption].
    + apply Forall_app. split; [apply utf8_bytes; lia|].
      apply IH; [lia|assumption].
Qed.

Lemma textEncode_ascii (s : jsstring) :
  Forall (λ c, c < 128) s → textEncode s = s.
Proof.
  induction 1 as [|c s Hc Hs IH]; [reflexivity|].
  cbn [textEncode].
  assert (is_high_surrogate c = false) as ->.
  { unfold is_high_surrogate. apply andb_false_iff. left.
    apply N.leb_gt. lia. }
  assert (is_low_surrogate c = false) as ->.
  { unfold is_low_surrogate. apply andb_false_iff. left.
    apply N.leb_gt. lia. }
  unfold utf8. destruct (N.ltb_spec c 128); [|lia].
  cbn [app]. by rewrite IH.
Qed.

Lemma hexDigit_hex d : d < 16 → is_hex (hexDigit d) = true.
Proof.
  intros Hd. unfold hexDigit, is_hex, is_digit.
  destruct (N.ltb_spec d 10).
  - apply orb_true_iff. left. apply andb_true_iff.
    split; apply N.leb_le; lia.
  - apply orb_true_iff. right. apply andb_true_iff.
    split; apply N.leb_le; lia.
Qed.

Lemma hexByte_hex b :
  b < 256 → Forall (λ c, is_hex c = true ∨ c = 32) (hexByte b).
Proof.
  intros Hb. unfold hexByte.
  assert (b / 16 < 16) by (apply N.Div0.div_lt_upper_bound; lia).
  assert (b mod 16 < 16) by (apply N.mod_upper_bound; lia).
  apply Forall_cons; split; [left; by apply hexDigit_hex|].
  apply Forall_cons; split; [left; by apply hexDigit_hex|constructor].
Qed.

Lemma Forall_join (P : N → Prop) (sep : jsstring) (parts : list jsstring) :
  Forall P sep → Forall (Forall P) parts → Forall P (join sep parts).
Proof.
  intros Hsep. induction 1 as [|p parts Hp Hparts IH]; [constructor|].
  destruct parts as [|q parts]; [assumption|].
  change (join sep (p :: q :: parts)) with (p ++ sep ++ join sep (q :: parts)).
  repeat (apply Forall_app; split); assumption.
Qed.

Lemma hex_of_bytes (bytes : list N) :
  Forall (λ b, b < 256) bytes →
  Forall (λ c, is_hex c = true ∨ c = 32) (join (js " ") (hexByte <$> bytes)).
Proof.
  intros Hb. apply Forall_join.
  - apply Forall_cons; split; [by right|constructor].
  - apply Forall_fmap. eapply Forall_impl; [exact Hb|].
    intros b Hlt. by apply hexByte_hex.
Qed.

(** *** [toSafeLocalEcho] *)

Lemma toSafeLocalEcho_chars (s : jsstring) :
  Forall (λ c, c = TAB ∨ c = CR ∨ c = LF ∨ (32 <= c ∧ c ≠ 127))
         (toSafeLocalEcho s).
Proof.
  induction s as [|c s IH]; [constructor|].
  unfold toSafeLocalEcho. cbn [flat_map]. fold (toSafeLocalEcho s).
  apply Forall_app. split; [|assumption].
  destruct (decide (c = CR ∨ c = LF)).
  { apply Forall_cons; split; [auto|].
    apply Forall_cons; split; [auto|constructor]. }
  destruct (decide (c = TAB)).
  { apply Forall_cons; split; [auto|constructor]. }
  destruct ((32 <=? c) && negb (c =? 127)) eqn:E; [|constructor].
  apply andb_true_iff in E as [E1 E2].
  apply N.leb_le in E1. apply negb_true_iff, N.eqb_neq in E2.
  apply Forall_cons; split; [auto|constructor].
Qed.

Lemma toSafeLocalEcho_printable (s : jsstring) :
  Forall (λ c, 32 <= c ∧ c ≠ 127) s → toSafeLocalEcho s = s.
Proof.
  induction 1 as [|c s [Hc1 Hc2] Hs IH]; [reflexivity|].
  unfold toSafeLocalEcho. cbn [flat_map]. fold (toSafeLocalEcho s).
  rewrite decide_False by (unfold CR, LF; lia).
  rewrite decide_False by (unfold TAB; lia).
  assert ((32 <=? c) && negb (c =? 127) = true) as ->.
  { apply andb_true_iff. split; [by apply N.leb_le|].
    by apply negb_true_iff, N.eqb_neq. }
  cbn [app]. by rewrite IH.
Qed.

End InputFacts.

Section BootstrapLineFacts.

(** A text without ["::"] is the single part of its split. *)
Lemma split_go_single (p : jsstring) : ∀ cur,
  includes (js "::") p = false →
  split_go (js "::") 0 cur p = [cur ++ p].
Proof.
  induction p as [|c p IH]; intros cur Hinc.
  - cbn. by rewrite app_nil_r.
  - cbn [includes] in Hinc. apply orb_false_iff in Hinc as [Hs Hinc].
    cbn [split_go]. rewrite Hs. rewrite IH by assumption.
    by rewrite <- app_assoc.
Qed.

Lemma dropWhile_snoc {A} (P : A → bool) (l : list A) (c : A) :
  P c = false → ∃ l', dropWhile P (l ++ [c]) = l' ++ [c].
Proof.
  intros Hc. induction l as [|a l IH]; cbn.
  - rewrite Hc. by exists [].
  - destruct (P a); [assumption|]. by exists (a :: l).
Qed.

Lemma dropWhile_head {A} (P : A → bool) (l : list A) (c : A) :
  head (dropWhile P l) = Some c → P c = false.
Proof.
  induction l as [|a l IH]; cbn; [discriminate|].
  destruct (P a) eqn:E; [assumption|]. by intros [= <-].
Qed.

Lemma trim_ends (s : jsstring) :
  (∀ c, head (trim s) = Some c → is_space c = false)
  ∧ (∀ c, last (trim s) = Some c → is_space c = false).
Proof.
  unfold trim. split; intros c Hc.
  - destruct (dropWhile is_space s) as [|a t] eqn:E; [discriminate|].
    assert (is_space a = false) as Ha.
    { apply (dropWhile_head is_space s). by rewrite E. }
    cbn [rev] in Hc.
    destruct (dropWhile_snoc is_space (rev t) a Ha) as (l' & El).
    rewrite El, rev_app_distr in Hc. cbn in Hc. by injection Hc as <-.
  - assert (∀ l : jsstring, last (rev l) = head l) as Hrev.
    { intros [|a l]; [reflexivity|]. cbn [rev]. by rewrite last_snoc. }
    rewrite Hrev in Hc. by apply dropWhile_head in Hc.
Qed.

Lemma indexOfString_app (needle s : jsstring) :
  indexOfString needle (needle ++ s) = Some 0%nat.
Proof.
  pose proof (startsWith_app needle s) as H.
  destruct (needle ++ s); cbn [indexOfString]; by rewrite H.
Qed.

End BootstrapLineFacts.

Section NewlineFacts.

Lemma normalizeOutput_LF s :
  normalizeOutput (LF :: s) = CR :: LF :: normalizeOutput s.
Proof. reflexivity. Qed.

Lemma normalizeOutput_CRLF s :
  normalizeOutput (CR :: LF :: s) = CR :: LF :: normalizeOutput s.
Proof. reflexivity. Qed.

Lemma normalizeOutput_CR c s :
  c ≠ LF → normalizeOutput (CR :: c :: s) = CR :: normalizeOutput (c :: s).
Proof.
  intros Hc. cbn [normalizeOutput].
  rewrite (decide_False (P := CR = LF)) by discriminate.
  rewrite (decide_True (P := CR = CR)) by reflexivity.
  rewrite (decide_False (P := c = LF)) by assumption. reflexivity.
Qed.

Lemma normalizeOutput_plain c s :
  c ≠ LF → c ≠ CR → normalizeOutput (c :: s) = c :: normalizeOutput s.
Proof.
  intros H1 H2. cbn [normalizeOutput].
  rewrite (decide_False (P := c = LF)), (decide_False (P := c = CR))
    by assumption.
  reflexivity.
Qed.

(** The cases of a text, as [normalizeOutput] tells them apart. *)
Lemma newline_cases (s : jsstring) :
  s = [] ∨ (∃ s', s = LF :: s') ∨ (∃ s', s = CR :: LF :: s') ∨ s = [CR]
  ∨ (∃ c s', s = CR :: c :: s' ∧ c ≠ LF)
  ∨ (∃ c s', s = c :: s' ∧ c ≠ LF ∧ c ≠ CR).
Proof.
  destruct s as [|c s]; [by left|]. right.
  destruct (decide (c = LF)) as [->|Hlf]; [left; eauto|]. right.
  destruct (decide (c = CR)) as [->|Hcr]; [|do 3 right; eauto].
  destruct s as [|d s]; [right; by left|].
  destruct (decide (d = LF)) as [->|Hd]; [left; eauto|].
  do 2 right. left. eauto.
Qed.

Lemma LF_follows_CR_plain (c : N) (s : jsstring) :
  c ≠ LF → LF_follows_CR s → LF_follows_CR (c :: s).
Proof.
  intros Hc H a b E. destruct a as [|x a]; simplify_eq/=.
  specialize (H a b eq_refl). destruct a; [discriminate|exact H].
Qed.

Lemma LF_follows_CR_CRLF (s : jsstring) :
  LF_follows_CR s → LF_follows_CR (CR :: LF :: s).
Proof.
  intros H a b E. destruct a as [|x a]; simplify_eq/=.
  destruct a as [|y a]; simplify_eq/=; [reflexivity|].
  specialize (H a b eq_refl). destruct a; [discriminate|exact H].
Qed.

Lemma LF_follows_CR_tail (c : N) (s : jsstring) :
  LF_follows_CR (c :: s) → c ≠ LF ∧ (c ≠ CR → LF_follows_CR s)
  ∧ (∀ s', s = LF :: s' → LF_follows_CR s').
Proof.
  intros H. split; [|split].
  - intros ->. specialize (H [] s eq_refl). discriminate.
  - intros Hc a b ->. specialize (H (c :: a) b eq_refl).
    destruct a; [cbn in H; congruence|exact H].
  - intros s' -> a b ->. specialize (H (c :: LF :: a) b eq_refl).
    destruct a; [discriminate|exact H].
Qed.

Lemma normalizeOutput_wf (n : nat) : ∀ s,
  (length s ≤ n)%nat → LF_follows_CR (normalizeOutput s).
Proof.
  induction n as [|n IH]; intros s Hn.
  { destruct s; [|cbn [length] in Hn; lia]. intros [|] ? ?; discriminate. }
  destruct (newline_cases s)
    as [->|[(s' & ->)|[(s' & ->)|[->|[(c & s' & -> & Hc)|(c & s' & -> & H1 & H2)]]]]];
    cbn [length] in Hn.
  - intros [|] ? ?; discriminate.
  - rewrite normalizeOutput_LF. apply LF_follows_CR_CRLF, IH. lia.
  - rewrite normalizeOutput_CRLF. apply LF_follows_CR_CRLF, IH. lia.
  - intros [|x [|]] b E; discriminate.
  - rewrite normalizeOutput_CR by assumption.
    apply LF_follows_CR_plain; [discriminate|]. apply IH. cbn [length]. lia.
  - rewrite normalizeOutput_plain by assumption.
    apply LF_follows_CR_plain; [assumption|]. apply IH. lia.
Qed.

Lemma normalizeOutput_fixed (n : nat) : ∀ s,
  (length s ≤ n)%nat → LF_follows_CR s → normalizeOutput s = s.
Proof.
  induction n as [|n IH]; intros s Hn Hs.
  { destruct s; [reflexivity|cbn [length] in Hn; lia]. }
  destruct (newline_cases s)
    as [->|[(s' & ->)|[(s' & ->)|[->|[(c & s' & -> & Hc)|(c & s' & -> & H1 & H2)]]]]];
    cbn [length] in Hn; try reflexivity.
  - apply LF_follows_CR_tail in Hs as [H _]. contradiction.
  - rewrite normalizeOutput_CRLF. do 2 f_equal. apply IH; [lia|].
    apply LF_follows_CR_tail in Hs as (_ & _ & H). by apply H.
  - rewrite normalizeOutput_CR by assumption. f_equal.
    apply IH; [cbn [length]; lia|].
    intros a b E. pose proof (Hs (CR :: a) b) as H'.
    cbn [app] in H'. rewrite E in H'. specialize (H' eq_refl).
    destruct a; simplify_eq/=. exact H'.
  - rewrite normalizeOutput_plain by assumption. f_equal.
    apply IH; [lia|]. apply LF_follows_CR_tail in Hs as (_ & H & _).
    by apply H.
Qed.

Lemma normalizeOutput_app (n : nat) : ∀ a b,
  (length a ≤ n)%nat →
  ¬ (last a = Some CR ∧ head b = Some LF) →
  normalizeOutput (a ++ b) = normalizeOutput a ++ normalizeOutput b.
Proof.
  induction n as [|n IH]; intros a b Hn Hb.
  { destruct a; [reflexivity|cbn [length] in Hn; lia]. }
  destruct (newline_cases a)
    as [->|[(s' & ->)|[(s' & ->)|[->|[(c & s' & -> & Hc)|(c & s' & -> & H1 & H2)]]]]];
    cbn [length] in Hn; try reflexivity.
  - cbn [app]. rewrite !normalizeOutput_LF. cbn [app]. do 2 f_equal.
    apply IH; [lia|]. intros [H3 H4]. apply Hb. split; [|assumption].
    destruct s'; [discriminate|assumption].
  - cbn [app]. rewrite !normalizeOutput_CRLF. cbn [app]. do 2 f_equal.
    apply IH; [lia|]. intros [H3 H4]. apply Hb. split; [|assumption].
    destruct s'; [discriminate|assumption].
  - cbn [app]. destruct b as [|c b]; [reflexivity|].
    rewrite normalizeOutput_CR; [reflexivity|].
    intros ->. apply Hb. split; reflexivity.
  - cbn [app]. rewrite !normalizeOutput_CR by assumption. cbn [app]. f_equal.
    apply (IH (c :: s') b); [cbn [length]; lia|].
    intros [H3 H4]. apply Hb. split; assumption.
  - cbn [app]. rewrite !normalizeOutput_plain by assumption. cbn [app].
    f_equal. apply IH; [lia|]. intros [H3 H4]. apply Hb. split; [|assumption].
    destruct s'; [cbn in H3; discriminate|assumption].
Qed.

Lemma flat_map_crlf_wf (t : jsstring) :
  CR ∉ t →
  LF_follows_CR (flat_map (λ c, if decide (c = LF) then [CR; LF] else [c]) t)
  ∧ CR_precedes_LF
      (flat_map (λ c, if decide (c = LF) then [CR; LF] else [c]) t).
Proof.
  induction t as [|c t IH]; intros Hcr.
  - split; intros [|] ? ?; discriminate.
  - apply not_elem_of_cons in Hcr as [Hc Hcr].
    destruct (IH Hcr) as [IH1 IH2]. cbn [flat_map].
    destruct (decide (c = LF)) as [->|Hlf]; cbn [app].
    + split; [by apply LF_follows_CR_CRLF|].
      intros a b E. destruct a as [|x a]; simplify_eq/=; [reflexivity|].
      destruct a as [|y a]; simplify_eq/=. by apply (IH2 a b).
    + split; [by apply LF_follows_CR_plain|].
      intros a b E. destruct a as [|x a]; simplify_eq/=.
      by apply (IH2 a b).
Qed.

End NewlineFacts.

Section SanitizeFacts.

Lemma removeAll_go_sublist (pat : jsstring) (s : jsstring) : ∀ skip,
  removeAll_go pat skip s `sublist_of` s.
Proof.
  induction s as [|c s IH]; intros skip; cbn [removeAll_go]; [constructor|].
  destruct skip as [|k]; [|by apply sublist_cons].
  destruct (startsWith pat (c :: s)); [by apply sublist_cons|].
  by apply sublist_skip.
Qed.

Lemma removeAll_go_skip (pat : jsstring) (m : jsstring) : ∀ s,
  removeAll_go pat (length m) (m ++ s) = removeAll_go pat 0 s.
Proof.
  induction m as [|c m IH]; intros s; [reflexivity|]. cbn. apply IH.
Qed.

(** A pattern that starts with ESC finds nothing in a text without ESC. *)
Lemma removeAll_no_ESC (p a b : jsstring) :
  ESC ∉ a → removeAll (ESC :: p) (a ++ b) = a ++ removeAll (ESC :: p) b.
Proof.
  unfold removeAll. induction a as [|c a IH]; intros Ha; [reflexivity|].
  apply not_elem_of_cons in Ha as [Hc Ha].
  cbn [app removeAll_go startsWith].
  rewrite decide_False by auto. f_equal. by apply IH.
Qed.

Lemma removeAll_match (pat s : jsstring) :
  pat ≠ [] → removeAll pat (pat ++ s) = removeAll pat s.
Proof.
  intros Hne. unfold removeAll.
  destruct pat as [|c pat]; [contradiction|].
  pose proof (startsWith_app (c :: pat) s) as Hs.
  cbn [app] in Hs |- *. cbn [removeAll_go]. rewrite Hs. cbn [length pred].
  apply removeAll_go_skip.
Qed.

End SanitizeFacts.

(** X14: the command that [makeSendKeysHexCommand] builds for a pane
    carries the input in hexadecimal only: there is no command exactly
    for the empty input; otherwise the command is [send-keys -t <pane>
    -H <hex>] and a line feed, where [<hex>] consists of the digits
    [0-9a-f] and blanks; and for an input of ASCII characters the bytes
    written are the characters themselves. *)
Theorem X14_send_keys_hex (pane input : jsstring) :
  (makeSendKeysHexCommand pane input = [] ↔ input = [])
  ∧ (input ≠ [] → Forall (λ c, c < 65536) input →
     ∃ hex, makeSendKeysHexCommand pane input
            = js "send-keys -t " ++ pane ++ js " -H " ++ hex ++ [LF]
            ∧ Forall (λ c, is_hex c = true ∨ c = 32) hex)
  ∧ (input ≠ [] → Forall (λ c, c < 128) input →
     makeSendKeysHexCommand pane input
     = js "send-keys -t " ++ pane ++ js " -H "
       ++ join (js " ") (hexByte <$> input) ++ [LF]).
Proof.
  unfold makeSendKeysHexCommand. split; [|split].
  - split.
    + destruct (decide (length (textEncode input) = 0%nat)) as [E|E];
        [|discriminate].
      intros _. apply textEncode_nil. by apply nil_length_inv.
    + intros ->. reflexivity.
  - intros Hne Hin.
    rewrite decide_False.
    2:{ intros E%nil_length_inv. by apply textEncode_nil in E. }
    eexists. split; [reflexivity|].
    apply hex_of_bytes. by apply (textEncode_bytes (length input)).
  - intros Hne Hin. rewrite (textEncode_ascii input Hin).
    rewrite decide_False; [reflexivity|].
    intros E%nil_length_inv. contradiction.
Qed.

Lemma X14_witness :
  makeSendKeysHexCommand (js "%3") (js "ls" ++ [LF])
  = js "send-keys -t %3 -H 6c 73 0a" ++ [LF].
Proof.
  destruct (X14_send_keys_hex (js "%3") (js "ls" ++ [LF])) as (_ & _ & H).
  rewrite H; [reflexivity|discriminate|].
  repeat (apply Forall_cons; split; [reflexivity|]). constructor.
Defined.

(** X15: [parseBootstrapPaneLine] reads ["__PANE__::" + w + "::" + p]
    as the window [w] and the pane [p] when both are non-empty, [w]
    neither contains ["::"] nor ends in a colon and [p] contains no
    ["::"]; whatever it returns has two non-empty identifiers that are
    the first two ["::"]-separated fields after the marker; and a line
    that does not start with the marker gives null. *)
Theorem X15_bootstrap_pane_line (w p line : jsstring) :
  (w ≠ [] → p ≠ [] →
   includes (js "::") w = false → last w ≠ Some COLON →
   includes (js "::") p = false →
   parseBootstrapPaneLine (js "__PANE__::" ++ w ++ js "::" ++ p)
   = Some (w, p))
  ∧ (∀ w' p', parseBootstrapPaneLine line = Some (w', p') →
       w' ≠ [] ∧ p' ≠ []
       ∧ ∃ more, line = js "__PANE__::" ++ join (js "::") (w' :: p' :: more))
  ∧ (startsWith (js "__PANE__::") line = false →
     parseBootstrapPaneLine line = None).
Proof.
  split; [|split].
  - intros Hw Hp Hiw Hlw Hip. unfold parseBootstrapPaneLine.
    rewrite startsWith_app. cbn [negb]. rewrite drop_app_length.
    unfold split. rewrite split_go_first by assumption.
    rewrite split_go_single by assumption. cbn [app].
    rewrite decide_False; [reflexivity|]. intros [|]; contradiction.
  - intros w' p'. unfold parseBootstrapPaneLine.
    destruct (startsWith (js "__PANE__::") line) eqn:Es; [|discriminate].
    cbn [negb].
    pose proof (join_split (drop (length (js "__PANE__::")) line)) as Hj.
    destruct (split _ _) as [|a [|b more]]; try discriminate.
    destruct (decide (a = [] ∨ b = [])) as [|Hn]; [discriminate|].
    intros [= <- <-]. split; [tauto|]. split; [tauto|].
    exists more. rewrite Hj. by apply startsWith_true.
  - intros Hs. unfold parseBootstrapPaneLine. by rewrite Hs.
Qed.

Lemma X15_witness :
  parseBootstrapPaneLine (js "__PANE__::" ++ js "@1" ++ js "::" ++ js "%12")
  = Some (js "@1", js "%12")
  ∧ parseBootstrapPaneLine (js "__WINDOW__::@1::zsh::l") = None.
Proof.
  destruct (X15_bootstrap_pane_line (js "@1") (js "%12")
              (js "__WINDOW__::@1::zsh::l")) as (H1 & _ & H3).
  split.
  - apply H1; try reflexivity; discriminate.
  - apply H3. reflexivity.
Defined.

(** X16: what [parseSocketPathLine] returns is never empty and neither
    starts nor ends with white space; a line that starts with the marker
    gives the trimmed text after it, or null when nothing but white space
    follows; a line without the marker gives null. *)
Theorem X16_socket_path_line (line path : jsstring) :
  (∀ v, parseSocketPathLine line = Some v →
     v ≠ []
     ∧ (∀ c, head v = Some c → is_space c = false)
     ∧ (∀ c, last v = Some c → is_space c = false))
  ∧ parseSocketPathLine (js "__SOCKET__::" ++ path)
    = (if decide (trim path = []) then None else Some (trim path))
  ∧ (indexOfString (js "__SOCKET__::") line = None →
     parseSocketPathLine line = None).
Proof.
  split; [|split].
  - intros v. unfold parseSocketPathLine.
    destruct (indexOfString _ line) as [idx|]; [|discriminate].
    pose proof (trim_ends (drop (idx + length (js "__SOCKET__::")) line))
      as Hends.
    destruct (trim (drop (idx + length (js "__SOCKET__::")) line))
      as [|c value]; [discriminate|].
    cbn [length]. rewrite decide_True by lia.
    intros [= <-]. split; [discriminate|exact Hends].
  - unfold parseSocketPathLine. rewrite indexOfString_app.
    cbn [Nat.add]. rewrite drop_app_length.
    destruct (decide (trim path = [])) as [->|Hne].
    + reflexivity.
    + rewrite decide_True; [reflexivity|].
      destruct (trim path); [contradiction|cbn; lia].
  - intros H. unfold parseSocketPathLine. by rewrite H.
Qed.

Lemma X16_witness :
  parseSocketPathLine (js "x") = None
  ∧ parseSocketPathLine (js "__SOCKET__::" ++ js " /tmp/tmux-0/default ")
    = Some (js "/tmp/tmux-0/default").
Proof.
  destruct (X16_socket_path_line (js "x") (js " /tmp/tmux-0/default "))
    as (_ & H2 & H3).
  split; [apply H3; reflexivity|]. rewrite H2. reflexivity.
Defined.

(** X17: the local echo of [toSafeLocalEcho] holds no control character
    but TAB, CR and LF and no DEL; an input of printable characters is
    echoed as it is; and the echo of a text in two pieces is the echo of
    the whole text. *)
Theorem X17_safe_local_echo (a b : jsstring) :
  Forall (λ c, c = TAB ∨ c = CR ∨ c = LF ∨ (32 <= c ∧ c ≠ 127))
         (toSafeLocalEcho a)
  ∧ (Forall (λ c, 32 <= c ∧ c ≠ 127) a → toSafeLocalEcho a = a)
  ∧ toSafeLocalEcho (a ++ b) = toSafeLocalEcho a ++ toSafeLocalEcho b.
Proof.
  split; [apply toSafeLocalEcho_chars|].
  split; [apply toSafeLocalEcho_printable|].
  apply flat_map_app.
Qed.

Lemma X17_witness : toSafeLocalEcho (js "ls -l") = js "ls -l".
Proof.
  destruct (X17_safe_local_echo (js "ls -l") []) as (_ & H & _).
  apply H. apply Forall_forall. intros c Hc.
  apply (bool_decide_unpack _).
  revert c Hc. apply Forall_forall.
  repeat (apply Forall_cons; split; [vm_compute; exact I|]). constructor.
Defined.

(** X18: in the output that the pipe backend forwards every line feed
    follows a carriage return; a text that is already so is forwarded
    unchanged, hence normalising twice is normalising once; and two
    chunks normalise to what the whole text normalises to, unless the
    first ends in a carriage return whose line feed opens the second. *)
Theorem X18_normalize_output (s a b : jsstring) :
  LF_follows_CR (normalizeOutput s)
  ∧ (LF_follows_CR s → normalizeOutput s = s)
  ∧ normalizeOutput (normalizeOutput s) = normalizeOutput s
  ∧ (¬ (last a = Some CR ∧ head b = Some LF) →
     normalizeOutput (a ++ b) = normalizeOutput a ++ normalizeOutput b).
Proof.
  assert (LF_follows_CR (normalizeOutput s)) as Hwf
      by (by apply (normalizeOutput_wf (length s))).
  split; [exact Hwf|].
  split; [by apply (normalizeOutput_fixed (length s))|].
  split; [by apply (normalizeOutput_fixed (length (normalizeOutput s)))|].
  by apply (normalizeOutput_app (length a)).
Qed.

Lemma X18_witness :
  normalizeOutput (js "ab" ++ [LF; 99])
  = normalizeOutput (js "ab") ++ normalizeOutput [LF; 99].
Proof.
  destruct (X18_normalize_output [] (js "ab") [LF; 99]) as (_ & _ & _ & H).
  apply H. intros [H1 _]. discriminate.
Defined.

(** X19: a captured history is normalised to lines that end in CR LF:
    in the result every line feed follows a carriage return and every
    carriage return is followed by a line feed. *)
Theorem X19_captured_history_newlines (text : jsstring) :
  LF_follows_CR (normalizeCapturedHistory text)
  ∧ CR_precedes_LF (normalizeCapturedHistory text).
Proof.
  unfold normalizeCapturedHistory. apply flat_map_crlf_wf.
  rewrite list_elem_of_filter. tauto.
Qed.

(** X20: [sanitizeTmuxOutput] only deletes: its result is a subsequence
    of the data; it copies a text without ESC, and it drops a
    clear-scrollback sequence, [ESC [ 3 J] or [ESC [ ? 3 J], that stands
    in front. *)
Theorem X20_sanitize_output (a b : jsstring) :
  sanitizeTmuxOutput b `sublist_of` b
  ∧ (ESC ∉ a → sanitizeTmuxOutput (a ++ b) = a ++ sanitizeTmuxOutput b)
  ∧ sanitizeTmuxOutput (ESC :: js "[3J" ++ b) = sanitizeTmuxOutput b
  ∧ sanitizeTmuxOutput (ESC :: js "[?3J" ++ b) = sanitizeTmuxOutput b.
Proof.
  unfold sanitizeTmuxOutput. split; [|split; [|split]].
  - etrans; apply removeAll_go_sublist.
  - intros Ha. by rewrite !removeAll_no_ESC.
  - assert (removeAll (ESC :: js "[?3J") (ESC :: js "[3J" ++ b)
            = (ESC :: js "[3J") ++ removeAll (ESC :: js "[?3J") b) as ->
        by reflexivity.
    by rewrite removeAll_match.
  - change (ESC :: js "[?3J" ++ b) with ((ESC :: js "[?3J") ++ b).
    by rewrite removeAll_match.
Qed.

Lemma X20_witness :
  sanitizeTmuxOutput (js "abc" ++ ESC :: js "[3J" ++ js "d") = js "abcd".
Proof.
  destruct (X20_sanitize_output (js "abc") (ESC :: js "[3J" ++ js "d"))
    as (_ & H & _).
  rewrite H; [|apply (bool_decide_unpack _); vm_compute; exact I].
  destruct (X20_sanitize_output [] (js "d")) as (_ & _ & -> & _).
  reflexivity.
Defined.

Section BufferFacts.

Implicit Types (p q : jsstring) (st : State) (e : Event).

Lemma chunkBytes_snoc (cs : list jsstring) (d : jsstring) :
  chunkBytes (cs ++ [d]) = chunkBytes cs + strlen d.
Proof.
  induction cs as [|c cs IH]; cbn [app chunkBytes foldr]; [lia|].
  fold (chunkBytes (cs ++ [d])). fold (chunkBytes cs). rewrite IH. lia.
Qed.

(** The eviction loop keeps a non-empty suffix that holds the newest
    chunk, keeps the byte count exact, and ends within the cap or with a
    single chunk. *)
Lemma evictOldest_spec (max : N) (cs : list jsstring) : ∀ total,
  Forall (λ c, c ≠ []) cs → total = chunkBytes cs → cs ≠ [] →
  let r := evictOldest max cs total in
  Forall (λ c, c ≠ []) (fst r)
  ∧ snd r = chunkBytes (fst r)
  ∧ (snd r <= max ∨ length (fst r) = 1%nat)
  ∧ fst r `suffix_of` cs
  ∧ last (fst r) = last cs.
Proof.
  induction cs as [|removed rest IH]; intros total Hne Htot Hcs;
    [contradiction|].
  destruct rest as [|c rest].
  { cbn. repeat split; auto. }
  cbn [evictOldest].
  destruct (N.ltb_spec max total) as [Hgt|Hle].
  2:{ cbn. repeat split; auto. }
  apply Forall_cons in Hne as [Hr Hrest].
  rewrite decide_False by (intros E%nil_length_inv; contradiction).
  destruct (IH (total - strlen removed) Hrest) as (H1 & H2 & H3 & H4 & H5);
    [|discriminate|].
  { subst total. cbn [chunkBytes foldr]. fold (chunkBytes rest).
    cbn [chunkBytes foldr]. lia. }
  repeat split; auto.
  by apply suffix_cons_r.
Qed.

Lemma evictOldest_snoc (max : N) (cs : list jsstring) (d : jsstring) total :
  Forall (λ c, c ≠ []) cs → total = chunkBytes cs → d ≠ [] →
  let r := evictOldest max (cs ++ [d]) (total + strlen d) in
  Forall (λ c, c ≠ []) (fst r)
  ∧ snd r = chunkBytes (fst r)
  ∧ (snd r <= max ∨ length (fst r) = 1%nat)
  ∧ fst r `suffix_of` cs ++ [d]
  ∧ last (fst r) = Some d.
Proof.
  intros Hcs Htot Hd.
  destruct (evictOldest_spec max (cs ++ [d]) (total + strlen d))
    as (H1 & H2 & H3 & H4 & H5).
  - apply Forall_app. split; [assumption|]. by constructor.
  - rewrite chunkBytes_snoc. lia.
  - by destruct cs.
  - rewrite last_snoc in H5. repeat split; auto.
Qed.

(** What [writeToPane] does to the history table. *)
Lemma writeToPane_history q d st :
  paneHistory (writeToPane q d st)
  = <[q := let h := default {| PaneHistory.chunks := [];
                                PaneHistory.totalBytes := 0 |}
                      (paneHistory st !! q) in
           let r := evictOldest MAX_PANE_HISTORY_BYTES
                      (PaneHistory.chunks h ++ [d])
                      (PaneHistory.totalBytes h + strlen d) in
           {| PaneHistory.chunks := fst r; PaneHistory.totalBytes := snd r |}]>
      (paneHistory st).
Proof.
  unfold writeToPane. cbv zeta. destruct (evictOldest _ _ _) as [cs tot].
  cbn. destruct (decide (q ∈ paneWriters st)); reflexivity.
Qed.

Lemma history_ok_empty :
  Forall (λ c : jsstring, c ≠ []) []
  ∧ 0 = chunkBytes [].
Proof. split; [constructor|reflexivity]. Qed.

Lemma writeToPane_buffers q d st :
  d ≠ [] → buffers_ok st → buffers_ok (writeToPane q d st).
Proof.
  intros Hd [Hh Hb]. split.
  - intros p h. rewrite writeToPane_history.
    destruct (decide (p = q)) as [->|Hne].
    2:{ rewrite lookup_insert_ne by auto. apply Hh. }
    rewrite lookup_insert_eq. intros [= <-]. cbv zeta.
    assert (Forall (λ c : jsstring, c ≠ [])
              (PaneHistory.chunks
                 (default {| PaneHistory.chunks := [];
                             PaneHistory.totalBytes := 0 |}
                    (paneHistory st !! q)))
            ∧ PaneHistory.totalBytes
                (default {| PaneHistory.chunks := [];
                            PaneHistory.totalBytes := 0 |}
                   (paneHistory st !! q))
              = chunkBytes
                  (PaneHistory.chunks
                     (default {| PaneHistory.chunks := [];
                                 PaneHistory.totalBytes := 0 |}
                        (paneHistory st !! q)))) as [H1 H2].
    { destruct (paneHistory st !! q) as [h0|] eqn:E; cbn.
      - destruct (Hh q h0 E) as (? & ? & _). by split.
      - apply history_ok_empty. }
    destruct (evictOldest_snoc MAX_PANE_HISTORY_BYTES _ d _ H1 H2 Hd)
      as (H3 & H4 & H5 & _).
    repeat split; assumption.
  - intros p b. destruct (writeToPane_effect q d st) as (_ & -> & _).
    apply Hb.
Qed.

Lemma foldl_writeToPane_buffers q ds : ∀ st,
  Forall (λ c, c ≠ []) ds → buffers_ok st →
  buffers_ok (foldl (λ st chunk, writeToPane q chunk st) st ds).
Proof.
  induction ds as [|d ds IH]; intros st Hds Hst; [assumption|].
  apply Forall_cons in Hds as [Hd Hds]. cbn [foldl].
  apply IH; [assumption|]. by apply writeToPane_buffers.
Qed.

(** A state that differs from one with sound buffers in neither table
    but by the removal of bootstrap entries has sound buffers. *)
Lemma buffers_ok_frame st st' :
  paneHistory st' = paneHistory st →
  tmuxPaneBootstrap st' ⊆ tmuxPaneBootstrap st →
  buffers_ok st → buffers_ok st'.
Proof.
  intros Hh Hb [H1 H2]. split.
  - intros p h. rewrite Hh. apply H1.
  - intros p b E. apply (H2 p). eapply lookup_weaken; eassumption.
Qed.

Lemma flush_buffers q cap st :
  buffers_ok st → buffers_ok (flushTmuxBootstrapPane q cap st).
Proof.
  intros Hst. unfold flushTmuxBootstrapPane.
  destruct (tmuxPaneBootstrap st !! q) as [b|] eqn:Eb.
  - set (st1 := match flushTimer b with
                | Some t => clearTimeout t _
                | None => _
                end).
    assert (buffers_ok st1) as H1.
    { apply (buffers_ok_frame st); [| |assumption].
      - unfold st1. by destruct (flushTimer b).
      - unfold st1. destruct (flushTimer b); cbn; apply delete_subseteq. }
    destruct cap as [[|c h]|].
    + rewrite bool_decide_eq_false_2 by (cbn; lia).
      apply foldl_writeToPane_buffers; [|assumption].
      destruct Hst as [_ Hb]. by destruct (Hb q b Eb).
    + rewrite bool_decide_eq_true_2 by discriminate.
      by apply writeToPane_buffers.
    + apply foldl_writeToPane_buffers; [|assumption].
      destruct Hst as [_ Hb]. by destruct (Hb q b Eb).
  - destruct cap as [[|c h]|].
    + by rewrite bool_decide_eq_false_2 by (cbn; lia).
    + rewrite bool_decide_eq_true_2 by discriminate.
      by apply writeToPane_buffers.
    + assumption.
Qed.

Lemma handleTmuxOutput_buffers q data st :
  buffers_ok st → buffers_ok (handleTmuxOutput q data st).
Proof.
  intros Hst. unfold handleTmuxOutput. cbv zeta.
  destruct (decide (length (sanitizeTmuxOutput data) = 0%nat)) as [|Hlen];
    [assumption|].
  assert (sanitizeTmuxOutput data ≠ []) as Hd by (intros E; by rewrite E in Hlen).
  destruct (tmuxPaneBootstrap st !! q) as [b|] eqn:Eb;
    [|by apply writeToPane_buffers].
  destruct Hst as [Hh Hb]. destruct (Hb q b Eb) as (B1 & B2 & B3).
  destruct (evictOldest_snoc MAX_TMUX_BOOTSTRAP_BUFFER_BYTES _ _ _ B1 B2 Hd)
    as (H3 & H4 & H5 & _).
  destruct (evictOldest _ _ _) as [cs tot]. cbn [fst snd] in *.
  destruct (N.leb_spec MAX_TMUX_BOOTSTRAP_BUFFER_BYTES tot) as [Hge|Hlt].
  - assert (∀ st1, paneHistory st1 = paneHistory st →
              (∀ p b', tmuxPaneBootstrap st1 !! p = Some b' → p ≠ q →
                       bootstrap_ok b') →
              tmuxPaneBootstrap st1 !! q
              = Some {| chunks := cs; totalBytes := tot;
                        flushTimer := flushTimer b |} →
              buffers_ok (flushTmuxBootstrapPane q None st1)) as Hflush.
    { intros st1 E1 E2 E3. unfold flushTmuxBootstrapPane. rewrite E3.
      cbn [flushTimer chunks].
      apply foldl_writeToPane_buffers; [assumption|].
      split.
      - intros p h. destruct (flushTimer b); cbn; rewrite E1; apply Hh.
      - intros p b'. destruct (flushTimer b); cbn;
          (destruct (decide (p = q)) as [->|Hne];
           [by rewrite lookup_delete_eq
           |rewrite lookup_delete_ne by auto; intros E; by apply (E2 p)]). }
    apply Hflush; [reflexivity| |apply lookup_insert_eq].
    intros p b' E Hne. cbn in E. rewrite lookup_insert_ne in E by auto.
    by apply (Hb p).
  - split; [exact Hh|]. intros p b'. cbn.
    destruct (decide (p = q)) as [->|Hne].
    + rewrite lookup_insert_eq. intros [= <-]. repeat split; assumption.
    + rewrite lookup_insert_ne by auto. apply Hb.
Qed.

Lemma captureTimeout_buffers c next st :
  buffers_ok st → buffers_ok (captureTimeout c next st).
Proof.
  intros Hst. unfold captureTimeout.
  destruct (tmuxCaptureActive st !! c) as [active|]; [|assumption].
  destruct (decide _); [assumption|]. cbv zeta.
  unfold runNextTmuxCapture.
  destruct (decide _); [assumption|]. cbn.
  destruct (tmuxCaptureQueues st !! c) as [[|next' queue]|]; assumption.
Qed.

Lemma step_buffers st e : buffers_ok st → buffers_ok (step st e).
Proof.
  intros Hst.
  destruct e as [q|q data|t|q attempt prefetched socketPath captured];
    cbn [step].
  - unfold mapPaneAllocate. cbn. destruct Hst as [Hh Hb].
    split; [exact Hh|]. intros p b. cbn.
    destruct (decide (p = q)) as [->|Hne].
    + rewrite lookup_insert_eq. intros [= <-].
      split; [constructor|]. split; reflexivity.
    + rewrite lookup_insert_ne by auto. apply Hb.
  - by apply handleTmuxOutput_buffers.
  - unfold fireTimer. destruct (timers st !! t) as [[q|c next]|];
      [|by apply captureTimeout_buffers|assumption].
    by apply flush_buffers.
  - destruct (hydrate_cases q attempt prefetched socketPath captured st)
      as [->|[->|(h & _ & ->)]]; [assumption|by apply flush_buffers..].
Qed.

Lemma cleanup_buffers q st :
  buffers_ok st → buffers_ok (cleanupPaneArtifacts q st).
Proof.
  intros [Hh Hb]. unfold cleanupPaneArtifacts. split.
  - intros p h. cbn.
    assert (∀ st0 : State,
              paneHistory
                match tmuxPaneBootstrap st !! q with
                | Some bootstrap =>
                    match flushTimer bootstrap with
                    | Some t => clearTimeout t st
                    | None => st
                    end
                | None => st
                end = paneHistory st) as E.
    { intros _. destruct (tmuxPaneBootstrap st !! q) as [b|]; [|reflexivity].
      by destruct (flushTimer b). }
    rewrite (E st). intros H. apply lookup_delete_Some in H as [_ H].
    by apply (Hh p).
  - intros p b. cbn.
    assert (tmuxPaneBootstrap
              match tmuxPaneBootstrap st !! q with
              | Some bootstrap =>
                  match flushTimer bootstrap with
                  | Some t => clearTimeout t st
                  | None => st
                  end
              | None => st
              end = tmuxPaneBootstrap st) as E.
    { destruct (tmuxPaneBootstrap st !! q) as [b0|]; [|reflexivity].
      by destruct (flushTimer b0). }
    rewrite E. intros H. apply lookup_delete_Some in H as [_ H].
    by apply (Hb p).
Qed.

End BufferFacts.

(** X21: the buffers of the controller stay sound through every run of
    map-pane, output, timer and hydration events and through the cleanup
    of a pane: the byte count of a pane history is the sum of the lengths
    of its chunks and is at most 2 MiB unless the history is one chunk;
    the byte count of a bootstrap buffer is exact and below 512 KiB; no
    kept chunk is empty. *)
Theorem X21_buffers_stay_bounded (st : State) (events : list Event)
    (p : jsstring) :
  buffers_ok st →
  buffers_ok (run st events)
  ∧ buffers_ok (cleanupPaneArtifacts p (run st events)).
Proof.
  intros Hst.
  assert (buffers_ok (run st events)) as H.
  { revert st Hst. unfold run.
    induction events as [|e events IH]; intros st Hst; [assumption|].
    cbn [foldl]. apply IH. by apply step_buffers. }
  split; [exact H|]. by apply cleanup_buffers.
Qed.

Lemma X21_witness :
  buffers_ok
    (run (initialState {[js "p"]})
       [MapPane (js "p"); Output (js "p") (js "abc"); TimerFires 0]).
Proof.
  assert (buffers_ok (initialState {[js "p"]})) as H.
  { split; intros q x E; cbn in E; by rewrite lookup_empty in E. }
  destruct (X21_buffers_stay_bounded (initialState {[js "p"]})
              [MapPane (js "p"); Output (js "p") (js "abc"); TimerFires 0]
              (js "p") H) as [H1 _].
  exact H1.
Defined.

Section HistoryFacts.

Implicit Types (p q : jsstring) (st : State) (e : Event).

Lemma evictOldest_suffix (max : N) (cs : list jsstring) : ∀ total,
  fst (evictOldest max cs total) `suffix_of` cs
  ∧ last (fst (evictOldest max cs total)) = last cs.
Proof.
  induction cs as [|removed rest IH]; intros total; [by split|].
  destruct rest as [|c rest]; [by split|].
  cbn [evictOldest].
  destruct (max <? total); [|by split].
  destruct (decide (length removed = 0%nat)).
  - cbn [fst]. split; [by apply suffix_cons_r|reflexivity].
  - destruct (IH (total - strlen removed)) as [H1 H2].
    split; [by apply suffix_cons_r|exact H2].
Qed.

(** Every step of the controller writes to panes and does nothing else
    to the writers, the histories and the calls of writers: a property of
    these three that every write keeps is kept by every step. *)
Lemma step_writes (I : State → Prop) :
  (∀ q d st, I st → I (writeToPane q d st)) →
  (∀ st st', paneWriters st' = paneWriters st →
             paneHistory st' = paneHistory st →
             written st' = written st → I st → I st') →
  ∀ st e, I st → I (step st e).
Proof.
  intros Hwrite Hframe.
  assert (∀ q ds st, I st →
            I (foldl (λ st chunk, writeToPane q chunk st) st ds)) as Hfold.
  { intros q ds. induction ds as [|d ds IH]; intros st Hst; [assumption|].
    cbn [foldl]. by apply IH, Hwrite. }
  assert (∀ q cap st, I st → I (flushTmuxBootstrapPane q cap st)) as Hflush.
  { intros q cap st Hst. unfold flushTmuxBootstrapPane.
    destruct (tmuxPaneBootstrap st !! q) as [b|].
    - set (st1 := match flushTimer b with
                  | Some t => clearTimeout t _
                  | None => _
                  end).
      assert (I st1) as H1.
      { apply (Hframe st); [..|assumption];
          unfold st1; by destruct (flushTimer b). }
      destruct (match cap with
                | Some h => bool_decide (length h ≠ 0%nat)
                | None => false
                end); [by apply Hwrite|by apply Hfold].
    - destruct (match cap with
                | Some h => bool_decide (length h ≠ 0%nat)
                | None => false
                end); [by apply Hwrite|assumption]. }
  intros st e Hst.
  destruct e as [q|q data|t|q attempt prefetched socketPath captured];
    cbn [step].
  - by apply (Hframe st).
  - unfold handleTmuxOutput. cbv zeta.
    destruct (decide _); [assumption|].
    destruct (tmuxPaneBootstrap st !! q) as [b|]; [|by apply Hwrite].
    destruct (evictOldest _ _ _) as [cs tot].
    destruct (_ <=? _); [apply Hflush|]; by apply (Hframe st).
  - unfold fireTimer. destruct (timers st !! t) as [[q|c next]|];
      [| |assumption].
    + apply Hflush. by apply (Hframe st).
    + apply (Hframe st); [..|assumption]; unfold captureTimeout;
        (destruct (tmuxCaptureActive _ !! c) as [active|]; [|reflexivity]);
        (destruct (decide _); [reflexivity|]); cbv zeta;
        unfold runNextTmuxCapture;
        (destruct (decide _); [reflexivity|]); cbn;
        destruct (tmuxCaptureQueues st !! c) as [[|next' queue]|];
        reflexivity.
  - destruct (hydrate_cases q attempt prefetched socketPath captured st)
      as [->|[->|(h & _ & ->)]]; [assumption|by apply Hflush..].
Qed.

Lemma writeToPane_recent p q d st :
  p ∈ paneWriters st →
  historyChunks p st `suffix_of` deliveredTo p st →
  last (historyChunks p st) = last (deliveredTo p st) →
  p ∈ paneWriters (writeToPane q d st)
  ∧ historyChunks p (writeToPane q d st)
    `suffix_of` deliveredTo p (writeToPane q d st)
  ∧ last (historyChunks p (writeToPane q d st))
    = last (deliveredTo p (writeToPane q d st)).
Proof.
  intros Hp Hs Hl.
  destruct (writeToPane_effect q d st) as (Hw & _ & Hc).
  split; [by rewrite Hw|].
  unfold historyChunks in *. rewrite writeToPane_history.
  destruct (decide (q = p)) as [->|Hne].
  - rewrite lookup_insert_eq. cbv zeta. cbn [PaneHistory.chunks].
    rewrite decide_True in Hc by assumption.
    rewrite (deliveredTo_calls p p [d] st _ Hc).
    rewrite decide_True by reflexivity.
    destruct (evictOldest_suffix MAX_PANE_HISTORY_BYTES
                (PaneHistory.chunks
                   (default {| PaneHistory.chunks := [];
                               PaneHistory.totalBytes := 0 |}
                      (paneHistory st !! p)) ++ [d])
                (PaneHistory.totalBytes
                   (default {| PaneHistory.chunks := [];
                               PaneHistory.totalBytes := 0 |}
                      (paneHistory st !! p)) + strlen d)) as [H1 H2].
    split.
    + etrans; [exact H1|].
      destruct (paneHistory st !! p) as [h|]; cbn [default from_option id
        PaneHistory.chunks].
      * by apply suffix_app.
      * apply suffix_app_r. reflexivity.
    + rewrite H2, !last_snoc. reflexivity.
  - rewrite lookup_insert_ne by auto.
    assert (deliveredTo p (writeToPane q d st) = deliveredTo p st) as ->.
    { destruct (decide (q ∈ paneWriters st)).
      - by apply (deliveredTo_other p q [d]).
      - unfold deliveredTo. by rewrite Hc, app_nil_r. }
    by split.
Qed.

Lemma step_recent p st e :
  p ∈ paneWriters st
  ∧ historyChunks p st `suffix_of` deliveredTo p st
  ∧ last (historyChunks p st) = last (deliveredTo p st) →
  p ∈ paneWriters (step st e)
  ∧ historyChunks p (step st e) `suffix_of` deliveredTo p (step st e)
  ∧ last (historyChunks p (step st e)) = last (deliveredTo p (step st e)).
Proof.
  revert st e.
  apply (step_writes
           (λ st, p ∈ paneWriters st
                  ∧ historyChunks p st `suffix_of` deliveredTo p st
                  ∧ last (historyChunks p st) = last (deliveredTo p st))).
  - intros q d st (H1 & H2 & H3). by apply writeToPane_recent.
  - intros st st' Ew Eh Ec (H1 & H2 & H3). unfold historyChunks, deliveredTo.
    rewrite Ew, Eh, Ec. by split.
Qed.

End HistoryFacts.

(** X22: the history kept for a pane with a writer is always the most
    recent part of what its writer received: through every run of events
    the kept chunks are, in order, a final segment of the data handed to
    the writer, and the newest chunk is the last one handed over. *)
Theorem X22_history_is_recent_output (p : jsstring) (st : State)
    (events : list Event) :
  p ∈ paneWriters st →
  historyChunks p st `suffix_of` deliveredTo p st →
  last (historyChunks p st) = last (deliveredTo p st) →
  historyChunks p (run st events) `suffix_of` deliveredTo p (run st events)
  ∧ last (historyChunks p (run st events))
    = last (deliveredTo p (run st events)).
Proof.
  intros Hp Hs Hl.
  assert (p ∈ paneWriters (run st events)
          ∧ historyChunks p (run st events)
            `suffix_of` deliveredTo p (run st events)
          ∧ last (historyChunks p (run st events))
            = last (deliveredTo p (run st events))) as (_ & H1 & H2);
    [|by split].
  assert (p ∈ paneWriters st
          ∧ historyChunks p st `suffix_of` deliveredTo p st
          ∧ last (historyChunks p st) = last (deliveredTo p st)) as Hst
      by (by split).
  clear Hp Hs Hl. revert st Hst. unfold run.
  induction events as [|e events IH]; intros st Hst; [assumption|].
  cbn [foldl]. by apply IH, step_recent.
Qed.

Lemma X22_witness :
  let st := run (initialState {[js "p"]})
              [Output (js "p") (js "abc"); Output (js "p") (js "de")] in
  historyChunks (js "p") st `suffix_of` deliveredTo (js "p") st
  ∧ last (historyChunks (js "p") st) = Some (js "de").
Proof.
  intros st.
  destruct (X22_history_is_recent_output (js "p") (initialState {[js "p"]})
              [Output (js "p") (js "abc"); Output (js "p") (js "de")])
    as [H1 H2].
  - apply (bool_decide_unpack _). vm_compute. exact I.
  - reflexivity.
  - reflexivity.
  - split; [exact H1|]. etrans; [exact H2|]. reflexivity.
Defined.

Section CaptureQueueFacts.

Implicit Types (c : jsstring) (st : State).

(** The requests of [c], resolved and pending, in order. *)
Lemma runNextTmuxCapture_ids c st :
  let st' := runNextTmuxCapture c st in
  resolved st' = resolved st
  ∧ pendingIds c st' = pendingIds c st
  ∧ (∀ c', c' ≠ c → tmuxCaptureActive st' !! c' = tmuxCaptureActive st !! c').
Proof.
  unfold runNextTmuxCapture, pendingIds. cbv zeta.
  destruct (decide (is_Some (tmuxCaptureActive st !! c))) as [Ha|Ha];
    [by repeat split|].
  destruct (tmuxCaptureQueues st !! c) as [[|next queue]|] eqn:Eq.
  1, 3: rewrite ?Eq; by repeat split.
  assert (tmuxCaptureActive st !! c = None) as Hidle.
  { destruct (tmuxCaptureActive st !! c); [|reflexivity].
    exfalso. apply Ha. eauto. }
  cbn. rewrite !lookup_insert_eq, Hidle. repeat split.
  intros c' Hc'. by rewrite lookup_insert_ne.
Qed.

(** Resolving the active request and going on with the next one. *)
Lemma resolve_active_ids c st st1 a text :
  tmuxCaptureActive st !! c = Some a →
  tmuxCaptureActive st1 = tmuxCaptureActive st →
  tmuxCaptureQueues st1 = tmuxCaptureQueues st →
  resolved st1 = resolved st →
  let st' :=
    runNextTmuxCapture c
      (callResolve a text
         (set_tmuxCaptureActive st1 (delete c (tmuxCaptureActive st1)))) in
  (fst <$> resolved st') ++ pendingIds c st'
  = (fst <$> resolved st) ++ pendingIds c st
  ∧ (∀ c', c' ≠ c → tmuxCaptureActive st' !! c' = tmuxCaptureActive st !! c').
Proof.
  intros Ha E1 E2 E3 st'.
  destruct (runNextTmuxCapture_ids c
              (callResolve a text
                 (set_tmuxCaptureActive st1 (delete c (tmuxCaptureActive st1)))))
    as (Hr & Hp & Ho).
  fold st' in Hr, Hp, Ho. rewrite Hr, Hp. split.
  - unfold pendingIds. cbn. rewrite lookup_delete_eq, E2, E3, Ha.
    rewrite fmap_app. cbn. by rewrite <- app_assoc.
  - intros c' Hc'. rewrite (Ho c' Hc'). cbn.
    rewrite lookup_delete_ne by auto. by rewrite E1.
Qed.

Lemma writeToPane_capture q d st :
  tmuxCaptureActive (writeToPane q d st) = tmuxCaptureActive st
  ∧ tmuxCaptureQueues (writeToPane q d st) = tmuxCaptureQueues st
  ∧ resolved (writeToPane q d st) = resolved st
  ∧ timers (writeToPane q d st) = timers st
  ∧ nextTimer (writeToPane q d st) = nextTimer st.
Proof.
  unfold writeToPane. cbv zeta. destruct (evictOldest _ _ _) as [cs tot].
  cbn. destruct (decide _); repeat split.
Qed.

Lemma foldl_writeToPane_capture q ds : ∀ st,
  let st' := foldl (λ st chunk, writeToPane q chunk st) st ds in
  tmuxCaptureActive st' = tmuxCaptureActive st
  ∧ tmuxCaptureQueues st' = tmuxCaptureQueues st
  ∧ resolved st' = resolved st
  ∧ timers st' = timers st
  ∧ nextTimer st' = nextTimer st.
Proof.
  induction ds as [|d ds IH]; intros st; [by repeat split|].
  cbn [foldl]. destruct (IH (writeToPane q d st)) as (-> & -> & -> & -> & ->).
  apply writeToPane_capture.
Qed.

(** A flush leaves the capture queue alone; of the timers it clears at
    most the flush timer of the pane. *)
Lemma flush_capture q cap st :
  let st' := flushTmuxBootstrapPane q cap st in
  tmuxCaptureActive st' = tmuxCaptureActive st
  ∧ tmuxCaptureQueues st' = tmuxCaptureQueues st
  ∧ resolved st' = resolved st
  ∧ nextTimer st' = nextTimer st
  ∧ timers st'
    = match tmuxPaneBootstrap st !! q with
      | Some b =>
          match flushTimer b with
          | Some t => delete t (timers st)
          | None => timers st
          end
      | None => timers st
      end.
Proof.
  unfold flushTmuxBootstrapPane.
  destruct (tmuxPaneBootstrap st !! q) as [b|].
  - set (st1 := match flushTimer b with
                | Some t => clearTimeout t _
                | None => _
                end).
    assert (tmuxCaptureActive st1 = tmuxCaptureActive st
            ∧ tmuxCaptureQueues st1 = tmuxCaptureQueues st
            ∧ resolved st1 = resolved st
            ∧ nextTimer st1 = nextTimer st
            ∧ timers st1 = match flushTimer b with
                           | Some t => delete t (timers st)
                           | None => timers st
                           end) as (E1 & E2 & E3 & E4 & E5).
    { unfold st1. destruct (flushTimer b); by repeat split. }
    destruct (match cap with
              | Some h => bool_decide (length h ≠ 0%nat)
              | None => false
              end).
    + destruct (writeToPane_capture q (default [] cap) st1)
        as (-> & -> & -> & -> & ->). by rewrite E1, E2, E3, E4, E5.
    + destruct (foldl_writeToPane_capture q (chunks b) st1)
        as (-> & -> & -> & -> & ->). by rewrite E1, E2, E3, E4, E5.
  - destruct (match cap with
              | Some h => bool_decide (length h ≠ 0%nat)
              | None => false
              end); [|by repeat split].
    destruct (writeToPane_capture q (default [] cap) st)
      as (-> & -> & -> & -> & ->). by repeat split.
Qed.

Lemma captureTimeout_ids c c' next st :
  (c' ≠ c → tmuxCaptureActive st !! c' = None) →
  let st' := captureTimeout c' next st in
  (fst <$> resolved st') ++ pendingIds c st'
  = (fst <$> resolved st) ++ pendingIds c st
  ∧ (∀ c'', c'' ≠ c → tmuxCaptureActive st' !! c'' = tmuxCaptureActive st !! c'').
Proof.
  intros Hother. unfold captureTimeout.
  destruct (tmuxCaptureActive st !! c') as [active|] eqn:Ea; [|by split].
  destruct (decide (resolve active ≠ next)); [by split|].
  destruct (decide (c' = c)) as [->|Hne].
  - by apply resolve_active_ids.
  - specialize (Hother Hne). congruence.
Qed.

End CaptureQueueFacts.

(** X23: the capture requests of a controller are answered in the order
    in which they were made: after every run of requests, control lines
    and timers, the requests resolved so far followed by the active one
    and the queue are the requests made, in order; none is skipped and
    none is answered twice.  The controller is the only one with an
    active request, and the rest of the line handler leaves the capture
    queue alone. *)
Theorem X23_capture_requests_in_order
    (dispatchLine : jsstring → jsstring → State → State)
    (c : jsstring) (st : State) (events : list CaptureEvent) :
  (∀ c' line st', tmuxCaptureActive (dispatchLine c' line st')
                  = tmuxCaptureActive st'
                  ∧ tmuxCaptureQueues (dispatchLine c' line st')
                    = tmuxCaptureQueues st'
                  ∧ resolved (dispatchLine c' line st') = resolved st') →
  (∀ c', c' ≠ c → tmuxCaptureActive st !! c' = None) →
  (fst <$> resolved (captureRun dispatchLine c st events))
  ++ pendingIds c (captureRun dispatchLine c st events)
  = (fst <$> resolved st) ++ pendingIds c st ++ requested events.
Proof.
  intros Hd. revert st. unfold captureRun.
  induction events as [|e events IH]; intros st Hother.
  { cbn. by rewrite app_nil_r. }
  cbn [foldl].
  assert ((fst <$> resolved (captureStep dispatchLine c st e))
          ++ pendingIds c (captureStep dispatchLine c st e)
          = (fst <$> resolved st) ++ pendingIds c st
            ++ match e with Request _ r => [r] | _ => [] end
          ∧ (∀ c', c' ≠ c →
               tmuxCaptureActive (captureStep dispatchLine c st e) !! c'
               = tmuxCaptureActive st !! c')) as [Hids Hact].
  { destruct e as [pane r|line|t]; cbn [captureStep].
    - unfold captureTmuxPaneInBand. cbv zeta.
      set (st1 := set_tmuxCaptureQueues st _).
      destruct (runNextTmuxCapture_ids c st1) as (-> & -> & Ho).
      split.
      + unfold pendingIds, st1. cbn. rewrite lookup_insert_eq.
        cbn [default from_option id]. rewrite fmap_app. cbn.
        by rewrite <- !app_assoc.
      + intros c' Hc'. by rewrite (Ho c' Hc').
    - rewrite !app_nil_r. unfold handleTmuxControlLine.
      destruct (decide (length line = 0%nat)); [by split|].
      destruct (Hd c line st) as (D1 & D2 & D3).
      assert ((fst <$> resolved (dispatchLine c line st))
              ++ pendingIds c (dispatchLine c line st)
              = (fst <$> resolved st) ++ pendingIds c st
              ∧ (∀ c', c' ≠ c →
                   tmuxCaptureActive (dispatchLine c line st) !! c'
                   = tmuxCaptureActive st !! c')) as Hdisp.
      { unfold pendingIds. rewrite D1, D2, D3. by split. }
      destruct (tmuxCaptureActive st !! c) as [a|] eqn:Ea; [|exact Hdisp].
      destruct (startsWith (js "%begin") line).
      { unfold pendingIds. cbn. rewrite lookup_insert_eq, Ea. split.
        - reflexivity.
        - intros c' Hc'. by rewrite lookup_insert_ne. }
      destruct (startsWith (js "%end") line || startsWith (js "%error") line).
      { apply resolve_active_ids; [assumption|..];
          by destruct (timeoutId a). }
      destruct (collecting a && negb (startsWith (js "%") line));
        [|exact Hdisp].
      unfold pendingIds. cbn. rewrite lookup_insert_eq, Ea. split.
      + reflexivity.
      + intros c' Hc'. by rewrite lookup_insert_ne.
    - rewrite !app_nil_r. unfold fireTimer.
      destruct (timers st !! t) as [[q|c' next]|]; [| |by split].
      + destruct (flush_capture q None (set_timers st (delete t (timers st))))
          as (E1 & E2 & E3 & _).
        unfold pendingIds. rewrite E1, E2, E3. by split.
      + apply (captureTimeout_ids c c' next
                 (set_timers st (delete t (timers st)))).
        intros Hne. by apply Hother. }
  rewrite IH.
  - rewrite app_assoc, Hids. unfold requested. cbn [flat_map].
    by rewrite <- !app_assoc.
  - intros c' Hc'. rewrite (Hact c' Hc'). by apply Hother.
Qed.

Lemma X23_witness :
  let c := js "pty-1" in
  let st :=
    captureRun (λ _ _ st, st) c (initialState ∅)
      [Request (js "%4") 1; Request (js "%5") 2; ControlLine (js "%begin 1");
       ControlLine (js "dataA"); ControlLine (js "%end 1"); TimerFired 1;
       Request (js "%6") 3] in
  (fst <$> resolved st) ++ pendingIds c st = [1; 2; 3]%nat.
Proof.
  intros c st.
  apply (X23_capture_requests_in_order (λ _ _ st, st) c (initialState ∅)).
  - intros c' line st'. repeat split.
  - intros c' _. apply lookup_empty.
Defined.

Section TimerFacts.

Implicit Types (c p q : jsstring) (st : State).

Lemma timers_ok_frame st st' :
  tmuxPaneBootstrap st' = tmuxPaneBootstrap st →
  tmuxCaptureActive st' = tmuxCaptureActive st →
  tmuxCaptureQueues st' = tmuxCaptureQueues st →
  timers st' = timers st → nextTimer st' = nextTimer st →
  timers_ok st → timers_ok st'.
Proof.
  intros E1 E2 E3 E4 E5 (T1 & T2 & T3 & T4).
  unfold timers_ok, fresh_timers, flush_armed, timeout_armed, no_idle_wait.
  rewrite E1, E2, E3, E4, E5. by repeat split.
Qed.

(** [runNextTmuxCapture] makes up for a request that waits while the
    controller is idle. *)
Lemma runNextTmuxCapture_ok c st :
  fresh_timers st → (∀ p, flush_armed st p) → (∀ c', timeout_armed st c') →
  (∀ c', c' ≠ c → no_idle_wait st c') →
  timers_ok (runNextTmuxCapture c st).
Proof.
  intros T1 T2 T3 T4. unfold runNextTmuxCapture.
  destruct (decide (is_Some (tmuxCaptureActive st !! c))) as [Ha|Ha].
  { repeat split; try assumption. intros c'.
    destruct (decide (c' = c)) as [->|Hne]; [|by apply T4].
    intros E. rewrite E in Ha. by destruct Ha. }
  destruct (tmuxCaptureQueues st !! c) as [[|next queue]|] eqn:Eq.
  1, 3: repeat split; try assumption; intros c';
    (destruct (decide (c' = c)) as [->|Hne]; [|by apply T4]);
    intros _; by rewrite Eq.
  cbn. split; [|split; [|split]].
  - intros t cb. cbn. intros E.
    apply lookup_insert_Some in E as [[<- _]|[_ E]]; [lia|].
    specialize (T1 t cb E). lia.
  - intros p b. cbn. intros E. destruct (T2 p b E) as (t & Ht & Hl).
    exists t. split; [assumption|].
    rewrite lookup_insert_ne; [assumption|]. specialize (T1 t _ Hl). lia.
  - intros c' a. cbn. intros E.
    apply lookup_insert_Some in E as [[<- <-]|[Hne E]].
    + exists (nextTimer st). split; [reflexivity|]. apply lookup_insert_eq.
    + destruct (T3 c' a E) as (t & Ht & Hl). exists t. split; [assumption|].
      rewrite lookup_insert_ne; [assumption|]. specialize (T1 t _ Hl). lia.
  - intros c'. unfold no_idle_wait. cbn.
    destruct (decide (c' = c)) as [->|Hne].
    + by rewrite lookup_insert_eq.
    + rewrite !lookup_insert_ne by auto. by apply T4.
Qed.

(** The active request of [c] is resolved and the next one proceeds; the
    timers taken away before were capture timers of [c]. *)
Lemma resolve_active_ok c st st1 a text :
  timers_ok st →
  tmuxPaneBootstrap st1 = tmuxPaneBootstrap st →
  tmuxCaptureActive st1 = tmuxCaptureActive st →
  tmuxCaptureQueues st1 = tmuxCaptureQueues st →
  nextTimer st1 = nextTimer st →
  timers st1 ⊆ timers st →
  (∀ t cb, timers st !! t = Some cb → timers st1 !! t = None →
           ∃ x, cb = CaptureTimeoutTimer c x) →
  timers_ok
    (runNextTmuxCapture c
       (callResolve a text
          (set_tmuxCaptureActive st1 (delete c (tmuxCaptureActive st))))).
Proof.
  intros (T1 & T2 & T3 & T4) E1 E2 E3 E4 Hsub Hgone.
  assert (∀ t cb, timers st !! t = Some cb →
            (∀ x, cb ≠ CaptureTimeoutTimer c x) →
            timers st1 !! t = Some cb) as Hkeep.
  { intros t cb Hl Hcb.
    destruct (timers st1 !! t) as [cb'|] eqn:E.
    - by rewrite (lookup_weaken _ _ _ _ E Hsub) in Hl.
    - destruct (Hgone t cb Hl E) as (x & ->). by destruct (Hcb x). }
  apply runNextTmuxCapture_ok.
  - intros t cb. cbn. rewrite E4. intros E.
    apply (T1 t cb). by apply (lookup_weaken _ _ _ _ E Hsub).
  - intros p b. cbn. rewrite E1. intros E.
    destruct (T2 p b E) as (t & Ht & Hl). exists t. split; [assumption|].
    apply Hkeep; [assumption|discriminate].
  - intros c' a'. cbn. intros E.
    apply lookup_delete_Some in E as [Hne E].
    destruct (T3 c' a' E) as (t & Ht & Hl). exists t. split; [assumption|].
    apply Hkeep; [assumption|]. intros x [= <- _]. contradiction.
  - intros c' Hne. unfold no_idle_wait. cbn. rewrite E3.
    rewrite lookup_delete_ne by auto. apply T4.
Qed.

(** A flush of [q]; the flush timer of [q] may have fired already. *)
Lemma flush_ok q cap st :
  fresh_timers st → (∀ p, p ≠ q → flush_armed st p) →
  (∀ b t cb, tmuxPaneBootstrap st !! q = Some b → flushTimer b = Some t →
             timers st !! t = Some cb → cb = FlushBootstrapTimer q) →
  (∀ c, timeout_armed st c) → (∀ c, no_idle_wait st c) →
  timers_ok (flushTmuxBootstrapPane q cap st).
Proof.
  intros T1 T2 T2q T3 T4.
  destruct (flush_capture q cap st) as (E1 & E2 & E3 & E4 & E5).
  destruct (flush_effect q cap st) as (_ & Eb & _).
  cbv zeta in *.
  assert (timers (flushTmuxBootstrapPane q cap st) ⊆ timers st) as Hsub.
  { rewrite E5. destruct (tmuxPaneBootstrap st !! q) as [b|]; [|reflexivity].
    destruct (flushTimer b); [apply delete_subseteq|reflexivity]. }
  assert (∀ t cb, timers st !! t = Some cb → cb ≠ FlushBootstrapTimer q →
            timers (flushTmuxBootstrapPane q cap st) !! t = Some cb) as Hkeep.
  { intros t cb Hl Hcb. rewrite E5.
    destruct (tmuxPaneBootstrap st !! q) as [b|] eqn:Eq; [|assumption].
    destruct (flushTimer b) as [tq|] eqn:Et; [|assumption].
    rewrite lookup_delete_ne; [assumption|]. intros <-.
    apply Hcb. by apply (T2q b tq cb). }
  split; [|split; [|split]].
  - intros t cb E. rewrite E4. apply (T1 t cb).
    by apply (lookup_weaken _ _ _ _ E Hsub).
  - intros p b. rewrite Eb. intros E.
    apply lookup_delete_Some in E as [Hne E].
    destruct (T2 p (ltac:(auto)) b E) as (t & Ht & Hl).
    exists t. split; [assumption|]. apply Hkeep; [assumption|].
    intros [= ->]. contradiction.
  - intros c a. rewrite E1. intros E.
    destruct (T3 c a E) as (t & Ht & Hl). exists t. split; [assumption|].
    apply Hkeep; [assumption|discriminate].
  - intros c. unfold no_idle_wait. rewrite E1, E2. apply T4.
Qed.

Lemma flush_ok_armed q cap st :
  timers_ok st → timers_ok (flushTmuxBootstrapPane q cap st).
Proof.
  intros (T1 & T2 & T3 & T4). apply flush_ok; auto.
  intros b t cb Eb Et El. destruct (T2 q b Eb) as (t' & Ht' & Hl').
  congruence.
Qed.

Lemma writeToPane_ok q d st : timers_ok st → timers_ok (writeToPane q d st).
Proof.
  destruct (writeToPane_capture q d st) as (E1 & E2 & _ & E4 & E5).
  destruct (writeToPane_effect q d st) as (_ & Eb & _).
  by apply timers_ok_frame.
Qed.

Lemma handleTmuxOutput_ok q data st :
  timers_ok st → timers_ok (handleTmuxOutput q data st).
Proof.
  intros Hst. unfold handleTmuxOutput. cbv zeta.
  destruct (decide _); [assumption|].
  destruct (tmuxPaneBootstrap st !! q) as [b|] eqn:Eb;
    [|by apply writeToPane_ok].
  destruct (evictOldest _ _ _) as [cs tot].
  set (st1 := set_tmuxPaneBootstrap st _).
  assert (timers_ok st1) as H1.
  { destruct Hst as (T1 & T2 & T3 & T4).
    split; [exact T1|]. split; [|split; [exact T3|exact T4]].
    intros p b'. unfold st1. cbn.
    destruct (decide (p = q)) as [->|Hne].
    - rewrite lookup_insert_eq. intros [= <-]. cbn. by apply T2.
    - rewrite lookup_insert_ne by auto. apply T2. }
  destruct (_ <=? _); [by apply flush_ok_armed|assumption].
Qed.

Lemma mapPaneAllocate_ok q st :
  timers_ok st → timers_ok (mapPaneAllocate q st).
Proof.
  intros (T1 & T2 & T3 & T4). unfold mapPaneAllocate. cbn.
  split; [|split; [|split]].
  - intros t cb. cbn. intros E.
    apply lookup_insert_Some in E as [[<- _]|[_ E]]; [lia|].
    specialize (T1 t cb E). lia.
  - intros p b. cbn. intros E.
    apply lookup_insert_Some in E as [[<- <-]|[Hne E]].
    + exists (nextTimer st). split; [reflexivity|]. apply lookup_insert_eq.
    + destruct (T2 p b E) as (t & Ht & Hl). exists t. split; [assumption|].
      rewrite lookup_insert_ne; [assumption|]. specialize (T1 t _ Hl). lia.
  - intros c a. cbn. intros E.
    destruct (T3 c a E) as (t & Ht & Hl). exists t. split; [assumption|].
    rewrite lookup_insert_ne; [assumption|]. specialize (T1 t _ Hl). lia.
  - exact T4.
Qed.

Lemma fireTimer_ok t st : timers_ok st → timers_ok (fireTimer t st).
Proof.
  intros Hst. pose proof Hst as (T1 & T2 & T3 & T4). unfold fireTimer.
  destruct (timers st !! t) as [[q|c next]|] eqn:Et; [| |assumption].
  - apply flush_ok.
    + intros t' cb. cbn. intros E. apply lookup_delete_Some in E as [_ E].
      by apply (T1 t' cb).
    + intros p Hne b. cbn. intros E.
      destruct (T2 p b E) as (t' & Ht' & Hl'). exists t'.
      split; [assumption|]. rewrite lookup_delete_ne; [assumption|].
      intros <-. rewrite Et in Hl'. injection Hl' as ->. contradiction.
    + intros b t' cb. cbn. intros Eb Ef El.
      apply lookup_delete_Some in El as [_ El].
      destruct (T2 q b Eb) as (t'' & Ht'' & Hl''). congruence.
    + intros c a. cbn. intros E.
      destruct (T3 c a E) as (t' & Ht' & Hl'). exists t'.
      split; [assumption|]. rewrite lookup_delete_ne; [assumption|].
      intros <-. rewrite Et in Hl'. discriminate.
    + exact T4.
  - unfold captureTimeout. cbn [tmuxCaptureActive set_timers].
    assert (∀ x, x ≠ next ∨ tmuxCaptureActive st !! c = None →
              (∀ a, tmuxCaptureActive st !! c = Some a → resolve a = x) →
              timers_ok (set_timers st (delete t (timers st)))) as Hstale.
    { intros x Hx Hres. split; [|split; [|split; [|exact T4]]].
      - intros t' cb. cbn. intros E. apply lookup_delete_Some in E as [_ E].
        by apply (T1 t' cb).
      - intros p b. cbn. intros E.
        destruct (T2 p b E) as (t' & Ht' & Hl'). exists t'.
        split; [assumption|]. rewrite lookup_delete_ne; [assumption|].
        intros <-. rewrite Et in Hl'. discriminate.
      - intros c' a. cbn. intros E.
        destruct (T3 c' a E) as (t' & Ht' & Hl'). exists t'.
        split; [assumption|]. rewrite lookup_delete_ne; [assumption|].
        intros <-. rewrite Et in Hl'. injection Hl' as -> Hr.
        destruct Hx as [Hx|Hx]; [|congruence].
        apply Hx. rewrite <- (Hres a E). by symmetry. }
    destruct (tmuxCaptureActive st !! c) as [active|] eqn:Ea.
    2:{ apply (Hstale next); [by right|]. intros a [=]. }
    destruct (decide (resolve active ≠ next)) as [Hne|Heq].
    { apply (Hstale (resolve active)); [by left|]. by intros a [= <-]. }
    apply (resolve_active_ok c st); try reflexivity; try assumption.
    + apply delete_subseteq.
    + intros t' cb Hl Hn. cbn in Hn.
      destruct (decide (t' = t)) as [->|Hne].
      * rewrite Et in Hl. injection Hl as <-. eauto.
      * rewrite lookup_delete_ne in Hn by auto. congruence.
Qed.

Lemma hydrate_ok q attempt prefetched socketPath captured st :
  timers_ok st →
  timers_ok (hydrateTmuxPaneHistory q attempt prefetched socketPath captured st).
Proof.
  intros Hst.
  destruct (hydrate_cases q attempt prefetched socketPath captured st)
    as [->|[->|(h & _ & ->)]]; [assumption|by apply flush_ok_armed..].
Qed.

Lemma step_ok st (e : Event) : timers_ok st → timers_ok (step st e).
Proof.
  intros Hst. destruct e; cbn [step].
  - by apply mapPaneAllocate_ok.
  - by apply handleTmuxOutput_ok.
  - by apply fireTimer_ok.
  - by apply hydrate_ok.
Qed.

Lemma captureTmuxPaneInBand_ok c pane r st :
  timers_ok st → timers_ok (captureTmuxPaneInBand c pane r st).
Proof.
  intros (T1 & T2 & T3 & T4). unfold captureTmuxPaneInBand. cbv zeta.
  apply runNextTmuxCapture_ok; try assumption.
  intros c' Hne. unfold no_idle_wait. cbn.
  rewrite lookup_insert_ne by auto. apply T4.
Qed.

Lemma handleTmuxControlLine_ok
    (dispatchLine : jsstring → jsstring → State → State) c line st :
  (∀ c' line' st', timers_ok st' → timers_ok (dispatchLine c' line' st')) →
  timers_ok st → timers_ok (handleTmuxControlLine dispatchLine c line st).
Proof.
  intros Hd Hst. pose proof Hst as (T1 & T2 & T3 & T4).
  unfold handleTmuxControlLine.
  destruct (decide _); [assumption|].
  destruct (tmuxCaptureActive st !! c) as [a|] eqn:Ea; [|by apply Hd].
  assert (∀ a', timeoutId a' = timeoutId a → resolve a' = resolve a →
            timers_ok (set_tmuxCaptureActive st
                         (<[c := a']> (tmuxCaptureActive st)))) as Hupd.
  { intros a' Et Er. split; [exact T1|]. split; [exact T2|]. split.
    - intros c' a''. cbn. intros E.
      apply lookup_insert_Some in E as [[<- <-]|[Hne E]]; [|by apply T3].
      rewrite Et, Er. by apply T3.
    - intros c'. unfold no_idle_wait. cbn.
      destruct (decide (c' = c)) as [->|Hne].
      + by rewrite lookup_insert_eq.
      + rewrite lookup_insert_ne by auto. apply T4. }
  destruct (startsWith (js "%begin") line); [by apply Hupd|].
  destruct (startsWith (js "%end") line || startsWith (js "%error") line).
  { destruct (T3 c a Ea) as (t & Ht & Hl). rewrite Ht.
    apply (resolve_active_ok c st); try reflexivity; try assumption.
    - apply delete_subseteq.
    - intros t' cb Hl' Hn. cbn in Hn.
      destruct (decide (t' = t)) as [->|Hne].
      + rewrite Hl in Hl'. injection Hl' as <-. eauto.
      + rewrite lookup_delete_ne in Hn by auto. congruence. }
  destruct (collecting a && negb (startsWith (js "%") line));
    [by apply Hupd|by apply Hd].
Qed.

Lemma cleanup_ok q st : timers_ok st → timers_ok (cleanupPaneArtifacts q st).
Proof.
  intros (T1 & T2 & T3 & T4). unfold cleanupPaneArtifacts.
  set (st1 := match tmuxPaneBootstrap st !! q with
              | Some bootstrap =>
                  match flushTimer bootstrap with
                  | Some t => clearTimeout t st
                  | None => st
                  end
              | None => st
              end).
  assert (tmuxPaneBootstrap st1 = tmuxPaneBootstrap st
          ∧ tmuxCaptureActive st1 = tmuxCaptureActive st
          ∧ tmuxCaptureQueues st1 = tmuxCaptureQueues st
          ∧ nextTimer st1 = nextTimer st
          ∧ timers st1 ⊆ timers st
          ∧ (∀ t cb, timers st !! t = Some cb → cb ≠ FlushBootstrapTimer q →
                     timers st1 !! t = Some cb))
    as (E1 & E2 & E3 & E4 & Hsub & Hkeep).
  { unfold st1. destruct (tmuxPaneBootstrap st !! q) as [b|] eqn:Eb;
      [|by repeat split].
    destruct (T2 q b Eb) as (t & -> & Hl). cbn.
    repeat split; [apply delete_subseteq|].
    intros t' cb Hl' Hcb. rewrite lookup_delete_ne; [assumption|].
    intros <-. congruence. }
  cbn. split; [|split; [|split]].
  - intros t cb. cbn. rewrite E4. intros E.
    apply (T1 t cb). by apply (lookup_weaken _ _ _ _ E Hsub).
  - intros p b. cbn. rewrite E1. intros E.
    apply lookup_delete_Some in E as [Hne E].
    destruct (T2 p b E) as (t & Ht & Hl). exists t. split; [assumption|].
    apply Hkeep; [assumption|]. intros [= ->]. contradiction.
  - intros c a. cbn. rewrite E2. intros E.
    destruct (T3 c a E) as (t & Ht & Hl). exists t. split; [assumption|].
    apply Hkeep; [assumption|discriminate].
  - intros c. unfold no_idle_wait. cbn. rewrite E2, E3. apply T4.
Qed.

End TimerFacts.

(** X24: no capture request is left hanging.  In every state reached by
    requests, control lines and timers, by map-pane, output and hydration
    events, or by the cleanup of a pane, the active request of a
    controller has its 5 s timer pending, a pane in bootstrap has its
    flush timer pending, no request waits in the queue of an idle
    controller, and no pending timer has the id that the next timer will
    get; and the firing of the timer of an active request resolves that
    request with the empty string.  The rest of the line handler is any
    function that keeps the timers sound. *)
Theorem X24_timers_stay_armed
    (dispatchLine : jsstring → jsstring → State → State)
    (c p : jsstring) (st : State) (requests : list CaptureEvent)
    (events : list Event) :
  (∀ c' line st', timers_ok st' → timers_ok (dispatchLine c' line st')) →
  timers_ok st →
  timers_ok (captureRun dispatchLine c st requests)
  ∧ timers_ok (run st events)
  ∧ timers_ok (cleanupPaneArtifacts p st)
  ∧ (∀ a, tmuxCaptureActive st !! c = Some a →
       ∃ t, timers st !! t = Some (CaptureTimeoutTimer c (resolve a))
            ∧ resolved (fireTimer t st) = resolved st ++ [(resolve a, [])]).
Proof.
  intros Hd Hst. split; [|split; [|split]].
  - revert st Hst. unfold captureRun.
    induction requests as [|e requests IH]; intros st Hst; [assumption|].
    cbn [foldl]. apply IH. destruct e as [pane r|line|t]; cbn [captureStep].
    + by apply captureTmuxPaneInBand_ok.
    + by apply handleTmuxControlLine_ok.
    + by apply fireTimer_ok.
  - revert st Hst. unfold run.
    induction events as [|e events IH]; intros st Hst; [assumption|].
    cbn [foldl]. by apply IH, step_ok.
  - by apply cleanup_ok.
  - intros a Ea. destruct Hst as (_ & _ & T3 & _).
    destruct (T3 c a Ea) as (t & _ & Hl). exists t. split; [assumption|].
    unfold fireTimer. rewrite Hl.
    destruct (captureTimeout_resolves c
                (set_timers st (delete t (timers st))) a Ea) as [Hr _].
    exact Hr.
Qed.

Lemma X24_witness :
  let c := js "pty-1" in
  let st :=
    captureRun (λ _ _ st, st) c (initialState ∅)
      [Request (js "%4") 1; Request (js "%5") 2] in
  timers_ok st
  ∧ timers st !! 0%nat = Some (CaptureTimeoutTimer c 1)
  ∧ resolved (fireTimer 0 st) = [(1%nat, [])].
Proof.
  intros c st.
  assert (timers_ok (initialState ∅)) as H0.
  { split; [|split; [|split]].
    - intros t cb E. cbn in E. by rewrite lookup_empty in E.
    - intros q b E. cbn in E. by rewrite lookup_empty in E.
    - intros c' a E. cbn in E. by rewrite lookup_empty in E.
    - intros c' _. cbn. by rewrite lookup_empty. }
  destruct (X24_timers_stay_armed (λ _ _ st, st) c c (initialState ∅)
              [Request (js "%4") 1; Request (js "%5") 2] []
              (λ _ _ _ H, H) H0) as (H1 & _ & _ & _).
  split; [exact H1|]. split; reflexivity.
Defined.

Section HydrationFacts.

Lemma flush_removes q cap st :
  tmuxPaneBootstrap (flushTmuxBootstrapPane q cap st) !! q = None.
Proof.
  destruct (flush_effect q cap st) as (_ & Hb & _). cbv zeta in Hb.
  rewrite Hb. apply lookup_delete_eq.
Qed.

Lemma endsWith_app (p s : jsstring) : endsWith p (s ++ p) = true.
Proof. unfold endsWith. rewrite rev_app_distr. apply startsWith_app. Qed.

(** The history that a run of the hydration makes of a captured text. *)
Lemma captured_history_newlines (text : jsstring) :
  let normalized := normalizeCapturedHistory text in
  let history :=
    if endsWith [CR; LF] normalized then normalized
    else normalized ++ [CR; LF] in
  endsWith [CR; LF] history = true
  ∧ LF_follows_CR history ∧ CR_precedes_LF history.
Proof.
  cbv zeta. destruct (endsWith [CR; LF] (normalizeCapturedHistory text)) eqn:E.
  - split; [exact E|]. unfold normalizeCapturedHistory.
    apply flat_map_crlf_wf. rewrite list_elem_of_filter. tauto.
  - split; [apply endsWith_app|]. unfold normalizeCapturedHistory.
    change [CR; LF]
      with (flat_map (λ c, if decide (c = LF) then [CR; LF] else [c]) [LF]).
    rewrite <- flat_map_app. apply flat_map_crlf_wf.
    rewrite elem_of_app, list_elem_of_filter, list_elem_of_singleton.
    intros [[H _]|H]; [by apply H|discriminate].
Qed.

End HydrationFacts.

(** X25: the hydration of a pane ends: a run either changes nothing (a
    retry is scheduled) or takes the pane out of the bootstrap state;
    from the eleventh attempt on, and from the fourth when the socket
    path is known, it always does the latter, whatever the capture
    returns.  A captured text that is used is flushed as a history that
    ends in CR LF and in which CR and LF occur only as CR LF pairs. *)
Theorem X25_hydration_ends (p : jsstring) (attempt : nat)
    (prefetched socketPath : option jsstring) (captured : CaptureResult)
    (st : State) :
  let st' :=
    hydrateTmuxPaneHistory p attempt prefetched socketPath captured st in
  (st' = st ∨ tmuxPaneBootstrap st' !! p = None)
  ∧ ((10 < attempt)%nat → tmuxPaneBootstrap st' !! p = None)
  ∧ ((4 ≤ attempt)%nat → (∃ x s, socketPath = Some (x :: s)) →
     tmuxPaneBootstrap st' !! p = None)
  ∧ (∀ c text, prefetched = None → captured = Captured (c :: text) →
       (10 < attempt)%nat ∨ (∃ x s, socketPath = Some (x :: s)) →
       ∃ h, st' = flushTmuxBootstrapPane p (Some h) st
            ∧ endsWith [CR; LF] h = true
            ∧ LF_follows_CR h ∧ CR_precedes_LF h).
Proof.
  cbv zeta. split; [|split; [|split]].
  - destruct (hydrate_cases p attempt prefetched socketPath captured st)
      as [->|[->|(h & _ & ->)]]; [by left|right; apply flush_removes..].
  - intros Hlate. unfold hydrateTmuxPaneHistory. cbv zeta.
    rewrite (bool_decide_eq_false_2 (attempt ≤ 10)%nat) by lia.
    rewrite (bool_decide_eq_false_2 (attempt < 4)%nat) by lia.
    rewrite andb_false_r.
    destruct prefetched as [[|x pre]|]; destruct captured as [[|y text]|];
      apply flush_removes.
  - intros Hlate (x & s & ->). unfold hydrateTmuxPaneHistory. cbv zeta.
    rewrite (bool_decide_eq_false_2 (attempt < 4)%nat) by lia.
    cbn [andb].
    destruct prefetched as [[|x' pre]|]; destruct captured as [[|y text]|];
      apply flush_removes.
  - intros c text -> -> Hgo. unfold hydrateTmuxPaneHistory. cbv zeta.
    assert ((match socketPath with
             | Some (_ :: _) => false
             | _ => true
             end && bool_decide (attempt ≤ 10)%nat) = false) as ->.
    { destruct Hgo as [Hlate|(x & s & ->)]; [|reflexivity].
      rewrite (bool_decide_eq_false_2 (attempt ≤ 10)%nat) by lia.
      apply andb_false_r. }
    eexists. split; [reflexivity|].
    apply captured_history_newlines.
Qed.

Lemma X25_witness :
  let st := mapPaneAllocate (js "p") (initialState {[js "p"]}) in
  tmuxPaneBootstrap
    (hydrateTmuxPaneHistory (js "p") 11 None None CaptureFailed st) !! js "p"
  = None
  ∧ tmuxPaneBootstrap
      (hydrateTmuxPaneHistory (js "p") 4 None (Some (js "/tmp/s"))
         (Captured []) st) !! js "p" = None.
Proof.
  intros st. split.
  - destruct (X25_hydration_ends (js "p") 11 None None CaptureFailed st)
      as (_ & H & _).
    apply H. lia.
  - destruct (X25_hydration_ends (js "p") 4 None (Some (js "/tmp/s"))
                (Captured []) st) as (_ & _ & H & _).
    apply H; [lia|]. by exists (ch "/"), (js "tmp/s").
Defined.

Section LayoutStringFacts.

Import Tmux.

(** *** Decimal numerals *)

Lemma js_String (a : ascii) (s : string) :
  js (String a s) = N_of_ascii a :: js s.
Proof. reflexivity. Qed.

Lemma uint_digits (d : Decimal.uint) :
  Forall (λ c, is_digit c = true) (js (NilEmpty.string_of_uint d)).
Proof.
  induction d; cbn [NilEmpty.string_of_uint]; rewrite ?js_String;
    constructor; (reflexivity || assumption).
Qed.

Lemma parseInt_uint_acc (d : Decimal.uint) : ∀ acc,
  fold_left (λ acc d, 10 * acc + (d - 48)) (js (NilEmpty.string_of_uint d))
            (N.pos acc)
  = N.pos (Pos.of_uint_acc d acc).
Proof.
  induction d; intros acc; cbn [NilEmpty.string_of_uint Pos.of_uint_acc];
    rewrite ?js_String; cbn [fold_left]; [reflexivity|..];
    rewrite <- IHd; f_equal;
    match goal with
    | |- context [N_of_ascii ?a] =>
        let v := eval vm_compute in (N_of_ascii a) in
        change (N_of_ascii a) with v
    end; lia.
Qed.

Lemma parseInt_uint (d : Decimal.uint) :
  parseInt 10 (js (NilEmpty.string_of_uint d)) = N.of_uint d.
Proof.
  unfold parseInt, N.of_uint.
  induction d; cbn [NilEmpty.string_of_uint Pos.of_uint];
    rewrite ?js_String; cbn [fold_left]; [reflexivity|exact IHd|..];
    apply parseInt_uint_acc.
Qed.

Lemma decimalNumeral_parse (n : N) : parseInt 10 (decimalNumeral n) = n.
Proof.
  unfold decimalNumeral. rewrite parseInt_uint.
  apply DecimalN.Unsigned.of_to.
Qed.

Lemma decimalNumeral_digits (n : N) :
  Forall (λ c, is_digit c = true) (decimalNumeral n).
Proof. apply uint_digits. Qed.

Lemma decimalNumeral_nonempty (n : N) : decimalNumeral n ≠ [].
Proof.
  unfold decimalNumeral. destruct n as [|p]; [discriminate|].
  cbn [N.to_uint]. pose proof (DecimalPos.Unsigned.to_uint_nonnil p) as H.
  destruct (Pos.to_uint p); [contradiction|..];
    cbn [NilEmpty.string_of_uint]; rewrite js_String; discriminate.
Qed.

(** *** Decimal numerals are unique *)

Lemma is_digit_cases (c : N) :
  is_digit c = true →
  c = 48 ∨ c = 49 ∨ c = 50 ∨ c = 51 ∨ c = 52 ∨ c = 53 ∨ c = 54 ∨ c = 55
  ∨ c = 56 ∨ c = 57.
Proof.
  unfold is_digit. intros [H1 H2]%andb_true_iff.
  apply N.leb_le in H1, H2. lia.
Qed.

(** A run of digits is the text of a numeral; the numeral is normal when
    the run does not start with a zero. *)
Lemma digits_uint (ds : jsstring) :
  Forall (λ c, is_digit c = true) ds →
  ∃ u, js (NilEmpty.string_of_uint u) = ds
       ∧ (∀ c r, ds = c :: r → c ≠ 48 → Decimal.unorm u = u).
Proof.
  induction 1 as [|c ds Hc _ (u & Hu & _)].
  - exists Decimal.Nil. split; [reflexivity|]. discriminate.
  - apply is_digit_cases in Hc.
    destruct Hc as [->|[->|[->|[->|[->|[->|[->|[->|[->| ->]]]]]]]]].
    + exists (Decimal.D0 u). split; [by rewrite <- Hu|]. intros c r [= <- _] H. contradiction.
    + exists (Decimal.D1 u). split; [by rewrite <- Hu|]. reflexivity.
    + exists (Decimal.D2 u). split; [by rewrite <- Hu|]. reflexivity.
    + exists (Decimal.D3 u). split; [by rewrite <- Hu|]. reflexivity.
    + exists (Decimal.D4 u). split; [by rewrite <- Hu|]. reflexivity.
    + exists (Decimal.D5 u). split; [by rewrite <- Hu|]. reflexivity.
    + exists (Decimal.D6 u). split; [by rewrite <- Hu|]. reflexivity.
    + exists (Decimal.D7 u). split; [by rewrite <- Hu|]. reflexivity.
    + exists (Decimal.D8 u). split; [by rewrite <- Hu|]. reflexivity.
    + exists (Decimal.D9 u). split; [by rewrite <- Hu|]. reflexivity.
Qed.

(** A run of digits without a leading zero is the numeral of the number
    it denotes. *)
Lemma decimalNumeral_unique (c : N) (r : jsstring) :
  Forall (λ c, is_digit c = true) (c :: r) → c ≠ 48 →
  decimalNumeral (parseInt 10 (c :: r)) = c :: r.
Proof.
  intros Hd Hc. destruct (digits_uint _ Hd) as (u & Hu & Hn).
  rewrite <- Hu at 1. rewrite parseInt_uint. unfold decimalNumeral.
  rewrite DecimalN.Unsigned.to_of, (Hn c r eq_refl Hc). exact Hu.
Qed.

Lemma decimalNumeral_head (p : positive) :
  ∃ c r, decimalNumeral (N.pos p) = c :: r ∧ c ≠ 48.
Proof.
  unfold decimalNumeral. cbn [N.to_uint].
  pose proof (DecimalPos.Unsigned.to_of (Pos.to_uint p)) as H.
  rewrite DecimalPos.Unsigned.of_to in H. cbn [N.to_uint] in H.
  pose proof (DecimalPos.Unsigned.to_uint_nonzero p) as Hz.
  pose proof (DecimalPos.Unsigned.to_uint_nonnil p) as Hnil.
  unfold Decimal.unorm in H.
  destruct (Decimal.nzhead (Pos.to_uint p)) eqn:E;
    try (rewrite H; cbn [NilEmpty.string_of_uint]; rewrite js_String;
         eexists _, _; split; [reflexivity|discriminate]).
  - contradiction.
  - exfalso. exact (DecimalFacts.nzhead_nonzero _ _ E).
Qed.

Lemma parseInt_snoc (ds : jsstring) (c : N) :
  parseInt 10 (ds ++ [c]) = 10 * parseInt 10 ds + (c - 48).
Proof. unfold parseInt. rewrite fold_left_app. reflexivity. Qed.

(** The numeral of [10 * a + d]. *)
Lemma decimalNumeral_snoc (a d : N) :
  0 < a → d < 10 →
  decimalNumeral (10 * a + d) = decimalNumeral a ++ [48 + d].
Proof.
  intros Ha Hd. destruct a as [|p]; [lia|].
  destruct (decimalNumeral_head p) as (c & r & E & Hc).
  assert (decimalNumeral (N.pos p) ++ [48 + d] = c :: (r ++ [48 + d])) as E'
    by (rewrite E; reflexivity).
  rewrite E'. rewrite <- (decimalNumeral_unique c (r ++ [48 + d])).
  - f_equal. rewrite <- E'. rewrite parseInt_snoc, decimalNumeral_parse. lia.
  - rewrite <- E'. apply Forall_app. split; [apply decimalNumeral_digits|].
    constructor; [|constructor]. unfold is_digit.
    apply andb_true_iff. split; [apply N.leb_le|apply N.leb_le]; lia.
  - exact Hc.
Qed.

Lemma decimalNumeral_pow10 (a : N) (j : nat) :
  0 < a →
  decimalNumeral (a * 10 ^ N.of_nat j) = decimalNumeral a ++ replicate j (ch "0").
Proof.
  intros Ha. induction j as [|j IH].
  - cbn [replicate]. rewrite app_nil_r. f_equal. change (N.of_nat 0) with 0. rewrite N.pow_0_r. lia.
  - rewrite Nat2N.inj_succ, N.pow_succ_r'.
    replace (a * (10 * 10 ^ N.of_nat j)) with (10 * (a * 10 ^ N.of_nat j) + 0) by lia.
    assert (0 < 10 ^ N.of_nat j) by (apply N.neq_0_lt_0, N.pow_nonzero; lia).
    rewrite decimalNumeral_snoc by nia.
    rewrite IH. rewrite <- app_assoc. f_equal.
    change [48 + 0] with (replicate 1 (ch "0")).
    rewrite <- replicate_add. f_equal. lia.
Qed.

Lemma decimalNumeral_length (j : nat) : ∀ n,
  n < 10 ^ N.of_nat (S j) → (length (decimalNumeral n) ≤ S j)%nat.
Proof.
  induction j as [|j IH]; intros n Hn.
  - change (10 ^ N.of_nat 1) with 10 in Hn.
    assert (n = 0 ∨ n = 1 ∨ n = 2 ∨ n = 3 ∨ n = 4 ∨ n = 5 ∨ n = 6 ∨ n = 7 ∨ n = 8 ∨ n = 9)
      as H by lia.
    destruct H as [->|[->|[->|[->|[->|[->|[->|[->|[->| ->]]]]]]]]]; vm_compute; lia.
  - destruct (N.lt_ge_cases n 10) as [Hlt|Hge].
    + etransitivity; [apply (IH n)|lia].
      eapply N.lt_le_trans; [exact Hlt|].
      change 10 with (10 ^ 1) at 1. apply N.pow_le_mono_r; lia.
    + rewrite (N.div_mod' n 10).
      rewrite decimalNumeral_snoc.
      * rewrite length_app. cbn [length].
        assert (n / 10 < 10 ^ N.of_nat (S j)).
        { apply N.Div0.div_lt_upper_bound. rewrite <- N.pow_succ_r'.
          rewrite <- Nat2N.inj_succ. exact Hn. }
        specialize (IH (n / 10) H). lia.
      * apply N.div_str_pos. lia.
      * apply N.mod_lt. lia.
Qed.

(** *** Whole numbers in a template literal *)

Section WholeNumberToString.

Local Open Scope Z_scope.

(** The double of the whole number [p] below 2^53: mantissa [C],
    exponent [e]. *)
Variables (p C : positive) (e : Z).
Hypothesis He : -52 <= e <= 0.
Hypothesis HC : Zpos C = Zpos p * 2 ^ (- e).

Lemma rounds_to_whole (s t : Z) :
  0 <= t → rounds_to C e s t = true → 1 <= s ∧ s * 10 ^ t = Zpos p.
Proof.
  intros Ht H. unfold rounds_to, scale_decimal, scale_binary in H.
  rewrite (Z.max_l t 0), (Z.max_l (2 - e) 0), (Z.max_r (- t) 0),
    (Z.max_r (e - 2) 0) in H by lia.
  rewrite Z.pow_0_r, !Z.mul_1_r in H.
  apply andb_true_iff in H as [H1 H2]. apply Z.leb_le in H1.
  split; [exact H1|].
  assert (2 ^ (2 - e) = 4 * 2 ^ (- e)) as HW.
  { replace (2 - e) with (2 + - e) by lia. rewrite Z.pow_add_r by lia. reflexivity. }
  assert (0 < 2 ^ (- e)) as Hpos by (apply Z.pow_pos_nonneg; lia).
  assert (4 * Zpos C - 2 <= s * (10 ^ t * 2 ^ (2 - e)) <= 4 * Zpos C + 2) as Hb.
  { unfold lo4, hi4 in H2.
    destruct (Z.even (Zpos C));
      apply andb_true_iff in H2 as [Ha Hb];
      destruct ((Zpos C =? 2 ^ 52) && (-1074 <? e)); lia. }
  rewrite HW, HC in Hb.
  set (T := s * 10 ^ t). set (W := 2 ^ (- e)) in *.
  replace (s * (10 ^ t * (4 * W))) with (4 * (T * W)) in Hb by (unfold T; ring).
  destruct (Z.lt_trichotomy T (Zpos p)) as [Hlt|[Heq|Hgt]]; [|exact Heq|]; nia.
Qed.

Lemma nearest_multiple_whole (s t : Z) :
  0 <= t → nearest_multiple C e t = Some s → 1 <= s ∧ s * 10 ^ t = Zpos p.
Proof.
  intros Ht. unfold nearest_multiple. cbv zeta.
  destruct (rounds_to C e (_ / _) t) eqn:E1,
    (rounds_to C e (_ / _ + 1) t) eqn:E2; intros [= <-].
  - destruct (_ <? _); [by apply rounds_to_whole|].
    destruct (_ <? _); [by apply rounds_to_whole|].
    destruct (Z.even _); by apply rounds_to_whole.
  - by apply rounds_to_whole.
  - by apply rounds_to_whole.
Qed.

Lemma nearest_multiple_0 : nearest_multiple C e 0 ≠ None.
Proof.
  unfold nearest_multiple. cbv zeta.
  assert (rounds_to C e (4 * Zpos C * scale_binary e 0 / scale_decimal e 0) 0 = true)
    as ->; [|destruct (rounds_to _ _ _ _); discriminate].
  unfold rounds_to, scale_decimal, scale_binary.
  rewrite (Z.max_l 0 0), (Z.max_l (2 - e) 0), (Z.max_r (- 0) 0),
    (Z.max_r (e - 2) 0) by lia.
  rewrite Z.pow_0_r, !Z.mul_1_r, Z.mul_1_l.
  assert (2 ^ (2 - e) = 4 * 2 ^ (- e)) as HW.
  { replace (2 - e) with (2 + - e) by lia. rewrite Z.pow_add_r by lia. reflexivity. }
  assert (0 < 2 ^ (- e)) as Hpos by (apply Z.pow_pos_nonneg; lia).
  assert (4 * Zpos C = Zpos p * 2 ^ (2 - e)) as Hx by (rewrite HW, HC; ring).
  rewrite Hx, Z.div_mul by lia. rewrite <- Hx.
  apply andb_true_iff. split; [apply Z.leb_le; lia|].
  unfold lo4, hi4.
  destruct (Z.even (Zpos C)); apply andb_true_iff;
    destruct ((Zpos C =? 2 ^ 52) && (-1074 <? e));
    split; first [apply Z.leb_le|apply Z.ltb_lt]; lia.
Qed.

Lemma shortest_from_whole (fuel : nat) : ∀ t,
  0 <= t <= Z.of_nat fuel →
  let '(s, t') := shortest_from C e fuel t in
  0 <= t' ∧ 1 <= s ∧ s * 10 ^ t' = Zpos p.
Proof.
  induction fuel as [|fuel IH]; intros t Ht; cbn [shortest_from].
  - assert (t = 0) as -> by lia.
    destruct (nearest_multiple C e 0) as [s|] eqn:E.
    + split; [lia|]. by apply nearest_multiple_whole.
    + by apply nearest_multiple_0 in E.
  - destruct (nearest_multiple C e t) as [s|] eqn:E.
    + split; [lia|]. apply nearest_multiple_whole; [lia|exact E].
    + apply IH. destruct (Z.eq_dec t 0) as [->|]; [|lia].
      by apply nearest_multiple_0 in E.
Qed.

Lemma shortest_decimal_whole :
  let '(s, t) := shortest_decimal C e in
  0 <= t ∧ 1 <= s ∧ s * 10 ^ t = Zpos p.
Proof.
  unfold shortest_decimal. cbv zeta. apply shortest_from_whole. lia.
Qed.

End WholeNumberToString.

Lemma Number_format_whole (p : positive) (s t : Z) :
  (Zpos p < 2 ^ 53)%Z → (0 <= t)%Z → (1 <= s)%Z → (s * 10 ^ t = Zpos p)%Z →
  Number_format s t = decimalNumeral (N.pos p).
Proof.
  intros Hp Ht Hs E.
  assert (N.pos p = Z.to_N s * 10 ^ N.of_nat (Z.to_nat t)) as Ep.
  { apply N2Z.inj. rewrite N2Z.inj_mul, N2Z.inj_pow, Z2N.id by lia.
    rewrite nat_N_Z, Z2Nat.id by lia. cbn [Z.of_N]. lia. }
  pose proof (decimalNumeral_pow10 (Z.to_N s) (Z.to_nat t) ltac:(lia)) as Hd.
  rewrite <- Ep in Hd.
  pose proof (decimalNumeral_length 15 (N.pos p) ltac:(cbn; lia)) as Hl.
  rewrite Hd, length_app, length_replicate in Hl.
  unfold Number_format. cbv zeta.
  set (k := Z.of_nat (length (decimalNumeral (Z.to_N s)))) in *.
  assert ((-5 <=? k + t)%Z && (k + t <=? 21)%Z = true) as ->.
  { apply andb_true_iff. split; apply Z.leb_le; lia. }
  assert ((k <=? k + t)%Z = true) as -> by (apply Z.leb_le; lia).
  rewrite Hd. do 2 f_equal. lia.
Qed.

(** A whole number below 2^53 is printed with its own digits. *)
Lemma Number_toString_whole (n : N) :
  n < 2 ^ 53 → Number_toString (f64_of_N n) = decimalNumeral n.
Proof.
  intros Hn. destruct n as [|p]; [reflexivity|].
  assert (Zpos p < 2 ^ 53)%Z as Hp by lia.
  rewrite (f64_of_N_exact p Hp). cbv zeta.
  pose proof (digits2_pos_le_53 p Hp) as Hd.
  set (d := Zpos (digits2_pos p)) in *.
  destruct (Zdigits2_mul_pow2 p (53 - d) ltac:(lia)) as (C & HC & _).
  rewrite <- HC. cbn [Z.to_pos Number_toString].
  pose proof (shortest_decimal_whole p C (d - 53) ltac:(lia)
                ltac:(rewrite HC; f_equal; f_equal; lia)) as H.
  destruct (shortest_decimal C (d - 53)) as [s t].
  destruct H as (Ht & Hs & E). cbn [app].
  by apply Number_format_whole.
Qed.

Lemma takeWhile_run (cls : N → bool) (ds post : jsstring) :
  Forall (λ c, cls c = true) ds →
  (∀ c, head post = Some c → cls c = false) →
  takeWhile cls (ds ++ post) = ds.
Proof.
  intros Hds Hpost. induction Hds as [|d ds Hd Hds IH]; cbn [app takeWhile].
  - destruct post as [|c post]; [reflexivity|]. cbn.
    by rewrite (Hpost c eq_refl).
  - by rewrite Hd, IH.
Qed.

(** *** The methods of the parser, at a position of the input *)

Lemma drop_lookup_head (input : jsstring) (idx : nat) c post :
  drop idx input = c :: post → input !! idx = Some c.
Proof.
  intros E. rewrite <- (Nat.add_0_r idx), <- lookup_drop, E. reflexivity.
Qed.

Lemma drop_step (input : jsstring) (idx : nat) (X post : jsstring) :
  drop idx input = X ++ post → drop (idx + length X) input = post.
Proof.
  intros E. rewrite <- drop_drop, E. apply drop_app_length.
Qed.

Lemma drop_step1 (input : jsstring) (idx : nat) c (post : jsstring) :
  drop idx input = c :: post → drop (S idx) input = post.
Proof.
  intros E. replace (S idx) with (idx + length [c])%nat by (cbn; lia).
  by apply drop_step.
Qed.

(** A numeral is read as the double of its number. *)
Lemma readNumber_at (input : jsstring) (idx : nat) (n : N) (post : jsstring) :
  drop idx input = decimalNumeral n ++ post →
  (∀ c, head post = Some c → is_digit c = false) →
  readNumber input idx = Ok (f64_of_N n) (idx + length (decimalNumeral n)).
Proof.
  intros E Hpost. unfold readNumber, Number_parseInt. cbv zeta. rewrite E.
  rewrite (takeWhile_run is_digit _ _ (decimalNumeral_digits n) Hpost).
  rewrite decide_False.
  - by rewrite decimalNumeral_parse.
  - intros H%nil_length_inv. by apply decimalNumeral_nonempty in H.
Qed.

Lemma consume_at (input : jsstring) (idx : nat) c (post : jsstring) :
  drop idx input = c :: post → consume input c idx = Ok tt (S idx).
Proof.
  intros E. unfold consume. rewrite (drop_lookup_head _ _ _ _ E).
  by rewrite decide_True.
Qed.

Lemma peek_at (input : jsstring) (idx : nat) c (post : jsstring) :
  drop idx input = c :: post → peek input idx = Some c.
Proof. apply drop_lookup_head. Qed.

(** The four numbers at the start of a cell. *)
Lemma geometry_at {A} (input : jsstring) (idx : nat) (w h x y : N)
    (post : jsstring) (K : number → number → nat → Outcome A) :
  drop idx input = printGeometry w h x y ++ post →
  (∀ c, head post = Some c → is_digit c = false) →
  bind (readNumber input idx) (λ width idx,
  bind (consume input (ch "x") idx) (λ _ idx,
  bind (readNumber input idx) (λ height idx,
  bind (consume input (ch ",") idx) (λ _ idx,
  bind (readNumber input idx) (λ _ idx,
  bind (consume input (ch ",") idx) (λ _ idx,
  bind (readNumber input idx) (λ _ idx, K width height idx)))))))
  = K (f64_of_N w) (f64_of_N h) (idx + length (printGeometry w h x y))%nat.
Proof.
  intros E Hpost. unfold printGeometry in *.
  repeat (rewrite <- app_assoc in E; cbn [app] in E).
  rewrite (readNumber_at _ _ _ _ E) by (intros c [= <-]; reflexivity).
  cbn [bind]. apply drop_step in E.
  rewrite (consume_at _ _ _ _ E). cbn [bind]. apply drop_step1 in E.
  rewrite (readNumber_at _ _ _ _ E) by (intros c [= <-]; reflexivity).
  cbn [bind]. apply drop_step in E.
  rewrite (consume_at _ _ _ _ E). cbn [bind]. apply drop_step1 in E.
  rewrite (readNumber_at _ _ _ _ E) by (intros c [= <-]; reflexivity).
  cbn [bind]. apply drop_step in E.
  rewrite (consume_at _ _ _ _ E). cbn [bind]. apply drop_step1 in E.
  rewrite (readNumber_at _ _ _ _ E) by exact Hpost.
  cbn [bind]. f_equal.
  repeat (rewrite length_app || rewrite length_cons). lia.
Qed.

Lemma printGeometry_head (w h x y : N) :
  ∃ d tl, printGeometry w h x y = d :: tl ∧ is_digit d = true.
Proof.
  unfold printGeometry.
  pose proof (decimalNumeral_nonempty w) as Hne.
  pose proof (decimalNumeral_digits w) as Hd.
  destruct (decimalNumeral w) as [|d tl]; [contradiction|].
  apply Forall_cons in Hd as [Hd _]. cbn [app]. eauto.
Qed.

Lemma printCell_head (c : LayoutCell) :
  ∃ d tl, printCell c = d :: tl ∧ is_digit d = true.
Proof.
  destruct c as [w h x y id|w h x y first rest|w h x y first rest];
    cbn [printCell];
    destruct (printGeometry_head w h x y) as (d & tl & -> & Hd);
    cbn [app]; eauto.
Qed.

(** *** Induction on cells *)

Lemma LayoutCell_induction (P : LayoutCell → Prop) :
  (∀ w h x y id, P (CellPane w h x y id)) →
  (∀ w h x y first rest, P first → Forall P rest →
     P (CellRow w h x y first rest)) →
  (∀ w h x y first rest, P first → Forall P rest →
     P (CellStack w h x y first rest)) →
  ∀ c, P c.
Proof.
  intros Hpane Hrow Hstack.
  fix IH 1. intros [w h x y id|w h x y first rest|w h x y first rest].
  - apply Hpane.
  - apply Hrow; [apply IH|].
    induction rest as [|c rest IHrest]; constructor; [apply IH|exact IHrest].
  - apply Hstack; [apply IH|].
    induction rest as [|c rest IHrest]; constructor; [apply IH|exact IHrest].
Qed.

End LayoutStringFacts.

Section CellParsing.

Import Tmux.

Variable input : jsstring.

Ltac lengths_in H :=
  repeat first [rewrite length_app in H | progress cbn [length] in H].

Ltac lengths :=
  repeat first [rewrite length_app | progress cbn [length]].

Lemma printCell_nonempty (c : LayoutCell) : (1 ≤ length (printCell c))%nat.
Proof.
  destruct (printCell_head c) as (d & tl & -> & _). cbn [length]. lia.
Qed.

Lemma printGeometry_nonempty (w h x y : N) :
  (1 ≤ length (printGeometry w h x y))%nat.
Proof.
  destruct (printGeometry_head w h x y) as (d & tl & -> & _).
  cbn [length]. lia.
Qed.

(** The loop over the children of a bracketed cell: [c] is the next
    child, [cs] are the ones after it. *)
Lemma children_at (close : N) (cs : list LayoutCell) :
  is_digit close = false → close ≠ ch "," →
  Forall (parses_cell input) cs →
  ∀ c acc idx post fuel,
    parses_cell input c →
    drop idx input
    = printCell c ++ flat_map (λ c, ch "," :: printCell c) cs ++ close :: post →
    (length (printCell c ++ flat_map (λ c, ch "," :: printCell c) cs) + 1
     ≤ fuel)%nat →
    parseChildren input fuel close acc idx
    = Ok (acc ++ cellNode c :: map cellNode cs)
         (idx + length (printCell c
                        ++ flat_map (λ c, ch "," :: printCell c) cs))%nat.
Proof.
  intros Hclose Hcomma Hcs.
  induction Hcs as [|c' cs Hc' Hcs IH]; intros c acc idx post fuel Hc E Hf.
  - cbn [flat_map app] in *. rewrite app_nil_r in *.
    destruct fuel as [|f]; [lia|]. cbn [parseChildren].
    destruct (printCell_head c) as (d & tl & Ed & Hd).
    assert (peek input idx = Some d) as Hp.
    { rewrite Ed in E. by apply (peek_at _ _ _ _ E). }
    rewrite Hp. rewrite decide_False by (intros [= ->]; congruence).
    rewrite (Hc idx (close :: post) f E) by
      ((intros c0 [= <-]; assumption) || lia).
    cbn [bind]. apply drop_step in E.
    rewrite (peek_at _ _ _ _ E).
    rewrite decide_False by (intros [= ->]; contradiction).
    pose proof (printCell_nonempty c).
    destruct f as [|f]; [lia|]. cbn [parseChildren].
    rewrite (peek_at _ _ _ _ E). by rewrite decide_True.
  - cbn [flat_map] in E, Hf |- *.
    destruct fuel as [|f]; [lia|]. cbn [parseChildren].
    destruct (printCell_head c) as (d & tl & Ed & Hd).
    assert (peek input idx = Some d) as Hp.
    { rewrite Ed in E. by apply (peek_at _ _ _ _ E). }
    rewrite Hp. rewrite decide_False by (intros [= ->]; congruence).
    lengths_in Hf.
    rewrite (Hc idx _ f E) by ((intros c0 [= <-]; reflexivity) || lia).
    cbn [bind]. apply drop_step in E. cbn [app] in E.
    rewrite (peek_at _ _ _ _ E). rewrite decide_True by reflexivity.
    apply drop_step1 in E. rewrite <- app_assoc in E.
    rewrite (IH c' (acc ++ [cellNode c]) _ post f Hc' E)
      by (lengths; lia).
    cbn [map]. rewrite <- app_assoc. cbn [app]. f_equal.
    lengths. lia.
Qed.

(** [parseCell] reads every cell that tmux writes. *)
Lemma parseCell_print (c : LayoutCell) : parses_cell input c.
Proof.
  induction c as [w h x y id|w h x y first rest IHfirst IHrest
                 |w h x y first rest IHfirst IHrest]
    using LayoutCell_induction;
    intros idx post fuel E Hpost Hf; cbn [printCell] in E, Hf;
    pose proof (printGeometry_nonempty w h x y) as Hg;
    lengths_in Hf;
    (destruct fuel as [|f]; [lia|]); cbn [parseCell];
    rewrite <- app_assoc in E; cbn [app] in E;
    rewrite (geometry_at input idx w h x y _ _ E)
      by (intros c0 [= <-]; reflexivity);
    apply drop_step in E; cbv zeta; rewrite (peek_at _ _ _ _ E).
  - rewrite decide_False by discriminate.
    rewrite decide_False by discriminate.
    rewrite (consume_at _ _ _ _ E). cbn [bind]. apply drop_step1 in E.
    rewrite (readNumber_at _ _ _ _ E Hpost). cbn [bind cellNode printCell].
    f_equal. lengths. lia.
  - rewrite decide_False by discriminate.
    rewrite decide_True by reflexivity.
    rewrite (consume_at _ _ _ _ E). cbn [bind]. apply drop_step1 in E.
    rewrite <- !app_assoc in E. cbn [app] in E.
    rewrite (children_at (ch "}") rest eq_refl ltac:(discriminate) IHrest
               first [] _ post f IHfirst E)
      by (lengths; lia).
    cbn [bind]. rewrite app_assoc in E. apply drop_step in E.
    rewrite (consume_at _ _ _ _ E). cbn [bind app foldChildren lift_fold].
    cbn [cellNode printCell]. f_equal.
    lengths. lia.
  - rewrite decide_True by reflexivity.
    rewrite (consume_at _ _ _ _ E). cbn [bind]. apply drop_step1 in E.
    rewrite <- !app_assoc in E. cbn [app] in E.
    rewrite (children_at (ch "]") rest eq_refl ltac:(discriminate) IHrest
               first [] _ post f IHfirst E)
      by (lengths; lia).
    cbn [bind]. rewrite app_assoc in E. apply drop_step in E.
    rewrite (consume_at _ _ _ _ E). cbn [bind app foldChildren lift_fold].
    cbn [cellNode printCell]. f_equal.
    lengths. lia.
Qed.

End CellParsing.

Section LayoutRoundTrip.

Import Tmux.

Lemma tmuxPanes_fold d (l : list InternalLayoutNode) : ∀ c0,
  tmuxPanes (node (fold_left (foldStep d) l c0))
  = tmuxPanes (node c0) ++ flat_map (λ n, tmuxPanes (node n)) l.
Proof.
  induction l as [|c l IH]; intros c0; cbn [fold_left flat_map].
  - by rewrite app_nil_r.
  - rewrite IH, node_foldStep. cbn [tmuxPanes]. by rewrite <- app_assoc.
Qed.

Lemma cellNode_panes (c : LayoutCell) :
  tmuxPanes (node (cellNode c))
  = (λ id, ch "%" :: Number_toString (f64_of_N id)) <$> cellIds c.
Proof.
  set (f := λ id, ch "%" :: Number_toString (f64_of_N id)).
  assert (∀ rest : list LayoutCell,
            Forall (λ c, tmuxPanes (node (cellNode c)) = f <$> cellIds c) rest →
            flat_map (λ n, tmuxPanes (node n)) (map cellNode rest)
            = f <$> flat_map cellIds rest) as Hrest.
  { induction 1 as [|c' rest Hc' _ IH]; [reflexivity|].
    cbn [map flat_map]. by rewrite Hc', IH, fmap_app. }
  induction c as [w h x y id|w h x y first rest IHfirst IHrest
                 |w h x y first rest IHfirst IHrest]
    using LayoutCell_induction; cbn [cellNode cellIds node];
    [reflexivity|..];
    by rewrite tmuxPanes_fold, IHfirst, Hrest, fmap_app.
Qed.

Lemma cellPanes_ids (c : LayoutCell) :
  cellPanes c = (λ id, ch "%" :: decimalNumeral id) <$> cellIds c.
Proof.
  set (f := λ id, ch "%" :: decimalNumeral id).
  assert (∀ rest : list LayoutCell,
            Forall (λ c, cellPanes c = f <$> cellIds c) rest →
            flat_map cellPanes rest = f <$> flat_map cellIds rest) as Hrest.
  { induction 1 as [|c' rest Hc' _ IH]; [reflexivity|].
    cbn [flat_map]. by rewrite Hc', IH, fmap_app. }
  induction c as [w h x y id|w h x y first rest IHfirst IHrest
                 |w h x y first rest IHfirst IHrest]
    using LayoutCell_induction; cbn [cellPanes cellIds];
    [reflexivity|..];
    by rewrite IHfirst, Hrest, fmap_app.
Qed.

(** Pane numbers below 2^53 are printed as they are written. *)
Lemma cellNode_panes_whole (c : LayoutCell) :
  Forall (λ id, id < 2 ^ 53) (cellIds c) →
  tmuxPanes (node (cellNode c)) = cellPanes c.
Proof.
  intros H. rewrite cellNode_panes, cellPanes_ids.
  induction H as [|id ids Hid _ IH]; [reflexivity|].
  cbn [fmap list_fmap] in *. by rewrite IH, Number_toString_whole.
Qed.

Lemma mapNode_panes (n : TmuxLayoutNode) (mapPane : jsstring → jsstring) :
  collectPaneIds (mapNode n mapPane) = mapPane <$> tmuxPanes n.
Proof.
  induction n as [id|d r a IHa b IHb]; cbn [mapNode collectPaneIds tmuxPanes];
    [reflexivity|].
  by rewrite IHa, IHb, fmap_app.
Qed.

Lemma digits_no (c : N) (n : N) :
  is_digit c = false → c ∉ decimalNumeral n.
Proof.
  intros Hc Hin. pose proof (decimalNumeral_digits n) as Hd.
  rewrite Forall_forall in Hd. specialize (Hd c Hin). congruence.
Qed.

(** A text that starts with a geometry is its own layout: it has no
    checksum in front. *)
Lemma stripChecksum_geometry (w h x y : N) (rest : jsstring) :
  stripChecksum (printGeometry w h x y ++ rest) = printGeometry w h x y ++ rest.
Proof.
  assert (printGeometry w h x y ++ rest
          = (decimalNumeral w ++ ch "x" :: decimalNumeral h)
            ++ ch "," :: (decimalNumeral x ++ ch "," :: decimalNumeral y
                          ++ rest)) as ->.
  { unfold printGeometry. repeat (rewrite <- app_assoc; cbn [app]).
    reflexivity. }
  apply stripChecksum_x_first.
  - rewrite elem_of_app, elem_of_cons. intros [H|[H|H]].
    + by apply (digits_no (ch ",") w).
    + discriminate.
    + by apply (digits_no (ch ",") h).
  - rewrite elem_of_app, elem_of_cons. right. by left.
Qed.

Lemma printCell_geometry (c : LayoutCell) :
  ∃ w h x y rest, printCell c = printGeometry w h x y ++ rest.
Proof. destruct c; cbn [printCell]; eauto 6. Qed.

Lemma printCell_has_x (c : LayoutCell) : ch "x" ∈ printCell c.
Proof.
  destruct (printCell_geometry c) as (w & h & x & y & rest & ->).
  unfold printGeometry. rewrite !elem_of_app, elem_of_cons. left. right.
  by left.
Qed.

Lemma parse_print (c : LayoutCell) :
  parse (printCell c) = Ok (cellNode c) (length (printCell c)).
Proof.
  unfold parse.
  apply (parseCell_print (printCell c) c 0%nat []); [|discriminate|lia].
  by rewrite app_nil_r.
Qed.

(** A bracket that holds no cell. *)
Lemma parse_empty_children (w h x y : N) (open close : N) :
  (open = ch "[" ∧ close = ch "]") ∨ (open = ch "{" ∧ close = ch "}") →
  parse (printGeometry w h x y ++ [open; close]) = Throw EmptyChildren.
Proof.
  intros Hb. unfold parse.
  set (input := printGeometry w h x y ++ [open; close]).
  assert (drop 0%nat input = printGeometry w h x y ++ [open; close]) as E
      by reflexivity.
  cbn [parseCell].
  rewrite (geometry_at input 0%nat w h x y _ _ E)
    by (intros c0 [= <-]; by destruct Hb as [[-> _]|[-> _]]).
  apply drop_step in E. cbv zeta. rewrite (peek_at _ _ _ _ E).
  pose proof (printGeometry_nonempty w h x y) as Hg.
  assert (length input = length (printGeometry w h x y) + 2)%nat as Hlen
      by (unfold input; rewrite length_app; reflexivity).
  destruct (length input) as [|f]; [lia|].
  destruct Hb as [[-> ->]|[-> ->]].
  - rewrite decide_True by reflexivity.
    rewrite (consume_at _ _ _ _ E). cbn [bind]. apply drop_step1 in E.
    cbn [parseChildren]. rewrite (peek_at _ _ _ _ E).
    rewrite decide_True by reflexivity. cbn [bind].
    rewrite (consume_at _ _ _ _ E). reflexivity.
  - rewrite decide_False by discriminate. rewrite decide_True by reflexivity.
    rewrite (consume_at _ _ _ _ E). cbn [bind]. apply drop_step1 in E.
    cbn [parseChildren]. rewrite (peek_at _ _ _ _ E).
    rewrite decide_True by reflexivity. cbn [bind].
    rewrite (consume_at _ _ _ _ E). reflexivity.
Qed.

End LayoutRoundTrip.

(** The pane number 2^53 + 1 is not a double: the parser reads it as
    2^53 and names the pane so. *)
Lemma pane_id_rounds :
  Tmux.parse (printCell (CellPane 80 24 0 0 9007199254740993))
  = Tmux.Ok {| Tmux.width := f64_of_N 80; Tmux.height := f64_of_N 24;
               Tmux.node := Tmux.TPane (js "%9007199254740992") |} 26.
Proof. vm_compute. reflexivity. Qed.

(** X26: the layout parser reads what tmux writes.  For every cell of a
    window layout (a pane [WxH,X,Y,id], cells side by side in braces,
    cells one above the other in brackets, nested to any depth), parsing
    its text gives the cell's size as doubles and the tree in which the
    children are folded from the left, with or without a checksum in
    front.  The panes of the resulting layout are, in the order in which
    they are written, the pane numbers of the text as the parser prints
    the doubles it has read; when the pane numbers are below 2^53, these
    are the panes of the text. *)
Theorem X26_layout_string_round_trip (c : LayoutCell) (checksum : jsstring)
    (mapPane : jsstring → jsstring) :
  Tmux.parse (printCell c) = Tmux.Ok (cellNode c) (length (printCell c))
  ∧ Tmux.parseTmuxLayout (printCell c) mapPane
    = Some (inr (Tmux.mapNode (Tmux.node (cellNode c)) mapPane))
  ∧ (ch "," ∉ checksum → ch "x" ∉ checksum →
     Tmux.parseTmuxLayout (checksum ++ ch "," :: printCell c) mapPane
     = Some (inr (Tmux.mapNode (Tmux.node (cellNode c)) mapPane)))
  ∧ collectPaneIds (Tmux.mapNode (Tmux.node (cellNode c)) mapPane)
    = (λ id, mapPane (ch "%" :: Number_toString (f64_of_N id))) <$> cellIds c
  ∧ (Forall (λ id, id < 2 ^ 53) (cellIds c) →
     collectPaneIds (Tmux.mapNode (Tmux.node (cellNode c)) mapPane)
     = mapPane <$> cellPanes c).
Proof.
  split; [apply parse_print|]. split; [|split; [|split]].
  - unfold Tmux.parseTmuxLayout.
    destruct (printCell_geometry c) as (w & h & x & y & rest & E).
    rewrite E, stripChecksum_geometry, <- E. by rewrite parse_print.
  - intros Hc Hx. unfold Tmux.parseTmuxLayout.
    rewrite stripChecksum_comma_first by (assumption || apply printCell_has_x).
    by rewrite parse_print.
  - rewrite mapNode_panes, cellNode_panes, <- list_fmap_compose. reflexivity.
  - intros H. by rewrite mapNode_panes, cellNode_panes_whole.
Qed.

Lemma X26_witness :
  let c := CellRow 120 30 0 0 (CellPane 60 30 0 0 1)
             [CellStack 59 30 61 0 (CellPane 59 15 61 0 2)
                [CellPane 59 14 61 16 3]] in
  printCell c
  = js "120x30,0,0{60x30,0,0,1,59x30,61,0[59x15,61,0,2,59x14,61,16,3]}"
  ∧ Forall (λ id, id < 2 ^ 53) (cellIds c)
  ∧ (collectPaneIds <$>
       match Tmux.parseTmuxLayout (js "9d2f" ++ ch "," :: printCell c) id with
       | Some (inr L) => Some L
       | _ => None
       end) = Some [js "%1"; js "%2"; js "%3"].
Proof.
  intros c. split; [reflexivity|].
  assert (Forall (λ id, id < 2 ^ 53) (cellIds c)) as Hids
      by (repeat constructor).
  split; [exact Hids|].
  destruct (X26_layout_string_round_trip c (js "9d2f") id)
    as (_ & _ & H & _ & Hp).
  rewrite H.
  - cbn [fmap option_fmap option_map]. rewrite (Hp Hids). reflexivity.
  - apply (bool_decide_unpack _). vm_compute. exact I.
  - apply (bool_decide_unpack _). vm_compute. exact I.
Defined.

(** X27: the layout parser ends on every string, with a layout or with
    an exception; a successful parse has read at least two code units.
    A layout that, after its checksum, is empty or starts with anything
    but a digit gives the exception for a number expected at position 0,
    and a bracket without cells gives the exception for empty
    children. *)
Theorem X27_layout_parser_ends (layout : jsstring)
    (mapPane : jsstring → jsstring) (w h x y : N) :
  Tmux.parseTmuxLayout layout mapPane ≠ None
  ∧ Tmux.within 2 (length (Tmux.stripChecksum layout))
      (Tmux.parse (Tmux.stripChecksum layout))
  ∧ ((∀ c, head (Tmux.stripChecksum layout) = Some c → is_digit c = false) →
     Tmux.parseTmuxLayout layout mapPane
     = Some (inl (Tmux.ExpectedNumber 0)))
  ∧ Tmux.parseTmuxLayout (printGeometry w h x y ++ js "[]") mapPane
    = Some (inl Tmux.EmptyChildren)
  ∧ Tmux.parseTmuxLayout (printGeometry w h x y ++ js "{}") mapPane
    = Some (inl Tmux.EmptyChildren).
Proof.
  pose proof (parse_within (Tmux.stripChecksum layout)) as Hw.
  split; [|split; [exact Hw|split; [|split]]].
  - unfold Tmux.parseTmuxLayout.
    destruct (Tmux.parse (Tmux.stripChecksum layout));
      [discriminate|discriminate|contradiction].
  - intros Hhead. unfold Tmux.parseTmuxLayout, Tmux.parse.
    cbn [Tmux.parseCell]. unfold Tmux.readNumber at 1. cbv zeta.
    rewrite drop_0.
    destruct (Tmux.stripChecksum layout) as [|c s]; [reflexivity|].
    cbn [takeWhile]. by rewrite (Hhead c eq_refl).
  - unfold Tmux.parseTmuxLayout. rewrite stripChecksum_geometry.
    change (js "[]") with [ch "["; ch "]"].
    by rewrite (parse_empty_children w h x y (ch "[") (ch "]"))
      by (by left).
  - unfold Tmux.parseTmuxLayout. rewrite stripChecksum_geometry.
    change (js "{}") with [ch "{"; ch "}"].
    by rewrite (parse_empty_children w h x y (ch "{") (ch "}"))
      by (by right).
Qed.

Lemma X27_witness :
  Tmux.parseTmuxLayout [] id = Some (inl (Tmux.ExpectedNumber 0))
  ∧ Tmux.parseTmuxLayout (js "bogus") id = Some (inl (Tmux.ExpectedNumber 0)).
Proof.
  split.
  - destruct (X27_layout_parser_ends [] id 0 0 0 0) as (_ & _ & H & _).
    apply H. intros c [=].
  - destruct (X27_layout_parser_ends (js "bogus") id 0 0 0 0)
      as (_ & _ & H & _).
    apply H. intros c [= <-]. reflexivity.
Defined.

Section WriterFacts.

Implicit Types (p q : jsstring) (st : State) (e : Event).

(** What a handler does to everything but the writers and the record of
    their calls does not depend on the writers. *)
Lemma writeToPane_core q d st st' :
  withoutWriters st = withoutWriters st' →
  withoutWriters (writeToPane q d st) = withoutWriters (writeToPane q d st').
Proof.
  intros E. unfold writeToPane. cbv zeta.
  assert (paneHistory st = paneHistory st') as Eh
      by exact (f_equal paneHistory E).
  rewrite Eh. destruct (evictOldest _ _ _) as [cs tot]. cbn.
  injection E as E1 E2 E3 E4 E5 E6 E7 E8 E9.
  destruct (decide (q ∈ paneWriters st)), (decide (q ∈ paneWriters st'));
    unfold withoutWriters; cbn; congruence.
Qed.

Lemma foldl_writeToPane_core q ds : ∀ st st',
  withoutWriters st = withoutWriters st' →
  withoutWriters (foldl (λ st chunk, writeToPane q chunk st) st ds)
  = withoutWriters (foldl (λ st chunk, writeToPane q chunk st) st' ds).
Proof.
  induction ds as [|d ds IH]; intros st st' E; [exact E|].
  cbn [foldl]. by apply IH, writeToPane_core.
Qed.

Lemma core_fields st st' :
  withoutWriters st = withoutWriters st' →
  paneHistory st = paneHistory st'
  ∧ tmuxPaneBootstrap st = tmuxPaneBootstrap st'
  ∧ tmuxHydrateStarted st = tmuxHydrateStarted st'
  ∧ tmuxCaptureQueues st = tmuxCaptureQueues st'
  ∧ tmuxCaptureActive st = tmuxCaptureActive st'
  ∧ timers st = timers st' ∧ nextTimer st = nextTimer st'
  ∧ resolved st = resolved st' ∧ ptyWrites st = ptyWrites st'.
Proof. intros E. injection E. intros. by repeat split. Qed.

Lemma flush_core q cap st st' :
  withoutWriters st = withoutWriters st' →
  withoutWriters (flushTmuxBootstrapPane q cap st)
  = withoutWriters (flushTmuxBootstrapPane q cap st').
Proof.
  intros E. pose proof (core_fields st st' E)
    as (E1 & E2 & E3 & E4 & E5 & E6 & E7 & E8 & E9).
  unfold flushTmuxBootstrapPane. rewrite E2.
  destruct (tmuxPaneBootstrap st' !! q) as [b|].
  - assert (withoutWriters
              match flushTimer b with
              | Some t =>
                  clearTimeout t
                    (set_tmuxHydrateStarted
                       (set_tmuxPaneBootstrap st
                          (delete q (tmuxPaneBootstrap st')))
                       (tmuxHydrateStarted
                          (set_tmuxPaneBootstrap st
                             (delete q (tmuxPaneBootstrap st'))) ∖ {[q]}))
              | None =>
                  set_tmuxHydrateStarted
                    (set_tmuxPaneBootstrap st
                       (delete q (tmuxPaneBootstrap st')))
                    (tmuxHydrateStarted
                       (set_tmuxPaneBootstrap st
                          (delete q (tmuxPaneBootstrap st'))) ∖ {[q]})
              end
            = withoutWriters
                match flushTimer b with
                | Some t =>
                    clearTimeout t
                      (set_tmuxHydrateStarted
                         (set_tmuxPaneBootstrap st'
                            (delete q (tmuxPaneBootstrap st')))
                         (tmuxHydrateStarted
                            (set_tmuxPaneBootstrap st'
                               (delete q (tmuxPaneBootstrap st'))) ∖ {[q]}))
                | None =>
                    set_tmuxHydrateStarted
                      (set_tmuxPaneBootstrap st'
                         (delete q (tmuxPaneBootstrap st')))
                      (tmuxHydrateStarted
                         (set_tmuxPaneBootstrap st'
                            (delete q (tmuxPaneBootstrap st'))) ∖ {[q]})
                end) as E0.
    { destruct (flushTimer b); unfold withoutWriters; cbn; congruence. }
    destruct (match cap with
              | Some h => bool_decide (length h ≠ 0%nat)
              | None => false
              end);
      [by apply writeToPane_core|by apply foldl_writeToPane_core].
  - destruct (match cap with
              | Some h => bool_decide (length h ≠ 0%nat)
              | None => false
              end); [by apply writeToPane_core|exact E].
Qed.

Lemma step_core st st' e :
  withoutWriters st = withoutWriters st' →
  withoutWriters (step st e) = withoutWriters (step st' e).
Proof.
  intros E. pose proof (core_fields st st' E)
    as (E1 & E2 & E3 & E4 & E5 & E6 & E7 & E8 & E9).
  destruct e as [q|q data|t|q attempt prefetched socketPath captured];
    cbn [step].
  - unfold mapPaneAllocate, withoutWriters. cbn. congruence.
  - unfold handleTmuxOutput. cbv zeta.
    destruct (decide _); [exact E|]. rewrite E2.
    destruct (tmuxPaneBootstrap st' !! q) as [b|];
      [|by apply writeToPane_core].
    destruct (evictOldest _ _ _) as [cs tot].
    assert (∀ v, withoutWriters (set_tmuxPaneBootstrap st v)
                 = withoutWriters (set_tmuxPaneBootstrap st' v)) as E0.
    { intros v. unfold withoutWriters. cbn. congruence. }
    destruct (_ <=? _); [apply flush_core|]; apply E0.
  - unfold fireTimer. rewrite E6.
    assert (withoutWriters (set_timers st (delete t (timers st')))
            = withoutWriters (set_timers st' (delete t (timers st')))) as E0.
    { unfold withoutWriters. cbn. congruence. }
    destruct (timers st' !! t) as [[q|c next]|]; [by apply flush_core| |exact E].
    unfold captureTimeout. cbn [tmuxCaptureActive set_timers]. rewrite E5.
    destruct (tmuxCaptureActive st' !! c) as [active|]; [|exact E0].
    destruct (decide _); [exact E0|]. cbv zeta.
    unfold runNextTmuxCapture. cbn. rewrite E4.
    destruct (decide _); [unfold withoutWriters; cbn; congruence|].
    destruct (tmuxCaptureQueues st' !! c) as [[|next' queue]|];
      unfold withoutWriters; cbn; congruence.
  - unfold hydrateTmuxPaneHistory. cbv zeta.
    destruct prefetched as [[|x pre]|]; [|by apply flush_core|];
      (destruct (_ && _); [exact E|]);
      (destruct captured as [[|y text]|];
       [destruct (bool_decide _); [exact E|by apply flush_core]
       |by apply flush_core
       |destruct (bool_decide _); [exact E|by apply flush_core]]).
Qed.

Lemma run_core events : ∀ st st',
  withoutWriters st = withoutWriters st' →
  withoutWriters (run st events) = withoutWriters (run st' events).
Proof.
  unfold run. induction events as [|e events IH]; intros st st' E; [exact E|].
  cbn [foldl]. by apply IH, step_core.
Qed.

(** A pane without a writer is handed nothing. *)
Lemma run_no_writer p events : ∀ st,
  p ∉ paneWriters st → deliveredTo p st = [] →
  (p ∉ paneWriters (run st events)) ∧ deliveredTo p (run st events) = [].
Proof.
  unfold run. induction events as [|e events IH]; intros st Hp Hd;
    [by split|].
  cbn [foldl].
  assert ((p ∉ paneWriters (step st e)) ∧ deliveredTo p (step st e) = [])
    as [H1 H2]; [|by apply IH].
  revert st e Hp Hd.
  assert (∀ st e, ((p ∉ paneWriters st) ∧ deliveredTo p st = []) →
            ((p ∉ paneWriters (step st e)) ∧ deliveredTo p (step st e) = []))
    as H; [|by intros; apply H].
  apply (step_writes (λ st, (p ∉ paneWriters st) ∧ deliveredTo p st = [])).
  - intros q d st [Hp Hd].
    destruct (writeToPane_effect q d st) as (Hw & _ & Hc).
    split; [by rewrite Hw|].
    destruct (decide (q ∈ paneWriters st)) as [Hq|Hq].
    + rewrite (deliveredTo_other p q [d] st _ Hc); [assumption|].
      intros ->. contradiction.
    + unfold deliveredTo in *. by rewrite Hc, app_nil_r.
  - intros st st' Ew Eh Ec [Hp Hd]. unfold deliveredTo in *.
    by rewrite Ew, Ec.
Qed.

End WriterFacts.

(** X28: a terminal that mounts late shows the recent output.  The
    history kept for a pane does not depend on which panes have a writer;
    a pane that had no writer during a run of events is handed, when its
    writer registers, exactly the kept history, in order; and that
    history is a final segment of what a writer present from the start
    would have been handed. *)
Theorem X28_late_writer_gets_history (p : jsstring) (ws : gset jsstring)
    (events : list Event) :
  p ∉ ws →
  paneHistory (run (initialState ws) events)
  = paneHistory (run (initialState (ws ∪ {[p]})) events)
  ∧ deliveredTo p (registerWriter p (run (initialState ws) events))
    = historyChunks p (run (initialState ws) events)
  ∧ historyChunks p (run (initialState ws) events)
    `suffix_of` deliveredTo p (run (initialState (ws ∪ {[p]})) events).
Proof.
  intros Hp.
  assert (paneHistory (run (initialState ws) events)
          = paneHistory (run (initialState (ws ∪ {[p]})) events)) as Eh.
  { assert (withoutWriters (initialState ws)
            = withoutWriters (initialState (ws ∪ {[p]}))) as E0
        by reflexivity.
    apply (core_fields _ _ (run_core events _ _ E0)). }
  split; [exact Eh|]. split.
  - destruct (run_no_writer p events (initialState ws) Hp eq_refl) as [_ Hd].
    rewrite (deliveredTo_calls p p
               (historyChunks p (run (initialState ws) events))
               (run (initialState ws) events)
               (registerWriter p (run (initialState ws) events)) eq_refl).
    rewrite Hd. by rewrite decide_True.
  - unfold historyChunks at 1. rewrite Eh.
    fold (historyChunks p (run (initialState (ws ∪ {[p]})) events)).
    assert (∀ evs st,
              p ∈ paneWriters st
              ∧ historyChunks p st `suffix_of` deliveredTo p st
              ∧ last (historyChunks p st) = last (deliveredTo p st) →
              historyChunks p (run st evs)
              `suffix_of` deliveredTo p (run st evs)) as Hrun.
    { unfold run. induction evs as [|e evs IH]; intros st Hst.
      - apply Hst.
      - cbn [foldl]. by apply IH, step_recent. }
    apply Hrun. split; [set_solver|].
    unfold historyChunks, deliveredTo. cbn. rewrite lookup_empty.
    split; reflexivity.
Qed.

Lemma X28_witness :
  let events := [Output (js "p") (js "abc"); Output (js "p") (js "de")] in
  deliveredTo (js "p")
    (registerWriter (js "p") (run (initialState ∅) events))
  = [js "abc"; js "de"].
Proof.
  intros events.
  destruct (X28_late_writer_gets_history (js "p") ∅ events) as (_ & H & _).
  - apply not_elem_of_empty.
  - rewrite H. reflexivity.
Defined.

Section CollectFacts.

Variable dispatchLine : jsstring → jsstring → State → State.

Hypothesis dispatch_frame : ∀ c line st,
  tmuxCaptureActive (dispatchLine c line st) = tmuxCaptureActive st
  ∧ tmuxCaptureQueues (dispatchLine c line st) = tmuxCaptureQueues st
  ∧ resolved (dispatchLine c line st) = resolved st.

(** One line between [%begin] and the end of the reply. *)
Lemma collect_line (c line : jsstring) (st : State) (a : PendingTmuxCapture) :
  tmuxCaptureActive st !! c = Some a → collecting a = true →
  startsWith (js "%begin") line = false →
  startsWith (js "%end") line = false →
  startsWith (js "%error") line = false →
  let st' := handleTmuxControlLine dispatchLine c line st in
  resolved st' = resolved st
  ∧ ∃ a', tmuxCaptureActive st' !! c = Some a'
          ∧ collecting a' = true ∧ resolve a' = resolve a
          ∧ lines a'
            = lines a
              ++ filter (λ l, l ≠ [] ∧ startsWith (js "%") l = false) [line].
Proof.
  intros Ha Hc Hb He Hr. unfold handleTmuxControlLine. cbv zeta.
  destruct (decide (length line = 0%nat)) as [Hz|Hnz].
  { apply nil_length_inv in Hz as ->. split; [reflexivity|].
    exists a. rewrite filter_cons_False by (intros [H _]; by apply H).
    rewrite filter_nil, app_nil_r. by repeat split. }
  assert (line ≠ []) as Hne by (intros ->; by apply Hnz).
  rewrite Ha, Hb, He, Hr, Hc. cbn [orb andb].
  destruct (startsWith (js "%") line) eqn:Hp; cbn [negb].
  - destruct (dispatch_frame c line st) as (E1 & _ & E3).
    split; [exact E3|]. exists a. rewrite E1.
    rewrite filter_cons_False by (intros [_ H]; congruence).
    rewrite filter_nil, app_nil_r. by repeat split.
  - rewrite filter_cons_True by (by split). rewrite filter_nil.
    split; [reflexivity|]. eexists. cbn. rewrite lookup_insert_eq.
    by repeat split.
Qed.

Lemma collect_lines (c : jsstring) (body : list jsstring) : ∀ st a,
  tmuxCaptureActive st !! c = Some a → collecting a = true →
  Forall (λ l, startsWith (js "%begin") l = false
               ∧ startsWith (js "%end") l = false
               ∧ startsWith (js "%error") l = false) body →
  let st' := captureRun dispatchLine c st (ControlLine <$> body) in
  resolved st' = resolved st
  ∧ ∃ a', tmuxCaptureActive st' !! c = Some a'
          ∧ collecting a' = true ∧ resolve a' = resolve a
          ∧ lines a'
            = lines a
              ++ filter (λ l, l ≠ [] ∧ startsWith (js "%") l = false) body.
Proof.
  unfold captureRun.
  induction body as [|line body IH]; intros st a Ha Hc Hbody; cbv zeta.
  { split; [reflexivity|]. exists a. rewrite filter_nil, app_nil_r.
    by repeat split. }
  apply Forall_cons in Hbody as [(Hb & He & Hr) Hbody].
  cbn [fmap list_fmap foldl captureStep].
  destruct (collect_line c line st a Ha Hc Hb He Hr)
    as (Hres & a1 & Ha1 & Hc1 & Hr1 & Hl1).
  destruct (IH _ a1 Ha1 Hc1 Hbody) as (Hres' & a2 & Ha2 & Hc2 & Hr2 & Hl2).
  split; [by rewrite Hres', Hres|].
  exists a2. repeat split; [assumption..|congruence|].
  rewrite Hl2, Hl1, <- app_assoc. f_equal.
  change (line :: body) with ([line] ++ body). by rewrite filter_app.
Qed.

End CollectFacts.

(** X29: what a capture request is resolved with.  When the reply to the
    active request arrives as a line beginning with [%begin], then any
    lines, then a line beginning with [%end] or [%error], the request is
    resolved with the lines in between, joined by line feeds, without the
    empty lines and without the lines that begin with a percent sign
    (these go to the rest of the line handler); nothing else is
    resolved. *)
Theorem X29_capture_collects
    (dispatchLine : jsstring → jsstring → State → State)
    (c : jsstring) (st : State) (a : PendingTmuxCapture)
    (beginLine endLine : jsstring) (body : list jsstring) :
  (∀ c' line st', tmuxCaptureActive (dispatchLine c' line st')
                  = tmuxCaptureActive st'
                  ∧ tmuxCaptureQueues (dispatchLine c' line st')
                    = tmuxCaptureQueues st'
                  ∧ resolved (dispatchLine c' line st') = resolved st') →
  tmuxCaptureActive st !! c = Some a → lines a = [] →
  startsWith (js "%begin") beginLine = true →
  startsWith (js "%end") endLine || startsWith (js "%error") endLine = true →
  Forall (λ l, startsWith (js "%begin") l = false
               ∧ startsWith (js "%end") l = false
               ∧ startsWith (js "%error") l = false) body →
  resolved (captureRun dispatchLine c st
              (ControlLine <$> beginLine :: body ++ [endLine]))
  = resolved st
    ++ [(resolve a,
         join [LF]
           (filter (λ l, l ≠ [] ∧ startsWith (js "%") l = false) body))].
Proof.
  intros Hd Ha Hl Hb He Hbody.
  unfold captureRun. cbn [fmap list_fmap foldl captureStep].
  rewrite fmap_app, foldl_app. cbn [fmap list_fmap foldl captureStep].
  (* the line of [%begin] *)
  assert (beginLine ≠ []) as Hbne by (intros ->; discriminate).
  set (st1 := handleTmuxControlLine dispatchLine c beginLine st).
  assert (resolved st1 = resolved st
          ∧ tmuxCaptureActive st1 !! c = Some (set_collecting a true))
    as [Hr1 Ha1].
  { unfold st1, handleTmuxControlLine.
    rewrite decide_False by (intros H%nil_length_inv; contradiction).
    rewrite Ha, Hb. cbn. by rewrite lookup_insert_eq. }
  (* the lines of the reply *)
  destruct (collect_lines dispatchLine Hd c body st1 (set_collecting a true)
              Ha1 eq_refl Hbody) as (Hr2 & a2 & Ha2 & Hc2 & Hres2 & Hl2).
  unfold captureRun in Hr2, Ha2.
  set (st2 := foldl (captureStep dispatchLine c) st1 (ControlLine <$> body))
    in *.
  cbn [lines set_collecting] in Hl2. rewrite Hl in Hl2. cbn [app] in Hl2.
  (* the line of [%end] *)
  assert (length endLine ≠ 0%nat ∧ startsWith (js "%begin") endLine = false)
    as [Hlen Hnb].
  { apply orb_true_iff in He as [He|He]; apply startsWith_true in He;
      rewrite He; split; (discriminate || reflexivity). }
  rewrite (handle_end_or_error dispatchLine c endLine st2 a2 Hlen Hnb He Ha2).
  match goal with
  | |- resolved (runNextTmuxCapture c ?s) = _ =>
      destruct (runNextTmuxCapture_ids c s) as (-> & _)
  end.
  cbn [resolved callResolve set_resolved]. rewrite Hl2.
  assert (resolved
            (set_tmuxCaptureActive
               match timeoutId a2 with
               | Some t => clearTimeout t st2
               | None => st2
               end
               (delete c
                  (tmuxCaptureActive
                     match timeoutId a2 with
                     | Some t => clearTimeout t st2
                     | None => st2
                     end))) = resolved st2) as ->
      by (by destruct (timeoutId a2)).
  rewrite Hr2, Hr1. cbn [resolve set_collecting] in Hres2. by rewrite Hres2.
Qed.

Lemma X29_witness :
  let c := js "pty-1" in
  let st := captureTmuxPaneInBand c (js "%4") 7 (initialState ∅) in
  resolved
    (captureRun (λ _ _ st, st) c st
       (ControlLine <$>
          js "%begin 1 2 0" :: [js "$ ls"; []; js "%output %4 x"; js "a.txt"]
          ++ [js "%end 1 2 0"]))
  = [(7%nat, js "$ ls" ++ [LF] ++ js "a.txt")].
Proof.
  intros c st.
  apply (X29_capture_collects (λ _ _ st, st) c st
           {| tmuxPaneId := js "%4"; lines := []; collecting := false;
              timeoutId := Some 0%nat; resolve := 7 |}).
  - intros c' line st'. repeat split.
  - reflexivity.
  - reflexivity.
  - reflexivity.
  - reflexivity.
  - repeat (apply Forall_cons; split; [repeat split|]). constructor.
Defined.

Section WindowLineFacts.

Import Tmux Tmux.Re.

(** The pattern of [%window-add] and [%window-close]. *)
Lemma windowIdMatch_line (keyword ds tail : jsstring) :
  ds ≠ [] → Forall (λ c, is_digit c = true) ds →
  tail = []
  ∨ (∃ text, tail = 32 :: text
             ∧ (∀ c, head text = Some c → is_space c = false)
             ∧ forallb dot text = true) →
  windowIdMatch keyword (keyword ++ [32] ++ ch "@" :: ds ++ tail)
  = Some (ch "@" :: ds).
Proof.
  intros Hne Hds Htail. unfold windowIdMatch, lit at 1.
  rewrite startsWith_app, drop_app_length.
  apply (plus_greedy is_space _ [32]);
    [discriminate|by repeat constructor| |].
  { intros c [= <-]. reflexivity. }
  unfold lit. change (js "@") with [ch "@"].
  cbn [startsWith]. rewrite decide_True by reflexivity.
  cbn [length drop].
  apply (plus_greedy is_digit _ ds tail); [assumption..| |].
  { intros c Hc. destruct Htail as [->|(text & -> & _)];
      [discriminate|by injection Hc as <-]. }
  unfold opt_group.
  destruct Htail as [->|(text & -> & Hsp & Hdot)]; [reflexivity|].
  rewrite (plus_greedy is_space _ [32] text (ch "@" :: ds));
    [reflexivity|discriminate|by repeat constructor|assumption|].
  unfold star. rewrite (star_dot_eos (λ _, ch "@" :: ds)). by rewrite Hdot.
Qed.

End WindowLineFacts.

(** X30: the lines [%window-add @<digits>] and [%window-close @<digits>],
    alone or followed by a blank and further text without line
    terminators, are the window-add and the window-close event of the
    window [@<digits>]. *)
Theorem X30_window_lines (ds tail : jsstring) :
  ds ≠ [] → Forall (λ c, is_digit c = true) ds →
  tail = []
  ∨ (∃ text, tail = 32 :: text
             ∧ (∀ c, head text = Some c → is_space c = false)
             ∧ forallb Tmux.Re.dot text = true) →
  Tmux.parseTmuxControlLine (js "%window-add @" ++ ds ++ tail)
  = Tmux.EvWindowAdd (ch "@" :: ds)
  ∧ Tmux.parseTmuxControlLine (js "%window-close @" ++ ds ++ tail)
    = Tmux.EvWindowClose (ch "@" :: ds).
Proof.
  intros Hne Hds Htail. split.
  - change (js "%window-add @" ++ ds ++ tail)
      with (js "%window-add" ++ [32] ++ ch "@" :: ds ++ tail).
    unfold Tmux.parseTmuxControlLine.
    rewrite (windowIdMatch_line (js "%window-add") ds tail Hne Hds Htail).
    reflexivity.
  - change (js "%window-close @" ++ ds ++ tail)
      with (js "%window-close" ++ [32] ++ ch "@" :: ds ++ tail).
    unfold Tmux.parseTmuxControlLine.
    rewrite (windowIdMatch_line (js "%window-close") ds tail Hne Hds Htail).
    reflexivity.
Qed.

Lemma X30_witness :
  Tmux.parseTmuxControlLine (js "%window-add @" ++ js "12" ++ [])
  = Tmux.EvWindowAdd (js "@12")
  ∧ Tmux.parseTmuxControlLine (js "%window-close @" ++ js "3" ++ js " x")
    = Tmux.EvWindowClose (js "@3").
Proof.
  split.
  - apply (X30_window_lines (js "12") []); [discriminate| |by left].
    repeat constructor.
  - apply (X30_window_lines (js "3") (js " x")); [discriminate| |].
    + repeat constructor.
    + right. exists (js "x"). repeat split. intros c [= <-]. reflexivity.
Defined.
